(* ===== verification/_CoqProject ===== *)
-Q . S2P
Prelude.v
Talloc.v
TallocTree.v
StringIO.v
Cache.v
DataStore.v
Encode.v
CText.v
Misc.v
Sync.v
Url.v
Rdf.v
File.v
Treap.v
Map.v
MapText.v
MapBinary.v
Resolver.v
ZipFormat.v
Dates.v
RdfIO.v
ZipSegment.v
ZipVolume.v
ZipArchive.v
ZipReader.v
Image.v
ImageStore.v
Cipher.v
Encrypted.v
Tcp.v
TcpTable.v
TcpDemux.v
Struct.v
Packet.v
Pcap.v
Fields.v
