(* ===== verification/Prelude.v ===== *)
(** * AFF4: a verification of the library's core

    The library (lib/, include/) stores evidence in AFF4 volumes.  A resolver keeps
    statements about objects, named by URNs, in a data store, makes objects of the
    registered classes and hands them out through two caches.  Volumes are ZIP files over
    a file-like backing store; their members are segments.  An image stream is cut into
    bevies, which the workers of a thread pool compress chunk by chunk and store as two
    segments each, the chunks and the index of their offsets.  Everything runs under one
    recursive lock.

    With the library comes the network code of an application
    (applications/pyflag/network/): capture files are read record by record, each frame
    is dissected into the packets of its layers, and the IP packets are given to a table
    of streams that puts the data of TCP connections in order and calls back with it.

    ** Files

    - Prelude: scope, tactics, hint databases; byte lists, machine integers ([u8] to
      [u64], [i8], [i32], [i64]), little-endian integers, lists and arrays.
    - Talloc (lib/talloc.c): blocks, their sizes and contents under reallocation.
    - TallocTree (lib/talloc.c): the tree of blocks, references, destructors, freeing.
    - StringIO (lib/stringio.c): the growable byte stream, every method.
    - Cache (lib/aff4_utils.c): the hash table with a recency list; nodes are in a store
      addressed by identifiers, the two kinds of intrusive lists are lists of these.
    - DataStore (lib/data_store.c): the class [DataStore] as an interface with laws, the
      memory store on three caches as its instance.
    - Encode (lib/encode.c): base64, base32, hexadecimal.
    - CText: what the sources use of the C library's number conversions and string search.
    - Misc (lib/misc.c, lib/error.c): escaping of file names, numbers, error state.
    - Sync (lib/aff4_utils.c, lib/queue.c): the global lock, bounded queues and the thread
      pool as step relations; a worker's wait that runs out and a client that schedules
      after the join are steps like any other.
    - Treap (include/trp.h): the search trees that lib/map.c instantiates.
    - Map (lib/map.c): points, their translation, building and reading a map; the streams a
      map reads from are a parameter.  MapText: the text and inline forms of maps.
      MapBinary: the binary form, and how a map that is closed chooses its form.
    - Url, Rdf (lib/rdf.c): URLs, URNs in normal form, typed values and their four
      conversions, the registry of value classes, the serialiser's output buffer.
    - File (lib/file.c): the interface [FileLike] with laws, POSIX files as its instance.
    - Resolver (lib/resolver.c): statements over any data store with the laws, the
      dispatcher of object types, the read and write caches, which own what is put in them.
    - ZipFormat (include/aff4_zip.h): packed structures, DOS times, and the interface
      [Foreign] of zlib and [mktime].
    - Dates (lib/rdf.c, libreplace/): the text of dates, and [timegm].
    - RdfIO (lib/rdf.c): the handlers that load an RDF document into the resolver, and the
      statements that are written about a URN; libraptor is the interface [Raptor].
    - ZipSegment, ZipVolume (lib/aff4_zip.c): segments and volumes, reading and writing.
    - ZipArchive, ZipReader: what a session of writers leaves on the backing store and
      what any session of readers gets from it.
    - Image, ImageStore (lib/aff4_image.c): splitting into bevies, the workers, reading.
    - Cipher (lib/encrypt.c): keys, their cache, and the password cipher over OpenSSL.
    - Encrypted (lib/encrypt.c): encrypted streams over any cipher and backing stream.
    - Tcp (network/tcp.c): one stream, its queue, the padding of what never came.
    - TcpTable (network/tcp.c): the hash table of streams and the list by last use, the
      handling of a packet, expiry and flushing; callbacks are events with their order.
    - TcpDemux: a table of streams against streams that run alone.
    - Struct (network/struct.c, network.c): the registered formats, packing and unpacking
      of structures on byte streams.
    - Packet (network/packet.c, network.c): the dissectors of the layers, the search for a
      layer, and what the reassembler reads of it.
    - Pcap (network/pcap.c, pypcap.c): the headers of capture files in both byte orders, the
      reader that fills its buffer as it goes, and the way from a file to streams.
    - Fields (network/packet.c): the members of packets, found by name and printed.

    ** Correspondence

    A C function is a definition of the same name; a loop of it is a definition of its
    own named in the doc comment.  A method that changes an object takes the object's
    record and returns the new one.  [None] as a result is undefined behaviour of the C
    code: an access outside a block, a NULL pointer followed, an arithmetic overflow of a
    signed type, or a loop that does not end; error returns are values.  Integers are [Z]
    with the width's wrap-around written out.  Bytes are [Z] from 0 to 255, strings lists
    of them without the NUL unless a function counts it.  Uninitialised memory is a
    parameter ([junk]).

    Components call each other through interfaces: [DataStore] for the resolver,
    [FileLike] for volumes and encrypted streams, [ChunkCipher] for ciphers, [Foreign] for
    zlib and the C library's clock, [Raptor] for the RDF library, [OpenSSL] for AES, random
    bytes and key derivation.  A
    theorem about a client assumes the interface's laws, and instances discharge them: the
    memory store, POSIX files, the password cipher, a codec that stores data unchanged, a
    cipher that shifts bytes and an RDF library for documents of words.

    ** What is shown

    - Round trips: any interleaved session of opening, writing and closing segments gives
      a volume from which any session of readers gets the data of the closed segments; an
      image of given sizes gives back what was written to it, with the limits of its
      reading code; both for volumes whose directory fits the buffer it is sought in; a map
      gives back the pieces it was made of and survives being written as text and in
      binary; an encrypted stream gives back what was written, a master key opens again
      under its passphrase; base64, base32, escaped file names, integers and strings as
      data-store values, statements set and resolved; values as the objects of RDF
      statements; times as calendar dates.
    - Refinement: the byte stream, the file, the data store (a multiset of triples per
      subject and attribute), the resolver's object caches (queues of objects per URN)
      and the treap (a sorted list) implement abstract specifications, for any sequence
      of operations; loading a document adds the statements it describes, however it is
      cut into chunks.
    - Equivalence: the URL parser and the split of a URL into longest runs; a map that
      leaves out predictable points and one that stores them all.
    - Invariants: the cache's two list structures, the global lock's ownership, the
      thread pool's jobs (queued, running or finished, none started twice, in order), URNs in normal form, the heap
      of talloc (a forest, and references that match their handles), the cache of keys,
      the table of streams (its lists, the pairs of directions, the count of packets that
      wait).
    - Captures: a capture file in which the packets of any connections are mixed gives,
      for each TCP stream, the longest part of its data from the start that the packets
      cover; each connection gets what it would get alone; a flush fills what is missing
      with zeros; structures that are packed are unpacked again, and a structure that is
      cut off is an error; frames of every link type lead to the IP packet they carry, and
      its addresses are found by name and printed as they were on the wire.
    - Ownership: freeing a block frees exactly the tree below it; a block with a second
      owner outlives the first; a flush of the resolver frees the objects its caches own;
      the ciphers of a stream share one key.
    - Termination and liveness: iteration over a cache, copying a stream, the workers of a
      pool that is joined (whether they have run every job by then is another matter: they
      have when no wait runs out before a queued job, and need not otherwise), the flush of
      a stream's queue; and the loop of an image whose bevy size is zero, which does not
      end.
    - Errors: where the code departs from what its clients need the theorem states what
      it does, on all inputs of a kind or on a concrete run.

    Where the code reads or writes outside a block on every run (the index of a binary map,
    the stored form of a key) the memory around the block is a parameter ([slack],
    [frame]): the round trips are for memory that is there, and a theorem each says that
    without it the operation is undefined.

    ** Bounds

    Recursion is structural except for loops that follow pointers or positions.  Those
    have fuel computed from the state (the number of nodes of a cache, the bytes left to
    read or parse) and the theorems show that it is enough: they state that a result is
    returned.  The loop of [AFF4Image_write] takes its fuel as an argument: the theorems
    give an amount that is enough, or show that none is.  The removal of a treap is
    defined by well-founded recursion on the size.  [talloc_free] has two steps for each
    chunk, which is enough for a tree no reference leads into.  The padding of a queue has
    two steps for each packet in it.  The iteration over a capture file takes one step for
    each record and one for its end.

    ** Not modelled

    The calls of lib/map.c into the resolver, the earlier implementations lib/image.c and
    lib/zip.c, the other streams and volumes (aff1, ewfvolume, http, dirvol, link, graph),
    the certificate cipher and identities are not part of the library the build scripts
    make, and use an older object interface; lib/map.c and lib/encrypt.c do too, and are
    modelled for their algorithms.  The jobs of an image run one after the other; several
    workers on one volume are not interleaved.  The theorems on freeing blocks are for
    destructors that agree or refuse at once: a child that cannot be freed and moves to
    another parent is in the definitions but not in the theorems.  libraptor, libtdb, uuid and OpenSSL are third-party.
    talloc's pools, which the library never makes, and its string helpers are left out;
    the macros of class.h are the method-call discipline of the C code and have no
    counterpart in a functional model.  What libraptor does between bytes and statements is
    a parameter in both directions; the namespaces it is told about and [RDFValue_clone]
    are left out.  Of [strptime] and [strftime] the conversions of the one format in use
    are modelled.  Of the network code the total size of a stream, the moves of the
    reader in its file and the Python objects are left out, and a Python file is the
    bytes that are left of it, of which [read] gives as many as were asked for.  Python
    and Java bindings, tools and tests are left out. *)
From Stdlib Require Export ZArith Lia Ascii.
From stdpp Require Export base list gmap sets strings.

(** ** Scope, hint databases and tactics of the development *)

Declare Scope aff4_scope.
Delimit Scope aff4_scope with aff4.
Global Open Scope Z_scope.

Create HintDb aff4 discriminated.
Create Rewrite HintDb zlen.

(** ** Machine integers: a C value is a [Z], a conversion is a wrap-around *)

Definition u8 (z : Z) : Z := z mod 256.
Definition u16 (z : Z) : Z := z mod 65536.
Definition u32 (z : Z) : Z := z mod 4294967296.
Definition u64 (z : Z) : Z := z mod 18446744073709551616.
Definition i8 (z : Z) : Z := (z + 128) mod 256 - 128.
Definition i32 (z : Z) : Z := (z + 2147483648) mod 4294967296 - 2147483648.
Definition i64 (z : Z) : Z :=
  (z + 9223372036854775808) mod 18446744073709551616 - 9223372036854775808.

Definition INT_MAX : Z := 2147483647.
Definition LLONG_MAX : Z := 9223372036854775807.
Definition LLONG_MIN : Z := -9223372036854775808.

(** [BUFF_SIZE] of aff4_internal.h, shared by every component. *)
Definition BUFF_SIZE : Z := 40960.

(** The error codes of aff4_errors.h that the modelled code raises. *)
Inductive aff4_error :=
| EZero | EGeneric | EOverflow | EWarning | EUnderflow | EIOError | ENoMemory
| EInvalidParameter | ERuntimeError | EKeyError | EProgrammingError.

#[export] Instance aff4_error_eq_dec : EqDecision aff4_error.
Proof. solve_decision. Defined.

(** The three values of [whence]; any other value is [SEEK_OTHER]. *)
Inductive whence := SEEK_SET | SEEK_CUR | SEEK_END | SEEK_OTHER.

#[export] Instance whence_eq_dec : EqDecision whence.
Proof. solve_decision. Defined.

(** ** Byte buffers, with offsets and lengths in [Z] *)

Definition zlen {A} (l : list A) : Z := Z.of_nat (length l).
Definition ztake {A} (n : Z) (l : list A) : list A := take (Z.to_nat n) l.
Definition zdrop {A} (n : Z) (l : list A) : list A := drop (Z.to_nat n) l.

(** [zread off n l]: the [n] elements from offset [off] on. *)
Definition zread {A} (off n : Z) (l : list A) : list A := ztake n (zdrop off l).

(** [zover off src l]: [src] written over [l] at [off]. *)
Definition zover {A} (off : Z) (src l : list A) : list A :=
  ztake off l ++ src ++ zdrop (off + zlen src) l.

(** [znth l i]: element [i] of a C string, the terminating NUL past its end. *)
Definition znth (l : list Z) (i : Z) : Z :=
  if (i <? 0) then 0 else nth (Z.to_nat i) l 0.

(** [bget m i], [bput m off src]: a C array accessed by index; [None] is an
    access outside of it. *)
Definition bget {A} (m : list A) (i : Z) : option A :=
  if i <? 0 then None else m !! Z.to_nat i.
Definition bput {A} (m : list A) (off : Z) (src : list A) : option (list A) :=
  if (0 <=? off) && (off + zlen src <=? zlen m) then Some (zover off src m)
  else None.

Definition is_byte (b : Z) : Prop := 0 <= b < 256.

#[export] Instance is_byte_dec b : Decision (is_byte b).
Proof. unfold is_byte. apply _. Defined.

Abbreviation bytes_ok := (Forall is_byte).

(** ** Character constants and literals *)

Definition c2z (a : Ascii.ascii) : Z := Z.of_nat (Ascii.nat_of_ascii a).
Arguments c2z a%_char_scope.

Fixpoint lit (s : string) : list Z :=
  match s with
  | EmptyString => []
  | String a s' => c2z a :: lit s'
  end.

(** [strlen] on a buffer: the number of bytes before the first NUL. *)
Fixpoint strlen_nat (l : list Z) : nat :=
  match l with
  | [] => O
  | b :: l' => if b =? 0 then O else S (strlen_nat l')
  end.

(** The C string a buffer holds: its bytes before the first NUL. *)
Definition cstr (l : list Z) : list Z := take (strlen_nat l) l.

(** A NUL-free byte string: what a [char *] that is a C string stands for. *)
Definition cstring (l : list Z) : Prop := Forall (fun b => 1 <= b < 256) l.

#[export] Instance cstring_dec l : Decision (cstring l).
Proof. unfold cstring. apply _. Defined.

(** ** Little-endian encoding of packed struct members *)

Fixpoint le (n : nat) (z : Z) : list Z :=
  match n with
  | O => []
  | S n' => z mod 256 :: le n' (z / 256)
  end.

Fixpoint unle (l : list Z) : Z :=
  match l with
  | [] => 0
  | b :: l' => b + 256 * unle l'
  end.

(** ** Lemmas on machine integers *)

Lemma u8_small z : 0 <= z < 256 -> u8 z = z.
Proof. apply Z.mod_small. Qed.
Lemma u16_small z : 0 <= z < 65536 -> u16 z = z.
Proof. apply Z.mod_small. Qed.
Lemma u32_small z : 0 <= z < 4294967296 -> u32 z = z.
Proof. apply Z.mod_small. Qed.
Lemma u64_small z : 0 <= z < 18446744073709551616 -> u64 z = z.
Proof. apply Z.mod_small. Qed.
Lemma i8_small z : -128 <= z < 128 -> i8 z = z.
Proof. unfold i8. intros. rewrite Z.mod_small; lia. Qed.
Lemma i32_small z : -2147483648 <= z < 2147483648 -> i32 z = z.
Proof. unfold i32. intros. rewrite Z.mod_small; lia. Qed.
Lemma i64_small z :
  -9223372036854775808 <= z < 9223372036854775808 -> i64 z = z.
Proof. unfold i64. intros. rewrite Z.mod_small; lia. Qed.

Lemma i64_u64 z : i64 (u64 z) = i64 z.
Proof. unfold i64, u64. f_equal. by rewrite Zplus_mod_idemp_l. Qed.

Lemma u64_add a b : u64 (u64 a + u64 b) = u64 (a + b).
Proof. unfold u64. by rewrite <- Zplus_mod. Qed.

Lemma u64_range z : 0 <= u64 z < 18446744073709551616.
Proof. unfold u64. apply Z.mod_pos_bound. lia. Qed.
Lemma i32_range z : -2147483648 <= i32 z < 2147483648.
Proof.
  unfold i32. pose proof (Z.mod_pos_bound (z + 2147483648) 4294967296). lia.
Qed.

(** [cint] drops the conversions whose argument is in range. *)
Ltac cint :=
  repeat match goal with
  | |- context [u8 ?z] => rewrite (u8_small z) by lia
  | |- context [u16 ?z] => rewrite (u16_small z) by lia
  | |- context [u32 ?z] => rewrite (u32_small z) by lia
  | |- context [u64 ?z] => rewrite (u64_small z) by lia
  | |- context [i8 ?z] => rewrite (i8_small z) by lia
  | |- context [i32 ?z] => rewrite (i32_small z) by lia
  | |- context [i64 ?z] => rewrite (i64_small z) by lia
  end.

(** [case_bool] splits the first integer test of the goal and keeps what it
    says as a hypothesis [lia] can use. *)
Ltac case_bool :=
  match goal with
  | |- context [?a <? ?b] => destruct (Z.ltb_spec a b)
  | |- context [?a <=? ?b] => destruct (Z.leb_spec a b)
  | |- context [?a >? ?b] => rewrite (Z.gtb_ltb a b); destruct (Z.ltb_spec b a)
  | |- context [?a >=? ?b] => rewrite (Z.geb_leb a b); destruct (Z.leb_spec b a)
  | |- context [?a =? ?b] => destruct (Z.eqb_spec a b)
  end.

Ltac case_bool_in H :=
  match type of H with
  | context [?a <? ?b] => destruct (Z.ltb_spec a b)
  | context [?a <=? ?b] => destruct (Z.leb_spec a b)
  | context [?a >? ?b] => rewrite (Z.gtb_ltb a b) in H; destruct (Z.ltb_spec b a)
  | context [?a >=? ?b] => rewrite (Z.geb_leb a b) in H; destruct (Z.leb_spec b a)
  | context [?a =? ?b] => destruct (Z.eqb_spec a b)
  end.

(** [dlia]: [lia] with division and remainder by constants. *)
Ltac dlia := Z.to_euclidean_division_equations; lia.

(** [mred] runs the option monad's binds whose first argument is known. *)
Ltac mred := cbn [mbind option_bind].

(** ** Lemmas on buffers *)

Lemma zlen_nonneg {A} (l : list A) : 0 <= zlen l.
Proof. unfold zlen. lia. Qed.
#[export] Hint Resolve zlen_nonneg : aff4.

Lemma zlen_nil {A} : zlen (@nil A) = 0.
Proof. reflexivity. Qed.
Lemma zlen_cons {A} (x : A) l : zlen (x :: l) = 1 + zlen l.
Proof. unfold zlen. simpl. lia. Qed.
Lemma zlen_app {A} (l k : list A) : zlen (l ++ k) = zlen l + zlen k.
Proof. unfold zlen. rewrite length_app. lia. Qed.
Lemma zlen_ztake {A} n (l : list A) :
  zlen (ztake n l) = Z.min (Z.max n 0) (zlen l).
Proof. unfold zlen, ztake. rewrite length_take. lia. Qed.
Lemma zlen_zdrop {A} n (l : list A) :
  zlen (zdrop n l) = Z.max 0 (zlen l - Z.max n 0).
Proof. unfold zlen, zdrop. rewrite length_drop. lia. Qed.
Lemma zlen_replicate {A} n (x : A) : zlen (replicate n x) = Z.of_nat n.
Proof. unfold zlen. by rewrite length_replicate. Qed.
Lemma zlen_map {A B} (f : A -> B) l : zlen (map f l) = zlen l.
Proof. unfold zlen. by rewrite length_map. Qed.
Lemma zlen_le n z : zlen (le n z) = Z.of_nat n.
Proof.
  revert z. induction n as [|n IH]; intros z; [reflexivity|].
  simpl le. rewrite zlen_cons, IH. lia.
Qed.

#[export] Hint Rewrite @zlen_nil @zlen_cons @zlen_app @zlen_ztake @zlen_zdrop
  @zlen_replicate @zlen_map zlen_le : zlen.

(** [zlen_lia] solves linear goals on the lengths of buffer expressions. *)
Ltac zlen_facts :=
  repeat match goal with
  | |- context [zlen ?l] =>
      lazymatch goal with
      | _ : 0 <= zlen l |- _ => fail
      | _ => pose proof (zlen_nonneg l)
      end
  | H : context [zlen ?l] |- _ =>
      lazymatch goal with
      | _ : 0 <= zlen l |- _ => fail
      | _ => pose proof (zlen_nonneg l)
      end
  end.
Ltac zlen_nils := repeat match goal with
  | |- context [@zlen ?A []] => change (@zlen A []) with 0
  | H : context [@zlen ?A []] |- _ => change (@zlen A []) with 0 in H
  end.
Ltac zlen_lia := autorewrite with zlen in *; zlen_nils; zlen_facts; lia.

Lemma zlen_zread {A} off n (l : list A) :
  0 <= off -> 0 <= n -> off + n <= zlen l -> zlen (zread off n l) = n.
Proof. intros. unfold zread. zlen_lia. Qed.

Lemma zlen_zover {A} off (src l : list A) :
  0 <= off -> off + zlen src <= zlen l -> zlen (zover off src l) = zlen l.
Proof. intros. unfold zover. zlen_lia. Qed.

(** [wlen]: lengths of buffers after writes inside them. *)
Ltac wlen := repeat first
  [ rewrite zlen_zover by wlen | rewrite zlen_app | rewrite zlen_cons ];
  zlen_nils; zlen_facts; lia.

Lemma ztake_all {A} n (l : list A) : zlen l <= n -> ztake n l = l.
Proof. intros. unfold ztake. apply take_ge. unfold zlen in *. lia. Qed.
Lemma ztake_0 {A} n (l : list A) : n <= 0 -> ztake n l = [].
Proof. intros. unfold ztake. by replace (Z.to_nat n) with O by lia. Qed.
Lemma zdrop_0 {A} n (l : list A) : n <= 0 -> zdrop n l = l.
Proof. intros. unfold zdrop. by replace (Z.to_nat n) with O by lia. Qed.
Lemma zdrop_all {A} n (l : list A) : zlen l <= n -> zdrop n l = [].
Proof. intros. unfold zdrop. apply drop_ge. unfold zlen in *. lia. Qed.
Lemma ztake_zdrop {A} n (l : list A) : ztake n l ++ zdrop n l = l.
Proof. apply take_drop. Qed.

Lemma ztake_app_le {A} n (l k : list A) :
  n <= zlen l -> ztake n (l ++ k) = ztake n l.
Proof. intros. unfold ztake, zlen in *. apply take_app_le. lia. Qed.
Lemma ztake_app_eq {A} n (l k : list A) : n = zlen l -> ztake n (l ++ k) = l.
Proof. intros ->. rewrite ztake_app_le by lia. by apply ztake_all. Qed.
Lemma ztake_app_ge {A} n (l k : list A) :
  zlen l <= n -> ztake n (l ++ k) = l ++ ztake (n - zlen l) k.
Proof.
  intros. unfold ztake, zlen in *. rewrite take_app_ge by lia.
  do 2 f_equal. lia.
Qed.
Lemma zdrop_app_le {A} n (l k : list A) :
  n <= zlen l -> zdrop n (l ++ k) = zdrop n l ++ k.
Proof. intros. unfold zdrop, zlen in *. apply drop_app_le. lia. Qed.
Lemma zdrop_app_ge {A} n (l k : list A) :
  zlen l <= n -> zdrop n (l ++ k) = zdrop (n - zlen l) k.
Proof.
  intros. unfold zdrop, zlen in *. rewrite drop_app_ge by lia. f_equal. lia.
Qed.
Lemma zdrop_app_eq {A} n (l k : list A) : n = zlen l -> zdrop n (l ++ k) = k.
Proof. intros ->. rewrite zdrop_app_ge by lia. by apply zdrop_0; lia. Qed.
Lemma zdrop_zdrop {A} n m (l : list A) :
  0 <= n -> 0 <= m -> zdrop n (zdrop m l) = zdrop (m + n) l.
Proof. intros. unfold zdrop. rewrite drop_drop. f_equal. lia. Qed.
Lemma ztake_ztake {A} n m (l : list A) :
  0 <= n <= m -> ztake n (ztake m l) = ztake n l.
Proof. intros. unfold ztake. rewrite take_take. f_equal. lia. Qed.
Lemma zdrop_ztake {A} n m (l : list A) :
  0 <= n <= m -> zdrop n (ztake m l) = ztake (m - n) (zdrop n l).
Proof.
  intros. unfold ztake, zdrop. rewrite skipn_firstn_comm. f_equal. lia.
Qed.

(** Reading back what was just written. *)
Lemma zread_zover {A} off (src l : list A) :
  0 <= off <= zlen l -> zread off (zlen src) (zover off src l) = src.
Proof.
  intros. unfold zread, zover.
  rewrite zdrop_app_eq by zlen_lia. by apply ztake_app_eq.
Qed.

Lemma zread_app_mid {A} off n (l m k : list A) :
  off = zlen l -> n = zlen m -> zread off n (l ++ m ++ k) = m.
Proof.
  intros -> ->. unfold zread. rewrite zdrop_app_eq by done.
  by apply ztake_app_eq.
Qed.

(** Appending at the end is overwriting at the length. *)
Lemma zover_end {A} off (src l : list A) :
  off = zlen l -> zover off src l = l ++ src.
Proof.
  intros ->. unfold zover. rewrite ztake_all by lia.
  rewrite zdrop_all by (pose proof (zlen_nonneg src); lia). by rewrite app_nil_r.
Qed.

Lemma zover_nil {A} off (l : list A) : zover off [] l = l.
Proof.
  unfold zover. rewrite zlen_nil, Z.add_0_r. simpl. apply ztake_zdrop.
Qed.

(** Two adjacent reads are one read; two adjacent writes are one write. *)
Lemma zread_split {A} off m n (l : list A) :
  0 <= off -> 0 <= m <= n ->
  zread off n l = zread off m l ++ zread (off + m) (n - m) l.
Proof.
  intros. unfold zread.
  rewrite <- (ztake_zdrop m (ztake n (zdrop off l))).
  rewrite ztake_ztake, zdrop_ztake, zdrop_zdrop by lia. done.
Qed.

Lemma zlen_0_nil {A} (l : list A) : zlen l = 0 -> l = [].
Proof. destruct l; [done|]. rewrite zlen_cons. pose proof (zlen_nonneg l). lia. Qed.

(** A read that finds nothing is at the end. *)
Lemma zread_at_end {A} off n m (l : list A) :
  0 < n -> zread off n l = [] -> zread off m l = [].
Proof.
  unfold zread, ztake. intros Hn H. destruct (zdrop off l) eqn:E.
  - by rewrite take_nil.
  - exfalso. destruct (Z.to_nat n) eqn:E'; [lia|done].
Qed.

Lemma zover_zover {A} off (a b l : list A) :
  0 <= off <= zlen l ->
  zover (off + zlen a) b (zover off a l) = zover off (a ++ b) l.
Proof.
  intros. pose proof (zlen_nonneg a). pose proof (zlen_nonneg b).
  unfold zover. rewrite !app_assoc.
  rewrite (ztake_app_eq (off + zlen a) (ztake off l ++ a)) by zlen_lia.
  rewrite zdrop_app_ge by zlen_lia.
  rewrite zdrop_zdrop by zlen_lia. f_equal. f_equal. zlen_lia.
Qed.

Lemma zover_below {A} off (a b l : list A) :
  0 <= off -> off + zlen a + zlen b <= zlen l ->
  zover off a (zover (off + zlen a) b l) = zover off (a ++ b) l.
Proof.
  intros. pose proof (zlen_nonneg a). pose proof (zlen_nonneg b). unfold zover.
  rewrite (ztake_app_le off (ztake (off + zlen a) l)), ztake_ztake by zlen_lia.
  rewrite (zdrop_app_eq (off + zlen a) (ztake (off + zlen a) l)) by zlen_lia.
  rewrite <- (assoc_L (++)), zlen_app, Z.add_assoc. done.
Qed.

(** Overwriting the middle of a list. *)
Lemma zover_mid {A} off (pre x y post : list A) :
  off = zlen pre -> zlen x = zlen y ->
  zover off x (pre ++ y ++ post) = pre ++ x ++ post.
Proof.
  intros -> Hxy. unfold zover. rewrite ztake_app_eq by done.
  rewrite zdrop_app_ge by zlen_lia. rewrite zdrop_app_eq by lia. done.
Qed.

(** A write that covers the end of the previous one. *)
Lemma zover_overlap {A} off k (x y l : list A) :
  0 <= off -> 0 <= k <= zlen x -> zlen x <= k + zlen y -> off + zlen x <= zlen l ->
  zover (off + k) y (zover off x l) = zover off (ztake k x ++ y) l.
Proof.
  intros. unfold zover.
  rewrite (ztake_app_ge (off + k)) by zlen_lia.
  rewrite (ztake_app_le _ x) by zlen_lia.
  rewrite (zdrop_app_ge (off + k + zlen y) (ztake off l)) by zlen_lia.
  rewrite zdrop_app_ge, zdrop_zdrop by zlen_lia.
  rewrite <- !app_assoc. do 2 f_equal; [f_equal; zlen_lia|].
  f_equal. f_equal. zlen_lia.
Qed.

Lemma zover_0 {A} (x l : list A) : zover 0 x l = x ++ zdrop (zlen x) l.
Proof. unfold zover. by rewrite ztake_0 by lia. Qed.

Lemma ztake_zover_prefix {A} (l w k : list A) off r :
  off = zlen l -> 0 <= r <= zlen w ->
  ztake (off + r) (zover off w (l ++ k)) = l ++ ztake r w.
Proof.
  intros -> Hr. unfold zover. rewrite (ztake_app_eq (zlen l)) by done.
  rewrite ztake_app_ge by lia. f_equal. rewrite ztake_app_le by lia.
  f_equal. lia.
Qed.

Lemma Forall_ztake {A} (P : A -> Prop) n l : Forall P l -> Forall P (ztake n l).
Proof. apply Forall_take. Qed.
Lemma Forall_zdrop {A} (P : A -> Prop) n l : Forall P l -> Forall P (zdrop n l).
Proof. apply Forall_drop. Qed.
#[export] Hint Resolve Forall_ztake Forall_zdrop : aff4.

(** Array accesses. *)
Lemma bget_app_r {A} (l k : list A) off j :
  off = zlen l -> 0 <= j -> bget (l ++ k) (off + j) = bget k j.
Proof.
  intros -> Hj. unfold bget, zlen. repeat case_bool; try lia.
  rewrite lookup_app_r by lia. f_equal. lia.
Qed.
Lemma bget_app_l {A} (l k : list A) j :
  j < zlen l -> bget (l ++ k) j = bget l j.
Proof.
  intros Hj. unfold bget, zlen in *. case_bool; [done|].
  apply lookup_app_l. lia.
Qed.
Lemma bput_ok {A} (m : list A) off src :
  0 <= off -> off + zlen src <= zlen m -> bput m off src = Some (zover off src m).
Proof.
  intros. unfold bput. by rewrite !(proj2 (Z.leb_le _ _)) by done.
Qed.
Lemma bput_zlen {A} (m : list A) off src m' : bput m off src = Some m' -> zlen m' = zlen m.
Proof.
  unfold bput. destruct (_ && _) eqn:Hb; [|done]. intros [= <-].
  apply andb_prop in Hb as [?%Z.leb_le ?%Z.leb_le]. rewrite zlen_zover by lia. done.
Qed.

(** Or-ing two numbers without common bits adds them. *)
Lemma lor_shiftl_add a b k :
  0 <= k -> 0 <= b < 2 ^ k -> Z.lor (Z.shiftl a k) b = a * 2 ^ k + b.
Proof.
  intros Hk Hb. rewrite <- Z.shiftl_mul_pow2 by done.
  assert (Z.land (Z.shiftl a k) b = 0) as Hl.
  { apply Z.bits_inj'. intros n Hn. rewrite Z.land_spec, Z.bits_0.
    destruct (Z.ltb_spec n k); [by rewrite Z.shiftl_spec_low|].
    rewrite <- (Z.mod_small b (2 ^ k)) by done.
    rewrite Z.mod_pow2_bits_high by lia. by rewrite andb_false_r. }
  rewrite <- Z.lxor_lor by done. by rewrite Z.add_nocarry_lxor.
Qed.

(** A decidable fact of every number below a bound, by evaluation. *)
Lemma forall_below (P : Z -> bool) n :
  forallb P (map Z.of_nat (seq 0 n)) = true ->
  forall d, 0 <= d < Z.of_nat n -> P d = true.
Proof.
  intros HP d Hd. rewrite forallb_forall in HP. apply HP.
  rewrite <- (Z2Nat.id d) by lia. apply in_map, in_seq. lia.
Qed.

(** Filters that agree on a list's elements. *)
Lemma filter_keep {A} (P : A -> Prop) `{!forall a, Decision (P a)} (l : list A) :
  Forall P l -> filter P l = l.
Proof. induction 1; [done|]. rewrite filter_cons_True by done. congruence. Qed.

Lemma filter_none {A} (P : A -> Prop) `{!forall a, Decision (P a)} (l : list A) :
  Forall (fun a => ~ P a) l -> filter P l = [].
Proof. induction 1; [done|]. by rewrite filter_cons_False. Qed.

Lemma filter_id {A} (P : A -> Prop) `{!forall a, Decision (P a)} (l : list A) :
  (forall x, x ∈ l -> P x) -> filter P l = l.
Proof. intros Hl. by apply filter_keep, list.Forall_forall. Qed.

Lemma filter_iff_in {A} (P Q : A -> Prop)
    `{!forall x, Decision (P x), !forall x, Decision (Q x)} (l : list A) :
  (forall x, x ∈ l -> P x <-> Q x) -> filter P l = filter Q l.
Proof.
  induction l as [|x l IH]; intros HPQ; [done|].
  assert (filter P l = filter Q l) as IHl
    by (apply IH; intros y Hy; apply HPQ; by right).
  pose proof (HPQ x ltac:(left)). destruct (decide (P x)).
  - rewrite (filter_cons_True P), (filter_cons_True Q) by tauto. by rewrite IHl.
  - rewrite (filter_cons_False P), (filter_cons_False Q) by tauto. done.
Qed.

(** ** Lemmas on little-endian encodings *)

Lemma unle_le n z : unle (le n z) = z mod 256 ^ Z.of_nat n.
Proof.
  revert z. induction n as [|n IH]; intros z.
  - simpl. by rewrite Z.mod_1_r.
  - cbn [le unle]. rewrite IH.
    replace (Z.of_nat (S n)) with (1 + Z.of_nat n) by lia.
    rewrite Z.pow_add_r by lia. rewrite Z.pow_1_r.
    rewrite (Z.rem_mul_r z 256); [lia | lia | apply Z.pow_pos_nonneg; lia].
Qed.

Lemma unle_le2 z : unle (le 2 z) = u16 z.
Proof. apply (unle_le 2). Qed.
Lemma unle_le4 z : unle (le 4 z) = u32 z.
Proof. apply (unle_le 4). Qed.
Lemma unle_le8 z : unle (le 8 z) = u64 z.
Proof. apply (unle_le 8). Qed.

Lemma le_bytes_ok n z : bytes_ok (le n z).
Proof.
  revert z. induction n as [|n IH]; intros z; simpl; constructor; auto.
  apply Z.mod_pos_bound. lia.
Qed.

Lemma unle_bound l : bytes_ok l -> 0 <= unle l < 256 ^ zlen l.
Proof.
  induction 1 as [|b l Hb Hl IH]; [simpl; unfold zlen; simpl; lia|].
  rewrite zlen_cons, Z.pow_add_r by (pose proof (zlen_nonneg l); lia).
  unfold is_byte in Hb. cbn [unle]. nia.
Qed.

Lemma le_unle l : bytes_ok l -> le (length l) (unle l) = l.
Proof.
  induction 1 as [|b l Hb Hl IH]; [done|]. unfold is_byte in Hb.
  cbn [length le unle].
  rewrite (Z.mul_comm 256), Z.mod_add, Z.mod_small by lia.
  rewrite Z.div_add, Z.div_small by lia. by rewrite Z.add_0_l, IH.
Qed.

Lemma le_app a b z : le (a + b) z = le a z ++ le b (z / 256 ^ Z.of_nat a).
Proof.
  revert z. induction a as [|a IH]; intros z.
  - change (256 ^ Z.of_nat 0) with 1. by rewrite Z.div_1_r.
  - cbn [Nat.add le app]. rewrite IH. do 2 f_equal. f_equal.
    replace (Z.of_nat (S a)) with (1 + Z.of_nat a) by lia.
    assert (0 < 256 ^ Z.of_nat a) by (apply Z.pow_pos_nonneg; lia).
    rewrite Z.pow_add_r, Z.pow_1_r by lia. rewrite Z.div_div by lia. done.
Qed.

Lemma le_mod n z m : (m = 256 ^ Z.of_nat n) -> le n (z mod m) = le n z.
Proof.
  intros ->. revert z. induction n as [|n IH]; intros z; [done|]. cbn [le].
  replace (Z.of_nat (S n)) with (1 + Z.of_nat n) by lia.
  assert (0 < 256 ^ Z.of_nat n) by (apply Z.pow_pos_nonneg; lia).
  rewrite Z.pow_add_r, Z.pow_1_r by lia. rewrite Z.rem_mul_r by lia. f_equal.
  - rewrite (Z.mul_comm 256), Z.mod_add, Z.mod_mod by lia. done.
  - rewrite (Z.mul_comm 256), Z.div_add by lia.
    rewrite (Z.div_small (z mod 256)) by (apply Z.mod_pos_bound; lia).
    rewrite Z.add_0_l. apply IH.
Qed.

(** ** Lemmas on C strings *)

Lemma strlen_cstring l k : cstring l -> strlen_nat (l ++ 0 :: k) = length l.
Proof.
  induction 1 as [|b l Hb Hl IH]; [done|]. simpl.
  destruct (Z.eqb_spec b 0); [lia | by rewrite IH].
Qed.

Lemma cstr_app_nul l k : cstring l -> cstr (l ++ 0 :: k) = l.
Proof.
  intros. unfold cstr. rewrite strlen_cstring by done. apply take_app_length.
Qed.

Lemma cstr_id l : cstring l -> cstr l = l.
Proof.
  intros H. unfold cstr. apply take_ge.
  induction H as [|b l Hb Hl IH]; [done|]. simpl.
  destruct (Z.eqb_spec b 0); simpl; lia.
Qed.

Lemma cstring_bytes_ok l : cstring l -> bytes_ok l.
Proof.
  intros H. eapply Forall_impl; [exact H|]. unfold is_byte. simpl. lia.
Qed.

Lemma cstring_app l k : cstring (l ++ k) <-> cstring l /\ cstring k.
Proof. apply Forall_app. Qed.

Lemma znth_app_l l k i : 0 <= i < zlen l -> znth (l ++ k) i = znth l i.
Proof.
  intros. unfold znth, zlen in *. destruct (Z.ltb_spec i 0); [done|].
  apply app_nth1. lia.
Qed.

Lemma znth_end l : znth l (zlen l) = 0.
Proof.
  unfold znth, zlen. case_bool; [done|]. apply nth_overflow. lia.
Qed.
