(* ===== verification/Talloc.v ===== *)
(** * Talloc: the memory blocks behind buffers (lib/talloc.c)

    Buffers that the library grows ([StringIO], strings) are talloc chunks.
    What matters to their clients is how many bytes are really there and which
    bytes survive a [talloc_realloc_size]: talloc keeps the block, and only
    records the smaller size, when less than 1k would be gained.  Parent and
    child links of chunks are in TallocTree; [malloc] is assumed to succeed below
    [MAX_TALLOC_SIZE]. *)
From S2P Require Import Prelude.

(** lib/talloc.c: MAX_TALLOC_SIZE *)
Definition MAX_TALLOC_SIZE : Z := 268435456.

(** A chunk: [tc->size], and the payload bytes that were really obtained from
    [malloc] or [realloc]. *)
Record talloc_chunk := { tc_size : Z; tc_mem : list Z }.

Section Memory.

(** The byte at index [i] of memory that [realloc] added: indeterminate. *)
Variable junk : nat -> Z.

(** C [realloc]: keep the common prefix, the rest is indeterminate. *)
Definition realloc_bytes (n : Z) (m : list Z) : list Z :=
  ztake n m ++ map junk (seq (length m) (Z.to_nat n - length m)).

(** [__talloc]: zeroed memory, NULL from [MAX_TALLOC_SIZE] on. *)
Definition talloc_size (size : Z) : option talloc_chunk :=
  if size >=? MAX_TALLOC_SIZE then None
  else Some {| tc_size := size; tc_mem := replicate (Z.to_nat size) 0 |}.

(** [_talloc_realloc]: [None] is the NULL pointer. *)
Definition talloc_realloc (ptr : option talloc_chunk) (size : Z)
  : option talloc_chunk :=
  if size =? 0 then None
  else if size >=? MAX_TALLOC_SIZE then None
  else match ptr with
       | None => talloc_size size
       | Some tc =>
           if (size <? tc_size tc) && (tc_size tc - size <? 1024) then
             Some {| tc_size := size; tc_mem := tc_mem tc |}
           else
             Some {| tc_size := size;
                     tc_mem := realloc_bytes size (tc_mem tc) |}
       end.

End Memory.

(** [memcpy] into a chunk: [None] when a byte outside the block, or through a
    NULL pointer, would be written. *)
Definition mem_write (ptr : option talloc_chunk) (off : Z) (src : list Z)
  : option talloc_chunk :=
  match ptr with
  | None => None
  | Some tc =>
      if (0 <=? off) && (off + zlen src <=? zlen (tc_mem tc))
      then Some {| tc_size := tc_size tc;
                   tc_mem := zover off src (tc_mem tc) |}
      else None
  end.

(** [memcpy] out of a chunk, with the same guard. *)
Definition mem_read (ptr : option talloc_chunk) (off n : Z) : option (list Z) :=
  match ptr with
  | None => None
  | Some tc =>
      if (0 <=? off) && (0 <=? n) && (off + n <=? zlen (tc_mem tc))
      then Some (zread off n (tc_mem tc))
      else None
  end.

(** A chunk really holds at least the bytes talloc says it has. *)
Definition chunk_ok (tc : talloc_chunk) : Prop :=
  0 <= tc_size tc <= zlen (tc_mem tc).

Lemma zlen_realloc_bytes junk n m :
  0 <= n -> zlen (realloc_bytes junk n m) = n.
Proof.
  intros. unfold realloc_bytes. rewrite zlen_app, zlen_ztake, zlen_map.
  unfold zlen at 2. rewrite length_seq. unfold zlen. lia.
Qed.

Lemma realloc_bytes_take junk n m k :
  0 <= k <= n -> k <= zlen m -> ztake k (realloc_bytes junk n m) = ztake k m.
Proof.
  intros. unfold realloc_bytes.
  rewrite ztake_app_le by zlen_lia. apply ztake_ztake. lia.
Qed.

Lemma talloc_size_ok n :
  0 <= n < MAX_TALLOC_SIZE ->
  exists tc, talloc_size n = Some tc /\ chunk_ok tc /\
             zlen (tc_mem tc) = n /\ tc_size tc = n.
Proof.
  intros. unfold talloc_size. rewrite Z.geb_leb.
  destruct (Z.leb_spec MAX_TALLOC_SIZE n); [lia|].
  eexists; split; [done|]. unfold chunk_ok. simpl.
  rewrite zlen_replicate. lia.
Qed.

(** A reallocated chunk has room for the new size and keeps the old bytes. *)
Lemma talloc_realloc_ok junk tc n :
  chunk_ok tc -> 0 < n < MAX_TALLOC_SIZE ->
  exists tc', talloc_realloc junk (Some tc) n = Some tc' /\
    chunk_ok tc' /\ n <= zlen (tc_mem tc') /\
    (forall k, 0 <= k <= n -> k <= zlen (tc_mem tc) ->
       ztake k (tc_mem tc') = ztake k (tc_mem tc)).
Proof.
  intros Hok Hn. unfold talloc_realloc, chunk_ok in *.
  destruct (Z.eqb_spec n 0); [lia|]. rewrite Z.geb_leb.
  destruct (Z.leb_spec MAX_TALLOC_SIZE n); [lia|].
  destruct (Z.ltb_spec n (tc_size tc)), (Z.ltb_spec (tc_size tc - n) 1024);
    simpl; eexists; (split; [reflexivity|]); simpl;
    rewrite ?zlen_realloc_bytes by lia; repeat split; try lia;
    intros; by apply realloc_bytes_take.
Qed.

Lemma mem_write_ok tc off src :
  0 <= off -> off + zlen src <= zlen (tc_mem tc) ->
  mem_write (Some tc) off src =
    Some {| tc_size := tc_size tc; tc_mem := zover off src (tc_mem tc) |}.
Proof.
  intros. unfold mem_write.
  rewrite (proj2 (Z.leb_le 0 off)) by done.
  by rewrite (proj2 (Z.leb_le _ _)) by done.
Qed.

Lemma mem_read_ok tc off n :
  0 <= off -> 0 <= n -> off + n <= zlen (tc_mem tc) ->
  mem_read (Some tc) off n = Some (zread off n (tc_mem tc)).
Proof.
  intros. unfold mem_read. rewrite !(proj2 (Z.leb_le _ _)) by done. done.
Qed.
