(* ===== verification/TallocTree.v ===== *)
(** * TallocTree: who owns which chunk (lib/talloc.c)

    Every talloc chunk hangs below a parent; freeing a chunk frees what hangs below it.  A
    reference is a small chunk of its own, the handle, whose destructor takes it off the
    list of references of the chunk it points to.

    The chunks are a store addressed by numbers, the C pointers; the intrusive lists of
    children and of references are lists of numbers.  The C code keeps the parent only in
    the first child; here every chunk knows its parent.  Two places see the difference: the
    test of [_talloc_steal_internal], which asks for the first child, and the search for a
    new parent of a child that could not be freed, which starts at a chunk that has left its
    list and goes back along [prev] to a sibling, freed or moved by then perhaps
    ([abandoned_parent]).  One more is not modelled: the walk of [talloc_is_parent] through a
    chunk that is being freed, which in C goes the same way.  A chunk that is not in the
    store was freed: using it is [None], the abort of [talloc_chunk_from_ptr].

    Destructors of the library's objects are a parameter that says whether they agree;
    they do not change the tree.  Pools, which the library never makes, are left out. *)
From S2P Require Import Prelude Talloc.

Abbreviation ptr := nat.

(** [DRunning] is the value -1 the field has while a destructor runs. *)
Inductive destructor := DNone | DRunning | DReference | DUser (d : nat).

Record tchunk := {
  tn_parent : option ptr;
  tn_child : list ptr;
  tn_refs : list ptr;
  tn_destructor : destructor;
  tn_name : option (list Z);
  tn_size : Z;
  tn_loop : bool;
  (** [handle->ptr], in the chunks named TALLOC_MAGIC_REFERENCE. *)
  tn_handle : option ptr
}.

Abbreviation chunks := (gmap ptr tchunk).

Record theap := { th_chunks : chunks; th_next : ptr; null_context : option ptr }.

(** NULL is the null context. *)
Definition context_of (h : theap) (c : option ptr) : option ptr :=
  match c with Some c => Some c | None => null_context h end.

Definition with_chunks (h : theap) (g : chunks) : theap :=
  {| th_chunks := g; th_next := th_next h; null_context := null_context h |}.

Definition set_child (l : list ptr) (n : tchunk) : tchunk :=
  {| tn_parent := tn_parent n; tn_child := l; tn_refs := tn_refs n;
     tn_destructor := tn_destructor n; tn_name := tn_name n; tn_size := tn_size n;
     tn_loop := tn_loop n; tn_handle := tn_handle n |}.
Definition set_refs (l : list ptr) (n : tchunk) : tchunk :=
  {| tn_parent := tn_parent n; tn_child := tn_child n; tn_refs := l;
     tn_destructor := tn_destructor n; tn_name := tn_name n; tn_size := tn_size n;
     tn_loop := tn_loop n; tn_handle := tn_handle n |}.
Definition set_parent (p : option ptr) (n : tchunk) : tchunk :=
  {| tn_parent := p; tn_child := tn_child n; tn_refs := tn_refs n;
     tn_destructor := tn_destructor n; tn_name := tn_name n; tn_size := tn_size n;
     tn_loop := tn_loop n; tn_handle := tn_handle n |}.
Definition set_destructor (d : destructor) (n : tchunk) : tchunk :=
  {| tn_parent := tn_parent n; tn_child := tn_child n; tn_refs := tn_refs n;
     tn_destructor := d; tn_name := tn_name n; tn_size := tn_size n;
     tn_loop := tn_loop n; tn_handle := tn_handle n |}.
Definition set_loop (n : tchunk) : tchunk :=
  {| tn_parent := tn_parent n; tn_child := tn_child n; tn_refs := tn_refs n;
     tn_destructor := tn_destructor n; tn_name := tn_name n; tn_size := tn_size n;
     tn_loop := true; tn_handle := tn_handle n |}.

(** ** Allocation and references *)

(** [__talloc] and [_talloc_set_name_const]; the inner [None] is NULL. *)
Definition talloc_named_const (h : theap) (context : option ptr) (size : Z)
    (name : option (list Z)) : option (option ptr * theap) :=
  let context := context_of h context in
  if size >=? MAX_TALLOC_SIZE then Some (None, h)
  else
    let p := th_next h in
    let n := {| tn_parent := context; tn_child := []; tn_refs := []; tn_destructor := DNone;
                tn_name := name; tn_size := size; tn_loop := false; tn_handle := None |} in
    g ← match context with
        | None => Some (th_chunks h)
        | Some c => parent ← th_chunks h !! c;
                    Some (<[c := set_child (p :: tn_child parent) parent]> (th_chunks h))
        end;
    Some (Some p, {| th_chunks := <[p := n]> g; th_next := S p; null_context := null_context h |}).

Definition talloc_set_destructor (h : theap) (p : ptr) (d : destructor) : option theap :=
  n ← th_chunks h !! p;
  Some (with_chunks h (<[p := set_destructor d n]> (th_chunks h))).

(** [sizeof(struct talloc_reference_handle)] *)
Definition HANDLE_SIZE : Z := 32.

Definition talloc_reference (h : theap) (context : option ptr) (p : ptr)
  : option (option ptr * theap) :=
  _ ← th_chunks h !! p;
  '(handle, h) ← talloc_named_const h context HANDLE_SIZE None;
  match handle with
  | None => Some (None, h)
  | Some r =>
      hn ← th_chunks h !! r;
      let g := <[r := {| tn_parent := tn_parent hn; tn_child := tn_child hn; tn_refs := tn_refs hn;
                         tn_destructor := DReference; tn_name := tn_name hn; tn_size := tn_size hn;
                         tn_loop := tn_loop hn; tn_handle := Some p |}]> (th_chunks h) in
      n ← g !! p;
      Some (Some p, with_chunks h (<[p := set_refs (r :: tn_refs n) n]> g))
  end.

(** [_TLIST_REMOVE]. *)
Definition remove_from (p : ptr) (l : list ptr) : list ptr := filter (.≠ p) l.

(** A chunk leaves its parent's list; its parent field stays. *)
Definition detach (g : chunks) (p : ptr) : chunks :=
  match g !! p with
  | Some n =>
      match tn_parent n with
      | Some q => alter (fun m => set_child (remove_from p (tn_child m)) m) q g
      | None => g
      end
  | None => g
  end.

Definition talloc_parent_chunk (g : chunks) (p : ptr) : option (option ptr) :=
  n ← g !! p; Some (tn_parent n).

(** The walk of [talloc_is_parent]; parents are fewer than chunks. *)
Fixpoint is_parent_loop (fuel : nat) (g : chunks) (tc : option ptr) (p : ptr) : option bool :=
  match tc with
  | None => Some false
  | Some c =>
      if decide (c = p) then Some true
      else
        match fuel with
        | O => None
        | S fuel' => n ← g !! c; is_parent_loop fuel' g (tn_parent n) p
        end
  end.

Definition talloc_is_parent (g : chunks) (context : option ptr) (p : ptr) : option bool :=
  is_parent_loop (size g) g context p.

(** [_talloc_steal_internal]. *)
Definition talloc_steal (h : theap) (new_ctx : option ptr) (p : ptr) : option theap :=
  let g := th_chunks h in
  n ← g !! p;
  match context_of h new_ctx with
  | None => Some (with_chunks h (alter (set_parent None) p (detach g p)))
  | Some c =>
      m ← g !! c;
      if decide (p = c) then Some h
      else if decide (tn_parent n = Some c /\ head (tn_child m) = Some p) then Some h
      else
        let g := alter (set_parent (Some c)) p (detach g p) in
        Some (with_chunks h (alter (fun m => set_child (p :: tn_child m) m) c g))
  end.

(** ** Freeing *)

(** The chunk before [p] in a list: its [prev]. *)
Fixpoint before (p : ptr) (l : list ptr) : option ptr :=
  match l with
  | x :: ((y :: _) as l') => if decide (y = p) then Some x else before p l'
  | _ => None
  end.

Definition prev_sibling (g : chunks) (p : ptr) : option ptr :=
  n ← g !! p; q ← tn_parent n; m ← g !! q; before p (tn_child m).

(** [talloc_parent_chunk(ptr)] of a chunk that left its list: the first of a list kept its
    parent, any other one still points to what was before it. *)
Definition abandoned_parent (g : chunks) (p : ptr) (prev : option ptr) : option (option ptr) :=
  talloc_parent_chunk g (default p prev).

Section Free.

(** Whether a destructor agrees to its object being freed. *)
Variable agrees : nat -> ptr -> bool.

(** What the destructor of a chunk does, and whether the chunk may go. *)
Definition run_destructor (g : chunks) (p : ptr) : option (bool * chunks) :=
  n ← g !! p;
  match tn_destructor n with
  | DNone => Some (true, g)
  | DRunning => Some (false, g)
  | DReference =>
      target ← tn_handle n;
      t ← g !! target;
      Some (true, alter (set_destructor DNone) p
                    (<[target := set_refs (remove_from p (tn_refs t)) t]> g))
  | DUser d =>
      if agrees d p then Some (true, alter (set_destructor DNone) p g) else Some (false, g)
  end.

(** [_talloc_free_internal], and its loop over the children. *)
Fixpoint free_internal (fuel : nat) (h : theap) (p : ptr) : option (Z * theap) :=
  match fuel with
  | O => None
  | S fuel =>
      n ← th_chunks h !! p;
      match tn_refs n with
      | r :: _ =>
          is_child ← talloc_is_parent (th_chunks h) (Some r) p;
          '(_, h) ← free_internal fuel h r;
          if (is_child : bool) then free_internal fuel h p else Some (-1, h)
      | [] =>
          if tn_loop n then Some (0, h)
          else
            '(ok, g) ← run_destructor (th_chunks h) p;
            if negb ok then Some (-1, with_chunks h g)
            else
              let prev := prev_sibling g p in
              let g := alter set_loop p (detach g p) in
              h ← free_children fuel (with_chunks h g) p prev;
              Some (0, with_chunks h (delete p (th_chunks h)))
      end
  end
with free_children (fuel : nat) (h : theap) (p : ptr) (prev : option ptr) : option theap :=
  match fuel with
  | O => None
  | S fuel =>
      n ← th_chunks h !! p;
      match tn_child n with
      | [] => Some h
      | c :: _ =>
          cn ← th_chunks h !! c;
          new_parent ← match tn_refs cn with
                       | r :: _ =>
                           q ← talloc_parent_chunk (th_chunks h) r;
                           Some (context_of h q)
                       | [] => Some (null_context h)
                       end;
          '(r, h) ← free_internal fuel h c;
          h ← (if r =? -1 then
                 new_parent ← (if decide (new_parent = null_context h) then
                                 q ← abandoned_parent (th_chunks h) p prev;
                                 Some (match q with Some q => Some q | None => new_parent end)
                               else Some new_parent);
                 talloc_steal h new_parent c
               else Some h);
          free_children fuel h p prev
      end
  end.

(** Two steps for each chunk are enough for a tree without references into it. *)
Definition free_fuel (h : theap) : nat := S (S (2 * size (th_chunks h))).

(** [_talloc_free]: a referenced chunk is not freed. *)
Definition talloc_free (h : theap) (p : ptr) : option (Z * theap) :=
  n ← th_chunks h !! p;
  match tn_refs n with
  | _ :: _ => Some (-1, h)
  | [] => free_internal (free_fuel h) h p
  end.

(** The first reference whose handle hangs below the context. *)
Fixpoint find_ref (g : chunks) (context : option ptr) (refs : list ptr) : option (option ptr) :=
  match refs with
  | [] => Some None
  | r :: refs =>
      q ← talloc_parent_chunk g r;
      if decide (q = context) then Some (Some r) else find_ref g context refs
  end.

Definition talloc_unreference (h : theap) (context : option ptr) (p : ptr)
  : option (Z * theap) :=
  n ← th_chunks h !! p;
  let context := context_of h context in
  r ← find_ref (th_chunks h) context (tn_refs n);
  match r with
  | None => Some (-1, h)
  | Some r => free_internal (free_fuel h) h r
  end.

Definition talloc_unlink (h : theap) (context : option ptr) (p : ptr) : option (Z * theap) :=
  let context := context_of h context in
  '(res, h) ← talloc_unreference h context p;
  if res =? 0 then Some (0, h)
  else
    n ← th_chunks h !! p;
    if decide (tn_parent n <> context) then Some (-1, h)
    else
      match tn_refs n with
      | [] => free_internal (free_fuel h) h p
      | r :: _ =>
          new_parent ← talloc_parent_chunk (th_chunks h) r;
          '(res, h) ← talloc_unreference h new_parent p;
          if negb (res =? 0) then Some (-1, h)
          else h ← talloc_steal h new_parent p; Some (0, h)
      end.

(** [None] inside is NULL. *)
Definition talloc_reparent (h : theap) (old_parent new_parent : option ptr) (p : ptr)
  : option (option ptr * theap) :=
  n ← th_chunks h !! p;
  if decide (old_parent = tn_parent n) then
    h ← talloc_steal h new_parent p; Some (Some p, h)
  else
    r ← find_ref (th_chunks h) old_parent (tn_refs n);
    match r with
    | None => Some (None, h)
    | Some r => h ← talloc_steal h new_parent r; Some (Some p, h)
    end.

End Free.

(** ** Totals *)

(** Both totals mark the chunks they are in; a handle's own size does not count. *)
Fixpoint total_loop (fuel : nat) (weight : tchunk -> Z) (g : chunks) (busy : list ptr) (p : ptr)
  : option Z :=
  match fuel with
  | O => None
  | S fuel =>
      n ← g !! p;
      if tn_loop n || bool_decide (p ∈ busy) then Some 0
      else
        foldl (fun total c => t ← total; t' ← total_loop fuel weight g (p :: busy) c;
                              Some (u64 (t + t')))
          (Some (weight n)) (tn_child n)
  end.

Definition talloc_total (weight : tchunk -> Z) (h : theap) (p : option ptr) : option Z :=
  match context_of h p with
  | None => Some 0
  | Some p => total_loop (S (size (th_chunks h))) weight (th_chunks h) [] p
  end.

Definition talloc_total_size : theap -> option ptr -> option Z :=
  talloc_total (fun n => match tn_handle n with Some _ => 0 | None => tn_size n end).

Definition talloc_total_blocks : theap -> option ptr -> option Z := talloc_total (fun _ => 1).

Definition talloc_reference_count (h : theap) (p : ptr) : option Z :=
  n ← th_chunks h !! p; Some (zlen (tn_refs n)).

(** ** Trees of chunks

    [tree g q p ids]: the chunks below [p], itself included, are [ids], each once, and [p]
    hangs below [q]. *)
Inductive tree (g : chunks) : option ptr -> ptr -> list ptr -> Prop :=
  | tree_node q p n ids :
      g !! p = Some n -> tn_parent n = q -> forest g p (tn_child n) ids -> p ∉ ids ->
      tree g q p (p :: ids)
with forest (g : chunks) : ptr -> list ptr -> list ptr -> Prop :=
  | forest_nil p : forest g p [] []
  | forest_cons p c cs a b :
      tree g (Some p) c a -> forest g p cs b -> a ## b -> forest g p (c :: cs) (a ++ b).

Scheme tree_mut := Minimality for tree Sort Prop
  with forest_mut := Minimality for forest Sort Prop.
Combined Scheme tree_forest_ind from tree_mut, forest_mut.

(** The links of a heap agree with each other: children know their parent, and the list of
    references of a chunk holds exactly the handles that point to it. *)
Record links_ok (g : chunks) : Prop := {
  lk_child q n x : g !! q = Some n -> x ∈ tn_child n ->
    exists m, g !! x = Some m /\ tn_parent m = Some q;
  lk_ref t n r : g !! t = Some n -> r ∈ tn_refs n ->
    exists m, g !! r = Some m /\ tn_destructor m = DReference /\ tn_handle m = Some t;
  lk_handle r m : g !! r = Some m -> tn_destructor m = DReference ->
    exists t n, tn_handle m = Some t /\ g !! t = Some n /\ r ∈ tn_refs n
}.

(** Nothing refers to the chunk, it is not being freed, and its destructor agrees. *)
Definition quiet (agrees : nat -> ptr -> bool) (p : ptr) (n : tchunk) : Prop :=
  tn_refs n = [] /\ tn_loop n = false /\
  match tn_destructor n with
  | DNone | DReference => True
  | DRunning => False
  | DUser d => agrees d p = true
  end.

Definition all_quiet (agrees : nat -> ptr -> bool) (g : chunks) (ids : list ptr) : Prop :=
  forall x n, x ∈ ids -> g !! x = Some n -> quiet agrees x n.

(** A heap without the chunks [A]: they leave the lists of the others too. *)
Definition thin (A : list ptr) (n : tchunk) : tchunk :=
  set_child (filter (.∉ A) (tn_child n)) (set_refs (filter (.∉ A) (tn_refs n)) n).

Definition prune (A : list ptr) (g : chunks) : chunks :=
  thin A <$> filter (fun kn => kn.1 ∉ A) g.

Lemma lookup_prune A g k :
  prune A g !! k = if decide (k ∈ A) then None else thin A <$> g !! k.
Proof.
  unfold prune. rewrite lookup_fmap. case_decide as H.
  - rewrite map_lookup_filter_None_2; [done|]. right. intros x _ Hx. exact (Hx H).
  - destruct (g !! k) as [n|] eqn:E; cbn.
    + by rewrite (map_lookup_filter_Some_2 _ g k n).
    + rewrite map_lookup_filter_None_2; [done | by left].
Qed.

Lemma thin_thin A B n : thin A (thin B n) = thin (B ++ A) n.
Proof.
  assert (H : forall l : list ptr, filter (.∉ A) (filter (.∉ B) l) = filter (.∉ B ++ A) l).
  { intros l. rewrite list_filter_filter. apply list_filter_iff. intros x. set_solver. }
  destruct n. unfold thin, set_child, set_refs. cbn. by rewrite !H.
Qed.

Lemma thin_id A n :
  (forall x, x ∈ tn_child n -> x ∉ A) -> (forall x, x ∈ tn_refs n -> x ∉ A) -> thin A n = n.
Proof. intros. unfold thin. rewrite !filter_id by done. by destruct n. Qed.

Lemma prune_prune A B g : prune A (prune B g) = prune (B ++ A) g.
Proof.
  apply map_eq. intros k. rewrite !lookup_prune.
  destruct (decide (k ∈ A)) as [HA|HA], (decide (k ∈ B)) as [HB|HB]; rewrite ?decide_True by set_solver;
    rewrite ?decide_False by set_solver; try done.
  rewrite <- option_fmap_compose. apply option_fmap_ext. intros n. apply thin_thin.
Qed.

(** *** Trees *)

Lemma tree_dom g :
  (forall q p ids, tree g q p ids -> forall x, x ∈ ids -> is_Some (g !! x)) /\
  (forall p cs ids, forest g p cs ids -> forall x, x ∈ ids -> is_Some (g !! x)).
Proof.
  apply tree_forest_ind.
  - intros q p n ids Hp _ _ IH _ x [->|Hx]%elem_of_cons; [by eexists | by apply IH].
  - intros _ x Hx. set_solver.
  - intros p c cs a b _ IH1 _ IH2 _ x [Hx|Hx]%elem_of_app; auto.
Qed.

Lemma tree_NoDup g :
  (forall q p ids, tree g q p ids -> NoDup ids) /\
  (forall p cs ids, forest g p cs ids -> NoDup ids).
Proof.
  apply tree_forest_ind.
  - intros. by constructor.
  - constructor.
  - intros p c cs a b _ IH1 _ IH2 Hab. apply NoDup_app. set_solver.
Qed.

Lemma tree_root g q p ids : tree g q p ids -> p ∈ ids.
Proof. inversion 1; subst. by left. Qed.

Lemma forest_roots g p cs ids : forest g p cs ids -> forall c, c ∈ cs -> c ∈ ids.
Proof.
  induction 1 as [|p c cs a b Ha Hb IH Hab]; intros x Hx; [set_solver|].
  apply elem_of_cons in Hx as [->|Hx]; [|set_solver]. apply tree_root in Ha. set_solver.
Qed.

Lemma talloc_tree_size g q p ids : tree g q p ids -> (length ids <= size g)%nat.
Proof.
  intros H. pose proof (proj1 (tree_NoDup g) _ _ _ H) as Hnd.
  rewrite <- size_dom, <- (size_list_to_set (C := gset ptr)) by done.
  apply subseteq_size. intros x Hx%elem_of_list_to_set.
  apply elem_of_dom. by eapply (proj1 (tree_dom g)).
Qed.

(** A tree does not change when chunks outside it leave the lists. *)
Lemma tree_congr A g g' :
  (forall q p ids, tree g q p ids -> A ## ids ->
     (forall x, x ∈ ids -> g' !! x = thin A <$> g !! x) -> tree g' q p ids) /\
  (forall p cs ids, forest g p cs ids -> A ## ids ->
     (forall x, x ∈ ids -> g' !! x = thin A <$> g !! x) -> forest g' p cs ids).
Proof.
  apply tree_forest_ind.
  - intros q p n ids Hp Hq Hf IH Hnin HA Hg.
    apply (tree_node _ q p (thin A n)); [|done| |done].
    + rewrite (Hg p) by (by left). by rewrite Hp.
    + assert (E : tn_child (thin A n) = tn_child n).
      { apply filter_id. intros x Hx. apply (forest_roots _ _ _ _ Hf) in Hx. set_solver. }
      rewrite E. apply IH; [set_solver|]. intros x Hx. apply Hg. by right.
  - intros p _ _. constructor.
  - intros p c cs a b _ IH1 _ IH2 Hab HA Hg. constructor; [apply IH1 | apply IH2 | done];
      set_solver.
Qed.

Lemma tree_prune A g q p ids : tree g q p ids -> A ## ids -> tree (prune A g) q p ids.
Proof.
  intros H HA. eapply tree_congr; [done..|]. intros x Hx.
  rewrite lookup_prune, decide_False; [done|]. set_solver.
Qed.

Lemma forest_prune A g p cs ids : forest g p cs ids -> A ## ids -> forest (prune A g) p cs ids.
Proof.
  intros H HA. eapply tree_congr; [done..|]. intros x Hx.
  rewrite lookup_prune, decide_False; [done|]. set_solver.
Qed.

(** *** Quiet chunks *)

Section Quiet.
Variable agrees : nat -> ptr -> bool.

Lemma quiet_thin A p n : quiet agrees p n -> quiet agrees p (thin A n).
Proof. intros (Hr & Hl & Hd). repeat split; cbn; [by rewrite Hr | done | done]. Qed.

Lemma all_quiet_prune A g ids : all_quiet agrees g ids -> all_quiet agrees (prune A g) ids.
Proof.
  intros H x n Hx. rewrite lookup_prune. case_decide; [done|].
  intros (m & Hm & ->)%fmap_Some. by apply quiet_thin, H.
Qed.

Lemma links_ok_prune A g : links_ok g -> all_quiet agrees g A -> links_ok (prune A g).
Proof.
  intros [Hc Hr Hh] HA. split.
  - intros q n x. rewrite lookup_prune. case_decide as Hq; [done|].
    intros (m & Hm & ->)%fmap_Some. cbn. intros [Hx Hin]%list_elem_of_filter.
    destruct (Hc q m x Hm Hin) as (k & Hk & ?). exists (thin A k).
    rewrite lookup_prune, decide_False, Hk by done. done.
  - intros t n r. rewrite lookup_prune. case_decide as Hq; [done|].
    intros (m & Hm & ->)%fmap_Some. cbn. intros [Hx Hin]%list_elem_of_filter.
    destruct (Hr t m r Hm Hin) as (k & Hk & ?). exists (thin A k).
    rewrite lookup_prune, decide_False, Hk by done. done.
  - intros r n. rewrite lookup_prune. case_decide as Hq; [done|].
    intros (m & Hm & ->)%fmap_Some. cbn. intros Hd.
    destruct (Hh r m Hm Hd) as (t & k & Ht & Hk & Hin). exists t, (thin A k).
    assert (t ∉ A).
    { intros HtA. destruct (HA t k HtA Hk) as (E & _). rewrite E in Hin. set_solver. }
    rewrite lookup_prune, decide_False, Hk by done. cbn.
    repeat split; [done|]. by apply list_elem_of_filter.
Qed.

Lemma remove_from_id p l : p ∉ l -> remove_from p l = l.
Proof. intros H. apply filter_id. by intros x Hx ->. Qed.

Lemma remove_from_thin p l : remove_from p l = filter (.∉ [p]) l.
Proof. apply list_filter_iff. intros x. set_solver. Qed.

Lemma run_destructor_quiet g p n :
  links_ok g -> g !! p = Some n -> quiet agrees p n ->
  exists g', run_destructor agrees g p = Some (true, g') /\
    (forall k, k <> p -> g' !! k = (fun m => set_refs (remove_from p (tn_refs m)) m) <$> g !! k) /\
    g' !! p = Some (set_destructor DNone n).
Proof.
  intros L Hp (Hr & Hl & Hd).
  assert (Hno : (tn_destructor n = DReference -> False) -> forall k,
            g !! k = (fun m => set_refs (remove_from p (tn_refs m)) m) <$> g !! k).
  { intros HD k. destruct (g !! k) as [m|] eqn:Hk; [|done]. cbn. f_equal.
    rewrite remove_from_id; [by destruct m|]. intros Hin.
    destruct (lk_ref _ L _ _ _ Hk Hin) as (n' & Hp' & ? & _). by simplify_eq. }
  unfold run_destructor. rewrite Hp. cbn [mbind option_bind].
  destruct (tn_destructor n) as [| | |d] eqn:D; [|done| |].
  - exists g. split; [done|]. split; [intros; by apply Hno|]. rewrite Hp. f_equal.
    destruct n; cbn in *; by subst.
  - destruct (lk_handle _ L _ _ Hp D) as (t & m & Ht & Hm & Hin).
    assert (t <> p) as Htp. { intros ->. simplify_eq. rewrite Hr in Hin. set_solver. }
    rewrite Ht. cbn [mbind option_bind]. rewrite Hm. cbn [mbind option_bind].
    eexists. split; [done|]. split.
    + intros k Hk. rewrite lookup_alter_ne by done. destruct (decide (k = t)) as [->|Hkt].
      * by rewrite lookup_insert_eq, Hm.
      * rewrite lookup_insert_ne by done. destruct (g !! k) as [m'|] eqn:Hk'; [|done]. cbn. f_equal.
        rewrite remove_from_id; [by destruct m'|]. intros Hin'.
        destruct (lk_ref _ L _ _ _ Hk' Hin') as (n' & ? & _ & ?). simplify_eq.
    + by rewrite lookup_alter_eq, lookup_insert_ne, Hp by done.
  - rewrite Hd. eexists. split; [done|]. split.
    + intros k Hk. rewrite lookup_alter_ne by done. by apply Hno.
    + by rewrite lookup_alter_eq, Hp.
Qed.

Lemma lookup_detach g p n k :
  g !! p = Some n ->
  detach g p !! k =
    (fun m => if decide (tn_parent n = Some k) then set_child (remove_from p (tn_child m)) m else m)
      <$> g !! k.
Proof.
  intros Hp. unfold detach. rewrite Hp. destruct (tn_parent n) as [q|].
  - destruct (decide (q = k)) as [->|Hq].
    + rewrite lookup_alter_eq. destruct (g !! k); [|done]. cbn. by rewrite decide_True.
    + rewrite lookup_alter_ne by done. destruct (g !! k); [|done]. cbn.
      by rewrite decide_False by congruence.
  - destruct (g !! k); [|done]. cbn. by rewrite decide_False.
Qed.

(** The chunk just before its children are freed: the destructor has run, and the parent
    and the chunk referred to have forgotten it. *)
Lemma begin_free g p n :
  links_ok g -> g !! p = Some n -> quiet agrees p n -> p ∉ tn_child n ->
  exists g', run_destructor agrees g p = Some (true, g') /\
    let g1 := alter set_loop p (detach g' p) in
    (forall k, k <> p -> g1 !! k = thin [p] <$> g !! k) /\
    (exists n1, g1 !! p = Some n1 /\ tn_child n1 = tn_child n /\ tn_refs n1 = [] /\
       tn_destructor n1 = DNone) /\
    links_ok g1.
Proof.
  intros L Hp Hq Hnc. destruct (run_destructor_quiet _ _ _ L Hp Hq) as (g' & Hrun & Hk & Hp').
  exists g'. split; [done|]. cbn zeta. set (g1 := alter set_loop p (detach g' p)).
  assert (H1 : forall k, k <> p -> g1 !! k = thin [p] <$> g !! k).
  { intros k Hkp. unfold g1. rewrite lookup_alter_ne by done. rewrite (lookup_detach _ _ _ _ Hp').
    rewrite Hk by done. destruct (g !! k) as [m|] eqn:Hm; [|done]. cbn. f_equal.
    unfold thin. rewrite <- !remove_from_thin. case_decide as Hpar; [by destruct m|].
    rewrite (remove_from_id p (tn_child m)); [by destruct m|]. intros Hin.
    destruct (lk_child _ L _ _ _ Hm Hin) as (n' & ? & ?). simplify_eq. }
  assert (H2 : exists n1, g1 !! p = Some n1 /\ tn_child n1 = tn_child n /\ tn_refs n1 = [] /\
                 tn_destructor n1 = DNone).
  { unfold g1. rewrite lookup_alter_eq, (lookup_detach _ _ _ _ Hp'), Hp'. cbn.
    eexists. split; [done|]. destruct Hq as (Hr & _). case_decide; cbn; [|done].
    split_and!; [by apply (remove_from_id p) | done..]. }
  split; [done|]. split; [done|]. destruct H2 as (n1 & Hp1 & Hc1 & Hr1 & Hd1).
  destruct L as [Lc Lr Lh]. destruct Hq as (Hr & _).
  assert (Hsub : forall k m1, g1 !! k = Some m1 -> exists m, g !! k = Some m /\
            (forall x, x ∈ tn_child m1 -> x ∈ tn_child m /\ x <> p) /\
            (forall x, x ∈ tn_refs m1 -> x ∈ tn_refs m /\ x <> p) /\
            (forall x, x ∈ tn_refs m -> x <> p -> x ∈ tn_refs m1) /\
            (k <> p -> tn_destructor m1 = tn_destructor m /\ tn_handle m1 = tn_handle m /\
                      tn_parent m1 = tn_parent m)).
  { intros k m1 Hk1. destruct (decide (k = p)) as [->|Hkp].
    - exists n. simplify_eq. rewrite Hc1, Hr1, Hr.
      split_and!; [done| | by intros ? ?%elem_of_nil | done | done]. intros x Hx. set_solver.
    - rewrite H1 in Hk1 by done. apply fmap_Some in Hk1 as (m & Hm & ->). exists m. cbn.
      split_and!; [done| | | |done]; intros x; rewrite list_elem_of_filter; set_solver. }
  assert (Hup : forall k m, g !! k = Some m -> k <> p -> exists m1, g1 !! k = Some m1 /\
            tn_destructor m1 = tn_destructor m /\ tn_handle m1 = tn_handle m /\
            tn_parent m1 = tn_parent m).
  { intros k m Hm Hkp. exists (thin [p] m). rewrite H1, Hm by done. done. }
  split.
  - intros q m1 x Hq1 Hx. destruct (Hsub _ _ Hq1) as (m & Hm & Hc & _).
    destruct (Hc x Hx) as [Hx' Hxp]. destruct (Lc _ _ _ Hm Hx') as (k & Hk' & ?).
    destruct (Hup _ _ Hk' Hxp) as (k1 & ? & _ & _ & ?). exists k1. split; [done|congruence].
  - intros t m1 r Ht1 Hin. destruct (Hsub _ _ Ht1) as (m & Hm & _ & Hc & _).
    destruct (Hc r Hin) as [Hx' Hxp]. destruct (Lr _ _ _ Hm Hx') as (k & Hk' & ? & ?).
    destruct (Hup _ _ Hk' Hxp) as (k1 & ? & ? & ? & _). exists k1. split_and!; [done|congruence..].
  - intros r m1 Hr1' Hd. destruct (Hsub _ _ Hr1') as (m & Hm & _ & _ & _ & He).
    destruct (decide (r = p)) as [->|Hrp]; [simplify_eq; congruence|].
    destruct (He Hrp) as (Ed & Eh & _). rewrite Ed in Hd. rewrite Eh.
    destruct (Lh _ _ Hm Hd) as (t & k & Ht & Hk' & Hin). exists t.
    assert (t <> p). { intros ->. simplify_eq. rewrite Hr in Hin. set_solver. }
    exists (thin [p] k). rewrite H1, Hk' by done. split_and!; [done|done|].
    cbn. apply list_elem_of_filter. set_solver.
Qed.

(** Freeing a tree of quiet chunks takes two steps for each of them, and removes them. *)
Lemma free_tree_loop fuel :
  (forall h q p ids,
     links_ok (th_chunks h) -> tree (th_chunks h) q p ids ->
     all_quiet agrees (th_chunks h) ids -> (2 * length ids <= fuel)%nat ->
     free_internal agrees fuel h p = Some (0, with_chunks h (prune ids (th_chunks h)))) /\
  (forall h p prev n ids,
     links_ok (th_chunks h) -> th_chunks h !! p = Some n ->
     forest (th_chunks h) p (tn_child n) ids -> p ∉ ids ->
     all_quiet agrees (th_chunks h) ids -> (2 * length ids < fuel)%nat ->
     free_children agrees fuel h p prev = Some (with_chunks h (prune ids (th_chunks h)))).
Proof.
  induction fuel as [|fuel [IH1 IH2]]; split.
  - intros h q p ids _ Ht _ Hf. inversion Ht; subst. cbn in Hf. lia.
  - intros. lia.
  - intros h q p ids L Ht Hq Hf. inversion Ht as [? ? n ids' Hp Hpar Hfor Hnin]; subst.
    assert (Hnc : p ∉ tn_child n). { intros Hin. by apply (forest_roots _ _ _ _ Hfor) in Hin. }
    pose proof (Hq p n ltac:(by left) Hp) as Hqp.
    destruct (begin_free _ _ _ L Hp Hqp Hnc) as (g' & Hrun & H1 & (n1 & Hp1 & Hc1 & _) & L1).
    destruct Hqp as (Hr & Hl & _).
    cbn [free_internal]. rewrite Hp. cbn [mbind option_bind]. rewrite Hr, Hl, Hrun.
    cbn [mbind option_bind negb].
    set (h1 := with_chunks (with_chunks h g') (alter set_loop p (detach g' p))).
    assert (Hx : forall x, x ∈ ids' -> th_chunks h1 !! x = thin [p] <$> th_chunks h !! x).
    { intros x Hx. apply H1. by intros ->. }
    rewrite (IH2 _ p _ n1 ids'); [|done|done| |done| |cbn in Hf; lia].
    + cbn [mbind option_bind]. do 2 f_equal. unfold with_chunks. cbn. f_equal. apply map_eq. intros k.
      rewrite lookup_prune. destruct (decide (k = p)) as [->|Hk].
      * rewrite lookup_delete_eq. rewrite decide_True by (by left). done.
      * rewrite lookup_delete_ne, lookup_prune, H1 by done. case_decide; case_decide; [set_solver..|].
        rewrite <- option_fmap_compose. apply option_fmap_ext. intros m. apply thin_thin.
    + rewrite Hc1. apply (tree_congr [p] (th_chunks h)); [done|set_solver|done].
    + intros x m Hin. rewrite Hx by done. intros (m' & Hm & ->)%fmap_Some.
      apply quiet_thin, Hq; [by right|done].
  - intros h p prev n ids L Hp Hfor Hnin Hq Hf.
    cbn [free_children]. rewrite Hp. cbn [mbind option_bind].
    destruct (tn_child n) as [|c cs] eqn:Hc.
    { inversion Hfor; subst. f_equal. destruct h as [g nx nc]. unfold with_chunks. cbn. f_equal.
      apply map_eq. intros k. rewrite lookup_prune. rewrite decide_False by set_solver.
      destruct (g !! k); [|done]. cbn. f_equal. symmetry. apply thin_id; set_solver. }
    inversion Hfor as [|? ? ? a b Ha Hb Hab]; subst.
    inversion Ha as [? ? cn a' Hcn Hpar _ _]; subst.
    pose proof (Hq c cn ltac:(set_solver) Hcn) as (Hcr & _).
    rewrite Hcn. cbn [mbind option_bind]. rewrite Hcr. cbn [mbind option_bind].
    assert (Hqa : all_quiet agrees (th_chunks h) (c :: a')).
    { intros x m Hx. apply Hq. set_solver. }
    rewrite length_app in Hf.
    rewrite (IH1 h (Some p) c (c :: a') L Ha Hqa ltac:(lia)).
    cbn [mbind option_bind]. change (0 =? -1) with false. cbn [mbind option_bind].
    assert (Hcs : tn_child (thin (c :: a') n) = cs).
    { cbn. rewrite Hc. rewrite filter_cons_False by (intros Hx; apply Hx; by left).
      apply filter_id. intros x Hx. apply (forest_roots _ _ _ _ Hb) in Hx. set_solver. }
    rewrite (IH2 _ p prev (thin (c :: a') n) b); [| | | | | |cbn in Hf; lia].
    + f_equal. unfold with_chunks. cbn. f_equal. apply prune_prune.
    + by apply links_ok_prune.
    + cbn. rewrite lookup_prune, decide_False, Hp by set_solver. done.
    + rewrite Hcs. apply forest_prune; [done|set_solver].
    + set_solver.
    + apply all_quiet_prune. intros x m Hx. apply Hq. set_solver.
Qed.
End Quiet.

(** ** Heaps

    In a heap that the operations make, the chunks form a forest and the handles are the
    entries of the lists of references. *)
Definition child_of (g : chunks) (x y : ptr) : Prop :=
  exists n, g !! y = Some n /\ x ∈ tn_child n.

(** [x] is [y] or hangs below it. *)
Definition below_chunk (g : chunks) : ptr -> ptr -> Prop := rtc (child_of g).

Record shape_ok (g : chunks) : Prop := {
  sh_child q n x : g !! q = Some n -> x ∈ tn_child n ->
    exists m, g !! x = Some m /\ tn_parent m = Some q;
  sh_parent x m q : g !! x = Some m -> tn_parent m = Some q -> child_of g x q;
  sh_nodup q n : g !! q = Some n -> NoDup (tn_child n);
  sh_acyclic p : Acc (child_of g) p
}.

Record heap_ok (h : theap) : Prop := {
  ho_shape : shape_ok (th_chunks h);
  ho_links : links_ok (th_chunks h);
  ho_idle p n : th_chunks h !! p = Some n ->
    tn_loop n = false /\ tn_destructor n <> DRunning /\ 0 <= tn_size n < MAX_TALLOC_SIZE;
  ho_next p : is_Some (th_chunks h !! p) -> (p < th_next h)%nat
}.

(** *** Relations without cycles *)

Lemma acc_no_cycle {A} (R : A -> A -> Prop) p :
  Acc R p -> forall c, rtc R p c -> R c p -> False.
Proof.
  induction 1 as [p _ IH]. intros c Hpc Hcp. apply rtc_inv_r in Hpc as [->|(d & Hpd & Hdc)].
  - by eapply (IH c Hcp c).
  - eapply (IH c Hcp d); [by eapply rtc_l | done].
Qed.

Lemma acc_mono {A} (R R' : A -> A -> Prop) :
  (forall x y, R' x y -> R x y) -> forall y, Acc R y -> Acc R' y.
Proof. intros H y. induction 1 as [y _ IH]. constructor. intros x Hx. by apply IH, H. Qed.

(** Hanging [p] below [c], which is not below [p]. *)
Lemma acc_graft {A} (R R' : A -> A -> Prop) p c :
  (forall x y, R' x y -> R x y \/ (x = p /\ y = c)) -> ~ rtc R c p ->
  (forall y, Acc R y) -> forall y, Acc R' y.
Proof.
  intros H Hc HA.
  assert (Hp : forall z, Acc R z -> rtc R z p -> Acc R' z).
  { induction 1 as [z _ IH]. intros Hz. constructor. intros x Hx.
    destruct (H _ _ Hx) as [Hx'|[-> ->]]; [|done]. apply IH; [done|]. by eapply rtc_l. }
  intros y. induction (HA y) as [y _ IH]. constructor. intros x Hx.
  destruct (H _ _ Hx) as [Hx'|[-> ->]]; [by apply IH|]. by apply Hp.
Qed.

(** *** Every chunk of a heap has a tree *)

Lemma tree_below g :
  (forall q p ids, tree g q p ids -> forall x, x ∈ ids <-> below_chunk g x p) /\
  (forall p cs ids, forest g p cs ids -> forall x, x ∈ ids <-> exists c, c ∈ cs /\ below_chunk g x c).
Proof.
  apply tree_forest_ind.
  - intros q p n ids Hp _ _ IH _ x. rewrite elem_of_cons, IH. split.
    + intros [->|(c & Hc & Hx)]; [apply rtc_refl|]. eapply rtc_r; [done|]. by exists n.
    + intros [->|(c & Hx & n' & Hn' & Hc)]%rtc_inv_r; [by left|]. right. exists c. by simplify_eq.
  - intros p x. split; [set_solver|]. intros (c & Hc & _). set_solver.
  - intros p c cs a b _ IH1 _ IH2 _ x. rewrite elem_of_app, IH1, IH2. set_solver.
Qed.

Section Shape.
Context (g : chunks) (S : shape_ok g).

Lemma child_of_parent x q : child_of g x q -> exists m, g !! x = Some m /\ tn_parent m = Some q.
Proof. intros (n & Hn & Hx). by eapply sh_child. Qed.

Lemma child_of_functional x q q' : child_of g x q -> child_of g x q' -> q = q'.
Proof. intros (m & ? & ?)%child_of_parent (m' & ? & ?)%child_of_parent. by simplify_eq. Qed.

Lemma below_linear x c c' : below_chunk g x c -> below_chunk g x c' -> below_chunk g c c' \/ below_chunk g c' c.
Proof.
  intros H. revert c'. induction H as [x|x y c Hxy Hyc IH]; intros c' H'; [by left|].
  apply rtc_inv in H' as [->|(z & Hxz & Hz)].
  - right. by eapply rtc_l.
  - rewrite <- (child_of_functional _ _ _ Hxy Hxz) in Hz. by apply IH.
Qed.

(** Different children of a chunk have nothing in common below them. *)
Lemma siblings_apart p c c' x :
  child_of g c p -> child_of g c' p -> below_chunk g x c -> below_chunk g x c' -> c = c'.
Proof.
  assert (H : forall c c', child_of g c p -> child_of g c' p -> below_chunk g c c' -> c = c').
  { intros c1 c2 H1 H2 [->|(y & Hy & Hyc)]%rtc_inv; [done|].
    rewrite <- (child_of_functional _ _ _ H1 Hy) in Hyc.
    destruct (acc_no_cycle _ p (sh_acyclic _ S p) _ Hyc H2). }
  intros Hc Hc' Hx Hx'. destruct (below_linear _ _ _ Hx Hx'); [by apply H|].
  symmetry. by apply H.
Qed.

Lemma tree_exists p n : g !! p = Some n -> exists ids, tree g (tn_parent n) p ids.
Proof.
  revert n. induction (sh_acyclic _ S p) as [p _ IH]. intros n Hp.
  assert (Hf : forall cs, NoDup cs -> (forall c, c ∈ cs -> child_of g c p) ->
            exists ids, forest g p cs ids).
  { induction cs as [|c cs IHcs]; intros Hnd Hcs; [eexists; constructor|].
    inversion Hnd as [|? ? Hnin Hnd']; subst.
    destruct IHcs as (b & Hb); [done | intros; apply Hcs; by right|].
    pose proof (Hcs c ltac:(by left)) as Hc. destruct (child_of_parent _ _ Hc) as (m & Hm & Hpar).
    destruct (IH c Hc m Hm) as (a & Ha). rewrite Hpar in Ha. exists (a ++ b). constructor; [done..|].
    intros x Hxa Hxb. apply (proj1 (tree_below g) _ _ _ Ha) in Hxa.
    apply (proj2 (tree_below g) _ _ _ Hb) in Hxb as (c' & Hc' & Hx).
    assert (c = c') as <- by (eapply siblings_apart; [..|done|done]; [done|]; apply Hcs; by right).
    done. }
  destruct (Hf (tn_child n)) as (ids & Hids);
    [by eapply sh_nodup | intros; by exists n |].
  exists (p :: ids). econstructor; [done..|].
  intros Hin. apply (proj2 (tree_below g) _ _ _ Hids) in Hin as (c & Hc & Hpc).
  apply (acc_no_cycle _ p (sh_acyclic _ S p) c Hpc). by exists n.
Qed.

End Shape.

(** *** What the operations do to the shape *)

(** Chunks whose links up and down are the same. *)
Definition links_of (n : tchunk) : option ptr * list ptr := (tn_parent n, tn_child n).

Lemma shape_congr g g' :
  (forall k, links_of <$> g' !! k = links_of <$> g !! k) -> shape_ok g -> shape_ok g'.
Proof.
  intros H [Hc Hp Hn Ha].
  assert (E : forall k n', g' !! k = Some n' -> exists n, g !! k = Some n /\
            tn_parent n = tn_parent n' /\ tn_child n = tn_child n').
  { intros k n' Hk. specialize (H k). rewrite Hk in H. cbn in H.
    destruct (g !! k) as [n|]; cbn in H; [|done]. exists n. by injection H. }
  assert (E' : forall k n, g !! k = Some n -> exists n', g' !! k = Some n' /\
            tn_parent n' = tn_parent n /\ tn_child n' = tn_child n).
  { intros k n Hk. specialize (H k). rewrite Hk in H. cbn in H.
    destruct (g' !! k) as [n'|]; cbn in H; [|done]. exists n'. by injection H. }
  assert (R : forall x y, child_of g' x y <-> child_of g x y).
  { intros x y. split; intros (n & Hy & Hx).
    - destruct (E _ _ Hy) as (m & Hm & _ & Em). exists m. by rewrite Em.
    - destruct (E' _ _ Hy) as (m & Hm & _ & Em). exists m. by rewrite Em. }
  split.
  - intros q n' x Hq Hx. destruct (E _ _ Hq) as (n & Hq' & _ & En). rewrite <- En in Hx.
    destruct (Hc _ _ _ Hq' Hx) as (m & Hm & ?). destruct (E' _ _ Hm) as (m' & ? & ? & _).
    exists m'. split; [done|congruence].
  - intros x m' q Hx Hq. destruct (E _ _ Hx) as (m & Hm & ? & _). apply R. eapply Hp; [done|congruence].
  - intros q n' Hq. destruct (E _ _ Hq) as (n & ? & _ & <-). eauto.
  - intros p. eapply acc_mono; [|apply (Ha p)]. apply R.
Qed.

Lemma shape_prune A g :
  shape_ok g -> (forall x y, child_of g x y -> y ∈ A -> x ∈ A) -> shape_ok (prune A g).
Proof.
  intros [Hc Hp Hn Ha] HA.
  assert (R : forall x y, child_of (prune A g) x y -> child_of g x y).
  { intros x y (n' & Hn' & Hx). rewrite lookup_prune in Hn'. case_decide; [done|].
    apply fmap_Some in Hn' as (n & ? & ->). exists n. split; [done|].
    cbn in Hx. by apply list_elem_of_filter in Hx as [_ ?]. }
  split.
  - intros q n' x. rewrite lookup_prune. case_decide; [done|]. intros (n & Hq & ->)%fmap_Some.
    cbn. intros [HxA Hx]%list_elem_of_filter. destruct (Hc _ _ _ Hq Hx) as (m & Hm & ?).
    exists (thin A m). rewrite lookup_prune, decide_False, Hm by done. done.
  - intros x m' q. rewrite lookup_prune. case_decide as Hx; [done|].
    intros (m & Hm & ->)%fmap_Some Hq. destruct (Hp _ _ _ Hm Hq) as (n & Hn' & Hin).
    exists (thin A n). rewrite lookup_prune, decide_False, Hn'.
    + split; [done|]. cbn. by apply list_elem_of_filter.
    + intros HqA. apply Hx, (HA _ q); [by exists n|done].
  - intros q n'. rewrite lookup_prune. case_decide; [done|]. intros (n & Hq & ->)%fmap_Some.
    cbn. apply NoDup_filter. eauto.
  - intros p. eapply acc_mono; [exact R|done].
Qed.

(** A chunk without children in a place of its own: [c] is its parent. *)
Definition attach (c : option ptr) (p : ptr) (g : chunks) : chunks :=
  match c with
  | None => g
  | Some c => alter (fun m => set_child (p :: tn_child m) m) c g
  end.

(** [p] leaves its parent and hangs below [c]. *)
Definition rehang (c : option ptr) (p : ptr) (g : chunks) : chunks :=
  attach c p (alter (set_parent c) p (detach g p)).

Lemma lookup_rehang g c p n k :
  shape_ok g -> g !! p = Some n -> c <> Some p ->
  rehang c p g !! k =
    (fun m => let l := remove_from p (tn_child m) in
              let m := set_child (if decide (c = Some k) then p :: l else l) m in
              if decide (k = p) then set_parent c m else m) <$> g !! k.
Proof.
  intros Hs Hp Hc. unfold rehang.
  assert (H1 : detach g p !! k = (fun m => set_child (remove_from p (tn_child m)) m) <$> g !! k).
  { rewrite (lookup_detach _ _ _ _ Hp). destruct (g !! k) as [m|] eqn:Hk; [|done]. cbn. f_equal.
    case_decide as Hpar; [done|]. rewrite remove_from_id; [by destruct m|]. intros Hin.
    destruct (sh_child _ Hs _ _ _ Hk Hin) as (? & ? & ?). simplify_eq. }
  assert (H2 : alter (set_parent c) p (detach g p) !! k =
            (fun m => if decide (k = p) then set_parent c m else m) <$> detach g p !! k).
  { destruct (decide (k = p)) as [->|Hk].
    - rewrite lookup_alter_eq. destruct (detach g p !! p); [|done]. cbn. by rewrite ?decide_True.
    - rewrite lookup_alter_ne by done. destruct (detach g p !! k); [|done]. done. }
  destruct c as [c|]; cbn [attach].
  - destruct (decide (c = k)) as [->|Hk].
    + rewrite lookup_alter_eq, H2, H1. destruct (g !! k) as [m|]; [|done]. cbn.
      rewrite (decide_True (P := Some k = Some k)) by done.
      destruct (decide (k = p)) as [->|]; [done|]. done.
    + rewrite lookup_alter_ne, H2, H1 by done. destruct (g !! k) as [m|]; [|done]. cbn.
      rewrite (decide_False (P := Some c = Some k)) by congruence. done.
  - rewrite H2, H1. destruct (g !! k) as [m|]; [|done]. cbn. done.
Qed.

Lemma shape_rehang g c p n :
  shape_ok g -> g !! p = Some n ->
  match c with Some c => is_Some (g !! c) /\ ~ below_chunk g c p | None => True end ->
  shape_ok (rehang c p g).
Proof.
  intros Hs Hp Hc.
  assert (Hcp : c <> Some p). { intros ->. destruct Hc as [_ Hc]. by apply Hc, rtc_refl. }
  assert (R : forall x y, child_of (rehang c p g) x y <->
            (x <> p /\ child_of g x y) \/ (x = p /\ c = Some y /\ is_Some (g !! y))).
  { intros x y. unfold child_of. setoid_rewrite (fun k => lookup_rehang _ _ _ _ k Hs Hp Hcp).
    destruct (g !! y) as [m|]; cbn; [|split; [intros (? & ? & _); done|]].
    2: { intros [(_ & ? & ? & _)|(_ & _ & ?)]; [done|]. by apply is_Some_None in H. }
    assert (E : forall z, tn_child (if decide (y = p) then set_parent c z else z) = tn_child z)
      by (intros; by case_decide).
    split.
    - intros (? & [= <-] & Hx). rewrite E in Hx. cbn in Hx. case_decide as Hcy.
      + apply elem_of_cons in Hx as [->|Hx]; [right; by eauto|].
        apply list_elem_of_filter in Hx as [? ?]. eauto.
      + apply list_elem_of_filter in Hx as [? ?]. eauto.
    - intros H. eexists. split; [done|]. rewrite E. cbn.
      destruct H as [(Hxp & ? & [= <-] & Hx)|(-> & -> & _)].
      + destruct (decide (c = Some y)); [right|]; by apply list_elem_of_filter.
      + rewrite decide_True by done. by left. }
  pose proof Hs as [Sc Sp Sn Sa]. split.
  - intros q n' x Hq Hx.
    assert (child_of (rehang c p g) x q) as Hch by (by exists n').
    rewrite (lookup_rehang _ _ _ _ x Hs Hp Hcp).
    apply R in Hch as [(Hxp & m & Hm & Hxm)|(-> & -> & _)].
    + destruct (Sc _ _ _ Hm Hxm) as (k & Hk & Hpar). rewrite Hk. eexists. split; [done|].
      cbn. by rewrite decide_False.
    + rewrite Hp. eexists. split; [done|]. cbn. by rewrite (decide_True (P := p = p)).
  - intros x m' q. rewrite (lookup_rehang _ _ _ _ x Hs Hp Hcp).
    intros (m & Hm & ->)%fmap_Some Hpar. apply R. cbn in Hpar.
    destruct (decide (x = p)) as [->|Hxp].
    + right. cbn in Hpar. subst c. by destruct Hc.
    + left. split; [done|]. eapply Sp; [done|]. exact Hpar.
  - intros q n'. rewrite (lookup_rehang _ _ _ _ q Hs Hp Hcp).
    intros (m & Hm & ->)%fmap_Some. cbn.
    assert (NoDup (remove_from p (tn_child m))) by (apply NoDup_filter; eauto).
    assert (p ∉ remove_from p (tn_child m)) by (intros [? _]%list_elem_of_filter; done).
    destruct (decide (q = p)); cbn; case_decide; by try constructor.
  - destruct c as [c|].
    + apply (acc_graft (child_of g) _ p c); [|apply Hc|done].
      intros x y [(_ & ?)|(-> & [= ->] & _)]%R; eauto.
    + intros y. eapply acc_mono; [|apply Sa]. intros a b [(_ & ?)|(_ & ? & _)]%R; done.
Qed.

(** What a chunk has to do with references. *)
Definition refs_of (n : tchunk) : list ptr * option (option ptr) :=
  (tn_refs n, match tn_destructor n with DReference => Some (tn_handle n) | _ => None end).

Lemma links_congr g g' :
  shape_ok g' -> (forall k, refs_of <$> g' !! k = refs_of <$> g !! k) -> links_ok g -> links_ok g'.
Proof.
  intros Hs H [_ Lr Lh].
  assert (E : forall g1 g2 : chunks, (forall k, refs_of <$> g1 !! k = refs_of <$> g2 !! k) ->
            forall k n1, g1 !! k = Some n1 -> exists n2, g2 !! k = Some n2 /\
              tn_refs n2 = tn_refs n1 /\
              (tn_destructor n1 = DReference ->
                 tn_destructor n2 = DReference /\ tn_handle n2 = tn_handle n1)).
  { intros g1 g2 H12 k n1 Hk. specialize (H12 k). rewrite Hk in H12.
    destruct (g2 !! k) as [n2|]; [|done]. cbn in H12. injection H12 as Er Ed. exists n2.
    split; [done|]. destruct (tn_destructor n1), (tn_destructor n2); (split; [congruence|]); intros; split; congruence. }
  assert (E1 := E _ _ H). assert (E2 := E _ _ (fun k => eq_sym (H k))). split.
  - apply sh_child, Hs.
  - intros t n' r Ht Hin. destruct (E1 _ _ Ht) as (n & Hn & En & _). rewrite <- En in Hin.
    destruct (Lr _ _ _ Hn Hin) as (m & Hm & Hd & Hh). destruct (E2 _ _ Hm) as (m' & ? & _ & Em).
    destruct (Em Hd). exists m'. split_and!; [done..|congruence].
  - intros r m' Hr Hd. destruct (E1 _ _ Hr) as (m & Hm & _ & Em). destruct (Em Hd) as [Hd' Hh].
    destruct (Lh _ _ Hm Hd') as (t & n & Ht & Hn & Hin). destruct (E2 _ _ Hn) as (n' & ? & En & _).
    exists t, n'. split_and!; [congruence|done|by rewrite En].
Qed.

(** *** The operations in these terms *)

Lemma alloc_rehang h c size name r h' :
  talloc_named_const h c size name = Some (r, h') -> 0 <= size -> heap_ok h ->
  (r = None /\ h' = h) \/
  (exists p c' n, r = Some p /\ p = th_next h /\ size < MAX_TALLOC_SIZE /\
     c' = context_of h c /\
     match c' with Some c => is_Some (th_chunks h !! c) | None => True end /\
     n = {| tn_parent := None; tn_child := []; tn_refs := []; tn_destructor := DNone;
            tn_name := name; tn_size := size; tn_loop := false; tn_handle := None |} /\
     th_chunks h !! p = None /\
     h' = {| th_chunks := rehang c' p (<[p := n]> (th_chunks h)); th_next := S p;
             null_context := null_context h |}).
Proof.
  intros H Hsize Hok. unfold talloc_named_const in H. rewrite Z.geb_leb in H.
  destruct (Z.leb_spec MAX_TALLOC_SIZE size) as [?|Hlt]; [left; by simplify_eq|]. right.
  set (c' := context_of h c) in *.
  set (p := th_next h) in *. set (g := th_chunks h) in *.
  assert (Hfresh : g !! p = None).
  { destruct (g !! p) eqn:E; [|done]. pose proof (ho_next _ Hok p ltac:(by eexists)). lia. }
  exists p, c'. eexists. apply bind_Some in H as (g' & Hg' & [= <- <-]).
  assert (Hd : forall c n, tn_parent n = None ->
            rehang c p (<[p := n]> g) = attach c p (<[p := set_parent c n]> g)).
  { intros c1 n Hn. unfold rehang, detach. by rewrite lookup_insert_eq, Hn, alter_insert_eq. }
  destruct c' as [q|]; cbn [mbind option_bind] in Hg'.
  - destruct (g !! q) as [m|] eqn:Hq; [|done]. cbn in Hg'. injection Hg' as <-.
    assert (q <> p) by congruence.
    split_and!; try done. f_equal. rewrite Hd by done. cbn [attach].
    rewrite alter_insert_ne by done. f_equal. apply map_eq. intros k.
    destruct (decide (k = q)) as [->|].
    + by rewrite lookup_insert_eq, lookup_alter_eq, Hq.
    + by rewrite lookup_insert_ne, lookup_alter_ne by done.
  - injection Hg' as <-. split_and!; try done. f_equal. by rewrite Hd.
Qed.

(** *** Heaps stay heaps *)

Lemma shape_fresh g p n :
  shape_ok g -> g !! p = None -> tn_parent n = None -> tn_child n = [] -> shape_ok (<[p := n]> g).
Proof.
  intros [Sc Sp Sn Sa] Hp Hpar Hch.
  assert (R : forall x y, child_of (<[p := n]> g) x y -> child_of g x y).
  { intros x y (m & Hm & Hx). exists m. destruct (decide (y = p)) as [->|].
    - rewrite lookup_insert_eq in Hm. simplify_eq. rewrite Hch in Hx. by apply elem_of_nil in Hx.
    - by rewrite lookup_insert_ne in Hm. }
  assert (U : forall k m, g !! k = Some m -> <[p := n]> g !! k = Some m).
  { intros k m Hk. rewrite lookup_insert_ne by congruence. done. }
  split.
  - intros q m x Hq Hx. destruct (R x q) as (m' & Hm' & Hx'); [by exists m|].
    destruct (Sc _ _ _ Hm' Hx') as (k & ? & ?). eauto.
  - intros x m q Hx Hq. destruct (decide (x = p)) as [->|].
    + rewrite lookup_insert_eq in Hx. simplify_eq.
    + rewrite lookup_insert_ne in Hx by done. destruct (Sp _ _ _ Hx Hq) as (k & ? & ?).
      exists k. eauto.
  - intros q m Hq. destruct (decide (q = p)) as [->|].
    + rewrite lookup_insert_eq in Hq. simplify_eq. rewrite Hch. constructor.
    + rewrite lookup_insert_ne in Hq by done. eauto.
  - intros y. eapply acc_mono; [exact R | apply Sa].
Qed.

Lemma links_fresh g p n :
  links_ok g -> shape_ok (<[p := n]> g) -> g !! p = None -> tn_refs n = [] ->
  tn_destructor n = DNone -> links_ok (<[p := n]> g).
Proof.
  intros [_ Lr Lh] Hs Hp Hr Hd.
  assert (U : forall k m, g !! k = Some m -> <[p := n]> g !! k = Some m).
  { intros k m Hk. rewrite lookup_insert_ne by congruence. done. }
  split; [apply sh_child, Hs| |].
  - intros t m r Ht Hin. destruct (decide (t = p)) as [->|].
    + rewrite lookup_insert_eq in Ht. simplify_eq. rewrite Hr in Hin. by apply elem_of_nil in Hin.
    + rewrite lookup_insert_ne in Ht by done. destruct (Lr _ _ _ Ht Hin) as (k & ? & ?). eauto.
  - intros r m Hm Hd'. destruct (decide (r = p)) as [->|].
    + rewrite lookup_insert_eq in Hm. simplify_eq. congruence.
    + rewrite lookup_insert_ne in Hm by done. destruct (Lh _ _ Hm Hd') as (t & k & ? & ? & ?).
      eauto 6.
Qed.

(** The parts of a chunk that hanging it elsewhere leaves alone. *)
Definition body_of (n : tchunk) :=
  (tn_refs n, tn_destructor n, tn_name n, tn_size n, tn_loop n, tn_handle n).

Lemma body_refs n m : body_of n = body_of m -> refs_of n = refs_of m.
Proof. destruct n, m. intros [=]. subst. done. Qed.

Lemma rehang_body g c p n k :
  shape_ok g -> g !! p = Some n -> c <> Some p ->
  body_of <$> rehang c p g !! k = body_of <$> g !! k.
Proof.
  intros. erewrite lookup_rehang by done. destruct (g !! k); [|done]. cbn. f_equal.
  by case_decide.
Qed.

Lemma body_congr h h' :
  shape_ok (th_chunks h') -> (th_next h <= th_next h')%nat ->
  (forall k, body_of <$> th_chunks h' !! k = body_of <$> th_chunks h !! k) ->
  heap_ok h -> heap_ok h'.
Proof.
  intros Hs Hn Hb [_ L I N].
  assert (E : forall k n', th_chunks h' !! k = Some n' ->
            exists n, th_chunks h !! k = Some n /\ body_of n = body_of n').
  { intros k n' Hk. specialize (Hb k). rewrite Hk in Hb. destruct (th_chunks h !! k) as [n|]; [|done].
    exists n. split; [done|]. cbn in Hb. congruence. }
  split; [done| | |].
  - apply (links_congr (th_chunks h)); [done| |done]. intros k. specialize (Hb k).
    destruct (th_chunks h' !! k), (th_chunks h !! k); try done. cbn in *. f_equal.
    apply body_refs. congruence.
  - intros p n' Hp. destruct (E _ _ Hp) as (n & Hp' & En). specialize (I _ _ Hp').
    destruct n, n'. injection En. intros. by subst.
  - intros p [n' Hp]. destruct (E _ _ Hp) as (n & Hp' & _). specialize (N p ltac:(by eexists)). lia.
Qed.

Lemma below_fresh g p n c : tn_child n = [] -> c <> p -> ~ below_chunk (<[p := n]> g) c p.
Proof.
  intros Hn Hc [?|(y & _ & m & Hm & Hy)]%rtc_inv_r; [done|].
  rewrite lookup_insert_eq in Hm. simplify_eq. rewrite Hn in Hy. by apply elem_of_nil in Hy.
Qed.

Lemma alloc_heap_ok h c size name r h' :
  heap_ok h -> 0 <= size -> talloc_named_const h c size name = Some (r, h') -> heap_ok h'.
Proof.
  intros Hok Hsize H. destruct (alloc_rehang _ _ _ _ _ _ H Hsize Hok) as
    [[_ ->]|(p & c' & n & -> & -> & Hlt & _ & Hc & Hn & Hfresh & ->)]; [done|].
  set (p := th_next h) in *. pose proof Hok as [Hs L I N].
  assert (Hs1 : shape_ok (<[p := n]> (th_chunks h))) by (by apply shape_fresh; subst).
  assert (Hcp : c' <> Some p). { intros ->. rewrite Hfresh in Hc. by destruct Hc. }
  apply (body_congr {| th_chunks := <[p := n]> (th_chunks h); th_next := S p;
                       null_context := null_context h |}); cbn [th_chunks th_next]; [|lia| |].
  - eapply shape_rehang; [done|apply lookup_insert_eq|]. destruct c' as [q|]; [|done]. split.
    + rewrite lookup_insert_ne by congruence. done.
    + apply below_fresh; [by subst|congruence].
  - intros k. eapply rehang_body; [done|apply lookup_insert_eq|done].
  - split; cbn [th_chunks th_next]; [done|by apply links_fresh; subst| |].
    + intros k m Hk. destruct (decide (k = p)) as [->|].
      * rewrite lookup_insert_eq in Hk. simplify_eq. done.
      * rewrite lookup_insert_ne in Hk by done. eauto.
    + intros k Hk. destruct (decide (k = p)) as [->|]; [lia|].
      rewrite lookup_insert_ne in Hk by done. specialize (N k Hk). lia.
Qed.

(** [talloc_steal] moves a chunk, unless it is there already. *)
Lemma steal_rehang h c p h' :
  talloc_steal h c p = Some h' ->
  let c' := context_of h c in
  is_Some (th_chunks h !! p) /\
  match c' with Some c => is_Some (th_chunks h !! c) | None => True end /\
  (h' = h \/ h' = with_chunks h (rehang c' p (th_chunks h))).
Proof.
  unfold talloc_steal. intros H. apply bind_Some in H as (n & Hp & H).
  split; [by eexists|].
  destruct (context_of h c) as [q|]; cbn zeta iota.
  - apply bind_Some in H as (m & Hq & H). split; [by eexists|].
    case_decide; [left; by simplify_eq|]. case_decide; [left; by simplify_eq|].
    right. by simplify_eq.
  - split; [done|]. right. by simplify_eq.
Qed.

Lemma steal_heap_ok h c p h' :
  heap_ok h -> talloc_steal h c p = Some h' ->
  (forall q, context_of h c = Some q -> ~ below_chunk (th_chunks h) q p) ->
  heap_ok h'.
Proof.
  intros Hok H Hc. destruct (steal_rehang _ _ _ _ H) as ((n & Hp) & Hc' & [->| ->]); [done|].
  set (c' := context_of h c) in *.
  assert (Hb : match c' with Some c => is_Some (th_chunks h !! c) /\ ~ below_chunk (th_chunks h) c p
               | None => True end).
  { destruct c'; [|done]. split; [done|]. by apply Hc. }
  assert (c' <> Some p). { intros E. rewrite E in Hb. apply Hb. apply rtc_refl. }
  pose proof (ho_shape _ Hok). eapply (body_congr h); [|done| |done].
  - by eapply shape_rehang.
  - intros k. by eapply rehang_body.
Qed.

Lemma alloc_result h c size name p h' :
  heap_ok h -> 0 <= size -> talloc_named_const h c size name = Some (Some p, h') ->
  p = th_next h /\ th_chunks h !! p = None /\
  exists n, th_chunks h' !! p = Some n /\ tn_child n = [] /\
    tn_parent n = context_of h c /\
    body_of n = ([], DNone, name, size, false, None).
Proof.
  intros Hok Hsize H. destruct (alloc_rehang _ _ _ _ _ _ H Hsize Hok) as
    [[? _]|(q & c' & n & [= <-] & Hp & _ & Ec & Hc & Hn & Hfresh & ->)]; [done|].
  split; [done|]. split; [done|]. pose proof (ho_shape _ Hok) as Hs.
  assert (Hcp : c' <> Some p). { intros ->. rewrite Hfresh in Hc. by destruct Hc. }
  cbn [th_chunks]. rewrite (lookup_rehang (<[p := n]> (th_chunks h)) c' p n);
    [|by apply shape_fresh; subst|apply lookup_insert_eq|done].
  rewrite lookup_insert_eq. eexists. split; [done|]. rewrite !(decide_True (P := p = p)) by done.
  rewrite decide_False by done. rewrite <- Ec. subst n. done.
Qed.

(** A new handle [r] for [p]. *)
Definition refer (r p : ptr) (hn n : tchunk) (g : chunks) : chunks :=
  <[p := set_refs (r :: tn_refs n) n]>
    (<[r := {| tn_parent := tn_parent hn; tn_child := tn_child hn; tn_refs := tn_refs hn;
               tn_destructor := DReference; tn_name := tn_name hn; tn_size := tn_size hn;
               tn_loop := tn_loop hn; tn_handle := Some p |}]> g).

Lemma refer_links_of g r p hn n k :
  g !! r = Some hn -> g !! p = Some n -> r <> p ->
  links_of <$> refer r p hn n g !! k = links_of <$> g !! k.
Proof.
  intros Hr Hp Hrp. unfold refer. destruct (decide (k = p)) as [->|].
  - by rewrite lookup_insert_eq, Hp.
  - rewrite lookup_insert_ne by done. destruct (decide (k = r)) as [->|].
    + by rewrite lookup_insert_eq, Hr.
    + by rewrite lookup_insert_ne by done.
Qed.

Lemma refer_links_ok g r p hn n :
  links_ok g -> shape_ok g -> g !! r = Some hn -> g !! p = Some n -> r <> p ->
  tn_destructor hn = DNone -> links_ok (refer r p hn n g).
Proof.
  intros [_ Lr Lh] Hs Hr Hp Hrp Hd.
  assert (Hs' : shape_ok (refer r p hn n g)).
  { apply (shape_congr g); [|done]. intros k. by apply refer_links_of. }
  assert (Er : exists hn', refer r p hn n g !! r = Some hn' /\ tn_destructor hn' = DReference /\
            tn_handle hn' = Some p /\ tn_refs hn' = tn_refs hn).
  { unfold refer. rewrite lookup_insert_ne, lookup_insert_eq by done. by eexists. }
  assert (Ep : exists n', refer r p hn n g !! p = Some n' /\ tn_refs n' = r :: tn_refs n /\
            tn_destructor n' = tn_destructor n /\ tn_handle n' = tn_handle n).
  { unfold refer. rewrite lookup_insert_eq. by eexists. }
  assert (Ek : forall k, k <> r -> k <> p -> refer r p hn n g !! k = g !! k).
  { intros. unfold refer. by rewrite !lookup_insert_ne by done. }
  destruct Er as (hn' & Hr' & Dr & Hh & Rr). destruct Ep as (n' & Hp' & Rp & Dp & Hhp).
  assert (Up : forall k m, g !! k = Some m -> tn_destructor m = DReference ->
            exists m', refer r p hn n g !! k = Some m' /\ tn_destructor m' = DReference /\
              tn_handle m' = tn_handle m).
  { intros k m Hk Hdm. destruct (decide (k = r)) as [->|]; [simplify_eq; congruence|].
    destruct (decide (k = p)) as [->|].
    - exists n'. simplify_eq. split_and!; [done|congruence..].
    - exists m. by rewrite Ek. }
  split; [apply sh_child, Hs'| |].
  - intros t m x Ht Hin. destruct (decide (t = p)) as [->|Htp].
    + simplify_eq. rewrite Rp in Hin. apply elem_of_cons in Hin as [->|Hin]; [by exists hn'|].
      destruct (Lr _ _ _ Hp Hin) as (k & Hk & Hdk & Hhk). destruct (Up _ _ Hk Hdk) as (k' & ? & ? & ?).
      exists k'. split_and!; [done..|congruence].
    + destruct (decide (t = r)) as [->|Htr].
      * simplify_eq. rewrite Rr in Hin. destruct (Lr _ _ _ Hr Hin) as (k & Hk & Hdk & Hhk).
        destruct (Up _ _ Hk Hdk) as (k' & ? & ? & ?). exists k'. split_and!; [done..|congruence].
      * rewrite Ek in Ht by done. destruct (Lr _ _ _ Ht Hin) as (k & Hk & Hdk & Hhk).
        destruct (Up _ _ Hk Hdk) as (k' & ? & ? & ?). exists k'. split_and!; [done..|congruence].
  - intros x m Hx Hdx. destruct (decide (x = r)) as [->|Hxr].
    { simplify_eq. exists p, n'. split_and!; [done..|]. rewrite Rp. by left. }
    assert (exists m0, g !! x = Some m0 /\ tn_destructor m0 = DReference /\
              tn_handle m0 = tn_handle m) as (m0 & Hm0 & Hd0 & E0).
    { destruct (decide (x = p)) as [->|]; [|rewrite Ek in Hx by done; by exists m].
      exists n. simplify_eq. split_and!; [done|congruence..]. }
    destruct (Lh _ _ Hm0 Hd0) as (t & k & Ht & Hk & Hin). exists t.
    destruct (decide (t = p)) as [->|Htp].
    + exists n'. simplify_eq. split_and!; [congruence|done|]. rewrite Rp. by right.
    + destruct (decide (t = r)) as [->|Htr].
      * exists hn'. simplify_eq. split_and!; [congruence|done|by rewrite Rr].
      * exists k. rewrite Ek by done. split_and!; [congruence|done|done].
Qed.

Lemma HANDLE_SIZE_pos : 0 <= HANDLE_SIZE.
Proof. done. Qed.

Lemma reference_refer h c p r h' :
  heap_ok h -> talloc_reference h c p = Some (r, h') ->
  (r = None /\ h' = h) \/
  exists h1 q hn n, r = Some p /\ talloc_named_const h c HANDLE_SIZE None = Some (Some q, h1) /\
    th_chunks h1 !! q = Some hn /\ th_chunks h1 !! p = Some n /\ q <> p /\
    h' = with_chunks h1 (refer q p hn n (th_chunks h1)).
Proof.
  intros Hok H. unfold talloc_reference in H.
  apply bind_Some in H as (n0 & Hp0 & H). apply bind_Some in H as ([handle h1] & Ha & H).
  destruct handle as [q|].
  - apply bind_Some in H as (hn & Hq & H). apply bind_Some in H as (n & Hp & H). right.
    destruct (alloc_result _ _ _ _ _ _ Hok HANDLE_SIZE_pos Ha) as (_ & Hfresh & _).
    assert (q <> p) by congruence. rewrite lookup_insert_ne in Hp by done.
    exists h1, q, hn, n. injection H as <- <-. done.
  - left. injection H as <- <-. split; [done|]. unfold talloc_named_const in Ha. cbn -[lookup] in Ha.
    destruct (context_of h c) as [c'|]; [|done].
    cbn in Ha. by destruct (th_chunks h !! c').
Qed.

Lemma reference_heap_ok h c p r h' :
  heap_ok h -> talloc_reference h c p = Some (r, h') -> heap_ok h'.
Proof.
  intros Hok H.
  destruct (reference_refer _ _ _ _ _ Hok H) as [[_ ->]|(h1 & q & hn & n & -> & Ha & Hq & Hp & Hqp & ->)];
    [done|].
  assert (Hok1 : heap_ok h1) by (by apply (alloc_heap_ok _ _ _ _ _ _ Hok HANDLE_SIZE_pos Ha)).
  destruct (alloc_result _ _ _ _ _ _ Hok HANDLE_SIZE_pos Ha) as (_ & _ & hn' & Hq' & _ & _ & Eb).
  simplify_eq. injection Eb as ? Hd ? ? ? ?. destruct Hok1 as [Hs L I N].
  split; cbn [th_chunks th_next with_chunks].
  - apply (shape_congr (th_chunks h1)); [|done]. intros k. by apply refer_links_of.
  - by apply refer_links_ok.
  - intros k m Hk. unfold refer in Hk. destruct (decide (k = p)) as [->|].
    + rewrite lookup_insert_eq in Hk. simplify_eq. apply (I _ _ Hp).
    + rewrite lookup_insert_ne in Hk by done. destruct (decide (k = q)) as [->|].
      * rewrite lookup_insert_eq in Hk. simplify_eq. cbn. by destruct (I _ _ Hq) as (? & _ & ?).
      * rewrite lookup_insert_ne in Hk by done. eauto.
  - intros k Hk. apply N. unfold refer in Hk. rewrite !lookup_insert_is_Some in Hk.
    destruct (decide (p = k)) as [<-|]; [by eexists|]. destruct (decide (q = k)) as [<-|]; [by eexists|].
    naive_solver.
Qed.

Lemma set_destructor_heap_ok h p d n h' :
  heap_ok h -> th_chunks h !! p = Some n -> tn_destructor n <> DReference ->
  talloc_set_destructor h p (DUser d) = Some h' -> heap_ok h'.
Proof.
  intros [Hs L I N] Hp Hd H. unfold talloc_set_destructor in H. rewrite Hp in H. cbn in H.
  injection H as <-. set (g := th_chunks h) in *.
  assert (E : forall {B} (f : tchunk -> B) k, f (set_destructor (DUser d) n) = f n ->
            f <$> <[p := set_destructor (DUser d) n]> g !! k = f <$> g !! k).
  { intros B f k Hf. destruct (decide (k = p)) as [->|].
    - rewrite lookup_insert_eq, Hp. cbn. by f_equal.
    - by rewrite lookup_insert_ne. }
  assert (Hs' : shape_ok (<[p := set_destructor (DUser d) n]> g)).
  { apply (shape_congr g); [|done]. intros k. by apply E. }
  split; cbn [th_chunks th_next with_chunks]; fold g; [done| | |].
  - apply (links_congr g); [done| |done]. intros k. apply E. unfold refs_of. cbn.
    by destruct (tn_destructor n).
  - intros k m Hk. destruct (decide (k = p)) as [->|].
    + rewrite lookup_insert_eq in Hk. simplify_eq. cbn. by destruct (I _ _ Hp) as (? & _ & ?).
    + rewrite lookup_insert_ne in Hk by done. eauto.
  - intros k [m Hk]. apply N. destruct (decide (k = p)) as [->|]; [by eexists|].
    rewrite lookup_insert_ne in Hk by done. by eexists.
Qed.

Section Runs.
Variable agrees : nat -> ptr -> bool.

(** No reference leads to the chunk, and its destructor agrees. *)
Definition may_go (p : ptr) (n : tchunk) : Prop :=
  tn_refs n = [] /\ match tn_destructor n with DUser d => agrees d p = true | _ => True end.

Definition may_go_below (h : theap) (p : ptr) : Prop :=
  forall x n, below_chunk (th_chunks h) x p -> th_chunks h !! x = Some n -> may_go x n.

Lemma free_below h p n :
  heap_ok h -> th_chunks h !! p = Some n -> may_go_below h p ->
  exists ids, tree (th_chunks h) (tn_parent n) p ids /\ all_quiet agrees (th_chunks h) ids /\
    talloc_free agrees h p = Some (0, with_chunks h (prune ids (th_chunks h))).
Proof.
  intros [Hs L I N] Hp Hgo. destruct (tree_exists _ Hs _ _ Hp) as (ids & Ht). exists ids.
  assert (Hq : all_quiet agrees (th_chunks h) ids).
  { intros x m Hx Hm. apply (proj1 (tree_below _) _ _ _ Ht) in Hx.
    destruct (Hgo x m Hx Hm) as [Hr Hd]. destruct (I _ _ Hm) as (Hl & Hrun & _).
    repeat split; [done..|]. by destruct (tn_destructor m). }
  split; [done|]. split; [done|]. unfold talloc_free. rewrite Hp. cbn [mbind option_bind].
  destruct (Hq p n (tree_root _ _ _ _ Ht) Hp) as (-> & _).
  eapply (proj1 (free_tree_loop agrees _)); [done..|].
  pose proof (talloc_tree_size _ _ _ _ Ht). unfold free_fuel. lia.
Qed.

Lemma prune_tree_heap_ok h p n ids :
  heap_ok h -> tree (th_chunks h) (tn_parent n) p ids -> all_quiet agrees (th_chunks h) ids ->
  heap_ok (with_chunks h (prune ids (th_chunks h))).
Proof.
  intros [Hs L I N] Ht Hq.
  assert (E : forall k m, prune ids (th_chunks h) !! k = Some m ->
            exists m0, th_chunks h !! k = Some m0 /\ m = thin ids m0).
  { intros k m. rewrite lookup_prune. case_decide; [done|]. intros (m0 & ? & ->)%fmap_Some. eauto. }
  split; cbn [th_chunks th_next with_chunks].
  - apply shape_prune; [done|]. intros x y Hxy Hy. apply (proj1 (tree_below _) _ _ _ Ht).
    apply (proj1 (tree_below _) _ _ _ Ht) in Hy. by eapply rtc_l.
  - by eapply links_ok_prune.
  - intros k m Hk. destruct (E _ _ Hk) as (m0 & Hm0 & ->). cbn. eauto.
  - intros k [m Hk]. destruct (E _ _ Hk) as (m0 & ? & _). apply N. by eexists.
Qed.

(** A free that is refused before anything is done: the chunk is referred to, or its
    destructor does not agree. *)
Definition refused_at_once (h : theap) (p : ptr) : Prop :=
  exists n, th_chunks h !! p = Some n /\
    (tn_refs n <> [] \/ run_destructor agrees (th_chunks h) p = Some (false, th_chunks h)).


(** The uses of talloc: a chunk is only moved to a place that is not below it, and only
    freed when everything below it may go, or the free is refused at once. *)
Inductive heap_step (h : theap) : theap -> Prop :=
  | step_alloc c size name r h' :
      0 <= size -> talloc_named_const h c size name = Some (r, h') -> heap_step h h'
  | step_destructor p d n h' :
      th_chunks h !! p = Some n -> tn_destructor n <> DReference ->
      talloc_set_destructor h p (DUser d) = Some h' -> heap_step h h'
  | step_reference c p r h' : talloc_reference h c p = Some (r, h') -> heap_step h h'
  | step_steal c p h' :
      (forall q, context_of h c = Some q -> ~ below_chunk (th_chunks h) q p) ->
      talloc_steal h c p = Some h' -> heap_step h h'
  | step_free p r h' :
      may_go_below h p \/ refused_at_once h p ->
      talloc_free agrees h p = Some (r, h') -> heap_step h h'.

Definition empty_heap : theap := {| th_chunks := ∅; th_next := 1%nat; null_context := None |}.

Lemma empty_heap_ok : heap_ok empty_heap.
Proof.
  assert (E : forall (k : ptr) n, (∅ : chunks) !! k = Some n -> False).
  { intros k n H. by rewrite lookup_empty in H. }
  assert (Hs : shape_ok ∅).
  { split; [intros q n x H|intros q n x H|intros q n H|]; [by destruct (E _ _ H)..|].
    intros p. constructor. intros x (n & H & _). by destruct (E _ _ H). }
  split; [done| | |]; cbn [th_chunks empty_heap].
  - split; [apply sh_child, Hs|intros q n x H|intros q n H]; by destruct (E _ _ H).
  - intros p n H. by destruct (E _ _ H).
  - intros p [n H]. by destruct (E _ _ H).
Qed.

Lemma step_heap_ok h h' : heap_ok h -> heap_step h h' -> heap_ok h'.
Proof.
  intros Hok [c size name r h1 ? H|p d n h1 ? ? H|c p r h1 H|c p h1 ? H|p r h1 Hgo H].
  - by eapply alloc_heap_ok.
  - by eapply set_destructor_heap_ok.
  - by eapply reference_heap_ok.
  - by eapply steal_heap_ok.
  - destruct (th_chunks h !! p) as [n|] eqn:Hp; [|unfold talloc_free in H; by rewrite Hp in H].
    destruct Hgo as [Hgo|(n' & Hn' & Hr)].
    + destruct (free_below _ _ _ Hok Hp Hgo) as (ids & Ht & Hq & Hf). rewrite Hf in H.
      injection H as <- <-. by eapply prune_tree_heap_ok.
    + unfold talloc_free in H. rewrite Hn' in H. cbn [mbind option_bind] in H.
      destruct (tn_refs n') as [|x l] eqn:Er; [|by injection H as <- <-].
      destruct Hr as [Hr|Hr]; [done|]. destruct (ho_idle _ Hok _ _ Hn') as [Hl _].
      unfold free_fuel in H. cbn [free_internal] in H. rewrite Hn' in H.
      cbn [mbind option_bind] in H. rewrite Er, Hl, Hr in H. cbn in H. injection H as <- <-.
      by destruct h.
Qed.

End Runs.

(** ** Totals and references *)

Definition weigh (weight : tchunk -> Z) (g : chunks) (ids : list ptr) : Z :=
  foldr Z.add 0 (map (fun p => match g !! p with Some n => weight n | None => 0 end) ids).

Lemma weigh_app weight g a b : weigh weight g (a ++ b) = weigh weight g a + weigh weight g b.
Proof. unfold weigh. induction a as [|x a IH]; cbn in *; lia. Qed.

Lemma total_loop_tree weight g :
  (forall k n, g !! k = Some n -> tn_loop n = false /\ 0 <= weight n < 2 ^ 64) ->
  (forall q p ids, tree g q p ids -> forall fuel busy, (length ids <= fuel)%nat -> busy ## ids ->
     total_loop fuel weight g busy p = Some (u64 (weigh weight g ids))) /\
  (forall p cs ids, forest g p cs ids -> forall fuel busy acc, (length ids <= fuel)%nat ->
     busy ## ids ->
     foldl (fun total c => t ← total; t' ← total_loop fuel weight g busy c; Some (u64 (t + t')))
       (Some (u64 acc)) cs = Some (u64 (acc + weigh weight g ids))).
Proof.
  intros Hg. apply tree_forest_ind.
  - intros q p n ids Hp _ _ IH Hnin fuel busy Hf Hb. destruct fuel as [|fuel]; [cbn in Hf; lia|].
    destruct (Hg _ _ Hp) as [Hl Hw]. cbn [total_loop]. rewrite Hp. cbn [mbind option_bind].
    rewrite Hl, bool_decide_eq_false_2 by set_solver. cbn [orb].
    rewrite <- (u64_small (weight n)) by done. rewrite IH; [|cbn in Hf; lia|set_solver].
    unfold weigh. cbn. by rewrite Hp.
  - intros p fuel busy acc _ _. cbn. f_equal. f_equal. unfold weigh. cbn. lia.
  - intros p c cs a b _ IH1 _ IH2 Hab fuel busy acc Hf Hb. rewrite length_app in Hf. cbn [foldl].
    rewrite IH1 by (lia || set_solver). cbn [mbind option_bind].
    rewrite u64_add. rewrite IH2 by (lia || set_solver). by rewrite weigh_app, Z.add_assoc.
Qed.

(** Taking the handle away again leaves the heap as it was. *)
Lemma refer_undone g c r p n0 hn n1 :
  shape_ok g -> links_ok g -> g !! r = None -> tn_parent n0 = None -> tn_child n0 = [] ->
  c <> Some r -> r <> p -> rehang c r (<[r := n0]> g) !! p = Some n1 ->
  prune [r] (refer r p hn n1 (rehang c r (<[r := n0]> g))) = g.
Proof.
  intros Hs L Hr Hn0 Hc0 Hc Hrp Hp1.
  assert (Hsf : shape_ok (<[r := n0]> g)) by (by apply shape_fresh).
  pose proof (fun k => lookup_rehang _ c r n0 k Hsf (lookup_insert_eq g r n0) Hc) as Hl.
  assert (Hin : forall l : list ptr, r ∉ l -> filter (.∉ [r]) l = l).
  { intros l Hl'. apply filter_id. set_solver. }
  assert (Hcn : forall k m, g !! k = Some m -> r ∉ tn_child m /\ r ∉ tn_refs m).
  { intros k m Hm. split; intros Hx.
    - destruct (sh_child _ Hs _ _ _ Hm Hx) as (? & ? & _). congruence.
    - destruct (lk_ref _ L _ _ _ Hm Hx) as (? & ? & _). congruence. }
  assert (Hk : forall k, k <> r -> rehang c r (<[r := n0]> g) !! k =
            (fun m => set_child (if decide (c = Some k) then r :: tn_child m else tn_child m) m)
              <$> g !! k).
  { intros k Hk. rewrite Hl, lookup_insert_ne by done. destruct (g !! k) as [m|] eqn:Hm; [|done].
    cbn. f_equal. rewrite (decide_False (P := k = r)) by done.
    rewrite remove_from_id by (by eapply Hcn). done. }
  assert (Hback : forall k (b : bool) m, g !! k = Some m ->
            filter (.∉ [r]) (if b then r :: tn_child m else tn_child m) = tn_child m).
  { intros k [|] m Hm; [rewrite filter_cons_False by set_solver|]; by eapply Hin, Hcn. }
  apply map_eq. intros k. rewrite lookup_prune. destruct (decide (k ∈ [r])) as [Hkr|Hkr].
  { assert (k = r) as -> by set_solver. done. }
  assert (k <> r) as Hkr' by set_solver. unfold refer.
  destruct (decide (k = p)) as [->|Hkp].
  - rewrite lookup_insert_eq. rewrite Hk in Hp1 by done.
    apply fmap_Some in Hp1 as (m & Hm & ->). rewrite Hm. cbn [fmap option_fmap option_map]. f_equal.
    destruct (Hcn _ _ Hm) as [_ Hrm]. specialize (Hback p (bool_decide (c = Some p)) m Hm).
    destruct m. unfold thin, set_refs, set_child.
    cbn [tn_parent tn_child tn_refs tn_destructor tn_name tn_size tn_loop tn_handle] in *. f_equal.
    + unfold bool_decide in Hback. by case_decide.
    + rewrite filter_cons_False by set_solver. by apply Hin.
  - rewrite !lookup_insert_ne, Hk by done. destruct (g !! k) as [m|] eqn:Hm; [|done]. cbn [fmap option_fmap option_map]. f_equal.
    destruct (Hcn _ _ Hm) as [_ Hrm]. specialize (Hback k (bool_decide (c = Some k)) m Hm).
    destruct m. unfold thin, set_refs, set_child.
    cbn [tn_parent tn_child tn_refs tn_destructor tn_name tn_size tn_loop tn_handle] in *. f_equal.
    + unfold bool_decide in Hback. by case_decide.
    + by apply Hin.
Qed.

(** The heap after [talloc_reference], seen from the one before: the handle [r] below the
    context is all there is. *)
Lemma reference_adds_handle h c p n h1 :
  heap_ok h -> th_chunks h !! p = Some n -> talloc_reference h c p = Some (Some p, h1) ->
  exists r hn, th_chunks h1 !! r = Some hn /\ r <> p /\
    tn_parent hn = context_of h c /\ tn_child hn = [] /\ tn_refs hn = [] /\
    tn_destructor hn = DReference /\ tn_loop hn = false /\ null_context h1 = null_context h /\
    (exists n1, th_chunks h1 !! p = Some n1 /\ tn_refs n1 = r :: tn_refs n /\
       tn_parent n1 = tn_parent n) /\
    prune [r] (th_chunks h1) = th_chunks h.
Proof.
  intros Hok Hp H.
  destruct (reference_refer _ _ _ _ _ Hok H) as [[? _]|(h2 & r & hn & n1 & _ & Ha & Hr & Hp1 & Hrp & ->)];
    [done|].
  destruct (alloc_rehang _ _ _ _ _ _ Ha HANDLE_SIZE_pos Hok) as
    [[? _]|(q & c' & n0 & [= <-] & _ & _ & Ec & Hc & Hn & Hfresh & ->)]; [done|].
  cbn [th_chunks with_chunks null_context] in *. set (g := th_chunks h) in *.
  pose proof (ho_shape _ Hok) as Hs. pose proof (ho_links _ Hok) as L. fold g in Hs, L.
  assert (Hcr : c' <> Some r). { intros ->. rewrite Hfresh in Hc. by destruct Hc. }
  assert (Hsf : shape_ok (<[r:=n0]> g)) by (by apply shape_fresh; subst).
  pose proof (fun k => lookup_rehang _ c' r n0 k Hsf (lookup_insert_eq g r n0) Hcr) as Hl.
  rewrite Hl, lookup_insert_eq in Hr.
  pose proof Hp1 as Hp2. rewrite Hl, lookup_insert_ne, Hp in Hp1 by done.
  cbn in Hr, Hp1. rewrite !(decide_True (P := r = r)) in Hr by done. rewrite decide_False in Hr by done.
  rewrite !(decide_False (P := p = r)) in Hp1 by done.
  injection Hr as <-. injection Hp1 as Hn1.
  exists r. eexists. unfold refer at 1. rewrite lookup_insert_ne, lookup_insert_eq by done.
  split; [done|]. subst n0. split_and!; try done.
  - unfold refer. rewrite lookup_insert_eq. eexists. split; [done|]. by subst n1.
  - by apply refer_undone.
Qed.

Lemma free_handle agrees h r hn :
  links_ok (th_chunks h) -> th_chunks h !! r = Some hn -> tn_child hn = [] -> tn_refs hn = [] ->
  tn_destructor hn = DReference -> tn_loop hn = false ->
  free_internal agrees (free_fuel h) h r = Some (0, with_chunks h (prune [r] (th_chunks h))).
Proof.
  intros L Hr Hc Hrefs Hd Hl. apply (proj1 (free_tree_loop agrees _) h (tn_parent hn)); [done| | |].
  - apply (tree_node _ _ _ hn); [done|done| |by apply not_elem_of_nil]. rewrite Hc. constructor.
  - intros x n Hx Hn. assert (x = r) as -> by set_solver. simplify_eq. unfold quiet. by rewrite Hd.
  - unfold free_fuel. assert (0 < size (th_chunks h))%nat; [|cbn; lia].
    apply Nat.neq_0_lt_0. intros E. apply map_size_empty_inv in E. rewrite E in Hr.
    by rewrite lookup_empty in Hr.
Qed.

Lemma steal_again h c p :
  is_Some (th_chunks h !! p) ->
  match context_of h c with Some c => is_Some (th_chunks h !! c) | None => True end ->
  exists h', talloc_steal h c p = Some h'.
Proof.
  intros [n Hp] Hc. unfold talloc_steal. rewrite Hp. cbn [mbind option_bind].
  destruct (context_of h c) as [q|]; [|by eexists]. destruct Hc as [m Hq]. rewrite Hq.
  cbn [mbind option_bind]. case_decide; [by eexists|]. case_decide; by eexists.
Qed.

Lemma context_of_idem h c : context_of h (context_of h c) = context_of h c.
Proof. unfold context_of. by destruct c, (null_context h). Qed.

(** The context that owns the first reference takes it away. *)
Lemma unreference_first agrees h c p n r rs hn h' :
  th_chunks h !! p = Some n -> tn_refs n = r :: rs -> th_chunks h !! r = Some hn ->
  tn_parent hn = context_of h c -> free_internal agrees (free_fuel h) h r = Some (0, h') ->
  talloc_unreference agrees h c p = Some (0, h').
Proof.
  intros Hp Hrs Hr Hpar Hf. unfold talloc_unreference, talloc_parent_chunk.
  rewrite Hp. cbn [mbind option_bind]. rewrite Hrs. cbn [find_ref]. unfold talloc_parent_chunk.
  rewrite Hr. cbn [mbind option_bind]. by rewrite decide_True.
Qed.

(** The parent of a chunk with one reference hands it to the owner of the reference. *)
Lemma unlink_parent agrees h p n r hn h' h3 :
  th_chunks h !! p = Some n -> tn_refs n = [r] -> th_chunks h !! r = Some hn ->
  context_of h (tn_parent n) = tn_parent n -> context_of h (tn_parent hn) = tn_parent hn ->
  tn_parent n <> tn_parent hn -> free_internal agrees (free_fuel h) h r = Some (0, h') ->
  talloc_steal h' (tn_parent hn) p = Some h3 ->
  talloc_unlink agrees h (tn_parent n) p = Some (0, h3).
Proof.
  intros Hp Hrs Hr Hc Hch Hne Hf H3. unfold talloc_unlink. rewrite Hc.
  assert (Hno : talloc_unreference agrees h (tn_parent n) p = Some (-1, h)).
  { unfold talloc_unreference. rewrite Hp. cbn [mbind option_bind]. rewrite Hrs, Hc.
    cbn [find_ref]. unfold talloc_parent_chunk. rewrite Hr. cbn [mbind option_bind].
    by rewrite decide_False by congruence. }
  rewrite Hno. cbn [mbind option_bind]. change (-1 =? 0) with false. cbn iota.
  rewrite Hp. cbn [mbind option_bind]. rewrite decide_False by (intros E; by apply E).
  rewrite Hrs. unfold talloc_parent_chunk. rewrite Hr. cbn [mbind option_bind].
  rewrite (unreference_first agrees h (tn_parent hn) p n r [] hn h') by done.
  cbn [mbind option_bind]. change (negb (0 =? 0)) with false. cbn iota. by rewrite H3.
Qed.

Section Claims.
Variable agrees : nat -> ptr -> bool.

Definition reachable : theap -> Prop := rtc (heap_step agrees) empty_heap.

Lemma reachable_ok h : reachable h -> heap_ok h.
Proof.
  unfold reachable. generalize empty_heap_ok. generalize empty_heap. intros h0 Hok H.
  induction H as [|? ? ? Hs _ IH]; [done|]. by eapply IH, step_heap_ok.
Qed.

(** C24: the heap stays a forest of chunks while chunks are allocated, given destructors,
    referred to, moved (not to a place below themselves) and freed, where a free is one of
    these: nothing below the chunk is referred to from elsewhere and every destructor in its
    tree agrees, or the free is refused at once (the chunk is referred to, or its own
    destructor refuses).  Destructors that refuse below the chunk that is freed, and with
    them the children that are moved to another parent because they could not be freed, are
    not covered.  A chunk is in the list of children of its parent once and in no other, no
    chunk is below itself, and the lists of references hold exactly the handles.  So every
    chunk is the root of a finite tree, whose chunks are those below it. *)
Theorem heap_invariant h :
  reachable h ->
  heap_ok h /\
  forall p n, th_chunks h !! p = Some n ->
    exists ids, tree (th_chunks h) (tn_parent n) p ids /\ NoDup ids /\
                forall x, x ∈ ids <-> below_chunk (th_chunks h) x p.
Proof.
  intros Hr%reachable_ok. split; [done|]. intros p n Hp.
  destruct (tree_exists _ (ho_shape _ Hr) _ _ Hp) as (ids & Ht). exists ids.
  split; [done|]. split; [by eapply (proj1 (tree_NoDup _))|]. by eapply (proj1 (tree_below _)).
Qed.

(** C23: [talloc_free] of a chunk into whose tree no reference leads, and whose destructors
    agree and do not change the heap, returns 0 and frees exactly the chunks below it, each
    once; every other chunk is kept, and forgets the freed ones (a freed handle leaves the
    references of its target).  The heap is one that the operations of [heap_step] reach. *)
Theorem talloc_free_subtree h p n :
  reachable h -> th_chunks h !! p = Some n -> may_go_below agrees h p ->
  exists h', talloc_free agrees h p = Some (0, h') /\ heap_ok h' /\
    (forall x, below_chunk (th_chunks h) x p -> th_chunks h' !! x = None) /\
    (forall x m, ~ below_chunk (th_chunks h) x p -> th_chunks h !! x = Some m ->
       exists m', th_chunks h' !! x = Some m' /\ tn_parent m' = tn_parent m /\
         tn_size m' = tn_size m /\ tn_destructor m' = tn_destructor m /\
         (forall y, y ∈ tn_child m' <-> y ∈ tn_child m /\ y <> p) /\
         (forall y, y ∈ tn_refs m' <-> y ∈ tn_refs m /\ ~ below_chunk (th_chunks h) y p)).
Proof.
  intros Hok%reachable_ok Hp Hgo. destruct (free_below _ _ _ _ Hok Hp Hgo) as (ids & Ht & Hq & Hf).
  pose proof (proj1 (tree_below _) _ _ _ Ht) as Hb.
  eexists. split; [done|]. split; [by eapply prune_tree_heap_ok|]. cbn [th_chunks with_chunks]. split.
  - intros x Hx. rewrite lookup_prune, decide_True; [done|by apply Hb].
  - intros x m Hx Hm. rewrite <- Hb in Hx. rewrite lookup_prune, decide_False, Hm by done.
    eexists. split; [done|]. cbn. split_and!; [done..| |].
    + intros y. rewrite list_elem_of_filter. split; intros [H1 H2].
      * split; [done|]. intros ->. apply H1, Hb, rtc_refl.
      * split; [|done]. rewrite Hb. intros [->|(z & Hyz & Hzp)]%rtc_inv; [done|].
        apply Hx, Hb. rewrite (child_of_functional _ (ho_shape _ Hok) y x z); [done|by exists m|done].
    + intros y. rewrite list_elem_of_filter, Hb. naive_solver.
Qed.

(** [talloc_total_blocks] counts the chunks below a chunk, itself included, and
    [talloc_total_size] adds up their sizes, handles left out, both modulo 2^64. *)
Theorem talloc_totals h p n :
  reachable h -> th_chunks h !! p = Some n ->
  exists ids, NoDup ids /\ (forall x, x ∈ ids <-> below_chunk (th_chunks h) x p) /\
    talloc_total_blocks h (Some p) = Some (u64 (zlen ids)) /\
    talloc_total_size h (Some p) =
      Some (u64 (weigh (fun n => match tn_handle n with Some _ => 0 | None => tn_size n end)
                       (th_chunks h) ids)).
Proof.
  intros Hok%reachable_ok Hp. destruct (tree_exists _ (ho_shape _ Hok) _ _ Hp) as (ids & Ht).
  exists ids. split; [by eapply (proj1 (tree_NoDup _))|]. split; [by eapply (proj1 (tree_below _))|].
  pose proof (talloc_tree_size _ _ _ _ Ht) as Hsz.
  unfold talloc_total_blocks, talloc_total_size, talloc_total. cbn [context_of]. split.
  - erewrite (proj1 (total_loop_tree (fun _ => 1) _ _)); [|done|lia|set_solver].
    Unshelve. 2: { intros k m Hk. split; [by apply (ho_idle _ Hok k m)|lia]. }
    do 2 f_equal. clear - Ht. pose proof (proj1 (tree_dom _) _ _ _ Ht) as Hd.
    unfold weigh, zlen. clear Ht. induction ids as [|x ids IH]; [done|]. cbn.
    destruct (Hd x ltac:(by left)) as [m ->]. rewrite IH by (intros; apply Hd; by right). lia.
  - erewrite (proj1 (total_loop_tree _ _ _)); [done|done|lia|set_solver].
    Unshelve. intros k m Hk. destruct (ho_idle _ Hok k m Hk) as (Hl & _ & Hz). split; [done|].
    unfold MAX_TALLOC_SIZE in Hz. destruct (tn_handle m); lia.
Qed.

(** A second owner.  After [talloc_reference c p], [talloc_free p] is refused and nothing
    changes; [talloc_unlink] by the second owner takes the handle away and leaves the heap as
    it was; [talloc_unlink] by the first owner takes the handle away too and makes [c] the
    parent, so the chunk lives until its last owner lets go, in either order. *)
Theorem talloc_reference_unlink h c p n h1 :
  reachable h -> th_chunks h !! p = Some n -> talloc_reference h c p = Some (Some p, h1) ->
  talloc_free agrees h1 p = Some (-1, h1) /\
  exists h2, th_chunks h2 = th_chunks h /\ null_context h2 = null_context h /\
    talloc_unlink agrees h1 c p = Some (0, h2) /\
    (tn_refs n = [] -> context_of h (tn_parent n) = tn_parent n ->
     tn_parent n <> context_of h c ->
     exists h3, talloc_steal h2 c p = Some h3 /\
                talloc_unlink agrees h1 (tn_parent n) p = Some (0, h3)).
Proof.
  intros Hok%reachable_ok Hp H. pose proof (reference_heap_ok _ _ _ _ _ Hok H) as Hok1.
  destruct (reference_adds_handle _ _ _ _ _ Hok Hp H) as
    (r & hn & Hr & Hrp & Hpar & Hch & Hrefs & Hd & Hl & Hnull & (n1 & Hp1 & Hr1 & Hpar1) & Hpr).
  pose proof (free_handle agrees h1 r hn (ho_links _ Hok1) Hr Hch Hrefs Hd Hl) as Hfree.
  rewrite Hpr in Hfree. set (h2 := with_chunks h1 (th_chunks h)) in *.
  assert (Hctx : forall x, context_of h1 x = context_of h x /\ context_of h2 x = context_of h x).
  { intros x. unfold context_of. cbn. by rewrite Hnull. }
  assert (Hsteal : talloc_steal h2 (tn_parent hn) p = talloc_steal h2 c p).
  { unfold talloc_steal. by rewrite !(proj2 (Hctx _)), Hpar, context_of_idem. }
  split; [unfold talloc_free; rewrite Hp1; cbn [mbind option_bind]; by rewrite Hr1|].
  exists h2. split_and!; [done|done| |].
  - unfold talloc_unlink. erewrite unreference_first; [done..| |done].
    by rewrite (proj1 (Hctx c)), (proj1 (Hctx _)), context_of_idem.
  - intros Hn Hq Hne. destruct (steal_again h2 c p) as (h3 & H3).
    { cbn [th_chunks with_chunks h2]. by eexists. }
    { rewrite (proj2 (Hctx c)). destruct (context_of h c) as [q|]; [|done].
      cbn [th_chunks with_chunks h2].
      destruct (sh_parent _ (ho_shape _ Hok1) _ _ _ Hr Hpar) as (m & Hm & Hin).
      rewrite <- Hpr, lookup_prune, decide_False, Hm; [by eexists|].
      intros ->%list_elem_of_singleton. simplify_eq. rewrite Hch in Hin. by apply elem_of_nil in Hin. }
    exists h3. split; [done|]. rewrite <- Hpar1. rewrite Hn in Hr1.
    eapply (unlink_parent _ _ _ _ r hn h2); [done..| | | |done|by rewrite Hsteal].
    + by rewrite (proj1 (Hctx _)), Hpar1.
    + by rewrite (proj1 (Hctx _)), Hpar, context_of_idem.
    + by rewrite Hpar1, Hpar.
Qed.

End Claims.

(** ** An example

    Chunks 2 and 4 hang below 1, chunk 3 below 2, and 2 has a reference, the handle 5, to 4. *)
Definition yes (d : nat) (p : ptr) : bool := true.

Definition heap_of (r : option (option ptr * theap)) : theap :=
  match r with Some (_, h) => h | None => empty_heap end.

Definition ex1 := heap_of (talloc_named_const empty_heap None 100 None).
Definition ex2 := heap_of (talloc_named_const ex1 (Some 1%nat) 8 None).
Definition ex3 := heap_of (talloc_named_const ex2 (Some 2%nat) 16 None).
Definition ex4 := heap_of (talloc_named_const ex3 (Some 1%nat) 24 None).
Definition ex5 := heap_of (talloc_reference ex4 (Some 2%nat) 4).

Lemma ex4_reachable : reachable yes ex4.
Proof.
  eapply rtc_l; [eapply (step_alloc _ _ None 100 None); [lia|vm_compute; reflexivity]|].
  eapply rtc_l; [eapply (step_alloc _ _ (Some 1%nat) 8 None); [lia|vm_compute; reflexivity]|].
  eapply rtc_l; [eapply (step_alloc _ _ (Some 2%nat) 16 None); [lia|vm_compute; reflexivity]|].
  eapply rtc_l; [eapply (step_alloc _ _ (Some 1%nat) 24 None); [lia|vm_compute; reflexivity]|].
  apply rtc_refl.
Qed.

Lemma ex5_reachable : reachable yes ex5.
Proof.
  eapply rtc_r; [apply ex4_reachable|].
  eapply (step_reference _ _ (Some 2%nat) 4 (Some 4%nat)). vm_compute. reflexivity.
Qed.

Lemma ex5_tree : tree (th_chunks ex5) (Some 1%nat) 2 [2; 5; 3]%nat.
Proof.
  assert (Hl : forall q p n, th_chunks ex5 !! p = Some n -> tn_child n = [] -> tn_parent n = q ->
            tree (th_chunks ex5) q p [p]).
  { intros q p n H1 H2 H3. econstructor; [done|done| |by apply not_elem_of_nil].
    rewrite H2. constructor. }
  eapply tree_node; [vm_compute; reflexivity|reflexivity| |by apply (bool_decide_unpack _)].
  apply (forest_cons _ _ _ _ [5%nat] [3%nat]);
    [by eapply (Hl _ 5%nat); [vm_compute; reflexivity|..]| |intros x; rewrite !list_elem_of_singleton; by intros -> ?].
  apply (forest_cons _ _ _ _ [3%nat] []);
    [by eapply (Hl _ 3%nat); [vm_compute; reflexivity|..]|constructor|by intros x _ ?%elem_of_nil].
Qed.

Lemma ex5_may_go : may_go_below yes ex5 2.
Proof.
  intros x n Hx Hn. apply (proj1 (tree_below _) _ _ _ ex5_tree) in Hx.
  assert (Hall : forall x, x ∈ [2; 5; 3]%nat -> forall n, th_chunks ex5 !! x = Some n -> may_go yes x n).
  { clear. intros x Hx n. repeat (apply elem_of_cons in Hx as [->|Hx]; [vm_compute; intros [= <-]; by split|]).
    by apply elem_of_nil in Hx. }
  by apply (Hall x Hx).
Qed.

Lemma heap_invariant_witness :
  heap_ok ex5 /\
  forall p n, th_chunks ex5 !! p = Some n ->
    exists ids, tree (th_chunks ex5) (tn_parent n) p ids /\ NoDup ids /\
                forall x, x ∈ ids <-> below_chunk (th_chunks ex5) x p.
Proof. apply (heap_invariant yes). exact ex5_reachable. Defined.

Lemma talloc_free_subtree_witness :
  exists n h', th_chunks ex5 !! 2%nat = Some n /\ talloc_free yes ex5 2 = Some (0, h').
Proof.
  destruct (th_chunks ex5 !! 2%nat) as [n|] eqn:E; [|vm_compute in E; discriminate E].
  destruct (talloc_free_subtree yes ex5 2 n ex5_reachable E ex5_may_go) as (h' & H & _).
  exists n, h'. split; [reflexivity|exact H].
Defined.

Lemma talloc_totals_witness :
  exists n (ids : list ptr), th_chunks ex5 !! 2%nat = Some n /\
    talloc_total_blocks ex5 (Some 2%nat) = Some (u64 (zlen ids)).
Proof.
  destruct (th_chunks ex5 !! 2%nat) as [n|] eqn:E; [|vm_compute in E; discriminate E].
  destruct (talloc_totals yes ex5 2 n ex5_reachable E) as (ids & _ & _ & H & _).
  exists n, ids. split; [reflexivity|exact H].
Defined.

Lemma talloc_reference_unlink_witness :
  exists h2 h3, th_chunks h2 = th_chunks ex4 /\
    talloc_unlink yes ex5 (Some 2%nat) 4 = Some (0, h2) /\
    talloc_unlink yes ex5 (Some 1%nat) 4 = Some (0, h3).
Proof.
  destruct (th_chunks ex4 !! 4%nat) as [n|] eqn:E; [|vm_compute in E; discriminate E].
  assert (En : tn_refs n = [] /\ tn_parent n = Some 1%nat).
  { vm_compute in E. injection E as <-. split; reflexivity. }
  destruct En as [Er Ep].
  destruct (talloc_reference_unlink yes ex4 (Some 2%nat) 4 n ex5 ex4_reachable E) as
    (_ & h2 & H1 & _ & H2 & H3); [vm_compute; reflexivity|].
  rewrite Ep in H3. destruct H3 as (h3 & _ & H3); [exact Er|reflexivity|discriminate|].
  exists h2, h3. split; [exact H1|]. split; [exact H2|exact H3].
Defined.

(** Freeing 2 makes 4 forget the handle 5; the totals count the handle but not its size. *)
Example ex5_free :
  (r ← talloc_free yes ex5 2; Some (fst r, tn_refs <$> th_chunks (snd r) !! 4%nat,
                                    tn_child <$> th_chunks (snd r) !! 1%nat)) =
    Some (0, Some [], Some [4%nat]) /\
  talloc_total_blocks ex5 (Some 2%nat) = Some 3 /\ talloc_total_size ex5 (Some 2%nat) = Some 24 /\
  (fst <$> talloc_free yes ex5 1 = Some 0) /\ (fst <$> talloc_free yes ex5 4 = Some (-1)).
Proof. vm_compute. done. Qed.
