(* ===== verification/StringIO.v ===== *)
(** * StringIO: the in-memory byte stream (lib/stringio.c)

    Every operation of the class is a function on [StringIO]; a memory access
    outside the buffer's block makes it [None].  [byte_stream] is the abstract
    stream the class promises, and the lemmas show that each operation
    implements it on well-formed buffers. *)
From S2P Require Import Prelude Talloc.

(** include/stringio.h: the fields of the class. *)
Record StringIO := {
  sio_size : Z;
  sio_alloc_size : Z;
  sio_readptr : Z;
  sio_data : option talloc_chunk
}.

Section StringIO.

Variable junk : nat -> Z.

Definition StringIO_constructor : StringIO :=
  {| sio_data := talloc_size 1024;
     sio_alloc_size := 1024;
     sio_size := 0;
     sio_readptr := 0 |}.

Definition StringIO_write (self : StringIO) (data : list Z)
  : option (Z * StringIO) :=
  let len := zlen data in
  let '(alloc, mem) :=
    if u64 (sio_readptr self + len) >=? u64 (sio_alloc_size self) then
      let alloc := i32 (sio_alloc_size self + (sio_readptr self + len)) in
      (alloc, talloc_realloc junk (sio_data self) (u64 alloc))
    else (sio_alloc_size self, sio_data self) in
  let size :=
    if u64 (sio_readptr self + len) >? u64 (sio_size self)
    then i32 (sio_readptr self + len) else sio_size self in
  mem' ← mem_write mem (sio_readptr self) data;
  Some (i32 len,
        {| sio_size := size; sio_alloc_size := alloc;
           sio_readptr := u64 (sio_readptr self + len);
           sio_data := Some mem' |}).

(** [data] is the formatted text, of length [strlen(data)]. *)
Definition StringIO_sprintf (self : StringIO) (data : list Z)
  : option (Z * StringIO) :=
  let len := zlen data in
  let '(size, mem) :=
    if u64 (sio_readptr self + len) >? u64 (sio_size self) then
      let size := i32 (sio_readptr self + len) in
      (size, talloc_realloc junk (sio_data self) (u64 (i32 (size + 1))))
    else (sio_size self, sio_data self) in
  mem' ← mem_write mem (sio_readptr self) data;
  Some (len,
        {| sio_size := size; sio_alloc_size := sio_alloc_size self;
           sio_readptr := u64 (sio_readptr self + len);
           sio_data := Some mem' |}).

(** Returns the bytes stored in the caller's buffer; the C result is their
    number. *)
Definition StringIO_read (self : StringIO) (len : Z)
  : option (list Z * StringIO) :=
  let len :=
    if u64 (sio_readptr self + len) >? u64 (sio_size self)
    then i32 (sio_size self - sio_readptr self) else len in
  bytes ← mem_read (sio_data self) (sio_readptr self) len;
  Some (bytes,
        {| sio_size := sio_size self; sio_alloc_size := sio_alloc_size self;
           sio_readptr := u64 (sio_readptr self + len);
           sio_data := sio_data self |}).

(** The loop of [StringIO_read_stream]; every turn that does not stop moves at
    least one byte, so [length] turns and one more are enough. *)
Fixpoint read_stream_loop (fuel : nat) (self stream : StringIO) (length : Z)
  : option (Z * StringIO * StringIO) :=
  if length >? 0 then
    match fuel with
    | O => None
    | S fuel' =>
        '(buff, stream') ← StringIO_read stream (Z.min length BUFF_SIZE);
        if zlen buff =? 0 then Some (length, self, stream')
        else
          '(_, self') ← StringIO_write self buff;
          read_stream_loop fuel' self' stream' (length - zlen buff)
    end
  else Some (length, self, stream).

Definition StringIO_read_stream (self stream : StringIO) (length : Z)
  : option (Z * StringIO * StringIO) :=
  read_stream_loop (S (Z.to_nat length)) self stream length.

Definition StringIO_write_stream (self stream : StringIO) (length : Z)
  : option (Z * StringIO * StringIO) :=
  StringIO_read_stream stream self length.

Definition StringIO_seek (self : StringIO) (offset : Z) (w : whence)
  : sum aff4_error (Z * StringIO) :=
  let seek_to readptr :=
    let readptr := u64 readptr in
    if readptr >? u64 (sio_size self) then
      (readptr,
       {| sio_size := i32 readptr; sio_alloc_size := sio_alloc_size self;
          sio_readptr := readptr;
          sio_data := talloc_realloc junk (sio_data self) readptr |})
    else
      (readptr,
       {| sio_size := sio_size self; sio_alloc_size := sio_alloc_size self;
          sio_readptr := readptr; sio_data := sio_data self |}) in
  match w with
  | SEEK_SET => inr (seek_to offset)
  | SEEK_CUR => inr (seek_to (sio_readptr self + offset))
  | SEEK_END => inr (seek_to (sio_size self + offset))
  | SEEK_OTHER => inl EInvalidParameter
  end.

Definition StringIO_eof (self : StringIO) : bool :=
  sio_readptr self =? u64 (sio_size self).

(** The pointer handed out is the offset of the read pointer in the block. *)
Definition StringIO_get_buffer (self : StringIO) : Z * Z :=
  (sio_readptr self, i32 (sio_size self - sio_readptr self)).

Definition StringIO_truncate (self : StringIO) (len : Z) : StringIO :=
  {| sio_size := len; sio_alloc_size := sio_alloc_size self;
     sio_readptr :=
       if sio_readptr self >? u64 len then u64 len else sio_readptr self;
     sio_data := sio_data self |}.

Definition StringIO_skip (self : StringIO) (len : Z) : option StringIO :=
  let len := if len >? sio_size self then sio_size self else len in
  moved ← mem_read (sio_data self) len (sio_size self - len);
  mem' ← mem_write (sio_data self) 0 moved;
  Some {| sio_size := sio_size self - len;
          sio_alloc_size := sio_alloc_size self;
          sio_readptr := 0; sio_data := Some mem' |}.

(** The scan shared by [find] and [ifind]: the first offset at which [eq]
    accepts the [n] bytes there, [Some None] without one; reading outside of the data is
    [None]. *)
Fixpoint scan (eq : list Z -> bool) (d : option talloc_chunk) (n : Z)
    (i : Z) (fuel : nat) : option (option Z) :=
  match fuel with
  | O => Some None
  | S fuel' =>
      match mem_read d i n with
      | Some bs => if eq bs then Some (Some i) else scan eq d n (i + 1) fuel'
      | None => None
      end
  end.

Definition StringIO_find (self : StringIO) (needle : list Z) : option (option Z) :=
  let needle_size := zlen needle in
  if sio_size self <? needle_size then Some None
  else scan (fun bs => bool_decide (bs = needle)) (sio_data self) needle_size
         0 (Z.to_nat (sio_size self - needle_size + 1)).

(** [tolower] in the C locale, as [strncasecmp] applies it. *)
Definition tolower (c : Z) : Z := if (65 <=? c) && (c <=? 90) then c + 32 else c.

Definition StringIO_ifind (self : StringIO) (needle : list Z) : option (option Z) :=
  if sio_size self <? zlen needle then Some None
  else scan (fun bs => bool_decide (map tolower bs = map tolower needle))
         (sio_data self) (zlen needle)
         0 (Z.to_nat (sio_size self - zlen needle + 1)).

End StringIO.

(** ** The abstract stream *)

Record byte_stream := { bs_contents : list Z; bs_pos : Z }.

Definition bs_write (src : list Z) (s : byte_stream) : byte_stream :=
  {| bs_contents := zover (bs_pos s) src (bs_contents s);
     bs_pos := bs_pos s + zlen src |}.

Definition bs_read (n : Z) (s : byte_stream) : list Z * byte_stream :=
  let got := zread (bs_pos s) n (bs_contents s) in
  (got, {| bs_contents := bs_contents s; bs_pos := bs_pos s + zlen got |}).

(** The stream a buffer represents. *)
Definition sio_bytes (s : StringIO) : list Z :=
  match sio_data s with
  | Some tc => ztake (sio_size s) (tc_mem tc)
  | None => []
  end.

Definition sio_abs (s : StringIO) : byte_stream :=
  {| bs_contents := sio_bytes s; bs_pos := sio_readptr s |}.

(** The buffers the write path works with: the read pointer is inside the
    contents, the contents inside what [alloc_size] promises, and that inside
    the block that is really there. *)
Definition sio_wf (s : StringIO) : Prop :=
  exists tc, sio_data s = Some tc /\ chunk_ok tc /\
    0 <= sio_readptr s <= sio_size s /\
    sio_size s <= sio_alloc_size s <= zlen (tc_mem tc) /\
    0 < sio_alloc_size s < MAX_TALLOC_SIZE.

(** ** Lemmas *)

Lemma sio_wf_bytes_len s : sio_wf s -> zlen (sio_bytes s) = sio_size s.
Proof.
  intros (tc & Hd & Hok & ? & ? & ?). unfold sio_bytes. rewrite Hd.
  zlen_lia.
Qed.

Lemma sio_constructor_wf : sio_wf StringIO_constructor.
Proof.
  destruct (talloc_size_ok 1024) as (tc & Htc & Hok & Hlen & _);
    [unfold MAX_TALLOC_SIZE; lia|].
  exists tc. unfold StringIO_constructor, MAX_TALLOC_SIZE. simpl.
  rewrite Htc. repeat split; try apply Hok; lia.
Qed.

Lemma sio_constructor_bytes : sio_bytes StringIO_constructor = [].
Proof. reflexivity. Qed.

(** What overwriting does to a prefix of the block that covers it. *)
Lemma zover_prefix {A} (off n : Z) (src m : list A) :
  0 <= off <= n -> off <= zlen m -> n <= zlen m ->
  ztake (Z.max n (off + zlen src)) (zover off src m)
  = zover off src (ztake n m).
Proof.
  intros H1 H2 H3. unfold zover. pose proof (zlen_nonneg src).
  rewrite !app_assoc.
  rewrite ztake_ztake by lia.
  rewrite ztake_app_ge by zlen_lia. f_equal.
  destruct (decide (n <= off + zlen src)).
  - rewrite (zdrop_all (off + zlen src) (ztake n m)) by zlen_lia.
    apply ztake_0. zlen_lia.
  - rewrite zdrop_ztake by lia. f_equal. zlen_lia.
Qed.

Section Specs.

Variable junk : nat -> Z.

Local Abbreviation MAX := MAX_TALLOC_SIZE.

(** The block [StringIO_write] copies into, whether it was grown or not. *)
Lemma sio_write_block s len :
  sio_wf s -> 0 <= len -> 2 * (sio_readptr s + len) < MAX ->
  exists tc tc' alloc,
    sio_data s = Some tc /\
    (if u64 (sio_readptr s + len) >=? u64 (sio_alloc_size s) then
       (i32 (sio_alloc_size s + (sio_readptr s + len)),
        talloc_realloc junk (sio_data s)
          (u64 (i32 (sio_alloc_size s + (sio_readptr s + len)))))
     else (sio_alloc_size s, sio_data s)) = (alloc, Some tc') /\
    chunk_ok tc' /\ sio_readptr s + len <= alloc <= zlen (tc_mem tc') /\
    sio_size s <= alloc < MAX /\ 0 < alloc /\
    ztake (sio_size s) (tc_mem tc') = ztake (sio_size s) (tc_mem tc).
Proof.
  intros (tc & Hd & Hok & Hr & Ha & Hm) Hl Hmax.
  unfold MAX_TALLOC_SIZE in *. rewrite Hd. cint. rewrite Z.geb_leb.
  destruct (Z.leb_spec (sio_alloc_size s) (sio_readptr s + len)).
  - destruct (talloc_realloc_ok junk tc
      (sio_alloc_size s + (sio_readptr s + len)) Hok)
      as (tc' & -> & Hok' & Hlen & Hpre); [unfold MAX_TALLOC_SIZE; lia|].
    exists tc, tc', (sio_alloc_size s + (sio_readptr s + len)).
    split_and!; try done; try lia. apply Hpre; lia.
  - exists tc, tc, (sio_alloc_size s). split_and!; try done; try lia.
Qed.

Lemma sio_write_spec s src :
  sio_wf s -> 2 * (sio_readptr s + zlen src) < MAX ->
  exists s', StringIO_write junk s src = Some (zlen src, s') /\
    sio_wf s' /\ sio_abs s' = bs_write src (sio_abs s).
Proof.
  intros Hwf Hmax. pose proof (zlen_nonneg src).
  destruct (sio_write_block s (zlen src) Hwf ltac:(lia) Hmax)
    as (tc & tc' & alloc & Hd & Hblk & Hok' & Hneed & Hsz & Hpos & Hpre).
  destruct Hwf as (tc0 & Hd0 & Hok & Hr & Ha & Hm).
  rewrite Hd in Hd0. injection Hd0 as <-.
  unfold StringIO_write. rewrite Hblk.
  rewrite mem_write_ok by lia. cbn [mbind option_bind].
  unfold MAX_TALLOC_SIZE in *. cint.
  eexists; split; [reflexivity|].
  set (size' := if _ >? _ then _ else _).
  assert (size' = Z.max (sio_size s) (sio_readptr s + zlen src)) as Hsize'.
  { unfold size'. case_bool; cint; lia. }
  rewrite Hsize'. split.
  - eexists. simpl. split; [reflexivity|]. unfold chunk_ok in *. simpl.
    unfold MAX_TALLOC_SIZE. rewrite !zlen_zover by lia. split_and!; lia.
  - unfold sio_abs, sio_bytes, bs_write. simpl. rewrite Hd. f_equal.
    rewrite zover_prefix by lia. by rewrite Hpre.
Qed.

Lemma sio_read_spec s n :
  sio_wf s -> 0 <= n < MAX ->
  exists s', StringIO_read s n = Some (zread (sio_readptr s) n (sio_bytes s), s')
    /\ sio_wf s' /\ sio_data s' = sio_data s /\ sio_size s' = sio_size s
    /\ sio_alloc_size s' = sio_alloc_size s
    /\ (zread (sio_readptr s) n (sio_bytes s), sio_abs s')
       = bs_read n (sio_abs s).
Proof.
  intros (tc & Hd & Hok & Hr & Ha & Hm) Hn.
  unfold MAX_TALLOC_SIZE in *. unfold StringIO_read. cint.
  set (len := if _ >? _ then _ else n).
  assert (len = Z.min n (sio_size s - sio_readptr s)) as Hlen.
  { unfold len. case_bool; cint; lia. }
  clearbody len. rewrite Hd, mem_read_ok by lia. cbn [mbind option_bind].
  assert (zread (sio_readptr s) n (sio_bytes s)
          = zread (sio_readptr s) len (tc_mem tc)) as Hsame.
  { unfold sio_bytes. rewrite Hd. unfold zread.
    rewrite zdrop_ztake by lia. subst len.
    destruct (Z.le_gt_cases n (sio_size s - sio_readptr s)).
    - rewrite Z.min_l, ztake_ztake by lia. done.
    - rewrite Z.min_r by lia. apply ztake_all. zlen_lia. }
  assert (zlen (zread (sio_readptr s) n (sio_bytes s)) = len) as Hz.
  { rewrite Hsame. apply zlen_zread; lia. }
  cint. rewrite Hsame. eexists; split; [reflexivity|].
  split_and!; try done.
  - exists tc. simpl. unfold MAX_TALLOC_SIZE. split_and!; try done; lia.
  - unfold sio_abs, bs_read. simpl. unfold sio_bytes in *. simpl.
    rewrite Hd in *. rewrite Hsame in *. rewrite Hz. done.
Qed.

(** Seeking inside the contents moves the read pointer and nothing else. *)
Lemma sio_seek_inside s off :
  sio_wf s -> 0 <= off <= sio_size s ->
  exists s', StringIO_seek junk s off SEEK_SET = inr (off, s') /\
    sio_wf s' /\ sio_abs s' = {| bs_contents := sio_bytes s; bs_pos := off |}
    /\ sio_alloc_size s' = sio_alloc_size s.
Proof.
  intros (tc & Hd & Hok & Hr & Ha & Hm) Hoff. unfold MAX_TALLOC_SIZE in *.
  unfold StringIO_seek. cint. rewrite Z.gtb_ltb.
  destruct (Z.ltb_spec (sio_size s) off); [lia|].
  eexists; split; [reflexivity|]. split_and!; try done.
  exists tc. simpl. unfold MAX_TALLOC_SIZE. split_and!; try done; lia.
Qed.

Lemma sio_truncate_spec s n :
  sio_wf s -> 0 <= n <= sio_size s ->
  sio_wf (StringIO_truncate s n) /\
  sio_abs (StringIO_truncate s n) =
    {| bs_contents := ztake n (sio_bytes s); bs_pos := Z.min n (sio_readptr s) |}.
Proof.
  intros (tc & Hd & Hok & Hr & Ha & Hm) Hn. unfold MAX_TALLOC_SIZE in *.
  unfold StringIO_truncate. cint. split.
  - exists tc. simpl. unfold MAX_TALLOC_SIZE.
    split_and!; try done; try lia; case_bool; lia.
  - unfold sio_abs, sio_bytes. simpl. rewrite Hd. f_equal.
    + rewrite ztake_ztake by lia. done.
    + case_bool; lia.
Qed.

Lemma sio_skip_spec s n :
  sio_wf s -> 0 <= n ->
  exists s', StringIO_skip s n = Some s' /\ sio_wf s' /\
    sio_abs s' = {| bs_contents := zdrop n (sio_bytes s); bs_pos := 0 |}.
Proof.
  intros (tc & Hd & Hok & Hr & Ha & Hm) Hn. unfold StringIO_skip.
  set (k := if _ >? _ then _ else _).
  assert (k = Z.min n (sio_size s)) as Hk by (unfold k; case_bool; lia).
  clearbody k. rewrite Hd, mem_read_ok by lia. cbn [mbind option_bind].
  rewrite mem_write_ok by (rewrite ?zlen_zread; lia). cbn [mbind option_bind].
  eexists; split; [reflexivity|]. split.
  - eexists. simpl. split; [reflexivity|]. unfold chunk_ok in *. simpl.
    rewrite zlen_zover by (rewrite ?zlen_zread; lia). split_and!; lia.
  - unfold sio_abs, sio_bytes. simpl. rewrite Hd. f_equal.
    unfold zover. rewrite (ztake_0 0) by lia. simpl.
    rewrite ztake_app_eq by (rewrite zlen_zread; lia).
    unfold zread. destruct (Z.le_gt_cases n (sio_size s)).
    + rewrite zdrop_ztake by lia. subst k. by rewrite Z.min_l by lia.
    + rewrite (zdrop_all n) by zlen_lia. apply ztake_0. lia.
Qed.

(** The idiom [seek(n); truncate(0)] that preallocates an empty buffer. *)
Lemma sio_preallocate n :
  1024 < n < MAX -> exists r s',
  StringIO_seek junk StringIO_constructor n SEEK_SET = inr (r, s') /\
  sio_wf (StringIO_truncate s' 0) /\ sio_bytes (StringIO_truncate s' 0) = [] /\
  sio_readptr (StringIO_truncate s' 0) = 0 /\
  sio_alloc_size (StringIO_truncate s' 0) = 1024.
Proof.
  intros Hn. destruct (talloc_size_ok 1024) as (tc & Htc & Hok & Hlen & Hsz);
    [unfold MAX_TALLOC_SIZE; lia|].
  destruct (talloc_realloc_ok junk tc n Hok) as (tc' & Htc' & Hok' & Hn' & _);
    [lia|].
  unfold StringIO_seek, StringIO_constructor. cbn [sio_size sio_data sio_alloc_size].
  rewrite Htc. unfold MAX_TALLOC_SIZE in *. cint. rewrite Z.gtb_ltb.
  destruct (Z.ltb_spec 0 n); [|lia]. rewrite Htc'.
  eexists _, _. split; [reflexivity|].
  unfold StringIO_truncate, sio_bytes. simpl. cint.
  split_and!; try done; [|by case_bool; lia].
  exists tc'. simpl. unfold MAX_TALLOC_SIZE.
  split_and!; try done; try lia; case_bool; lia.
Qed.

End Specs.

Lemma scan_spec eq tc n sz i fuel :
  0 <= i -> 0 <= n -> i + Z.of_nat fuel + n <= sz + 1 -> sz <= zlen (tc_mem tc) ->
  match scan eq (Some tc) n i fuel with
  | Some (Some j) => i <= j < i + Z.of_nat fuel /\ eq (zread j n (tc_mem tc)) = true /\
              forall k, i <= k < j -> eq (zread k n (tc_mem tc)) = false
  | Some None => forall k, i <= k < i + Z.of_nat fuel ->
              eq (zread k n (tc_mem tc)) = false
  | None => False
  end.
Proof.
  revert i. induction fuel as [|fuel IH]; intros i Hi Hn Hb Hsz; cbn [scan].
  { intros. lia. }
  rewrite mem_read_ok by lia. destruct (eq (zread i n _)) eqn:Heq.
  - split; [lia|]. split; [done|]. intros. lia.
  - specialize (IH (i + 1) ltac:(lia) Hn ltac:(lia) Hsz).
    destruct (scan eq (Some tc) n (i + 1) fuel) as [[j|]|]; [| |done].
    + destruct IH as (? & ? & Hk). split_and!; [lia|lia|done|].
      intros k Hk'. destruct (decide (k = i)) as [->|]; [done|]. apply Hk. lia.
    + intros k Hk'. destruct (decide (k = i)) as [->|]; [done|]. apply IH. lia.
Qed.

(** ** Sequences of operations *)

Inductive sio_op :=
| OpWrite (data : list Z)
| OpRead (len : Z)
| OpSeek (offset : Z)
| OpTruncate (len : Z)
| OpSkip (len : Z).

(** One operation of the class; the output is the bytes a read delivers. *)
Definition sio_step (junk : nat -> Z) (op : sio_op) (s : StringIO)
  : option (list Z * StringIO) :=
  match op with
  | OpWrite data => '(_, s') ← StringIO_write junk s data; Some ([], s')
  | OpRead len => StringIO_read s len
  | OpSeek off =>
      match StringIO_seek junk s off SEEK_SET with
      | inr (_, s') => Some ([], s')
      | inl _ => None
      end
  | OpTruncate len => Some ([], StringIO_truncate s len)
  | OpSkip len => s' ← StringIO_skip s len; Some ([], s')
  end.

Fixpoint sio_run (junk : nat -> Z) (ops : list sio_op) (s : StringIO)
  : option (list (list Z) * StringIO) :=
  match ops with
  | [] => Some ([], s)
  | op :: ops' =>
      '(out, s1) ← sio_step junk op s;
      '(outs, s2) ← sio_run junk ops' s1;
      Some (out :: outs, s2)
  end.

(** The same on the abstract stream. *)
Definition bs_step (op : sio_op) (s : byte_stream) : list Z * byte_stream :=
  match op with
  | OpWrite data => ([], bs_write data s)
  | OpRead len => bs_read len s
  | OpSeek off => ([], {| bs_contents := bs_contents s; bs_pos := off |})
  | OpTruncate len =>
      ([], {| bs_contents := ztake len (bs_contents s);
              bs_pos := Z.min len (bs_pos s) |})
  | OpSkip len => ([], {| bs_contents := zdrop len (bs_contents s); bs_pos := 0 |})
  end.

Fixpoint bs_run (ops : list sio_op) (s : byte_stream)
  : list (list Z) * byte_stream :=
  match ops with
  | [] => ([], s)
  | op :: ops' =>
      let '(out, s1) := bs_step op s in
      let '(outs, s2) := bs_run ops' s1 in
      (out :: outs, s2)
  end.

(** Seeks stay inside the contents, and truncation does not grow them. *)
Definition bs_op_ok (op : sio_op) (s : byte_stream) : bool :=
  match op with
  | OpWrite _ => true
  | OpRead len => (0 <=? len) && (len <? MAX_TALLOC_SIZE)
  | OpSeek off => (0 <=? off) && (off <=? zlen (bs_contents s))
  | OpTruncate len => (0 <=? len) && (len <=? zlen (bs_contents s))
  | OpSkip len => 0 <=? len
  end.

Fixpoint bs_ops_ok (ops : list sio_op) (s : byte_stream) : bool :=
  match ops with
  | [] => true
  | op :: ops' => bs_op_ok op s && bs_ops_ok ops' (bs_step op s).2
  end.

(** Bytes written by a sequence. *)
Fixpoint bytes_written (ops : list sio_op) : Z :=
  match ops with
  | [] => 0
  | OpWrite data :: ops' => zlen data + bytes_written ops'
  | _ :: ops' => bytes_written ops'
  end.

Lemma bytes_written_nonneg ops : 0 <= bytes_written ops.
Proof. induction ops as [|[] ops IH]; simpl; try lia. zlen_lia. Qed.

(** One step of the simulation. *)
Lemma sio_step_sim junk op s :
  sio_wf s -> bs_op_ok op (sio_abs s) = true ->
  2 * (sio_size s + bytes_written [op]) < MAX_TALLOC_SIZE ->
  exists s', sio_step junk op s = Some ((bs_step op (sio_abs s)).1, s') /\
    sio_wf s' /\ sio_abs s' = (bs_step op (sio_abs s)).2 /\
    sio_size s' <= sio_size s + bytes_written [op].
Proof.
  intros Hwf Hop Hmax. pose proof (sio_wf_bytes_len s Hwf) as Hlen.
  assert (forall s', sio_wf s' -> sio_abs s' = (bs_step op (sio_abs s)).2 ->
    sio_size s' = zlen (bs_contents (bs_step op (sio_abs s)).2)) as Hsz.
  { intros s' Hwf' Habs. rewrite <- Habs. symmetry. by apply sio_wf_bytes_len. }
  assert (0 <= sio_readptr s <= sio_size s) as Hrp
    by (destruct Hwf as (? & _ & _ & ? & _); done).
  destruct op as [data|len|off|len|len]; cbn [bytes_written] in *;
    cbn [bs_op_ok sio_abs bs_contents] in Hop;
    rewrite ?andb_true_iff, ?Z.leb_le, ?Z.ltb_lt in Hop; unfold sio_step.
  - destruct (sio_write_spec junk s data Hwf) as (s' & -> & Hwf' & Habs);
      [lia|]. exists s'. cbn [mbind option_bind]. split_and!; try done.
    rewrite (Hsz s' Hwf' Habs). cbn. unfold zover. zlen_lia.
  - destruct (sio_read_spec s len Hwf) as (s' & -> & Hwf' & _ & Hs & Ha & Habs);
      [lia|]. exists s'. unfold bs_step. rewrite <- Habs. split_and!; done || lia.
  - destruct (sio_seek_inside junk s off Hwf) as (s' & -> & Hwf' & Habs & Ha);
      [lia|]. exists s'. rewrite (Hsz s' Hwf' Habs). cbn. split_and!; done || lia.
  - destruct (sio_truncate_spec s len Hwf) as (Hwf' & Habs); [lia|].
    eexists. split; [reflexivity|]. split_and!; try done. simpl; lia.
  - destruct (sio_skip_spec s len Hwf) as (s' & -> & Hwf' & Habs); [lia|].
    exists s'. cbn [mbind option_bind]. split_and!; try done.
    rewrite (Hsz s' Hwf' Habs). cbn. zlen_lia.
Qed.

Lemma sio_run_sim junk ops s :
  sio_wf s -> bs_ops_ok ops (sio_abs s) = true ->
  2 * (sio_size s + bytes_written ops) < MAX_TALLOC_SIZE ->
  exists s', sio_run junk ops s = Some ((bs_run ops (sio_abs s)).1, s') /\
    sio_wf s' /\ sio_abs s' = (bs_run ops (sio_abs s)).2.
Proof.
  revert s. induction ops as [|op ops IH]; intros s Hwf Hok Hmax.
  { exists s. done. }
  cbn [bs_ops_ok] in Hok. apply andb_true_iff in Hok as [Hop Hops].
  pose proof (bytes_written_nonneg ops). pose proof (bytes_written_nonneg [op]).
  assert (bytes_written (op :: ops) = bytes_written [op] + bytes_written ops) as Hb
    by (destruct op; simpl; lia).
  destruct (sio_step_sim junk op s Hwf Hop ltac:(lia))
    as (s1 & Hs1 & Hwf1 & Habs1 & Hsz1).
  rewrite <- Habs1 in Hops.
  destruct (IH s1 Hwf1 Hops ltac:(lia)) as (s2 & Hs2 & Hwf2 & Habs2).
  exists s2. cbn [sio_run bs_run]. rewrite Hs1. cbn [mbind option_bind].
  rewrite Hs2. cbn [mbind option_bind].
  destruct (bs_step op (sio_abs s)) as [out b1]. simpl in *. subst b1.
  destruct (bs_run ops (sio_abs s1)) as [outs b2]. simpl in *. subst b2. done.
Qed.

(** ** Copying between streams *)

Lemma bs_write_nil s : bs_write [] s = s.
Proof. destruct s. unfold bs_write. simpl. by rewrite zover_nil, Z.add_0_r. Qed.

Lemma bs_write_app a b s :
  0 <= bs_pos s <= zlen (bs_contents s) ->
  bs_write b (bs_write a s) = bs_write (a ++ b) s.
Proof.
  intros. unfold bs_write. simpl. rewrite zover_zover by done.
  f_equal. zlen_lia.
Qed.

(** A read may be split where a shorter read stopped. *)
Lemma bs_read_split m n s :
  0 <= bs_pos s -> 0 <= m <= n ->
  let '(a, s1) := bs_read m s in
  let '(b, s2) := bs_read (n - zlen a) s1 in
  bs_read n s = (a ++ b, s2).
Proof.
  intros Hp Hm. unfold bs_read. simpl.
  set (a := zread (bs_pos s) m (bs_contents s)).
  assert (zread (bs_pos s) n (bs_contents s) =
    a ++ zread (bs_pos s + zlen a) (n - zlen a) (bs_contents s)) as ->.
  { rewrite (zread_split _ (zlen a)) by (unfold a, zread; zlen_lia).
    f_equal. unfold a, zread.
    destruct (Z.le_gt_cases m (zlen (zdrop (bs_pos s) (bs_contents s)))).
    - f_equal. zlen_lia.
    - rewrite (ztake_all m) by lia. apply ztake_all. lia. }
  rewrite zlen_app, Z.add_assoc. done.
Qed.

Lemma sio_abs_pos_ok s :
  sio_wf s -> 0 <= bs_pos (sio_abs s) <= zlen (bs_contents (sio_abs s)).
Proof.
  intros Hwf. simpl. rewrite (sio_wf_bytes_len s Hwf).
  destruct Hwf as (? & _ & _ & ? & _). lia.
Qed.

Lemma read_stream_loop_spec junk fuel self stream len :
  sio_wf self -> sio_wf stream -> 0 <= len < Z.of_nat fuel ->
  2 * (sio_readptr self + len) < MAX_TALLOC_SIZE ->
  let '(moved, st) := bs_read len (sio_abs stream) in
  exists self' stream',
    read_stream_loop junk fuel self stream len
      = Some (len - zlen moved, self', stream') /\
    sio_wf self' /\ sio_wf stream' /\
    sio_abs self' = bs_write moved (sio_abs self) /\ sio_abs stream' = st.
Proof.
  revert self stream len.
  induction fuel as [|fuel IH]; intros self stream len Hwf Hwfs Hlen Hmax; [lia|].
  pose proof (sio_abs_pos_ok self Hwf) as Hp.
  pose proof (sio_abs_pos_ok stream Hwfs) as Hps.
  cbn [read_stream_loop]. rewrite Z.gtb_ltb.
  destruct (Z.ltb_spec 0 len); cycle 1.
  { assert (len = 0) as -> by lia. exists self, stream.
    unfold bs_read, zread. rewrite ztake_0, bs_write_nil by lia. simpl.
    rewrite Z.add_0_r. split_and!; done. }
  set (n := Z.min len BUFF_SIZE). unfold BUFF_SIZE in *.
  destruct (sio_read_spec stream n Hwfs)
    as (st1 & Hrd & Hwf1 & _ & _ & _ & Habs1);
    [unfold n, MAX_TALLOC_SIZE in *; simpl in *; lia|].
  rewrite Hrd. cbn [mbind option_bind].
  set (buff := zread (sio_readptr stream) n (sio_bytes stream)) in *.
  pose proof (bs_read_split n len (sio_abs stream) ltac:(lia) ltac:(lia)) as Hsp.
  rewrite <- Habs1 in Hsp.
  assert (zlen buff <= n) by (unfold buff, zread, n; zlen_lia).
  destruct (Z.eqb_spec (zlen buff) 0) as [He|He].
  { (* the source is exhausted *)
    apply zlen_0_nil in He.
    assert (bs_read len (sio_abs stream) = ([], sio_abs st1)) as ->.
    { unfold bs_read. simpl. rewrite (zread_at_end _ n len _ ltac:(lia) He).
      unfold bs_read in Habs1. simpl in Habs1. fold buff in Habs1.
      rewrite He in Habs1. by symmetry. }
    exists self, st1. rewrite bs_write_nil. split_and!; try done.
    by rewrite zlen_nil, Z.sub_0_r. }
  destruct (sio_write_spec junk self buff Hwf) as (self1 & -> & Hwf2 & Habs2);
    [simpl in *; lia|].
  cbn [mbind option_bind].
  assert (sio_readptr self1 = sio_readptr self + zlen buff) as Hp1
    by exact (f_equal bs_pos Habs2).
  pose proof (zlen_nonneg buff).
  specialize (IH self1 st1 (len - zlen buff) Hwf2 Hwf1 ltac:(lia) ltac:(lia)).
  destruct (bs_read (len - zlen buff) (sio_abs st1)) as [rest st2].
  rewrite Hsp.
  destruct IH as (self' & stream' & -> & ? & ? & Ha' & Hs').
  exists self', stream'. split_and!; try done.
  - do 3 f_equal. zlen_lia.
  - rewrite Ha', Habs2. by apply bs_write_app.
Qed.

(** ** Properties *)

(** C27: from a fresh buffer, every sequence of writes, reads, seeks inside the
    contents, truncations and skips that writes less than half of talloc's
    limit stays inside the buffer's memory and delivers exactly the bytes the
    abstract byte stream delivers; the buffer then holds the abstract
    contents and position and is well formed. *)
Theorem StringIO_refines_byte_stream junk ops :
  bs_ops_ok ops {| bs_contents := []; bs_pos := 0 |} = true ->
  2 * bytes_written ops < MAX_TALLOC_SIZE ->
  let '(outs, bs) := bs_run ops {| bs_contents := []; bs_pos := 0 |} in
  exists s, sio_run junk ops StringIO_constructor = Some (outs, s) /\
    sio_wf s /\ sio_abs s = bs.
Proof.
  intros Hok Hmax.
  destruct (sio_run_sim junk ops StringIO_constructor sio_constructor_wf Hok)
    as (s & Hs & Hwf & Habs); [exact Hmax|].
  change (sio_abs StringIO_constructor)
    with {| bs_contents := []; bs_pos := 0 |} in Hs, Habs.
  destruct (bs_run ops _) as [outs bs]. exists s. done.
Qed.

Lemma StringIO_refines_byte_stream_witness :
  exists s, sio_run (fun _ => 0)
    [OpWrite [1;2;3;4]; OpSeek 1; OpWrite [9]; OpSeek 0; OpRead 10;
     OpTruncate 3; OpSkip 1; OpRead 5] StringIO_constructor
    = Some ([[];[];[];[];[1;9;3;4];[];[];[9;3]], s) /\
    sio_wf s /\ sio_abs s = {| bs_contents := [9;3]; bs_pos := 2 |}.
Proof.
  exact (StringIO_refines_byte_stream (fun _ => 0)
    [OpWrite [1;2;3;4]; OpSeek 1; OpWrite [9]; OpSeek 0; OpRead 10;
     OpTruncate 3; OpSkip 1; OpRead 5] eq_refl eq_refl).
Defined.

(** [StringIO_seek] past the end of the contents reallocates the block to
    the new position without updating [alloc_size], so the block can shrink
    below what [alloc_size] promises: after writing 2000 bytes, truncating to
    0 and seeking to 10, a 100-byte write runs past the block. *)
Theorem StringIO_seek_then_write_overflows junk :
  sio_run junk [OpWrite (replicate 2000 1); OpTruncate 0; OpSeek 10;
                OpWrite (replicate 100 1)] StringIO_constructor = None.
Proof. vm_compute. reflexivity. Qed.

(** [StringIO_read_stream] terminates and moves exactly the bytes the
    source still has, up to [length]: they are written at the destination's
    position, both positions advance by their number, and the result is the
    number of requested bytes that were not there. *)
Theorem StringIO_read_stream_copies junk self stream len :
  sio_wf self -> sio_wf stream -> 0 <= len ->
  2 * (sio_readptr self + len) < MAX_TALLOC_SIZE ->
  let '(moved, st) := bs_read len (sio_abs stream) in
  exists self' stream',
    StringIO_read_stream junk self stream len
      = Some (len - zlen moved, self', stream') /\
    sio_wf self' /\ sio_wf stream' /\
    sio_abs self' = bs_write moved (sio_abs self) /\ sio_abs stream' = st.
Proof. intros. apply read_stream_loop_spec; try done. lia. Qed.

Definition sio_example : StringIO :=
  {| sio_size := 3; sio_alloc_size := 3; sio_readptr := 1;
     sio_data := Some {| tc_size := 3; tc_mem := [7;8;9] |} |}.

Lemma sio_example_wf : sio_wf sio_example.
Proof.
  eexists. split; [reflexivity|]. unfold chunk_ok, MAX_TALLOC_SIZE, zlen. simpl. lia.
Qed.

Lemma StringIO_read_stream_copies_witness :
  exists self' stream',
    StringIO_read_stream (fun _ => 0) StringIO_constructor sio_example 5
      = Some (3, self', stream') /\
    sio_wf self' /\ sio_wf stream' /\
    sio_abs self' = {| bs_contents := [8;9]; bs_pos := 2 |} /\
    sio_abs stream' = {| bs_contents := [7;8;9]; bs_pos := 3 |}.
Proof.
  exact (StringIO_read_stream_copies (fun _ => 0) StringIO_constructor
    sio_example 5 sio_constructor_wf sio_example_wf ltac:(lia) ltac:(reflexivity)).
Defined.

(** [StringIO_find] returns the least offset at which the needle occurs in
    the contents, and NULL only when it occurs nowhere, and reads nothing but the data. *)
Theorem StringIO_find_first s needle :
  sio_wf s ->
  match StringIO_find s needle with
  | Some (Some i) => 0 <= i /\ i + zlen needle <= sio_size s /\
              zread i (zlen needle) (sio_bytes s) = needle /\
              forall k, 0 <= k < i -> zread k (zlen needle) (sio_bytes s) <> needle
  | Some None => forall k, 0 <= k -> zread k (zlen needle) (sio_bytes s) = needle ->
              sio_size s < k + zlen needle
  | None => False
  end.
Proof.
  intros Hwf. pose proof Hwf as (tc & Hd & Hok & Hr & Ha & _).
  pose proof (zlen_nonneg needle).
  assert (forall k, 0 <= k -> k + zlen needle <= sio_size s ->
    zread k (zlen needle) (sio_bytes s) = zread k (zlen needle) (tc_mem tc)) as Hin.
  { intros k Hk1 Hk2. unfold sio_bytes, zread. rewrite Hd, zdrop_ztake by lia.
    apply ztake_ztake. lia. }
  unfold StringIO_find. destruct (Z.ltb_spec (sio_size s) (zlen needle)).
  { intros. lia. }
  pose proof (scan_spec (fun bs => bool_decide (bs = needle)) tc (zlen needle)
    (sio_size s) 0 (Z.to_nat (sio_size s - zlen needle + 1))
    ltac:(lia) ltac:(lia) ltac:(lia) ltac:(lia)) as Hs.
  rewrite Hd. destruct (scan _ _ _ _ _) as [[i|]|]; [| |done].
  - destruct Hs as (Hi & Heq & Hlt). rewrite bool_decide_eq_true in Heq.
    split_and!; try lia; [by rewrite Hin by lia|].
    intros k Hk. rewrite Hin by lia. specialize (Hlt k Hk).
    by rewrite bool_decide_eq_false in Hlt.
  - intros k Hk Heq. destruct (Z.le_gt_cases (k + zlen needle) (sio_size s)); [|lia].
    rewrite Hin in Heq by lia. specialize (Hs k ltac:(lia)).
    by rewrite bool_decide_eq_false in Hs.
Qed.

Lemma StringIO_find_first_witness :
  StringIO_find sio_example [8;9] = Some (Some 1) /\
  (0 <= 1 /\ 1 + zlen [8;9] <= 3 /\
   zread 1 (zlen [8;9]) (sio_bytes sio_example) = [8;9] /\
   forall k, 0 <= k < 1 -> zread k (zlen [8;9]) (sio_bytes sio_example) <> [8;9]).
Proof.
  split; [reflexivity|].
  exact (StringIO_find_first sio_example [8;9] sio_example_wf).
Defined.
