(* ===== verification/Cache.v ===== *)
(** * Cache: the keyed object table (lib/aff4_utils.c, include/aff4_utils.h)

    A [Cache] keeps its elements on two intrusive lists at once: the hash list
    of the slot the key hashes to, in insertion order, and the cache list, from
    the least to the most recently used.  Several elements may share a key.
    The model keeps the elements in a store of nodes addressed by identifiers
    ([cid], the C pointers), and the two kinds of lists as lists of
    identifiers, so that an element that is freed leaves both.

    [entries c key] is what a cache promises: the objects stored under [key],
    oldest first. *)
From S2P Require Import Prelude.

Abbreviation cid := nat.

Section Cache.

Context {D : Type}.

(** An element: [key]/[key_len] and [data] ([None] is a NULL object). *)
Record cache_node := { node_key : list Z; node_data : option D }.

Record Cache := {
  hash_table_width : Z;
  max_cache_size : Z;
  cache_size : Z;
  (** [None]: not allocated yet; a slot that is absent has no list head. *)
  hash_table : option (gmap Z (list cid));
  cache_list : list cid;
  nodes : gmap cid cache_node;
  next_cid : cid
}.

Definition Cache_Con (width max : Z) : Cache :=
  {| hash_table_width := width; max_cache_size := max; cache_size := 0;
     hash_table := None; cache_list := []; nodes := ∅; next_cid := O |}.

(** [Cache_hash]: the xor of the key's bytes, modulo the width. *)
Definition Cache_hash (self : Cache) (key : list Z) : Z :=
  foldl Z.lxor 0 key mod hash_table_width self.

(** [Cache_cmp] with the test on [key_len] its callers make first. *)
Definition Cache_cmp (n : cache_node) (key : list Z) : bool :=
  bool_decide (node_key n = key).

(** [list_del]: unlink one element. *)
Definition list_del (i : cid) (l : list cid) : list cid := filter (.≠ i) l.

(** [talloc_free] of an element: [Cache_destructor] unlinks it from both lists
    and decrements the size of the cache it is in. *)
Definition Cache_destructor (self : Cache) (i : cid) : Cache :=
  {| hash_table_width := hash_table_width self;
     max_cache_size := max_cache_size self;
     cache_size := cache_size self - 1;
     hash_table := (fun t : gmap Z (list cid) => list_del i <$> t)
                     <$> hash_table self;
     cache_list := list_del i (cache_list self);
     nodes := delete i (nodes self);
     next_cid := next_cid self |}.

(** The expiry loop at the start of [Cache_put]; with an empty cache list it
    would spin, which shows as [None]. *)
Fixpoint cache_expire (fuel : nat) (self : Cache) : option Cache :=
  if (max_cache_size self >? 0) && (cache_size self >=? max_cache_size self) then
    match fuel with
    | O => None
    | S fuel' =>
        match cache_list self with
        | [] => cache_expire fuel' self
        | i :: _ => cache_expire fuel' (Cache_destructor self i)
        end
    end
  else Some self.

(** The rest of [Cache_put]: allocate the table if needed, make the element and
    link it at the end of both lists. *)
Definition cache_link (self : Cache) (key : list Z) (data : option D) : Cache :=
  let table := default ∅ (hash_table self) in
  let hash := Cache_hash self key in
  let hash_list_head := default [] (table !! hash) in
  let new_cache := next_cid self in
  {| hash_table_width := hash_table_width self;
     max_cache_size := max_cache_size self;
     cache_size := cache_size self + 1;
     hash_table := Some (<[hash := hash_list_head ++ [new_cache]]> table);
     cache_list := cache_list self ++ [new_cache];
     nodes := <[new_cache := {| node_key := key; node_data := data |}]>
                (nodes self);
     next_cid := S new_cache |}.

Definition Cache_put (self : Cache) (key : list Z) (data : option D)
  : option Cache :=
  self ← cache_expire (length (cache_list self)) self;
  Some (cache_link self key data).

(** The hash list a key is searched in; [None] when the table or the slot's
    head is missing. *)
Definition hash_slot (self : Cache) (key : list Z) : option (list cid) :=
  table ← hash_table self; table !! Cache_hash self key.

(** The loop shared by [get], [borrow], [present] and [iter]: the first element
    of a hash list with this key. *)
Fixpoint find_key (ns : gmap cid cache_node) (key : list Z) (l : list cid)
  : option (cid * cache_node) :=
  match l with
  | [] => None
  | i :: l' =>
      match ns !! i with
      | Some n => if Cache_cmp n key then Some (i, n) else find_key ns key l'
      | None => find_key ns key l'
      end
  end.

(** Result object, error raised, new state. *)
Definition Cache_get (self : Cache) (key : list Z)
  : option D * option aff4_error * Cache :=
  match hash_slot self key with
  | None => (None, None, self)
  | Some l =>
      match find_key (nodes self) key l with
      | Some (i, n) => (node_data n, None, Cache_destructor self i)
      | None => (None, Some EKeyError, self)
      end
  end.

Definition Cache_borrow (self : Cache) (key : list Z) : option D :=
  match hash_slot self key with
  | None => None
  | Some l =>
      match find_key (nodes self) key l with
      | Some (_, n) => node_data n
      | None => None
      end
  end.

Definition Cache_present (self : Cache) (key : list Z) : bool :=
  match hash_slot self key with
  | None => false
  | Some l =>
      match find_key (nodes self) key l with Some _ => true | None => false end
  end.

Definition Cache_iter (self : Cache) (key : list Z) : option cid :=
  l ← hash_slot self key;
  '(i, _) ← find_key (nodes self) key l;
  Some i.

(** The elements after [i] on a list. *)
Fixpoint after (i : cid) (l : list cid) : list cid :=
  match l with
  | [] => []
  | j :: l' => if decide (j = i) then l' else after i l'
  end.

(** [list_move_tail] of an element to the end of the cache list. *)
Definition cache_touch (self : Cache) (it : cid) : Cache :=
  {| hash_table_width := hash_table_width self;
     max_cache_size := max_cache_size self;
     cache_size := cache_size self;
     hash_table := hash_table self;
     cache_list := list_del it (cache_list self) ++ [it];
     nodes := nodes self;
     next_cid := next_cid self |}.

(** [Cache_next]: the object of the element the iterator is at, the iterator
    moved to the next element with its key on the same hash list (NULL at the
    list head), and the element moved to the end of the cache list.  [None]
    when the iterator's element was freed. *)
Definition Cache_next (self : Cache) (iter : option cid)
  : option (option D * option cid * Cache) :=
  match iter with
  | None => Some (None, None, self)
  | Some it =>
      n ← nodes self !! it;
      let l := default [] (hash_slot self (node_key n)) in
      let next :=
        match find_key (nodes self) (node_key n) (after it l) with
        | Some (i, _) => Some i
        | None => None
        end in
      Some (node_data n, next, cache_touch self it)
  end.

(** ** What a cache promises *)

Definition has_key (c : Cache) (key : list Z) (i : cid) : Prop :=
  node_key <$> nodes c !! i = Some key.

#[export] Instance has_key_dec c key i : Decision (has_key c key i).
Proof. unfold has_key. apply _. Defined.

Definition entry_ids (c : Cache) (key : list Z) : list cid :=
  filter (has_key c key) (default [] (hash_slot c key)).

(** The objects stored under a key, oldest first. *)
Definition entries (c : Cache) (key : list Z) : list (option D) :=
  map (fun i => n ← nodes c !! i; node_data n) (entry_ids c key).

(** Reading a key's entries one after the other. *)
Fixpoint cache_drain (fuel : nat) (c : Cache) (it : option cid)
  : option (list (option D) * Cache) :=
  match it with
  | None => Some ([], c)
  | Some _ =>
      match fuel with
      | O => None
      | S fuel' =>
          '(d, it', c') ← Cache_next c it;
          '(ds, c'') ← cache_drain fuel' c' it';
          Some (d :: ds, c'')
      end
  end.

(** ** The invariant *)

Record cache_wf (c : Cache) : Prop := {
  wf_width : 0 < hash_table_width c;
  wf_nodup : NoDup (cache_list c);
  wf_list : forall i, i ∈ cache_list c <-> is_Some (nodes c !! i);
  wf_size : cache_size c = zlen (cache_list c);
  wf_slots : forall t h l, hash_table c = Some t -> t !! h = Some l ->
    NoDup l /\ forall i, i ∈ l -> exists n, nodes c !! i = Some n /\
      Cache_hash c (node_key n) = h;
  wf_slot_of : forall i n, nodes c !! i = Some n ->
    exists t l, hash_table c = Some t /\
      t !! Cache_hash c (node_key n) = Some l /\ i ∈ l;
  wf_fresh : forall i, is_Some (nodes c !! i) -> (i < next_cid c)%nat
}.

End Cache.

Arguments cache_node : clear implicits.
Arguments Cache : clear implicits.

(** ** Lemmas *)

Section CacheLemmas.

Context {D : Type}.
Implicit Types (c : Cache D) (key : list Z) (i : cid).

Lemma elem_of_list_del i j l : j ∈ list_del i l <-> j ∈ l /\ j <> i.
Proof. unfold list_del. rewrite list_elem_of_filter. tauto. Qed.

Lemma NoDup_list_del i l : NoDup l -> NoDup (list_del i l).
Proof. apply NoDup_filter. Qed.

Lemma list_del_not_in i l : i ∉ l -> list_del i l = l.
Proof.
  intros Hi. unfold list_del. induction l as [|j l IH]; [done|].
  rewrite not_elem_of_cons in Hi. destruct Hi as [Hij Hi].
  rewrite filter_cons_True by congruence. by rewrite IH.
Qed.

Lemma list_del_app i l k : list_del i (l ++ k) = list_del i l ++ list_del i k.
Proof. apply filter_app. Qed.

Lemma zlen_list_del i l : NoDup l -> i ∈ l -> zlen (list_del i l) = zlen l - 1.
Proof.
  intros Hnd Hi. apply list_elem_of_split in Hi as (l1 & l2 & ->).
  rewrite NoDup_app, NoDup_cons in Hnd. destruct Hnd as (_ & Hd & Hi2 & _).
  rewrite list_del_app. unfold list_del at 2. rewrite filter_cons_False by tauto.
  fold (list_del i l2). rewrite !list_del_not_in; [zlen_lia | done |].
  intros Hin. apply (Hd i Hin). left.
Qed.

(** Searching a hash list is filtering it by key. *)
Lemma find_key_filter c key l :
  find_key (nodes c) key l =
    (i ← head (filter (has_key c key) l); n ← nodes c !! i; Some (i, n)).
Proof.
  induction l as [|i l IH]; [done|]. cbn [find_key].
  destruct (nodes c !! i) as [n|] eqn:Hn.
  - unfold Cache_cmp. case_bool_decide as Hk.
    + rewrite filter_cons_True by (unfold has_key; rewrite Hn; simpl; congruence).
      simpl. by rewrite Hn.
    + rewrite filter_cons_False; [done|]. unfold has_key. rewrite Hn. simpl.
      intros [= ?]. done.
  - rewrite filter_cons_False; [done|]. unfold has_key. by rewrite Hn.
Qed.

Lemma entry_ids_head c key :
  match hash_slot c key with
  | Some l => find_key (nodes c) key l
  | None => None
  end = (i ← head (entry_ids c key); n ← nodes c !! i; Some (i, n)).
Proof.
  unfold entry_ids. destruct (hash_slot c key); [|done]. apply find_key_filter.
Qed.

Lemma entry_ids_node c key i :
  i ∈ entry_ids c key -> exists n, nodes c !! i = Some n /\ node_key n = key.
Proof.
  unfold entry_ids. rewrite list_elem_of_filter. intros [Hk _].
  unfold has_key in Hk. destruct (nodes c !! i) as [n|]; [|done].
  exists n. split; [done|]. by injection Hk.
Qed.

Lemma entries_cons c key i ids n :
  entry_ids c key = i :: ids -> nodes c !! i = Some n ->
  entries c key = node_data n :: map (fun i => n ← nodes c !! i; node_data n) ids.
Proof. intros He Hn. unfold entries. rewrite He. simpl. by rewrite Hn. Qed.

Lemma entry_ids_nodup c key : cache_wf c -> NoDup (entry_ids c key).
Proof.
  intros Hwf. unfold entry_ids, hash_slot.
  destruct (hash_table c) as [t|] eqn:Ht; [|constructor]. simpl.
  destruct (t !! _) as [l|] eqn:Hl; [|constructor].
  apply NoDup_filter. by eapply wf_slots.
Qed.

Lemma hash_slot_destructor c i key :
  hash_slot (Cache_destructor c i) key = list_del i <$> hash_slot c key.
Proof.
  unfold hash_slot, Cache_destructor, Cache_hash. simpl.
  destruct (hash_table c) as [t|]; [|done]. simpl. by rewrite lookup_fmap.
Qed.

(** Freeing an element removes it from its key's entries and no other's. *)
Lemma entry_ids_destructor c i key :
  entry_ids (Cache_destructor c i) key = list_del i (entry_ids c key).
Proof.
  unfold entry_ids. rewrite hash_slot_destructor.
  destruct (hash_slot c key) as [l|]; [|done]. simpl.
  unfold list_del. rewrite !list_filter_filter. apply filter_iff_in.
  intros j _. unfold has_key. simpl. destruct (decide (j = i)) as [->|Hji];
    [tauto|]. rewrite lookup_delete_ne by done. tauto.
Qed.

Lemma Cache_Con_wf w m : 0 < w -> cache_wf (@Cache_Con D w m).
Proof.
  intros. split; simpl; try done.
  - constructor.
  - intros i. rewrite lookup_empty. split; [set_solver|by intros []].
  - intros i. rewrite lookup_empty. by intros [].
Qed.

Lemma Cache_hash_range c key : cache_wf c ->
  0 <= Cache_hash c key < hash_table_width c.
Proof. intros []. by apply Z.mod_pos_bound. Qed.

Lemma wf_destructor c i :
  cache_wf c -> is_Some (nodes c !! i) -> cache_wf (Cache_destructor c i).
Proof.
  intros [Hw Hnd Hl Hs Hsl Hso Hf] Hi. split; simpl; try done.
  - by apply NoDup_list_del.
  - intros j. rewrite elem_of_list_del, Hl, lookup_delete_is_Some.
    split; intros []; split; congruence || done.
  - rewrite zlen_list_del by (done || by apply Hl). by rewrite Hs.
  - intros t h l Ht Hlk. destruct (hash_table c) as [t0|] eqn:Ht0; [|done].
    injection Ht as <-. rewrite lookup_fmap in Hlk.
    destruct (t0 !! h) as [l0|] eqn:Hl0; [|done]. injection Hlk as <-.
    destruct (Hsl t0 h l0 eq_refl Hl0) as [Hnd0 Hin].
    split; [by apply NoDup_list_del|]. intros j [Hj Hji]%elem_of_list_del.
    destruct (Hin j Hj) as (n & Hn & Hh). exists n.
    by rewrite lookup_delete_ne by congruence.
  - intros j n [Hji Hn]%lookup_delete_Some. destruct (Hso j n Hn) as (t & l & Ht & Hlk & Hj).
    rewrite Ht. exists (list_del i <$> t), (list_del i l). split; [done|].
    split; [|by apply elem_of_list_del].
    rewrite lookup_fmap. change (Cache_hash (Cache_destructor c i) (node_key n))
      with (Cache_hash c (node_key n)). by rewrite Hlk.
  - intros j Hj. apply Hf. apply lookup_delete_is_Some in Hj. tauto.
Qed.

(** The elements [Cache_put] frees before it inserts. *)
Definition expired c : list cid :=
  if max_cache_size c >? 0
  then take (Z.to_nat (cache_size c - max_cache_size c + 1)) (cache_list c)
  else [].

Lemma cache_expire_spec c fuel :
  cache_wf c -> (length (cache_list c) <= fuel)%nat ->
  cache_expire fuel c = Some (foldl Cache_destructor c (expired c)) /\
  cache_wf (foldl Cache_destructor c (expired c)) /\
  (0 < max_cache_size c ->
   cache_size (foldl Cache_destructor c (expired c)) < max_cache_size c).
Proof.
  revert c. induction fuel as [|fuel IH]; intros c Hwf Hlen.
  all: destruct (max_cache_size c >? 0) eqn:Hmax;
    [|unfold expired; cbn [cache_expire]; rewrite Hmax; simpl;
      split_and!; try done; lia].
  all: assert (0 < max_cache_size c) by lia.
  all: pose proof (wf_size c Hwf) as Hsz; unfold zlen in Hsz.
  - unfold expired. cbn [cache_expire]. rewrite Hmax.
    destruct (cache_size c >=? max_cache_size c) eqn:E; [lia|]. simpl.
    replace (Z.to_nat _) with O by lia. split_and!; try done. simpl. lia.
  - cbn [cache_expire]. rewrite Hmax. unfold expired. rewrite Hmax.
    destruct (cache_size c >=? max_cache_size c) eqn:E; simpl.
    + destruct (cache_list c) as [|i l] eqn:Hl; [simpl in Hsz; lia|].
      assert (is_Some (nodes c !! i)) as Hi
        by (apply wf_list; [done|]; rewrite Hl; left).
      specialize (IH (Cache_destructor c i) (wf_destructor c i Hwf Hi)).
      assert (cache_list (Cache_destructor c i) = l) as Hl'.
      { simpl. rewrite Hl. unfold list_del. rewrite filter_cons_False by tauto.
        apply list_del_not_in. pose proof (wf_nodup c Hwf) as Hnd.
        rewrite Hl in Hnd. by apply NoDup_cons in Hnd as []. }
      unfold expired in IH. rewrite Hl' in IH. cbn in IH. rewrite Hmax in IH.
      replace (Z.to_nat (cache_size c - max_cache_size c + 1))
        with (S (Z.to_nat (cache_size c - 1 - max_cache_size c + 1))) by lia.
      apply IH. simpl in Hlen. lia.
    + replace (Z.to_nat _) with O by lia. split_and!; try done. simpl. lia.
Qed.

Lemma hash_slot_link c key key' data :
  hash_slot (cache_link c key data) key' =
    if decide (Cache_hash c key = Cache_hash c key')
    then Some (default [] (hash_slot c key) ++ [next_cid c])
    else hash_slot c key'.
Proof.
  unfold hash_slot, cache_link. simpl. unfold Cache_hash. simpl.
  rewrite lookup_insert. case_decide as Hh.
  - by destruct (hash_table c).
  - by destruct (hash_table c).
Qed.

(** A new element is the last entry of its key; other keys keep theirs. *)
Lemma entry_ids_link c key key' data :
  cache_wf c ->
  entry_ids (cache_link c key data) key' =
    entry_ids c key' ++ (if decide (key = key') then [next_cid c] else []).
Proof.
  intros Hwf. unfold entry_ids. rewrite hash_slot_link.
  assert (nodes c !! next_cid c = None) as Hfresh.
  { apply eq_None_not_Some. intros Hs. apply (wf_fresh c Hwf) in Hs. lia. }
  assert (forall j, j <> next_cid c ->
    has_key (cache_link c key data) key' j <-> has_key c key' j) as Hk.
  { intros j Hj. unfold has_key. simpl. by rewrite lookup_insert_ne. }
  assert (forall l : list cid, next_cid c ∉ l ->
    filter (has_key (cache_link c key data) key') l = filter (has_key c key') l) as Hf.
  { intros l Hl. apply filter_iff_in. intros j Hj. apply Hk. by intros ->. }
  assert (next_cid c ∉ default [] (hash_slot c key')) as Hnin.
  { unfold hash_slot. destruct (hash_table c) as [t|] eqn:Ht; simpl; [|set_solver].
    destruct (t !! _) as [l|] eqn:Hl; simpl; [|set_solver]. intros Hin.
    destruct (wf_slots c Hwf t _ l Ht Hl) as [_ Hn].
    destruct (Hn _ Hin) as (n & Hn' & _). congruence. }
  assert (has_key (cache_link c key data) key' (next_cid c) <-> key = key') as Hnew.
  { unfold has_key. simpl. rewrite lookup_insert_eq. simpl. split; congruence. }
  case_decide as Hh.
  - assert (hash_slot c key = hash_slot c key') as -> by
      (unfold hash_slot; by rewrite Hh).
    simpl. rewrite filter_app, Hf by done. f_equal.
    case_decide; [by rewrite filter_cons_True by tauto|].
    by rewrite filter_cons_False by tauto.
  - rewrite Hf by done. case_decide; [congruence|]. by rewrite app_nil_r.
Qed.

Lemma wf_link c key data : cache_wf c -> cache_wf (cache_link c key data).
Proof.
  intros Hwf. pose proof Hwf as [Hw Hnd Hl Hs Hsl Hso Hf].
  assert (forall i, is_Some (nodes c !! i) -> i <> next_cid c) as Hne
    by (intros i Hi ->; apply Hf in Hi; lia).
  split; simpl; try done.
  - apply NoDup_app. split_and!; [done| |apply NoDup_singleton].
    intros i Hi Hi'. apply Hl, Hne in Hi.
    by apply list_elem_of_singleton in Hi'.
  - intros i. rewrite elem_of_app, list_elem_of_singleton, Hl, lookup_insert_is_Some.
    split; [intros [Hi| ->]|intros [<-|[_ Hi]]]; auto.
    right. split; [by apply not_eq_sym, Hne|done].
  - zlen_lia.
  - intros t h l [= <-]. rewrite lookup_insert. case_decide as Hh.
    + intros [= <-]. set (l0 := default [] _).
      assert (NoDup l0 /\ forall i, i ∈ l0 -> exists n, nodes c !! i = Some n /\
        Cache_hash c (node_key n) = h) as [Hnd0 Hin0].
      { unfold l0. destruct (hash_table c) as [t|] eqn:Ht; simpl.
        - destruct (t !! _) as [l|] eqn:Hlk; simpl; [|split; [constructor|set_solver]].
          subst h. by apply (Hsl t _ l).
        - rewrite lookup_empty. simpl. split; [constructor|set_solver]. }
      split.
      * apply NoDup_app. split_and!; [done| |apply NoDup_singleton].
        intros i Hi Hi'. destruct (Hin0 i Hi) as (n & Hn & _).
        apply list_elem_of_singleton in Hi' as ->. by apply (Hne (next_cid c)).
      * intros i [Hi| ->%list_elem_of_singleton]%elem_of_app.
        -- destruct (Hin0 i Hi) as (n & Hn & Hhn). exists n.
           rewrite lookup_insert_ne; [done|]. apply not_eq_sym, Hne. by exists n.
        -- eexists. rewrite lookup_insert_eq. split; [done|]. done.
    + intros Hlk. destruct (hash_table c) as [t|] eqn:Ht; simpl in Hlk; [|done].
      destruct (Hsl t h l eq_refl Hlk) as [? Hin]. split; [done|].
      intros i Hi. destruct (Hin i Hi) as (n & Hn & Hhn). exists n.
      rewrite lookup_insert_ne; [done|]. apply not_eq_sym, Hne. by exists n.
  - intros i n Hin. apply lookup_insert_Some in Hin as [[<- <-]|[Hni Hn]].
    + eexists _, _. split; [done|]. simpl.
      change (Cache_hash (cache_link c key data) key) with (Cache_hash c key).
      rewrite lookup_insert_eq. split; [done|].
      apply elem_of_app. right. by apply list_elem_of_singleton.
    + destruct (Hso i n Hn) as (t & l & Ht & Hlk & Hi). rewrite Ht.
      change (Cache_hash (cache_link c key data) (node_key n))
        with (Cache_hash c (node_key n)).
      destruct (decide (Cache_hash c key = Cache_hash c (node_key n))) as [Hh|Hh].
      * eexists _, _. split; [done|]. rewrite Hh, lookup_insert_eq. split; [done|].
        simpl. rewrite Hlk. apply elem_of_app. by left.
      * eexists _, _. split; [done|]. rewrite lookup_insert_ne by done. done.
  - intros i. rewrite lookup_insert_is_Some. intros [->|[_ Hi]]; [lia|].
    apply Hf in Hi. lia.
Qed.

(** Entries depend only on the element list and the nodes on it. *)
Lemma entries_ext c c' key :
  entry_ids c' key = entry_ids c key ->
  (forall i, i ∈ entry_ids c key -> nodes c' !! i = nodes c !! i) ->
  entries c' key = entries c key.
Proof.
  intros He Hn. unfold entries. rewrite He. apply map_ext_in.
  intros i Hi%list_elem_of_In. by rewrite Hn.
Qed.

Lemma entries_link c key key' data :
  cache_wf c ->
  entries (cache_link c key data) key' =
    entries c key' ++ (if decide (key = key') then [data] else []).
Proof.
  intros Hwf. unfold entries at 1. rewrite entry_ids_link by done.
  rewrite map_app. f_equal.
  - apply map_ext_in. intros i Hi%list_elem_of_In.
    apply entry_ids_node in Hi as (n & Hn & _). simpl.
    rewrite lookup_insert_ne; [done|]. intros <-.
    assert (is_Some (nodes c !! next_cid c)) as Hs by by exists n.
    apply (wf_fresh c Hwf) in Hs. lia.
  - case_decide; [|done]. simpl. by rewrite lookup_insert_eq.
Qed.

(** Freeing the first entry of a key drops it; other keys are untouched. *)
Lemma entries_destructor c key key' i ids :
  cache_wf c -> entry_ids c key = i :: ids ->
  entries (Cache_destructor c i) key' =
    if decide (key = key') then tail (entries c key) else entries c key'.
Proof.
  intros Hwf He. pose proof (entry_ids_nodup c key' Hwf) as Hnd.
  assert (forall l : list cid, i ∉ l ->
    map (fun i0 => n ← nodes (Cache_destructor c i) !! i0; node_data n) l =
    map (fun i0 => n ← nodes c !! i0; node_data n) l) as Hmap.
  { intros l Hl. apply map_ext_in. intros j Hj%list_elem_of_In. simpl.
    rewrite lookup_delete_ne; [done|]. by intros ->. }
  unfold entries at 1. rewrite entry_ids_destructor. case_decide as Hk.
  - subst key'. rewrite He in Hnd |- *. apply NoDup_cons in Hnd as [Hi _].
    unfold list_del. rewrite filter_cons_False by tauto.
    fold (list_del i ids). rewrite list_del_not_in, Hmap by done.
    unfold entries. by rewrite He.
  - assert (i ∉ entry_ids c key') as Hi.
    { intros Hi. apply entry_ids_node in Hi as (n & Hn & Hkn).
      assert (i ∈ entry_ids c key) as Hi2 by (rewrite He; left).
      apply entry_ids_node in Hi2 as (n2 & Hn2 & Hkn2). congruence. }
    by rewrite list_del_not_in, Hmap by done.
Qed.

Lemma Cache_get_spec c key :
  match entry_ids c key with
  | [] => exists e, Cache_get c key = (None, e, c)
  | i :: _ => exists n, nodes c !! i = Some n /\
                Cache_get c key = (node_data n, None, Cache_destructor c i)
  end.
Proof.
  pose proof (entry_ids_head c key) as Hh. unfold Cache_get.
  destruct (entry_ids c key) as [|i ids] eqn:He.
  - destruct (hash_slot c key); [|by exists None].
    simpl in Hh. rewrite Hh. by exists (Some EKeyError).
  - assert (i ∈ entry_ids c key) as Hi by (rewrite He; left).
    apply entry_ids_node in Hi as (n & Hn & _). exists n. split; [done|].
    simpl in Hh. rewrite Hn in Hh. simpl in Hh.
    destruct (hash_slot c key); [|done]. by rewrite Hh.
Qed.

Lemma Cache_borrow_entries c key : Cache_borrow c key = mjoin (head (entries c key)).
Proof.
  pose proof (entry_ids_head c key) as Hh. unfold Cache_borrow, entries.
  destruct (entry_ids c key) as [|i ids] eqn:He; simpl in Hh |- *.
  - destruct (hash_slot c key); [|done]. by rewrite Hh.
  - assert (i ∈ entry_ids c key) as Hi by (rewrite He; left).
    apply entry_ids_node in Hi as (n & Hn & _). rewrite Hn in *. simpl in *.
    destruct (hash_slot c key); [|done]. by rewrite Hh.
Qed.

Lemma Cache_present_entries c key :
  Cache_present c key = negb (bool_decide (entries c key = [])).
Proof.
  pose proof (entry_ids_head c key) as Hh. unfold Cache_present, entries.
  destruct (entry_ids c key) as [|i ids] eqn:He; simpl in Hh |- *.
  - destruct (hash_slot c key); [|done]. by rewrite Hh.
  - assert (i ∈ entry_ids c key) as Hi by (rewrite He; left).
    apply entry_ids_node in Hi as (n & Hn & _). rewrite Hn in *. simpl in *.
    destruct (hash_slot c key); [|done]. by rewrite Hh.
Qed.

Lemma Cache_iter_entries c key : Cache_iter c key = head (entry_ids c key).
Proof.
  unfold Cache_iter, entry_ids. destruct (hash_slot c key) as [l|]; [|done]. simpl.
  rewrite find_key_filter. destruct (filter _ l) as [|i ids] eqn:He; [done|]. simpl.
  assert (has_key c key i) as Hi.
  { assert (i ∈ filter (has_key c key) l) as Hin by (rewrite He; left).
    by apply list_elem_of_filter in Hin as []. }
  unfold has_key in Hi. by destruct (nodes c !! i).
Qed.

(** Iteration does not change any key's entries. *)
Definition same_table c c' : Prop :=
  nodes c' = nodes c /\ hash_table c' = hash_table c /\
  hash_table_width c' = hash_table_width c.

Lemma same_table_entry_ids c c' key :
  same_table c c' -> entry_ids c' key = entry_ids c key.
Proof.
  intros (Hn & Ht & Hw). unfold entry_ids.
  assert (hash_slot c' key = hash_slot c key) as ->
    by (unfold hash_slot, Cache_hash; by rewrite Ht, Hw).
  apply filter_iff_in. intros i _. unfold has_key. by rewrite Hn.
Qed.

Lemma same_table_entries c c' key : same_table c c' -> entries c' key = entries c key.
Proof.
  intros Hs. apply entries_ext; [by apply same_table_entry_ids|].
  destruct Hs as (-> & _). done.
Qed.

Lemma after_app i l k : i ∉ l -> after i (l ++ i :: k) = k.
Proof.
  induction l as [|j l IH]; intros Hi; simpl; [by rewrite decide_True|].
  apply not_elem_of_cons in Hi as [Hij Hi]. rewrite decide_False by done. auto.
Qed.

(** The next element with the key is the next one among its entries. *)
Lemma filter_after c key i l pre post :
  filter (has_key c key) l = pre ++ i :: post -> NoDup l ->
  filter (has_key c key) (after i l) = post.
Proof.
  revert pre. induction l as [|j l IH]; intros pre He Hnd.
  { by destruct pre. }
  apply NoDup_cons in Hnd as [Hj Hnd]. simpl.
  assert (forall m, m ∈ filter (has_key c key) l -> m ∈ l) as Hsub
    by (intros m Hm; by apply list_elem_of_filter in Hm as []).
  destruct (decide (has_key c key j)) as [Hk|Hk].
  - rewrite filter_cons_True in He by done. destruct pre as [|j' pre].
    + injection He as Hji Hpost. rewrite decide_True by done. exact Hpost.
    + injection He as Hjj He. rewrite decide_False; [by eapply IH|].
      intros Hji. apply Hj. rewrite Hji. apply Hsub. rewrite He. apply elem_of_app. right. left.
  - rewrite filter_cons_False in He by done. rewrite decide_False; [by eapply IH|].
    intros ->. apply Hj, Hsub. rewrite He. apply elem_of_app. right. left.
Qed.

Lemma Cache_next_spec c key pre i post :
  cache_wf c -> entry_ids c key = pre ++ i :: post ->
  exists n c', nodes c !! i = Some n /\
    Cache_next c (Some i) = Some (node_data n, head post, c') /\
    same_table c c' /\ cache_wf c' /\ max_cache_size c' = max_cache_size c /\
    cache_list c' = list_del i (cache_list c) ++ [i].
Proof.
  intros Hwf He.
  assert (i ∈ entry_ids c key) as Hi
    by (rewrite He; apply elem_of_app; right; left).
  apply entry_ids_node in Hi as (n & Hn & Hkn).
  exists n, (cache_touch c i). split; [done|]. unfold Cache_next. rewrite Hn. cbn [mbind option_bind].
  rewrite Hkn, find_key_filter. split; [|split_and!; try done].
  - assert (filter (has_key c key) (after i (default [] (hash_slot c key))) = post)
      as ->.
    { eapply filter_after; [exact He|]. unfold hash_slot.
      destruct (hash_table c) as [t|] eqn:Ht; simpl; [|constructor].
      destruct (t !! _) as [l|] eqn:Hl; simpl; [|constructor].
      by eapply (wf_slots c Hwf). }
    destruct post as [|j post]; [done|]. simpl.
    assert (j ∈ entry_ids c key) as Hj
      by (rewrite He; apply elem_of_app; right; right; left).
    apply entry_ids_node in Hj as (m & -> & _). done.
  - pose proof Hwf as [Hw Hnd Hl Hs Hsl Hso Hf].
    assert (i ∈ cache_list c) as Hil by (apply Hl; by exists n).
    split; simpl; try done.
    + apply NoDup_app. split_and!; [by apply NoDup_list_del| |apply NoDup_singleton].
      intros j [_ Hj]%elem_of_list_del Hj'%list_elem_of_singleton. done.
    + intros j. rewrite elem_of_app, elem_of_list_del, list_elem_of_singleton, Hl.
      destruct (decide (j = i)) as [->|]; split; try tauto. intros _. by exists n.
    + rewrite zlen_app, zlen_list_del by done. rewrite Hs. unfold zlen. simpl. lia.
Qed.

Lemma cache_drain_spec c key pre post fuel :
  cache_wf c -> entry_ids c key = pre ++ post -> (length post <= fuel)%nat ->
  exists c', cache_drain fuel c (head post) =
      Some (map (fun i => n ← nodes c !! i; node_data n) post, c') /\
    same_table c c' /\ cache_wf c'.
Proof.
  revert c pre post. induction fuel as [|fuel IH]; intros c pre [|i post] Hwf He Hlen;
    [by exists c | simpl in Hlen; lia | by exists c |].
  simpl in Hlen.
  destruct (Cache_next_spec c key pre i post Hwf He)
    as (n & c1 & Hn & Hnx & Hst & Hwf1 & _).
  assert (entry_ids c1 key = (pre ++ [i]) ++ post) as He1.
  { rewrite (same_table_entry_ids c c1) by done. rewrite He.
    by rewrite <- (assoc_L (++)). }
  destruct (IH c1 (pre ++ [i]) post Hwf1 He1) as (c2 & Hd & Hst2 & Hwf2); [lia|].
  exists c2. cbn [cache_drain head]. rewrite Hnx. cbn [mbind option_bind].
  rewrite Hd. cbn [mbind option_bind]. destruct Hst as (Hno & Hst).
  split; [|split; [|done]].
  - simpl. rewrite Hn, Hno. done.
  - destruct Hst2 as (? & ? & ?), Hst. split_and!; congruence.
Qed.

End CacheLemmas.

(** ** Properties *)

(** The operations a client may run on a cache, as a step relation. *)
Inductive cache_step {D} : Cache D -> Cache D -> Prop :=
| step_put c key data c' : Cache_put c key data = Some c' -> cache_step c c'
| step_get c key r e c' : Cache_get c key = (r, e, c') -> cache_step c c'
| step_next c key i d it c' :
    i ∈ entry_ids c key -> Cache_next c (Some i) = Some (d, it, c') ->
    cache_step c c'.

Lemma cache_step_wf {D} (c c' : Cache D) : cache_wf c -> cache_step c c' -> cache_wf c'.
Proof.
  intros Hwf Hst. destruct Hst as [c key data c' Hp|c key r e c' Hg|c key i d it c' Hi Hn].
  - unfold Cache_put in Hp.
    destruct (cache_expire_spec c (length (cache_list c)) Hwf) as (He & Hwf' & _);
      [lia|].
    rewrite He in Hp. injection Hp as <-. by apply wf_link.
  - pose proof (Cache_get_spec c key) as Hs.
    destruct (entry_ids c key) as [|i ids].
    + destruct Hs as [e' Hs]. rewrite Hs in Hg. by injection Hg as _ _ <-.
    + destruct Hs as (n & Hn & Hs). rewrite Hs in Hg. injection Hg as _ _ <-.
      apply wf_destructor; [done|]. by exists n.
  - apply list_elem_of_split in Hi as (pre & post & He).
    destruct (Cache_next_spec c key pre i post Hwf He) as (n & c1 & _ & Hn' & _ & Hwf1 & _).
    rewrite Hn in Hn'. by injection Hn' as _ _ <-.
Qed.

Lemma foldl_destructor_max {D} (c : Cache D) l :
  max_cache_size (foldl Cache_destructor c l) = max_cache_size c.
Proof. revert c. induction l as [|i l IH]; intros c; [done|]. simpl. by rewrite IH. Qed.

(** A cache with a bound does not exceed it. *)
Definition cache_bounded {D} (c : Cache D) : Prop :=
  0 < max_cache_size c -> cache_size c <= max_cache_size c.

Lemma cache_step_bounded {D} (c c' : Cache D) :
  cache_wf c -> cache_bounded c -> cache_step c c' ->
  max_cache_size c' = max_cache_size c /\ cache_bounded c'.
Proof.
  unfold cache_bounded. intros Hwf Hb Hs.
  destruct Hs as [c key data c' Hp|c key r e c' Hg|c key i d it c' Hi Hn].
  - unfold Cache_put in Hp.
    destruct (cache_expire_spec c (length (cache_list c)) Hwf) as (He & _ & Hlt);
      [lia|].
    rewrite He in Hp. injection Hp as <-. simpl. rewrite foldl_destructor_max.
    split; [done|]. intros Hm. specialize (Hlt Hm). lia.
  - pose proof (Cache_get_spec c key) as Hsp. destruct (entry_ids c key) as [|i ids].
    + destruct Hsp as [e' Hsp]. rewrite Hsp in Hg. by injection Hg as _ _ <-.
    + destruct Hsp as (n & Hn & Hsp). rewrite Hsp in Hg. injection Hg as _ _ <-.
      simpl. split; [done|]. intros Hm. specialize (Hb Hm). lia.
  - unfold Cache_next in Hn. destruct (nodes c !! i); [|done].
    by injection Hn as _ _ <-.
Qed.

(** C5: every cache reachable from the constructor by puts, gets and iteration
    steps keeps its invariant: the two lists and the node store agree, each
    element is on the hash list of its key's slot exactly once, the size
    counts the elements, and a cache with a bound never holds more. *)
Theorem Cache_invariant {D} (w m : Z) (c : Cache D) :
  0 < w -> rtc cache_step (Cache_Con w m) c ->
  cache_wf c /\ max_cache_size c = m /\ (0 < m -> cache_size c <= m).
Proof.
  intros Hw Hr.
  enough (cache_wf c /\ max_cache_size c = m /\ cache_bounded c) as (? & Hm & Hb)
    by (rewrite <- Hm at 1; split_and!; try done; by rewrite <- Hm).
  assert (cache_wf (@Cache_Con D w m)) as Hwf by by apply Cache_Con_wf.
  assert (cache_bounded (@Cache_Con D w m)) as Hb by (unfold cache_bounded; simpl; lia).
  change m with (max_cache_size (@Cache_Con D w m)) at 1.
  revert Hwf Hb. induction Hr as [c|c c1 c2 Hs Hr IH]; [done|]. intros Hwf Hb.
  destruct (cache_step_bounded c c1 Hwf Hb Hs) as [Hm Hb1].
  rewrite <- Hm. apply IH; [by eapply cache_step_wf|done].
Qed.

(** A cache of three elements with a bound of two, for the witnesses. *)
Definition cache_example : Cache Z :=
  default (Cache_Con 4 2)
    (c1 ← Cache_put (Cache_Con 4 2) [1] (Some 10);
     c2 ← Cache_put c1 [2] (Some 20);
     Cache_put c2 [1] (Some 11)).

Lemma cache_example_reach : rtc cache_step (Cache_Con 4 2) cache_example.
Proof.
  eapply rtc_l; [apply (step_put _ [1] (Some 10)); reflexivity|].
  eapply rtc_l; [apply (step_put _ [2] (Some 20)); reflexivity|].
  eapply rtc_l; [apply (step_put _ [1] (Some 11)); reflexivity|]. apply rtc_refl.
Qed.

Lemma cache_example_wf : cache_wf cache_example.
Proof.
  pose proof cache_example_reach as Hr.
  assert (cache_wf (@Cache_Con Z 4 2)) as Hwf by (apply Cache_Con_wf; lia).
  revert Hwf. induction Hr as [|c c1 c2 Hs _ IH]; [done|]. intros Hwf.
  apply IH. by eapply cache_step_wf.
Qed.

Lemma Cache_invariant_witness :
  cache_wf cache_example /\ max_cache_size cache_example = 2 /\
  (0 < 2 -> cache_size cache_example <= 2).
Proof.
  exact (Cache_invariant 4 2 cache_example ltac:(lia) cache_example_reach).
Defined.

(** [Cache_put] always succeeds; it first frees the least recently used
    elements until the bound leaves room for one more, and then the new
    object is the last entry of its key while every other key keeps the
    entries that survived. *)
Theorem Cache_put_appends {D} (c : Cache D) key data :
  cache_wf c ->
  let c0 := foldl Cache_destructor c (expired c) in
  exists c', Cache_put c key data = Some c' /\ cache_wf c' /\
    cache_size c' = cache_size c0 + 1 /\
    forall key', entries c' key' =
      entries c0 key' ++ (if decide (key = key') then [data] else []).
Proof.
  intros Hwf. unfold Cache_put.
  destruct (cache_expire_spec c (length (cache_list c)) Hwf) as (-> & Hwf' & _);
    [lia|].
  eexists; split; [reflexivity|]. split_and!; [by apply wf_link|done|].
  intros key'. by apply entries_link.
Qed.

Lemma Cache_put_appends_witness :
  exists c', Cache_put cache_example [2] (Some 30) = Some c' /\ cache_wf c' /\
    cache_size c' = 2 /\
    forall key', entries c' key' =
      entries (Cache_destructor cache_example 1%nat) key' ++
      (if decide ([2] = key') then [Some 30] else []).
Proof.
  exact (Cache_put_appends cache_example [2] (Some 30)
    cache_example_wf).
Defined.

(** [Cache_get] pops the entries of its key. *)
Lemma Cache_get_pops {D} (c : Cache D) key :
  cache_wf c ->
  exists e c', Cache_get c key = (mjoin (head (entries c key)), e, c') /\
    cache_wf c' /\ max_cache_size c' = max_cache_size c /\ (entries c key = [] -> c' = c) /\
    (entries c key <> [] -> cache_size c' = cache_size c - 1) /\
    forall key', entries c' key' =
      if decide (key = key') then tail (entries c key) else entries c key'.
Proof.
  intros Hwf. pose proof (Cache_get_spec c key) as Hs.
  destruct (entry_ids c key) as [|i ids] eqn:He.
  - destruct Hs as [e Hs]. exists e, c. rewrite Hs.
    assert (entries c key = []) as Hnil by (unfold entries; by rewrite He).
    rewrite Hnil. split_and!; try done. intros key'. case_decide; [|done]. by subst key'.
  - destruct Hs as (n & Hn & ->). exists None, (Cache_destructor c i).
    rewrite (entries_cons c key i ids n He Hn). simpl.
    split_and!; try done; [by apply wf_destructor|].
    intros key'. rewrite (entries_destructor c key key' i ids Hwf He).
    by rewrite (entries_cons c key i ids n He Hn).
Qed.

(** [Cache_get] removes the oldest entry of its key and returns its object,
    and leaves every other key alone; without an entry it returns NULL and
    changes nothing.  [Cache_borrow] returns the same object without removing
    it, and [Cache_present] says whether there is one. *)
Theorem Cache_get_oldest {D} (c : Cache D) key :
  cache_wf c ->
  Cache_borrow c key = mjoin (head (entries c key)) /\
  Cache_present c key = negb (bool_decide (entries c key = [])) /\
  exists e c', Cache_get c key = (mjoin (head (entries c key)), e, c') /\
    cache_wf c' /\ (entries c key = [] -> c' = c) /\
    (entries c key <> [] -> cache_size c' = cache_size c - 1) /\
    forall key', entries c' key' =
      if decide (key = key') then tail (entries c key) else entries c key'.
Proof.
  intros Hwf. split; [apply Cache_borrow_entries|].
  split; [apply Cache_present_entries|].
  destruct (Cache_get_pops c key Hwf) as (e & c' & ? & ? & _ & ? & ? & ?). by exists e, c'.
Qed.

Lemma Cache_get_oldest_witness :
  Cache_borrow cache_example [1] = Some 11 /\
  Cache_present cache_example [1] = true /\
  exists e c', Cache_get cache_example [1] = (Some 11, e, c') /\
    cache_wf c' /\ (entries cache_example [1] = [] -> c' = cache_example) /\
    (entries cache_example [1] <> [] -> cache_size c' = cache_size cache_example - 1) /\
    forall key', entries c' key' =
      if decide ([1] = key') then tail (entries cache_example [1])
      else entries cache_example key'.
Proof.
  exact (Cache_get_oldest cache_example [1]
    cache_example_wf).
Defined.

(** An iteration started by [Cache_iter] and driven by [Cache_next] ends,
    and delivers exactly the entries of the key, oldest first; it changes no
    key's entries and keeps the invariant. *)
Theorem Cache_iteration_complete {D} (c : Cache D) key fuel :
  cache_wf c -> (length (entries c key) <= fuel)%nat ->
  exists c', cache_drain fuel c (Cache_iter c key) = Some (entries c key, c') /\
    cache_wf c' /\ forall key', entries c' key' = entries c key'.
Proof.
  intros Hwf Hlen. rewrite Cache_iter_entries.
  destruct (cache_drain_spec c key [] (entry_ids c key) fuel Hwf eq_refl)
    as (c' & Hd & Hst & Hwf').
  { unfold entries in Hlen. by rewrite length_map in Hlen. }
  exists c'. split_and!; try done. intros. by apply same_table_entries.
Qed.

Lemma Cache_iteration_complete_witness :
  exists c', cache_drain 1 cache_example (Cache_iter cache_example [1]) =
      Some ([Some 11], c') /\
    cache_wf c' /\ forall key', entries c' key' = entries cache_example key'.
Proof.
  exact (Cache_iteration_complete cache_example [1] 1
    cache_example_wf
    ltac:(vm_compute; lia)).
Defined.
