(* ===== verification/DataStore.v ===== *)
(** * DataStore: the triple store (lib/data_store.c)

    [DataStore] is the abstract class of include/aff4_resolver.h as an
    interface: what a store holds for a subject and an attribute, its
    operations, and what each promises.  [MemoryDataStore] is the
    implementation of lib/data_store.c on three caches: one numbers the
    subjects, one the attributes, and the third maps the 16-byte pair of the
    two numbers to the values. *)
From S2P Require Import Prelude Cache.

(** include/aff4_resolver.h: DataStoreObject. *)
Record DataStoreObject := { dso_data : list Z; dso_rdf_type : list Z }.

#[export] Instance DataStoreObject_eq_dec : EqDecision DataStoreObject.
Proof. solve_decision. Defined.

(** [talloc_memdup] of the first [length] bytes of the buffer. *)
Definition DataStoreObject_Con (data : list Z) (length : Z) (rdf_type : list Z)
  : DataStoreObject :=
  {| dso_data := ztake length data; dso_rdf_type := rdf_type |}.

Record MemoryDataStore := {
  id_counter : Z;
  urn_db : Cache Z;
  attribute_db : Cache Z;
  data_db : Cache DataStoreObject
}.

Definition DataStore_Con : MemoryDataStore :=
  {| urn_db := Cache_Con 100 0; attribute_db := Cache_Con 100 0;
     data_db := Cache_Con 100 0; id_counter := 0 |}.

(** The number of a key in an index cache, allotted on first use; the counter
    and the cache are the ones of the store. *)
Definition get_or_create (counter : Z) (cache : Cache Z) (key : list Z)
  : option (Z * Z * Cache Z) :=
  match Cache_borrow cache key with
  | Some result => Some (result, counter, cache)
  | None =>
      let counter := i32 (counter + 1) in
      cache' ← Cache_put cache key (Some counter);
      Some (counter, counter, cache')
  end.

(** The common start of every operation: the numbers of the subject and of the
    attribute, and the key of the pair in the data cache. *)
Definition store_key (self : MemoryDataStore) (uri attribute : list Z)
  : option (list Z * MemoryDataStore) :=
  '(uri_index, counter, urns) ← get_or_create (id_counter self) (urn_db self) uri;
  '(attr_index, counter, attrs) ←
    get_or_create counter (attribute_db self) attribute;
  Some (le 8 uri_index ++ le 8 attr_index,
        {| id_counter := counter; urn_db := urns; attribute_db := attrs;
           data_db := data_db self |}).

(** [while (1) { obj = get(..); if (!obj) break; talloc_free(obj); }] *)
Fixpoint remove_all (fuel : nat) (db : Cache DataStoreObject) (key : list Z)
  : option (Cache DataStoreObject) :=
  match Cache_get db key with
  | (None, _, db') => Some db'
  | (Some _, _, db') =>
      match fuel with O => None | S fuel' => remove_all fuel' db' key end
  end.

Definition with_data (self : MemoryDataStore) (db : Cache DataStoreObject)
  : MemoryDataStore :=
  {| id_counter := id_counter self; urn_db := urn_db self;
     attribute_db := attribute_db self; data_db := db |}.

Definition DataStore_del (self : MemoryDataStore) (uri attribute : list Z)
  : option MemoryDataStore :=
  '(data_ptr, self) ← store_key self uri attribute;
  db ← remove_all (length (cache_list (data_db self))) (data_db self) data_ptr;
  Some (with_data self db).

Definition DataStore_set (self : MemoryDataStore) (uri attribute : list Z)
    (value : option DataStoreObject) : option MemoryDataStore :=
  '(data_ptr, self) ← store_key self uri attribute;
  db ← remove_all (length (cache_list (data_db self))) (data_db self) data_ptr;
  db' ← Cache_put db data_ptr value;
  Some (with_data self db').

Definition DataStore_add (self : MemoryDataStore) (uri attribute : list Z)
    (value : option DataStoreObject) : option MemoryDataStore :=
  '(data_ptr, self) ← store_key self uri attribute;
  db' ← Cache_put (data_db self) data_ptr value;
  Some (with_data self db').

Definition DataStore_get (self : MemoryDataStore) (uri attribute : list Z)
  : option (option DataStoreObject * MemoryDataStore) :=
  '(data_ptr, self) ← store_key self uri attribute;
  Some (Cache_borrow (data_db self) data_ptr, self).

Definition DataStore_iter (self : MemoryDataStore) (uri attribute : list Z)
  : option (option cid * MemoryDataStore) :=
  '(data_ptr, self) ← store_key self uri attribute;
  Some (Cache_iter (data_db self) data_ptr, self).

Definition DataStore_next (self : MemoryDataStore) (iter : option cid)
  : option (option DataStoreObject * option cid * MemoryDataStore) :=
  '(result, iter', db) ← Cache_next (data_db self) iter;
  Some (result, iter', with_data self db).

(** The loop [while(iter) { obj = next(&iter); ... }] of the clients. *)
Fixpoint iterate_values (fuel : nat) (self : MemoryDataStore) (iter : option cid)
  : option (list (option DataStoreObject) * MemoryDataStore) :=
  match iter with
  | None => Some ([], self)
  | Some _ =>
      match fuel with
      | O => None
      | S fuel' =>
          '(obj, iter', self') ← DataStore_next self iter;
          '(objs, self'') ← iterate_values fuel' self' iter';
          Some (obj :: objs, self'')
      end
  end.

(** ** The interface of a data store *)

Class DataStore (St : Type) := {
  (** invariant, values held, and how many more names can be numbered *)
  ds_ok : St -> Prop;
  ds_values : St -> list Z -> list Z -> list DataStoreObject;
  ds_room : St -> Z;
  ds_set : St -> list Z -> list Z -> option DataStoreObject -> option St;
  ds_add : St -> list Z -> list Z -> option DataStoreObject -> option St;
  ds_del : St -> list Z -> list Z -> option St;
  ds_get : St -> list Z -> list Z -> option (option DataStoreObject * St);
  ds_iterate : St -> list Z -> list Z -> option (list (option DataStoreObject) * St)
}.

(** A change of the values of one subject and attribute to [vs]. *)
Definition ds_update `{DataStore St} (s s' : St) (uri attr : list Z)
    (vs : list DataStoreObject) : Prop :=
  ds_ok s' /\ ds_room s - 2 <= ds_room s' <= ds_room s /\
  forall u a, ds_values s' u a =
    if decide (u = uri /\ a = attr) then vs else ds_values s u a.

Class DataStoreLaws (St : Type) `{DataStore St} := {
  ds_set_law s uri attr v : ds_ok s -> 2 <= ds_room s ->
    exists s', ds_set s uri attr (Some v) = Some s' /\ ds_update s s' uri attr [v];
  ds_add_law s uri attr v : ds_ok s -> 2 <= ds_room s ->
    exists s', ds_add s uri attr (Some v) = Some s' /\
      ds_update s s' uri attr (ds_values s uri attr ++ [v]);
  ds_del_law s uri attr : ds_ok s -> 2 <= ds_room s ->
    exists s', ds_del s uri attr = Some s' /\ ds_update s s' uri attr [];
  ds_get_law s uri attr : ds_ok s -> 2 <= ds_room s ->
    exists s', ds_get s uri attr = Some (head (ds_values s uri attr), s') /\
      ds_update s s' uri attr (ds_values s uri attr);
  ds_iterate_law s uri attr : ds_ok s -> 2 <= ds_room s ->
    exists s', ds_iterate s uri attr = Some (Some <$> ds_values s uri attr, s') /\
      ds_update s s' uri attr (ds_values s uri attr)
}.

(** ** MemoryDataStore implements the interface *)

(** The data key of a subject and attribute that both have numbers. *)
Definition data_key (self : MemoryDataStore) (uri attr : list Z) : option (list Z) :=
  u ← Cache_borrow (urn_db self) uri;
  a ← Cache_borrow (attribute_db self) attr;
  Some (le 8 u ++ le 8 a).

Definition mem_values (self : MemoryDataStore) (uri attr : list Z)
  : list DataStoreObject :=
  match data_key self uri attr with
  | Some k => omap id (entries (data_db self) k)
  | None => []
  end.

(** An index cache numbers each of its keys once, differently, from 1 up to
    the counter. *)
Record index_ok (counter : Z) (c : Cache Z) : Prop := {
  index_wf : cache_wf c;
  index_max : max_cache_size c = 0;
  index_entries key : entries c key = [] \/
    exists v, entries c key = [Some v] /\ 1 <= v <= counter;
  index_inj k1 k2 v : entries c k1 = [Some v] -> entries c k2 = [Some v] -> k1 = k2
}.

Record mem_ok (self : MemoryDataStore) : Prop := {
  mem_counter : 0 <= id_counter self <= INT_MAX;
  mem_urns : index_ok (id_counter self) (urn_db self);
  mem_attrs : index_ok (id_counter self) (attribute_db self);
  mem_data_wf : cache_wf (data_db self);
  mem_data_max : max_cache_size (data_db self) = 0;
  mem_data_keys key : entries (data_db self) key <> [] ->
    exists u a, key = le 8 u ++ le 8 a /\ 1 <= u <= id_counter self /\
      1 <= a <= id_counter self;
  mem_data_some key : Forall is_Some (entries (data_db self) key)
}.

Definition mem_iterate (self : MemoryDataStore) (uri attr : list Z)
  : option (list (option DataStoreObject) * MemoryDataStore) :=
  '(iter, self') ← DataStore_iter self uri attr;
  iterate_values (length (cache_list (data_db self'))) self' iter.

#[export] Instance MemoryDataStore_ops : DataStore MemoryDataStore := {
  ds_ok := mem_ok;
  ds_values := mem_values;
  ds_room s := INT_MAX - id_counter s;
  ds_set := DataStore_set;
  ds_add := DataStore_add;
  ds_del := DataStore_del;
  ds_get := DataStore_get;
  ds_iterate := mem_iterate
}.

(** ** Lemmas *)

Lemma cache_put_unbounded {D} (c : Cache D) key d :
  max_cache_size c = 0 -> Cache_put c key d = Some (cache_link c key d).
Proof.
  intros Hm. unfold Cache_put.
  assert (cache_expire (length (cache_list c)) c = Some c) as ->.
  { destruct (length (cache_list c)); simpl; rewrite Hm; done. }
  done.
Qed.

Lemma index_ok_mono n m c : n <= m -> index_ok n c -> index_ok m c.
Proof.
  intros Hnm [Hw Hm He Hi]. split; try done. intros key.
  destruct (He key) as [|(v & Hv & Hb)]; [by left|]. right. exists v.
  split; [done|lia].
Qed.

Lemma index_borrow n c key v :
  index_ok n c -> Cache_borrow c key = Some v <-> entries c key = [Some v].
Proof.
  intros [_ _ He _]. rewrite Cache_borrow_entries.
  destruct (He key) as [->|(w & -> & _)]; simpl; [done|]. split; congruence.
Qed.

Lemma index_borrow_range n c key v :
  index_ok n c -> Cache_borrow c key = Some v -> 1 <= v <= n.
Proof.
  intros Hi Hb. apply (index_borrow n) in Hb; [|done]. destruct Hi as [_ _ He _].
  destruct (He key) as [E|(w & E & Hw)]; rewrite Hb in E; [done|].
  by injection E as ->.
Qed.

(** [get_or_create] finds the number of the key or allots the next one, and
    every key that had a number keeps it. *)
Lemma get_or_create_spec n c key :
  index_ok n c -> 0 <= n < INT_MAX ->
  exists v n' c', get_or_create n c key = Some (v, n', c') /\
    index_ok n' c' /\ n <= n' <= n + 1 /\ Cache_borrow c' key = Some v /\
    (forall key' w, Cache_borrow c key' = Some w -> Cache_borrow c' key' = Some w) /\
    (forall key' w, Cache_borrow c' key' = Some w ->
       Cache_borrow c key' = Some w \/ n < w).
Proof.
  intros Hi Hn. unfold get_or_create.
  destruct (Cache_borrow c key) as [v|] eqn:Hb.
  { exists v, n, c. split_and!; auto; try lia. }
  pose proof Hi as [Hw Hm He Hinj]. unfold INT_MAX in *.
  rewrite cache_put_unbounded, i32_small by (done || lia). simpl.
  assert (entries c key = []) as Hnil.
  { destruct (He key) as [|(w & Hw' & _)]; [done|].
    rewrite Cache_borrow_entries, Hw' in Hb. done. }
  assert (forall key', entries (cache_link c key (Some (n + 1))) key' =
    if decide (key = key') then [Some (n + 1)] else entries c key') as Hlink.
  { intros key'. rewrite entries_link by done.
    case_decide; [subst; by rewrite Hnil|]. by rewrite app_nil_r. }
  exists (n + 1), (n + 1), (cache_link c key (Some (n + 1))).
  split_and!; try lia; [done| | | |].
  - split; [by apply wf_link|done| |].
    + intros key'. rewrite Hlink. case_decide; [right; exists (n + 1); split; [done|lia]|].
      destruct (He key') as [|(w & Hw' & Hr)]; [by left|]. right. exists w.
      split; [done|lia].
    + intros k1 k2 v. rewrite !Hlink.
      case_decide; case_decide; subst; try congruence.
      * intros [= <-] E. destruct (He k2) as [E'|(w & E' & Hr)]; rewrite E in E';
          [done|injection E' as <-; lia].
      * intros E [= <-]. destruct (He k1) as [E'|(w & E' & Hr)]; rewrite E in E';
          [done|injection E' as <-; lia].
      * apply Hinj.
  - rewrite Cache_borrow_entries, Hlink, decide_True; done.
  - intros key' w Hb'. rewrite Cache_borrow_entries, Hlink, <- Hb'.
    case_decide; [congruence|]. by rewrite Cache_borrow_entries.
  - intros key' w. rewrite (Cache_borrow_entries (cache_link _ _ _)), Hlink.
    case_decide; [intros [= <-]; right; lia|]. rewrite <- Cache_borrow_entries. auto.
Qed.

Lemma le8_pair_inj u a u' a' :
  0 <= u <= INT_MAX -> 0 <= a <= INT_MAX -> 0 <= u' <= INT_MAX ->
  0 <= a' <= INT_MAX -> le 8 u ++ le 8 a = le 8 u' ++ le 8 a' -> u = u' /\ a = a'.
Proof.
  unfold INT_MAX. intros ???? E.
  apply app_inj_1 in E as [E1 E2]; [|reflexivity].
  apply (f_equal unle) in E1, E2. rewrite !unle_le8 in E1, E2.
  rewrite !u64_small in E1, E2 by lia. done.
Qed.

Lemma data_key_inj self u a u' a' k :
  mem_ok self -> data_key self u a = Some k -> data_key self u' a' = Some k ->
  u = u' /\ a = a'.
Proof.
  intros [Hc Hu Ha _ _ _ _]. unfold data_key.
  destruct (Cache_borrow (urn_db self) u) as [x|] eqn:E1; [|done].
  destruct (Cache_borrow (attribute_db self) a) as [y|] eqn:E2; [|done].
  destruct (Cache_borrow (urn_db self) u') as [x'|] eqn:E3; [|done].
  destruct (Cache_borrow (attribute_db self) a') as [y'|] eqn:E4; [|done].
  intros Hk E. rewrite <- Hk in E. apply Some_inj in E.
  pose proof (index_borrow_range _ _ _ _ Hu E1).
  pose proof (index_borrow_range _ _ _ _ Ha E2).
  pose proof (index_borrow_range _ _ _ _ Hu E3).
  pose proof (index_borrow_range _ _ _ _ Ha E4).
  apply (le8_pair_inj x' y' x y) in E as [-> ->]; [|lia..].
  apply (index_borrow _ _ _ _ Hu) in E1, E3.
  apply (index_borrow _ _ _ _ Ha) in E2, E4.
  split; [by eapply (index_inj _ _ Hu) | by eapply (index_inj _ _ Ha)].
Qed.

(** The start of every operation numbers the two names and changes no value. *)
Lemma store_key_spec self uri attr :
  mem_ok self -> id_counter self + 2 <= INT_MAX ->
  exists k self', store_key self uri attr = Some (k, self') /\ mem_ok self' /\
    id_counter self <= id_counter self' <= id_counter self + 2 /\
    data_key self' uri attr = Some k /\ data_db self' = data_db self /\
    forall u a, mem_values self' u a = mem_values self u a.
Proof.
  intros Hok Hroom. pose proof Hok as [Hc Hu Ha Hw Hm Hks Hs].
  destruct (get_or_create_spec (id_counter self) (urn_db self) uri Hu)
    as (x & n1 & us & E1 & Hu1 & Hn1 & Hx & Hup & Hdown); [lia|].
  destruct (get_or_create_spec n1 (attribute_db self) attr)
    as (y & n2 & ats & E2 & Ha2 & Hn2 & Hy & Hup' & Hdown');
    [by eapply index_ok_mono; [|exact Ha]; lia | lia |].
  exists (le 8 x ++ le 8 y),
    {| id_counter := n2; urn_db := us; attribute_db := ats; data_db := data_db self |}.
  split. { unfold store_key. rewrite E1. simpl. by rewrite E2. }
  split.
  { split; simpl; try done; [lia|by eapply index_ok_mono; [|exact Hu1]; lia|].
    intros key Hne. destruct (Hks key Hne) as (u & a & -> & ? & ?).
    exists u, a. split_and!; (done || lia). }
  split; [simpl; lia|]. split; [unfold data_key; simpl; by rewrite Hx, Hy|].
  split; [done|]. intros u a. unfold mem_values. cbn [data_db].
  (* a data key with a number above the old counter has no entry *)
  assert (forall p q, Cache_borrow us u = Some p -> Cache_borrow ats a = Some q ->
    id_counter self < p \/ id_counter self < q ->
    entries (data_db self) (le 8 p ++ le 8 q) = []) as Hnew.
  { intros p q Hp Hq Hpq. destruct (entries _ _) as [|d ds] eqn:He; [done|exfalso].
    destruct (Hks (le 8 p ++ le 8 q)) as (p' & q' & E & ? & ?); [by rewrite He|].
    pose proof (index_borrow_range _ _ _ _ Hu1 Hp).
    pose proof (index_borrow_range _ _ _ _ Ha2 Hq).
    apply le8_pair_inj in E as [-> ->]; lia. }
  unfold data_key. cbn [urn_db attribute_db].
  destruct (Cache_borrow us u) as [p|] eqn:Hp; mred.
  - destruct (Cache_borrow ats a) as [q|] eqn:Hq; mred.
    + destruct (Hdown u p Hp) as [->|Hgt]; mred.
      * destruct (Hdown' a q Hq) as [->|Hgt']; [done|].
        destruct (Cache_borrow (attribute_db self) a) as [q'|] eqn:Hq'; mred.
        -- pose proof (Hup' _ _ Hq'). congruence.
        -- by rewrite Hnew by (done || right; lia).
      * rewrite Hnew by (done || left; lia).
        destruct (Cache_borrow (urn_db self) u) as [p'|] eqn:Hp'; [|done].
        pose proof (Hup _ _ Hp').
        pose proof (index_borrow_range _ _ _ _ Hu Hp'). assert (p' = p) by congruence. lia.
    + destruct (Cache_borrow (attribute_db self) a) as [q'|] eqn:Hq'.
      * pose proof (Hup' _ _ Hq'). congruence.
      * by destruct (Cache_borrow (urn_db self) u).
  - destruct (Cache_borrow (urn_db self) u) as [p'|] eqn:Hp'; [|done].
    pose proof (Hup _ _ Hp'). congruence.
Qed.

Lemma omap_id_some {A} (l : list A) : omap id (Some <$> l) = l.
Proof. induction l as [|x l IH]; [done|]. simpl. by f_equal. Qed.

Lemma some_omap_id {A} (l : list (option A)) :
  Forall is_Some l -> Some <$> omap id l = l.
Proof.
  induction 1 as [|x l [y ->] Hl IH]; [done|]. simpl. by f_equal.
Qed.

(** Replacing the entries of one data key updates one subject and attribute. *)
Lemma with_data_update self uri attr k db vs :
  mem_ok self -> data_key self uri attr = Some k ->
  cache_wf db -> max_cache_size db = 0 ->
  (forall key, entries db key =
     if decide (k = key) then Some <$> vs else entries (data_db self) key) ->
  mem_ok (with_data self db) /\
  forall u a, mem_values (with_data self db) u a =
    if decide (u = uri /\ a = attr) then vs else mem_values self u a.
Proof.
  intros Hok Hk Hw Hm He. pose proof Hok as [Hc Hu Ha _ _ Hks Hs].
  split.
  - split; simpl; try done.
    + intros key. rewrite He. case_decide; [|apply Hks]. subst key. intros _.
      unfold data_key in Hk.
      destruct (Cache_borrow (urn_db self) uri) as [x|] eqn:E1; [|done].
      destruct (Cache_borrow (attribute_db self) attr) as [y|] eqn:E2; [|done].
      apply Some_inj in Hk as <-. exists x, y. split; [done|].
      split; [by apply (index_borrow_range _ (urn_db self) uri)
             |by apply (index_borrow_range _ (attribute_db self) attr)].
    + intros key. rewrite He. case_decide; [|apply Hs].
      apply Forall_fmap, Forall_true. by intros v; exists v.
  - intros u a. unfold mem_values.
    change (data_key (with_data self db) u a) with (data_key self u a).
    destruct (data_key self u a) as [k'|] eqn:Hk'.
    + simpl. rewrite He. case_decide as Hkk; case_decide as Hua; try done.
      * apply omap_id_some.
      * subst k'. destruct Hua. by apply (data_key_inj self u a uri attr k).
      * destruct Hua as [-> ->]. congruence.
    + case_decide as Hua; [|done]. destruct Hua as [-> ->]. congruence.
Qed.

(** The loop that frees every object of a key. *)
Lemma remove_all_spec db key fuel :
  cache_wf db -> Forall is_Some (entries db key) ->
  (length (entries db key) <= fuel)%nat ->
  exists db', remove_all fuel db key = Some db' /\ cache_wf db' /\
    max_cache_size db' = max_cache_size db /\
    forall key', entries db' key' =
      if decide (key = key') then [] else entries db key'.
Proof.
  revert db. induction fuel as [|fuel IH]; intros db Hw Hs Hlen;
    pose proof (Cache_get_spec db key) as Hg;
    destruct (entry_ids db key) as [|i ids] eqn:He.
  1, 3: destruct Hg as [e Hg]; exists db; cbn [remove_all]; rewrite Hg;
    (split_and!; try done); intros key'; (case_decide; [subst key'|done]);
    unfold entries; by rewrite He.
  all: destruct Hg as (n & Hn & Hg); rewrite (entries_cons _ _ _ _ _ He Hn) in Hs, Hlen;
    apply Forall_cons in Hs as [[d Hd] Hs]; simpl in Hlen.
  { lia. }
  cbn [remove_all]. rewrite Hg, Hd.
  assert (entries (Cache_destructor db i) key = tail (entries db key)) as Ht
    by (rewrite (entries_destructor db key key i ids Hw He), decide_True; done).
  rewrite (entries_cons _ _ _ _ _ He Hn) in Ht. simpl in Ht.
  destruct (IH (Cache_destructor db i)) as (db' & Hr & Hw' & Hm' & He');
    [by apply wf_destructor | by rewrite Ht | rewrite Ht; lia |].
  exists db'. split_and!; try done. intros key'. rewrite He'.
  case_decide; [done|]. rewrite (entries_destructor db key key' i ids Hw He).
  by rewrite decide_False.
Qed.

(** A key has no more entries than the cache has elements. *)
Lemma entries_length_le {D} (c : Cache D) key :
  cache_wf c -> (length (entries c key) <= length (cache_list c))%nat.
Proof.
  intros Hw. unfold entries. rewrite length_map.
  apply submseteq_length, NoDup_submseteq; [by apply entry_ids_nodup|].
  intros i Hi. apply entry_ids_node in Hi as (n & Hn & _).
  apply (wf_list c Hw). by exists n.
Qed.

Lemma cache_drain_max {D} fuel (c : Cache D) it ds c' :
  cache_drain fuel c it = Some (ds, c') -> max_cache_size c' = max_cache_size c.
Proof.
  revert c it ds. induction fuel as [|fuel IH]; intros c [it|] ds H; simpl in H;
    try done; [by injection H as _ <- | | by injection H as _ <-].
  destruct (nodes c !! it); [|done]. simpl in H.
  destruct (cache_drain _ _ _) as [[ds' c'']|] eqn:Hd; [|done].
  injection H as _ <-. by apply IH in Hd.
Qed.

Lemma iterate_values_drain fuel self it :
  iterate_values fuel self it =
    '(ds, db) ← cache_drain fuel (data_db self) it; Some (ds, with_data self db).
Proof.
  revert self it. induction fuel as [|fuel IH]; intros self [it|];
    cbn [iterate_values cache_drain]; try done; [by destruct self| |by destruct self].
  unfold DataStore_next. destruct (Cache_next (data_db self) (Some it))
    as [[[d it'] c']|]; [|done]. mred. rewrite IH. cbn [data_db with_data].
  by destruct (cache_drain fuel c' it') as [[ds c'']|].
Qed.

(** The values of a pair are the entries of its data key. *)
Lemma mem_values_entries self uri attr k :
  mem_ok self -> data_key self uri attr = Some k ->
  entries (data_db self) k = Some <$> mem_values self uri attr.
Proof.
  intros Hok Hk. unfold mem_values. rewrite Hk.
  by rewrite some_omap_id by apply (mem_data_some self Hok).
Qed.

(** An operation that numbers the names and then replaces the entries of the
    pair is an update of the store. *)
Lemma ds_update_intro self self1 uri attr k db vs :
  mem_ok self1 -> id_counter self <= id_counter self1 <= id_counter self + 2 ->
  (forall u a, mem_values self1 u a = mem_values self u a) ->
  data_key self1 uri attr = Some k -> cache_wf db -> max_cache_size db = 0 ->
  (forall key, entries db key =
     if decide (k = key) then Some <$> vs else entries (data_db self1) key) ->
  ds_update self (with_data self1 db) uri attr vs.
Proof.
  intros Hok1 Hcnt Hv Hk Hw Hm He.
  destruct (with_data_update self1 uri attr k db vs Hok1 Hk Hw Hm He) as [Hok2 Hv2].
  split; [done|]. split; [simpl; lia|]. intros u a. simpl. rewrite Hv2, Hv. done.
Qed.

Lemma ds_update_same self self1 uri attr :
  mem_ok self1 -> id_counter self <= id_counter self1 <= id_counter self + 2 ->
  (forall u a, mem_values self1 u a = mem_values self u a) ->
  ds_update self self1 uri attr (mem_values self uri attr).
Proof.
  intros Hok1 Hcnt Hv. split; [done|]. split; [simpl; lia|]. intros u a. simpl.
  rewrite Hv. case_decide as E; [|done]. by destruct E as [-> ->].
Qed.

(** [start_op] runs the numbering at the start of an operation. *)
Ltac start_op self uri attr Hok :=
  let k := fresh "k" in
  let Hk := fresh "Hk" in
  destruct (store_key_spec self uri attr Hok) as (k & self1 & Hk & Hok1 & Hcnt & Hkey & Hdb & Hv);
    [simpl in *; lia|];
  pose proof (mem_data_wf _ Hok1) as Hw1; pose proof (mem_data_max _ Hok1) as Hm1;
  pose proof (mem_data_some _ Hok1 k) as Hs1;
  pose proof (mem_values_entries self1 uri attr k Hok1 Hkey) as Hent;
  rewrite (Hv uri attr) in Hent;
  pose proof (entries_length_le (data_db self1) k Hw1) as Hlen.

#[export] Instance MemoryDataStore_laws : DataStoreLaws MemoryDataStore.
Proof.
  split; intros self uri attr; [intros v|intros v| | |];
    intros Hok Hroom; start_op self uri attr Hok; cbn [ds_set ds_add ds_del ds_get
    ds_iterate MemoryDataStore_ops ds_values].
  - destruct (remove_all_spec (data_db self1) k _ Hw1 Hs1 Hlen)
      as (db & Hr & Hw2 & Hm2 & He2). rewrite Hm1 in Hm2.
    unfold DataStore_set. rewrite Hk. mred. rewrite Hr. mred.
    rewrite cache_put_unbounded by done. mred. eexists; split; [done|].
    eapply ds_update_intro; try done; [by apply wf_link|].
    intros key. rewrite entries_link, He2 by done. by case_decide; rewrite ?app_nil_r.
  - unfold DataStore_add. rewrite Hk. mred. rewrite cache_put_unbounded by done.
    mred. eexists; split; [done|].
    eapply ds_update_intro; try done; [by apply wf_link|].
    intros key. rewrite entries_link by done. case_decide; [subst key|by rewrite app_nil_r].
    rewrite Hent. by rewrite fmap_app.
  - destruct (remove_all_spec (data_db self1) k _ Hw1 Hs1 Hlen)
      as (db & Hr & Hw2 & Hm2 & He2). rewrite Hm1 in Hm2.
    unfold DataStore_del. rewrite Hk. mred. rewrite Hr. mred. eexists; split; [done|].
    by eapply ds_update_intro.
  - unfold DataStore_get. rewrite Hk. mred. exists self1. split; [|by apply ds_update_same].
    rewrite Cache_borrow_entries, Hent. by destruct (mem_values self uri attr).
  - unfold mem_iterate, DataStore_iter. rewrite Hk. mred.
    rewrite iterate_values_drain, Cache_iter_entries.
    destruct (cache_drain_spec (data_db self1) k [] (entry_ids (data_db self1) k)
      (length (cache_list (data_db self1))) Hw1 eq_refl) as (db & Hd & Hst & Hw2).
    { unfold entries in Hlen. by rewrite length_map in Hlen. }
    rewrite Hd. mred. fold (entries (data_db self1) k). rewrite Hent.
    eexists; split; [done|]. eapply ds_update_intro; try done.
    + pose proof (cache_drain_max _ _ _ _ _ Hd). congruence.
    + intros key. rewrite (same_table_entries (data_db self1) db key Hst).
      case_decide; [by subst key|done].
Qed.

(** ** Refinement: a store is a finite map from pairs to lists of values *)

Inductive ds_op :=
| OpSet (uri attr : list Z) (v : DataStoreObject)
| OpAdd (uri attr : list Z) (v : DataStoreObject)
| OpDel (uri attr : list Z)
| OpGet (uri attr : list Z)
| OpIterate (uri attr : list Z).

(** One client operation on any store: the objects it delivers, and the store. *)
Definition ds_step `{DataStore St} (s : St) (op : ds_op)
  : option (list (option DataStoreObject) * St) :=
  match op with
  | OpSet u a v => s' ← ds_set s u a (Some v); Some ([], s')
  | OpAdd u a v => s' ← ds_add s u a (Some v); Some ([], s')
  | OpDel u a => s' ← ds_del s u a; Some ([], s')
  | OpGet u a => '(v, s') ← ds_get s u a; Some ([v], s')
  | OpIterate u a => ds_iterate s u a
  end.

Fixpoint ds_run `{DataStore St} (s : St) (ops : list ds_op)
  : option (list (list (option DataStoreObject)) * St) :=
  match ops with
  | [] => Some ([], s)
  | op :: ops' =>
      '(r, s') ← ds_step s op;
      '(rs, s'') ← ds_run s' ops';
      Some (r :: rs, s'')
  end.

Abbreviation triples := (gmap (list Z * list Z) (list DataStoreObject)).

Definition triples_at (m : triples) (u a : list Z) : list DataStoreObject :=
  default [] (m !! (u, a)).

Definition triples_step (m : triples) (op : ds_op)
  : list (option DataStoreObject) * triples :=
  match op with
  | OpSet u a v => ([], <[(u, a) := [v]]> m)
  | OpAdd u a v => ([], <[(u, a) := triples_at m u a ++ [v]]> m)
  | OpDel u a => ([], delete (u, a) m)
  | OpGet u a => ([head (triples_at m u a)], m)
  | OpIterate u a => (Some <$> triples_at m u a, m)
  end.

Fixpoint triples_run (m : triples) (ops : list ds_op)
  : list (list (option DataStoreObject)) * triples :=
  match ops with
  | [] => ([], m)
  | op :: ops' =>
      let '(r, m') := triples_step m op in
      let '(rs, m'') := triples_run m' ops' in
      (r :: rs, m'')
  end.

Section Refinement.

Context {St : Type} `{DataStoreLaws St}.
Implicit Types (s : St) (m : triples).

(** The store [s] holds what the map [m] says. *)
Definition holds s m : Prop := ds_ok s /\ forall u a, ds_values s u a = triples_at m u a.

Lemma triples_at_insert m u a vs u' a' :
  triples_at (<[(u, a) := vs]> m) u' a' =
    if decide (u' = u /\ a' = a) then vs else triples_at m u' a'.
Proof.
  unfold triples_at. rewrite lookup_insert.
  case_decide as E; case_decide as E'; try done; [|destruct E' as [-> ->]; done].
  injection E as <- <-. tauto.
Qed.

Lemma triples_at_delete m u a u' a' :
  triples_at (delete (u, a) m) u' a' =
    if decide (u' = u /\ a' = a) then [] else triples_at m u' a'.
Proof.
  unfold triples_at. rewrite lookup_delete.
  case_decide as E; case_decide as E'; try done; [|destruct E' as [-> ->]; done].
  injection E as <- <-. tauto.
Qed.

(** A read-only operation that kept its pair's values kept everything. *)
Lemma update_same s s' u a m :
  holds s m -> ds_update s s' u a (ds_values s u a) -> holds s' m.
Proof.
  intros [_ Hv] (Hok & _ & Hu). split; [done|]. intros u' a'. rewrite Hu, <- Hv.
  case_decide as E; [|done]. by destruct E as [-> ->].
Qed.

Lemma ds_step_refines s m op :
  holds s m -> 2 <= ds_room s ->
  exists s', ds_step s op = Some ((triples_step m op).1, s') /\
    holds s' (triples_step m op).2 /\ ds_room s - 2 <= ds_room s'.
Proof.
  intros Hh Hr. pose proof Hh as [Hok Hv].
  destruct op as [u a v|u a v|u a|u a|u a]; simpl.
  - destruct (ds_set_law s u a v Hok Hr) as (s' & -> & Hok' & Hr' & Hu).
    exists s'. split; [done|]. split; [|lia]. split; [done|]. intros u' a'.
    by rewrite Hu, triples_at_insert, Hv.
  - destruct (ds_add_law s u a v Hok Hr) as (s' & -> & Hok' & Hr' & Hu).
    exists s'. split; [done|]. split; [|lia]. split; [done|]. intros u' a'.
    by rewrite Hu, triples_at_insert, !Hv.
  - destruct (ds_del_law s u a Hok Hr) as (s' & -> & Hok' & Hr' & Hu).
    exists s'. split; [done|]. split; [|lia]. split; [done|]. intros u' a'.
    by rewrite Hu, triples_at_delete, Hv.
  - destruct (ds_get_law s u a Hok Hr) as (s' & -> & Hu). exists s'. rewrite <- Hv.
    split; [done|]. split; [by eapply update_same|]. destruct Hu as (_ & ? & _). lia.
  - destruct (ds_iterate_law s u a Hok Hr) as (s' & -> & Hu). exists s'.
    rewrite <- Hv. split; [done|]. split; [by eapply update_same|].
    destruct Hu as (_ & ? & _). lia.
Qed.

Lemma ds_run_refines s m ops :
  holds s m -> 2 * zlen ops <= ds_room s ->
  exists s', ds_run s ops = Some ((triples_run m ops).1, s') /\
    holds s' (triples_run m ops).2.
Proof.
  revert s m. induction ops as [|op ops IH]; intros s m Hh Hr; [by exists s|].
  rewrite zlen_cons in Hr. pose proof (zlen_nonneg ops).
  destruct (ds_step_refines s m op Hh) as (s1 & Hs & Hh1 & Hr1); [lia|].
  simpl. rewrite Hs. mred. destruct (triples_step m op) as [r m1]. simpl in *.
  destruct (IH s1 m1 Hh1) as (s2 & -> & Hh2); [lia|]. mred.
  destruct (triples_run m1 ops) as [rs m2]. by exists s2.
Qed.

End Refinement.

Lemma MemoryDataStore_empty : holds DataStore_Con ∅.
Proof.
  assert (forall k, entries (@Cache_Con Z 100 0) k = []) as He by done.
  split; [|done]. split; simpl; try done; try (by apply Cache_Con_wf);
    unfold INT_MAX; try lia; split; try done; try (by apply Cache_Con_wf);
    intros; by left.
Qed.

(** C6: the in-memory triple store refines a finite map from (subject,
    attribute) to the list of its values.  From the empty store, every sequence
    of set, add, delete, get and iterate requests completes, delivers exactly
    what the map delivers, and leaves the store holding what the map holds; the
    bound keeps the 32-bit name counter from wrapping around. *)
Theorem DataStore_refines_triples (ops : list ds_op) :
  2 * zlen ops <= INT_MAX ->
  exists s', ds_run DataStore_Con ops = Some ((triples_run ∅ ops).1, s') /\
    mem_ok s' /\
    forall u a, mem_values s' u a = triples_at (triples_run ∅ ops).2 u a.
Proof.
  intros Hn. destruct (ds_run_refines DataStore_Con ∅ ops) as (s' & Hr & Hok & Hv);
    [apply MemoryDataStore_empty | simpl; lia |].
  exists s'. split_and!; done.
Qed.

Definition ds_example_ops : list ds_op :=
  let obj n := {| dso_data := [n]; dso_rdf_type := [120] |} in
  [OpSet [97] [116] (obj 1); OpAdd [97] [116] (obj 2); OpAdd [98] [116] (obj 3);
   OpIterate [97] [116]; OpDel [97] [116]; OpGet [97] [116]; OpGet [98] [116]].

Lemma DataStore_refines_triples_witness :
  exists s', ds_run DataStore_Con ds_example_ops =
      Some ((triples_run ∅ ds_example_ops).1, s') /\ mem_ok s' /\
    forall u a, mem_values s' u a = triples_at (triples_run ∅ ds_example_ops).2 u a.
Proof.
  exact (DataStore_refines_triples ds_example_ops ltac:(vm_compute; discriminate)).
Defined.
