(* ===== verification/Encode.v ===== *)
(** * Encode: the text encodings of binary data (lib/encode.c)

    The lookup tables that [encode_init] builds, base64, the base32 variant and
    hexadecimal.  Buffers are arrays of bytes: an access outside of them makes
    the operation [None], and so does an [int] sum that overflows. *)
From S2P Require Import Prelude.

Definition LUT_SIZE : nat := 256.
Definition STUFF_CHAR : Z := c2z "a".

(** A value an [int] holds; arithmetic beyond it is undefined. *)
Definition int_ok (n : Z) : option Z :=
  if (-2147483648 <=? n) && (n <=? 2147483647) then Some n else None.

Record luts := {
  encode_lut : list Z;
  decode_lut : list Z;
  encode64_lut : list Z;
  decode64_lut : list Z;
  urlsafe_encode64_lut : list Z;
  urlsafe_decode64_lut : list Z
}.

(** [lut[j] = v] *)
Definition lut_set (lut : list Z) (j v : Z) : list Z := <[Z.to_nat j := v]> lut.

(** [for(i=first;i<=last;i++,j++) lut[j]=i;] with [unsigned char i] *)
Fixpoint lut_up (fuel : nat) (lut : list Z) (i last j : Z) : list Z * Z :=
  match fuel with
  | O => (lut, j)
  | S fuel' =>
      if i <=? last then lut_up fuel' (lut_set lut j i) (u8 (i + 1)) last (j + 1)
      else (lut, j)
  end.

(** [for(i=first;i>=last;i--,j++) lut[j]=i;] *)
Fixpoint lut_down (fuel : nat) (lut : list Z) (i last j : Z) : list Z * Z :=
  match fuel with
  | O => (lut, j)
  | S fuel' =>
      if i >=? last then lut_down fuel' (lut_set lut j i) (u8 (i - 1)) last (j + 1)
      else (lut, j)
  end.

(** [for(k=0;k<j;k++) decode[encode[k]] = k;] *)
Definition lut_reverse (encode decode : list Z) (j : nat) : list Z :=
  foldl (fun d k => lut_set d (nth k encode 0) (Z.of_nat k)) decode (seq 0 j).

Definition encode_init : luts :=
  let blank := replicate LUT_SIZE (c2z " ") in
  let '(enc, j) := lut_down LUT_SIZE blank (c2z "z") (c2z "b") 0 in
  let '(enc, j) := lut_down LUT_SIZE enc (c2z "9") (c2z "0") j in
  let '(enc, _) := lut_up LUT_SIZE enc (c2z "A") (c2z "Z") j in
  let '(enc64, j) := lut_up LUT_SIZE blank (c2z "A") (c2z "Z") 0 in
  let '(enc64, j) := lut_up LUT_SIZE enc64 (c2z "a") (c2z "z") j in
  let '(enc64, _) := lut_up LUT_SIZE enc64 (c2z "0") (c2z "9") j in
  let '(encurl, j) := lut_up LUT_SIZE blank (c2z "A") (c2z "Z") 0 in
  let '(encurl, j) := lut_up LUT_SIZE encurl (c2z "a") (c2z "z") j in
  let '(encurl, j) := lut_up LUT_SIZE encurl (c2z "0") (c2z "9") j in
  let j := j - 1 in
  let enc64 := lut_set enc64 (j + 1) (c2z "+") in
  let encurl := lut_set encurl (j + 1) (c2z "-") in
  let enc := lut_set enc j (c2z "/") in
  let j := j + 1 in
  let enc64 := lut_set enc64 (j + 1) (c2z "/") in
  let encurl := lut_set encurl (j + 1) (c2z "_") in
  let enc := lut_set enc j (c2z "-") in
  let j := j + 1 in
  let enc := lut_set enc j (c2z "+") in
  let j := j + 1 in
  {| encode_lut := enc; decode_lut := lut_reverse enc blank (Z.to_nat j);
     encode64_lut := enc64; decode64_lut := lut_reverse enc64 blank (Z.to_nat j);
     urlsafe_encode64_lut := encurl;
     urlsafe_decode64_lut := lut_reverse encurl blank (Z.to_nat j) |}.

(** [lut[i]] for an index below [LUT_SIZE] *)
Definition lut_get (lut : list Z) (i : Z) : Z := nth (Z.to_nat i) lut 0.

Definition encodeblock (lut : list Z) (in0 in1 in2 : Z) : list Z :=
  [lut_get lut (Z.shiftr in0 2);
   lut_get lut (Z.lor (Z.shiftl (Z.land in0 3) 4) (Z.shiftr (Z.land in1 240) 4));
   lut_get lut (Z.lor (Z.shiftl (Z.land in1 15) 2) (Z.shiftr (Z.land in2 192) 6));
   lut_get lut (Z.land in2 63)].

(** The block [in] is at [inptr] of the input and [out] at [outptr] of the
    output; the cases of the [switch] fall through from the last byte to the
    first. *)
Definition decodeblock (lut inbuf : list Z) (inptr : Z) (outbuf : list Z)
    (outptr left : Z) : option (list Z) :=
  let case1 outbuf :=
    a ← bget inbuf (inptr + 0);
    b ← bget inbuf (inptr + 1);
    bput outbuf outptr
      [u8 (Z.lor (Z.shiftl (lut_get lut a) 2) (Z.shiftr (lut_get lut b) 4))] in
  let case2 outbuf :=
    b ← bget inbuf (inptr + 1);
    c ← bget inbuf (inptr + 2);
    outbuf' ← bput outbuf (outptr + 1)
      [u8 (Z.lor (Z.shiftl (lut_get lut b) 4) (Z.shiftr (lut_get lut c) 2))];
    case1 outbuf' in
  if left =? 0 then Some outbuf
  else if left =? 1 then case1 outbuf
  else if left =? 2 then case2 outbuf
  else
    c ← bget inbuf (inptr + 2);
    d ← bget inbuf (inptr + 3);
    outbuf' ← bput outbuf (outptr + 2)
      [u8 (Z.lor (Z.land (Z.shiftl (lut_get lut c) 6) 192) (lut_get lut d))];
    case2 outbuf'.

(** The loop of [encode64]; each turn consumes three bytes. *)
Fixpoint encode64_loop (fuel : nat) (lut inbuf : list Z) (len : Z)
    (outbuf : list Z) (outlen i o : Z) : option (list Z * Z * Z) :=
  if (i <? len) && (o <? outlen) then
    match fuel with
    | O => None
    | S fuel' =>
        a ← bget inbuf i;
        b ← bget inbuf (i + 1);
        c ← bget inbuf (i + 2);
        outbuf' ← bput outbuf o (encodeblock lut a b c);
        i ← int_ok (i + 3); o ← int_ok (o + 4);
        encode64_loop fuel' lut inbuf len outbuf' outlen i o
    end
  else Some (outbuf, i, o).

(** A negative length is a huge one for [memset]. *)
Definition encode64 (inbuf : list Z) (len : Z) (outbuf : list Z) (outlen : Z)
  : option (Z * list Z) :=
  size ← int_ok (len * 2);
  outbuf ← (if size <? 0 then None else bput outbuf 0 (replicate (Z.to_nat size) 0));
  '(outbuf, i, o) ← encode64_loop (Z.to_nat len) (encode64_lut encode_init)
                     inbuf len outbuf outlen 0 0;
  outbuf ← (if i - len =? 2 then bput outbuf (o - 2) [c2z "="] else Some outbuf);
  outbuf ← (if (i - len =? 2) || (i - len =? 1)
            then bput outbuf (o - 1) [c2z "="] else Some outbuf);
  outbuf ← bput outbuf o [0];
  Some (o, outbuf).

Fixpoint decode64_loop (fuel : nat) (lut inbuf : list Z) (len : Z)
    (outbuf : list Z) (outlen i o : Z) : option (list Z * Z * Z) :=
  if (i <? len) && (o <? outlen) then
    match fuel with
    | O => None
    | S fuel' =>
        outbuf' ← decodeblock lut inbuf i outbuf o (outlen - o);
        i ← int_ok (i + 4); o ← int_ok (o + 3);
        decode64_loop fuel' lut inbuf len outbuf' outlen i o
    end
  else Some (outbuf, i, o).

Definition decode64 (inbuf : list Z) (len : Z) (outbuf : list Z) (outlen : Z)
  : option (Z * list Z) :=
  '(outbuf, i, o) ← decode64_loop (Z.to_nat len) (decode64_lut encode_init)
                     inbuf len outbuf outlen 0 0;
  x ← bget inbuf (i - 1);
  let o := if x =? c2z "=" then o - 1 else o in
  y ← bget inbuf (i - 2);
  let o := if y =? c2z "=" then o - 1 else o in
  Some (o, outbuf).

(** One turn of [encode32]: the five bytes of [workspace] to eight digits. *)
Definition encode32_block (lut workspace : list Z) : list Z :=
  let temp := foldl (fun temp j =>
                u64 (Z.lor temp (Z.shiftl (nth j workspace 0) (Z.of_nat j * 8))))
                0 (seq 0 5) in
  map (fun j => lut_get lut
         (Z.land (i32 (Z.shiftr temp (Z.of_nat j * 5))) 31)) (seq 0 8).

Fixpoint encode32_loop (fuel : nat) (lut inbuf : list Z) (len : Z)
    (outbuf : list Z) (i o : Z) : option (list Z * Z * Z) :=
  if i <? len then
    match fuel with
    | O => None
    | S fuel' =>
        let n := Z.min (len - i) 5 in
        src ← (if i + n <=? zlen inbuf then Some (zread i n inbuf) else None);
        let workspace := zover 0 src (replicate 5 0) in
        outbuf' ← bput outbuf o (encode32_block lut workspace);
        i ← int_ok (i + 5); o ← int_ok (o + 8);
        encode32_loop fuel' lut inbuf len outbuf' i o
    end
  else Some (outbuf, i, o).

Definition encode32 (inbuf : list Z) (len : Z) (outbuf : list Z) (outlen : Z)
  : option (Z * list Z) :=
  '(outbuf, i, o) ← encode32_loop (Z.to_nat len) (encode_lut encode_init)
                     inbuf len outbuf 0 0;
  let stuff n outbuf :=
    if (n <=? i - len) && (i - len <=? 4) then bput outbuf (o - n) [STUFF_CHAR]
    else Some outbuf in
  outbuf ← stuff 4 outbuf;
  outbuf ← stuff 3 outbuf;
  outbuf ← stuff 2 outbuf;
  outbuf ← stuff 1 outbuf;
  outbuf ← bput outbuf o [0];
  Some (o, outbuf).

(** One turn of [decode32]: eight characters to five bytes. *)
Definition decode32_block (lut chars : list Z) : list Z :=
  let temp := foldl (fun temp j =>
                u64 (Z.lor temp (Z.shiftl (lut_get lut (nth j chars 0))
                                   (Z.of_nat j * 5)))) 0 (seq 0 8) in
  map (fun j => Z.land (Z.shiftr temp (Z.of_nat j * 8)) 255) (seq 0 5).

Fixpoint decode32_loop (fuel : nat) (lut inbuf : list Z) (len : Z)
    (outbuf : list Z) (i o : Z) : option (list Z * Z * Z) :=
  if i <? len then
    match fuel with
    | O => None
    | S fuel' =>
        chars ← (if i + 8 <=? zlen inbuf then Some (zread i 8 inbuf) else None);
        outbuf' ← bput outbuf o (decode32_block lut chars);
        i ← int_ok (i + 8); o ← int_ok (o + 5);
        decode32_loop fuel' lut inbuf len outbuf' i o
    end
  else Some (outbuf, i, o).

Definition decode32 (inbuf : list Z) (len : Z) (outbuf : list Z) (outlen : Z)
  : option (Z * list Z) :=
  '(outbuf, i, o) ← decode32_loop (Z.to_nat len) (decode_lut encode_init)
                     inbuf len outbuf 0 0;
  o ← foldl (fun o j => o ← o; x ← bget inbuf (i - j);
                        Some (if x =? STUFF_CHAR then o - 1 else o))
        (Some o) [1; 2; 3; 4];
  Some (o, outbuf).

(** [%02x] of a byte *)
Definition hexdigit (d : Z) : Z := if d <? 10 then 48 + d else 87 + d.
Definition hex02x (b : Z) : list Z := [hexdigit (Z.shiftr b 4); hexdigit (Z.land b 15)].

Fixpoint encodehex_loop (inbuf : list Z) (n : nat) (i : Z) (outbuf : list Z)
  : option (list Z) :=
  match n with
  | O => Some outbuf
  | S n' =>
      b ← bget inbuf i;
      o ← int_ok (i * 2);
      outbuf' ← bput outbuf o (hex02x b ++ [0]);
      encodehex_loop inbuf n' (i + 1) outbuf'
  end.

Definition encodehex (inbuf : list Z) (len : Z) (outbuf : list Z)
  : option (Z * list Z) :=
  outbuf ← encodehex_loop inbuf (Z.to_nat len) 0 outbuf;
  n ← int_ok (len * 2);
  Some (n, outbuf).

Lemma int_ok_small n : -2147483648 <= n <= 2147483647 -> int_ok n = Some n.
Proof.
  intros H. unfold int_ok.
  destruct (Z.leb_spec (-2147483648) n), (Z.leb_spec n 2147483647); lia || done.
Qed.

(** ** The tables *)

Lemma luts64 d : 0 <= d < 64 ->
  lut_get (decode64_lut encode_init) (lut_get (encode64_lut encode_init) d) = d /\
  lut_get (encode64_lut encode_init) d <> c2z "=".
Proof.
  intros Hd.
  pose proof (forall_below (fun d =>
    (lut_get (decode64_lut encode_init) (lut_get (encode64_lut encode_init) d) =? d)
    && negb (lut_get (encode64_lut encode_init) d =? c2z "=")) 64 ltac:(vm_compute; reflexivity) d Hd) as H.
  cbv beta in H. apply andb_prop in H as [H1%Z.eqb_eq H2%negb_true_iff%Z.eqb_neq].
  exact (conj H1 H2).
Qed.

Lemma luts32 d : 0 <= d < 32 ->
  lut_get (decode_lut encode_init) (lut_get (encode_lut encode_init) d) = d /\
  lut_get (encode_lut encode_init) d <> STUFF_CHAR.
Proof.
  intros Hd.
  pose proof (forall_below (fun d =>
    (lut_get (decode_lut encode_init) (lut_get (encode_lut encode_init) d) =? d)
    && negb (lut_get (encode_lut encode_init) d =? STUFF_CHAR)) 32 ltac:(vm_compute; reflexivity) d Hd) as H.
  cbv beta in H. apply andb_prop in H as [H1%Z.eqb_eq H2%negb_true_iff%Z.eqb_neq].
  exact (conj H1 H2).
Qed.

Lemma lut_stuff : lut_get (decode_lut encode_init) STUFF_CHAR = 32.
Proof. vm_compute. reflexivity. Qed.

(** ** Base64 blocks *)

(** The digits of a block, most significant first. *)
Definition digits64 (a b c : Z) : list Z :=
  [a / 4; a mod 4 * 16 + b / 16; b mod 16 * 4 + c / 64; c mod 64].

Lemma land_mask x n m : 0 <= n -> m = Z.ones n -> Z.land x m = x mod 2 ^ n.
Proof. intros Hn ->. by apply Z.land_ones. Qed.

Lemma shiftr_land_high x m n k :
  0 <= n -> 0 <= k -> Z.shiftr m n = Z.ones k ->
  Z.shiftr (Z.land x m) n = (x / 2 ^ n) mod 2 ^ k.
Proof.
  intros Hn Hk Hm. rewrite Z.shiftr_land, Hm, Z.land_ones by done.
  by rewrite Z.shiftr_div_pow2.
Qed.

Lemma encodeblock_digits lut a b c :
  is_byte a -> is_byte b -> is_byte c ->
  encodeblock lut a b c = map (lut_get lut) (digits64 a b c).
Proof.
  unfold is_byte. intros Ha Hb Hc. unfold encodeblock, digits64. cbn [map].
  rewrite (Z.shiftr_div_pow2 a 2) by lia.
  rewrite (land_mask a 2 3), (land_mask b 4 15), (land_mask c 6 63) by done.
  rewrite (shiftr_land_high b 240 4 4), (shiftr_land_high c 192 6 2) by done.
  change (2 ^ 2) with 4. change (2 ^ 4) with 16. change (2 ^ 6) with 64.
  rewrite (Z.mod_small (b / 16)) by dlia. rewrite (Z.mod_small (c / 64)) by dlia.
  rewrite !lor_shiftl_add by dlia. done.
Qed.

(** The three bytes that four digits decode to. *)
Lemma digits64_decode a b c :
  is_byte a -> is_byte b -> is_byte c ->
  let d n := nth n (digits64 a b c) 0 in
  u8 (Z.lor (Z.shiftl (d 0%nat) 2) (Z.shiftr (d 1%nat) 4)) = a /\
  u8 (Z.lor (Z.shiftl (d 1%nat) 4) (Z.shiftr (d 2%nat) 2)) = b /\
  u8 (Z.lor (Z.land (Z.shiftl (d 2%nat) 6) 192) (d 3%nat)) = c.
Proof.
  unfold is_byte. intros Ha Hb Hc. cbn [nth digits64]. split_and!.
  - rewrite Z.shiftr_div_pow2 by lia. change (2 ^ 4) with 16.
    rewrite lor_shiftl_add by dlia. change (2 ^ 2) with 4. rewrite u8_small; dlia.
  - rewrite Z.shiftr_div_pow2 by lia. change (2 ^ 2) with 4.
    rewrite lor_shiftl_add by dlia. unfold u8. change (2 ^ 4) with 16. dlia.
  - assert (Z.land (Z.shiftl (b mod 16 * 4 + c / 64) 6) 192 = Z.shiftl (c / 64) 6) as ->.
    { change 192 with (Z.shiftl 3 6). rewrite <- Z.shiftl_land. f_equal.
      rewrite (land_mask _ 2 3) by done. change (2 ^ 2) with 4. dlia. }
    rewrite lor_shiftl_add by dlia. change (2 ^ 6) with 64. rewrite u8_small; dlia.
Qed.

(** [b64 lut l]: the blocks of a list whose length is a multiple of three. *)
Fixpoint b64 (lut l : list Z) : list Z :=
  match l with
  | a :: b :: c :: l' => encodeblock lut a b c ++ b64 lut l'
  | _ => []
  end.

Lemma three_split (l : list Z) n :
  zlen l = 3 * (n + 1) -> 0 <= n -> exists a b c l', l = a :: b :: c :: l' /\ zlen l' = 3 * n.
Proof.
  intros Hl Hn. destruct l as [|a [|b [|c l]]]; try (unfold zlen in Hl; simpl in Hl; lia).
  exists a, b, c, l. split; [done|]. rewrite !zlen_cons in Hl. lia.
Qed.

Lemma zlen_b64 lut (n : nat) l : zlen l = 3 * Z.of_nat n -> zlen (b64 lut l) = 4 * Z.of_nat n.
Proof.
  revert l. induction n as [|n IH]; intros l Hl.
  - by rewrite (zlen_0_nil l) by lia.
  - destruct (three_split l (Z.of_nat n)) as (a & b & c & l' & -> & Hl'); [lia..|].
    cbn [b64]. rewrite zlen_app, IH by done. unfold encodeblock, zlen. simpl. lia.
Qed.

#[global] Opaque encode_init.

(** ** Base64 loops *)

Lemma bget_list (pre l post : list Z) (off j : Z) :
  off = zlen pre -> 0 <= j < zlen l -> bget (pre ++ l ++ post) (off + j) = bget l j.
Proof.
  intros Hoff Hj. rewrite bget_app_r by lia. apply bget_app_l. lia.
Qed.

(** [n] turns of the encoder write the blocks of the next [3 * n] bytes. *)
Lemma encode64_loop_spec lut (n : nat) fuel inbuf pre src post len out outlen i o :
  inbuf = pre ++ src ++ post -> i = zlen pre -> zlen src = 3 * Z.of_nat n ->
  bytes_ok src -> (n <= fuel)%nat ->
  0 <= o -> o + 4 * Z.of_nat n <= zlen out ->
  len <= i + 3 * Z.of_nat n < len + 3 -> (n = O \/ o + 4 * (Z.of_nat n - 1) < outlen) ->
  i + 3 * Z.of_nat n <= 2147483647 -> o + 4 * Z.of_nat n <= 2147483647 ->
  encode64_loop fuel lut inbuf len out outlen i o =
    Some (zover o (b64 lut src) out, i + 3 * Z.of_nat n, o + 4 * Z.of_nat n).
Proof.
  revert fuel pre src out i o. induction n as [|n IH];
    intros fuel pre src out i o Hin Hi Hsrc Hb Hf Ho Hout Hlen Hol HI HO.
  - rewrite (zlen_0_nil src) by lia. simpl. rewrite zover_nil, !Z.add_0_r.
    assert ((i <? len) = false) as E by lia.
    destruct fuel; simpl; by rewrite E.
  - destruct fuel as [|fuel]; [lia|].
    destruct (three_split src (Z.of_nat n)) as (a & b & c & l & -> & Hl); [lia..|].
    cbn [encode64_loop].
    assert ((i <? len) && (o <? outlen) = true) as -> by lia.
    assert (0 <= zlen l) by apply zlen_nonneg.
    replace (bget inbuf i) with (bget inbuf (i + 0)) by (f_equal; lia).
    rewrite Hin, !bget_list by (rewrite ?zlen_cons; lia).
    change (bget (a :: b :: c :: l) 0) with (Some a).
    change (bget (a :: b :: c :: l) 1) with (Some b).
    change (bget (a :: b :: c :: l) 2) with (Some c). mred.
    assert (zlen (encodeblock lut a b c) = 4) as H4 by done.
    pose proof (zlen_nonneg pre) as Hpre.
    rewrite bput_ok by lia. mred. rewrite !int_ok_small by lia. mred. rewrite <- Hin.
    inversion_clear Hb as [|?? Ha Hb']. inversion_clear Hb' as [|?? Hb Hb''].
    inversion_clear Hb'' as [|?? Hc Hl'].
    rewrite (IH fuel (pre ++ [a; b; c]) l); try done; try lia.
    + cbn [b64]. rewrite <- zover_zover by lia. rewrite H4.
      f_equal. f_equal; [f_equal|]; lia.
    + rewrite Hin. by rewrite <- !(assoc_L (++)).
    + rewrite zlen_app, !zlen_cons, zlen_nil. lia.
    + rewrite zlen_zover; lia.
Qed.

(** A block of four characters decodes to as many of its bytes as there is
    room for. *)
Lemma decodeblock_spec lut inbuf pre cs post out i o left d v :
  inbuf = pre ++ cs ++ post -> i = zlen pre -> zlen cs = 4 ->
  (forall j, (j < 4)%nat -> lut_get lut (nth j cs 0) = d j) ->
  v = [u8 (Z.lor (Z.shiftl (d 0%nat) 2) (Z.shiftr (d 1%nat) 4));
       u8 (Z.lor (Z.shiftl (d 1%nat) 4) (Z.shiftr (d 2%nat) 2));
       u8 (Z.lor (Z.land (Z.shiftl (d 2%nat) 6) 192) (d 3%nat))] ->
  0 <= o -> 1 <= left -> o + Z.min left 3 <= zlen out ->
  decodeblock lut inbuf i out o left = Some (zover o (ztake left v) out).
Proof.
  intros Hin Hi Hcs Hd -> Ho Hl Hout.
  destruct cs as [|c0 [|c1 [|c2 [|c3 [|]]]]]; try (unfold zlen in Hcs; simpl in Hcs; lia).
  pose proof (Hd 0%nat ltac:(lia)) as H0. pose proof (Hd 1%nat ltac:(lia)) as H1.
  pose proof (Hd 2%nat ltac:(lia)) as H2. pose proof (Hd 3%nat ltac:(lia)) as H3.
  cbn [nth] in *. unfold decodeblock. rewrite Hin, !bget_list by lia.
  change (bget [c0; c1; c2; c3] 0) with (Some c0).
  change (bget [c0; c1; c2; c3] 1) with (Some c1).
  change (bget [c0; c1; c2; c3] 2) with (Some c2).
  change (bget [c0; c1; c2; c3] 3) with (Some c3). mred. rewrite H0, H1, H2, H3.
  set (v0 := u8 (Z.lor (Z.shiftl (d 0%nat) 2) _)).
  set (v1 := u8 (Z.lor (Z.shiftl (d 1%nat) 4) _)). set (v2 := u8 (Z.lor (Z.land _ 192) _)).
  destruct (Z.eqb_spec left 0); [lia|]. destruct (Z.eqb_spec left 1) as [->|].
  { rewrite bput_ok by wlen. done. }
  destruct (Z.eqb_spec left 2) as [->|].
  { rewrite bput_ok by wlen. mred.
    rewrite bput_ok by wlen.
    change 1 with (zlen [v0]) at 1. rewrite zover_below; [done|wlen..]. }
  rewrite ztake_all by (rewrite !zlen_cons, zlen_nil; lia).
  rewrite bput_ok by wlen. mred.
  rewrite bput_ok by wlen. mred.
  rewrite bput_ok by wlen.
  replace (o + 2) with (o + 1 + zlen [v1]) by wlen.
  rewrite (zover_below (o + 1) [v1] [v2]) by wlen.
  replace (o + 1) with (o + zlen [v0]) by wlen.
  rewrite (zover_below o [v0] ([v1] ++ [v2])) by wlen. done.
Qed.

Lemma digits64_range a b c j :
  is_byte a -> is_byte b -> is_byte c -> (j < 4)%nat ->
  0 <= nth j (digits64 a b c) 0 < 64.
Proof.
  unfold is_byte. intros Ha Hb Hc Hj. unfold digits64.
  destruct j as [|[|[|[|]]]]; try lia; cbn [nth]; dlia.
Qed.

(** The characters of a block are the table's for its digits. *)
Lemma encodeblock_nth a b c j :
  is_byte a -> is_byte b -> is_byte c -> (j < 4)%nat ->
  lut_get (decode64_lut encode_init)
    (nth j (encodeblock (encode64_lut encode_init) a b c) 0) = nth j (digits64 a b c) 0.
Proof.
  intros Ha Hb Hc Hj. rewrite encodeblock_digits by done.
  pose proof (digits64_range a b c j Ha Hb Hc Hj) as Hr.
  erewrite nth_indep by (rewrite length_map; simpl; lia). rewrite map_nth.
  by apply luts64.
Qed.

Lemma decodeblock_full inbuf pre a b c post out i o left :
  inbuf = pre ++ encodeblock (encode64_lut encode_init) a b c ++ post ->
  i = zlen pre -> is_byte a -> is_byte b -> is_byte c ->
  0 <= o -> 3 <= left -> o + 3 <= zlen out ->
  decodeblock (decode64_lut encode_init) inbuf i out o left =
    Some (zover o [a; b; c] out).
Proof.
  intros Hin Hi Ha Hb Hc Ho Hl Hout.
  rewrite (decodeblock_spec _ _ pre _ post _ _ _ _
    (fun j => nth j (digits64 a b c) 0) [a; b; c] Hin Hi); try done; try lia.
  - by rewrite ztake_all by wlen.
  - intros j Hj. by apply encodeblock_nth.
  - destruct (digits64_decode a b c Ha Hb Hc) as (-> & -> & ->). done.
Qed.

Lemma decode64_loop_full (n : nat) fuel inbuf pre src post len out outlen i o :
  inbuf = pre ++ b64 (encode64_lut encode_init) src ++ post ->
  i = zlen pre -> zlen src = 3 * Z.of_nat n -> bytes_ok src ->
  0 <= o -> o + 3 * Z.of_nat n <= outlen <= zlen out -> i + 4 * Z.of_nat n <= len ->
  len <= 2147483647 -> o + 3 * Z.of_nat n <= 2147483647 ->
  decode64_loop (n + fuel) (decode64_lut encode_init) inbuf len out outlen i o =
  decode64_loop fuel (decode64_lut encode_init) inbuf len (zover o src out) outlen
    (i + 4 * Z.of_nat n) (o + 3 * Z.of_nat n).
Proof.
  revert pre src out i o. induction n as [|n IH];
    intros pre src out i o Hin Hi Hsrc Hb Ho Hol Hlen HI HO.
  - rewrite (zlen_0_nil src) by lia. rewrite zover_nil, !Z.add_0_r. done.
  - destruct (three_split src (Z.of_nat n)) as (a & b & c & l & -> & Hl); [lia..|].
    inversion_clear Hb as [|?? Ha Hb']. inversion_clear Hb' as [|?? Hb Hb''].
    inversion_clear Hb'' as [|?? Hc Hl']. cbn [b64] in Hin.
    rewrite <- (assoc_L (++)) in Hin.
    cbn [Nat.add decode64_loop].
    assert ((i <? len) && (o <? outlen) = true) as -> by lia.
    rewrite (decodeblock_full _ pre a b c _ _ _ _ _ Hin Hi) by (done || lia). mred.
    pose proof (zlen_nonneg pre) as Hpre. rewrite !int_ok_small by lia. mred.
    assert (zlen [a; b; c] = 3) as H3 by done.
    rewrite (IH (pre ++ encodeblock (encode64_lut encode_init) a b c) l); try done; try lia.
    + change (a :: b :: c :: l) with ([a; b; c] ++ l).
      rewrite <- zover_zover by lia. rewrite H3. f_equal; lia.
    + rewrite Hin. by rewrite <- (assoc_L (++)).
    + rewrite zlen_app, Hi. done.
    + rewrite zlen_zover; lia.
Qed.

Lemma b64_app lut (n : nat) l k :
  zlen l = 3 * Z.of_nat n -> b64 lut (l ++ k) = b64 lut l ++ b64 lut k.
Proof.
  revert l. induction n as [|n IH]; intros l Hl.
  - by rewrite (zlen_0_nil l) by lia.
  - destruct (three_split l (Z.of_nat n)) as (a & b & c & l' & -> & Hl'); [lia..|].
    change ((a :: b :: c :: l') ++ k) with (a :: b :: c :: (l' ++ k)).
    cbn [b64]. rewrite IH by done. apply app_assoc.
Qed.

(** The last block with [r] of its three bytes. *)
Definition padded_text (r : Z) (e : list Z) : list Z :=
  if r =? 1 then [nth 0 e 0; nth 1 e 0; c2z "="; c2z "="]
  else if r =? 2 then [nth 0 e 0; nth 1 e 0; nth 2 e 0; c2z "="]
  else e.

(** The bytes of the whole blocks before the last one, and the last block. *)
Lemma blocks_split (inbuf : list Z) len :
  0 < len -> 3 * ((len + 2) / 3) <= zlen inbuf ->
  exists (A : list Z) x y z post, inbuf = A ++ [x; y; z] ++ post /\
    zlen A = 3 * ((len - 1) / 3).
Proof.
  intros Hlen Hin. remember (3 * ((len - 1) / 3)) as m eqn:Hm.
  assert (0 <= m /\ m + 3 <= zlen inbuf) as [Hm0 Hm3] by dlia. clear Hm.
  destruct (zdrop m inbuf) as [|x [|y [|z post]]] eqn:E;
    try (apply (f_equal (@zlen Z)) in E; rewrite zlen_zdrop in E;
         rewrite ?zlen_cons in E; change (zlen (@nil Z)) with 0 in E; lia).
  exists (ztake m inbuf), x, y, z, post. split.
  - rewrite <- (ztake_zdrop m inbuf) at 1. by rewrite E.
  - rewrite zlen_ztake. lia.
Qed.

Lemma encode64_text A x y z post len outbuf outlen :
  0 < len -> zlen A = 3 * ((len - 1) / 3) -> bytes_ok A ->
  is_byte x -> is_byte y -> is_byte z ->
  2 * len <= zlen outbuf -> 4 * ((len + 2) / 3) < zlen outbuf ->
  4 * ((len + 2) / 3) <= outlen -> len < 1073741824 ->
  exists t, encode64 (A ++ [x; y; z] ++ post) len outbuf outlen =
    Some (4 * ((len + 2) / 3),
          b64 (encode64_lut encode_init) A ++
          padded_text (len - zlen A) (encodeblock (encode64_lut encode_init) x y z) ++ 0 :: t).
Proof.
  intros Hlen HA HbA Hx Hy Hz H2 H4 Hol Hint.
  assert (exists n : nat, Z.of_nat n = (len - 1) / 3) as [n Hn]
    by (exists (Z.to_nat ((len - 1) / 3)); dlia).
  assert ((len + 2) / 3 = Z.of_nat n + 1) as HN by dlia.
  assert (3 * Z.of_nat n < len <= 3 * Z.of_nat n + 3) as Hr by dlia.
  assert (zlen (A ++ [x; y; z]) = 3 * Z.of_nat (S n)) as HA3 by wlen.
  assert (zlen (b64 (encode64_lut encode_init) A) = 4 * Z.of_nat n) as HbA4
    by (apply zlen_b64; lia).
  unfold encode64. rewrite int_ok_small by lia. mred.
  replace (len * 2 <? 0) with false by lia. rewrite bput_ok by (rewrite ?zlen_replicate; lia). mred.
  set (out0 := zover 0 _ outbuf).
  assert (zlen out0 = zlen outbuf) as H0 by (apply zlen_zover; rewrite ?zlen_replicate; lia).
  rewrite (app_assoc A).
  rewrite (encode64_loop_spec _ (S n) _ _ [] (A ++ [x; y; z]) post); try done; try lia.
  2: { apply Forall_app. split; [done|]. rewrite !Forall_cons. done. }
  mred. rewrite zover_0, (zlen_b64 _ (S n)) by done.
  rewrite (b64_app _ n) by lia.
  change (b64 _ [x; y; z]) with (encodeblock (encode64_lut encode_init) x y z).
  destruct (zdrop (4 * Z.of_nat (S n)) out0) as [|t0 t] eqn:Et.
  { apply (f_equal (@zlen Z)) in Et. rewrite zlen_zdrop in Et.
    change (zlen (@nil Z)) with 0 in Et. lia. }
  exists t.
  set (B := b64 (encode64_lut encode_init) A) in *.
  unfold encodeblock. set (e0 := lut_get _ (Z.shiftr x 2)). set (e1 := lut_get _ (Z.lor _ _)).
  set (e2 := lut_get _ (Z.lor _ _)). set (e3 := lut_get _ _).
  replace (0 + 3 * Z.of_nat (S n) - len) with (3 - (len - zlen A)) by lia.
  replace (0 + 4 * Z.of_nat (S n)) with (zlen B + 4) by lia.
  rewrite HN. replace (4 * (Z.of_nat n + 1)) with (zlen B + 4) by lia.
  rewrite <- (app_assoc B). unfold padded_text.
  assert (len - zlen A = 1 \/ len - zlen A = 2 \/ len - zlen A = 3) as [Hc|[Hc|Hc]] by lia; rewrite Hc;
    [change (3 - 1) with 2 | change (3 - 2) with 1 | change (3 - 3) with 0];
    cbn [Z.eqb Pos.eqb orb nth]; mred.
  all: repeat first [ rewrite bput_ok by wlen | progress mred ].
  - replace (zlen B + 4 - 2) with (zlen (B ++ [e0; e1])) by wlen.
    replace (B ++ [e0; e1; e2; e3] ++ t0 :: t)
      with ((B ++ [e0; e1]) ++ [e2] ++ e3 :: t0 :: t) by by rewrite <- !app_assoc.
    rewrite (zover_mid _ _ [c2z "="]) by done.
    replace (zlen B + 4 - 1) with (zlen ((B ++ [e0; e1]) ++ [c2z "="])) by wlen.
    rewrite (app_assoc (B ++ [e0; e1])), (zover_mid _ _ [c2z "="] [e3] (t0 :: t)) by done.
    rewrite (app_assoc _ [c2z "="] (t0 :: t)), (zover_mid _ _ [0] [t0] t) by (done || wlen).
    by rewrite <- !app_assoc.
  - replace (zlen B + 4 - 1) with (zlen (B ++ [e0; e1; e2])) by wlen.
    replace (B ++ [e0; e1; e2; e3] ++ t0 :: t)
      with ((B ++ [e0; e1; e2]) ++ [e3] ++ t0 :: t) by by rewrite <- !app_assoc.
    rewrite (zover_mid _ _ [c2z "="]) by done.
    rewrite (app_assoc _ [c2z "="] (t0 :: t)), (zover_mid _ _ [0] [t0] t) by (done || wlen).
    by rewrite <- !app_assoc.
  - rewrite (app_assoc B), (zover_mid _ _ [0] [t0] t) by (done || wlen).
    by rewrite <- !app_assoc.
Qed.

Lemma zlen_padded r a b c lut : zlen (padded_text r (encodeblock lut a b c)) = 4.
Proof. unfold padded_text. by repeat case_bool. Qed.

(** The bytes the last block decodes to, and its padding characters. *)
Lemma padded_decode r x y z :
  is_byte x -> is_byte y -> is_byte z -> 1 <= r <= 3 ->
  let cs := padded_text r (encodeblock (encode64_lut encode_init) x y z) in
  let d j := lut_get (decode64_lut encode_init) (nth j cs 0) in
  ztake r [u8 (Z.lor (Z.shiftl (d 0%nat) 2) (Z.shiftr (d 1%nat) 4));
           u8 (Z.lor (Z.shiftl (d 1%nat) 4) (Z.shiftr (d 2%nat) 2));
           u8 (Z.lor (Z.land (Z.shiftl (d 2%nat) 6) 192) (d 3%nat))] =
    ztake r [x; y; z] /\
  (nth 3 cs 0 =? c2z "=") = (r <=? 2) /\ (nth 2 cs 0 =? c2z "=") = (r <=? 1).
Proof.
  intros Hx Hy Hz Hr cs d.
  pose proof (digits64_decode x y z Hx Hy Hz) as HD. simpl in HD.
  assert (forall j, (j < 4)%nat ->
    nth j (encodeblock (encode64_lut encode_init) x y z) 0 <> c2z "=") as Hne.
  { intros j Hj. rewrite encodeblock_digits by done.
    erewrite nth_indep by (rewrite length_map; simpl; lia). rewrite map_nth.
    apply luts64. by apply digits64_range. }
  pose proof (fun j => encodeblock_nth x y z j Hx Hy Hz) as Hd. subst d.
  assert (r = 1 \/ r = 2 \/ r = 3) as [Hc|[Hc|Hc]] by lia; subst r; subst cs;
    unfold padded_text; cbn [Z.eqb Pos.eqb nth Z.leb Z.compare Pos.compare Pos.compare_cont];
    rewrite ?(proj2 (Z.eqb_neq _ _) (Hne 2%nat ltac:(lia)));
    rewrite ?(proj2 (Z.eqb_neq _ _) (Hne 3%nat ltac:(lia)));
    (split; [|done]); rewrite ?Hd by lia; destruct HD as (H1 & H2 & H3);
    unfold digits64 in *; cbn [nth] in *; unfold ztake; simpl take;
    change (Pos.to_nat 1) with 1%nat; change (Pos.to_nat 2) with 2%nat;
    change (Pos.to_nat 3) with 3%nat; cbn [take]; by rewrite ?H1, ?H2, ?H3.
Qed.

Lemma decode64_text A x y z t len obuf outlen :
  0 < len -> zlen A = 3 * ((len - 1) / 3) -> bytes_ok A ->
  is_byte x -> is_byte y -> is_byte z -> len <= outlen <= zlen obuf -> len < 1073741824 ->
  exists out, decode64
    (b64 (encode64_lut encode_init) A ++
     padded_text (len - zlen A) (encodeblock (encode64_lut encode_init) x y z) ++ t)
    (4 * ((len + 2) / 3)) obuf outlen = Some (len, out) /\
    ztake len out = ztake len (A ++ [x; y; z]).
Proof.
  intros Hlen HA HbA Hx Hy Hz Hol Hint.
  assert (exists n : nat, Z.of_nat n = (len - 1) / 3) as [n Hn]
    by (exists (Z.to_nat ((len - 1) / 3)); dlia).
  assert ((len + 2) / 3 = Z.of_nat n + 1) as HN by dlia.
  assert (3 * Z.of_nat n < len <= 3 * Z.of_nat n + 3) as Hr by dlia.
  set (B := b64 (encode64_lut encode_init) A).
  set (cs := padded_text (len - zlen A) _).
  assert (zlen B = 4 * Z.of_nat n) as HB by (apply zlen_b64; lia).
  assert (zlen cs = 4) as Hcs by apply zlen_padded.
  destruct (padded_decode (len - zlen A) x y z Hx Hy Hz) as (Hv & H3 & H2); [lia|].
  fold cs in Hv, H3, H2. unfold decode64. rewrite HN.
  replace (Z.to_nat (4 * (Z.of_nat n + 1))) with (n + S (3 * n + 3))%nat by lia.
  rewrite (decode64_loop_full n _ _ [] A (cs ++ t)) by (done || lia).
  cbn [decode64_loop].
  assert ((0 + 4 * Z.of_nat n <? 4 * (Z.of_nat n + 1)) &&
          (0 + 3 * Z.of_nat n <? outlen) = true) as -> by lia.
  rewrite (decodeblock_spec _ _ B cs t _ _ _ _
    (fun j => lut_get (decode64_lut encode_init) (nth j cs 0)) _ eq_refl)
    by (done || rewrite ?zlen_zover; lia). mred. rewrite !int_ok_small by lia. mred.
  set (v := [_; _; _]) in *.
  assert ((0 + 4 * Z.of_nat n + 4 <? 4 * (Z.of_nat n + 1)) = false) as E by lia.
  rewrite (Nat.add_comm (3 * n) 3). cbn [Nat.add decode64_loop]. rewrite E. simpl andb. mred.
  assert (forall j, 0 <= j < 4 ->
    bget (B ++ cs ++ t) (zlen B + j) = Some (nth (Z.to_nat j) cs 0)) as Hg.
  { intros j Hj. rewrite bget_list by lia. unfold bget.
    destruct (Z.ltb_spec j 0); [lia|]. unfold zlen in Hcs.
    destruct (nth_lookup_or_length cs (Z.to_nat j) 0) as [?|?]; [done|lia]. }
  replace (0 + 4 * Z.of_nat n + 4 - 1) with (zlen B + 3) by lia.
  replace (0 + 4 * Z.of_nat n + 4 - 2) with (zlen B + 2) by lia.
  rewrite !Hg by lia. mred. change (Z.to_nat 3) with 3%nat. change (Z.to_nat 2) with 2%nat.
  rewrite H3, H2. eexists. split.
  - do 2 f_equal. repeat case_bool; lia.
  - assert (zlen v = 3) as Hv3 by done.
    replace len with (3 * Z.of_nat n + (len - zlen A)) at 1 by lia.
    rewrite zover_0. rewrite ztake_zover_prefix; [|lia|rewrite zlen_ztake; lia].
    rewrite ztake_ztake by lia. rewrite Hv.
    rewrite ztake_app_ge by lia. done.
Qed.

(** Decoding writes into the buffer and never changes its length. *)
Lemma decodeblock_zlen lut inbuf i out o left out' :
  decodeblock lut inbuf i out o left = Some out' -> zlen out' = zlen out.
Proof.
  unfold decodeblock. intros Hd. repeat case_bool_in Hd; try (by injection Hd as ->);
    repeat match goal with
    | H : (?x ≫= _) = Some _ |- _ => destruct x eqn:?; cbn [mbind option_bind] in H; [|done]
    | H : bput _ _ _ = Some _ |- _ => apply bput_zlen in H
    end; congruence.
Qed.

Lemma decode64_zlen inbuf len outbuf outlen n out :
  decode64 inbuf len outbuf outlen = Some (n, out) -> zlen out = zlen outbuf.
Proof.
  unfold decode64. intros Hd.
  destruct (decode64_loop _ _ _ _ _ _ _ _) as [[[out1 i] o]|] eqn:Hl; [|done]. mred.
  cbn [mbind option_bind] in Hd. 
  destruct (bget inbuf (i - 1)); cbn [mbind option_bind] in Hd; [|done].
  destruct (bget inbuf (i - 2)); cbn [mbind option_bind] in Hd; [|done].
  injection Hd as _ ->. clear n. revert outbuf Hl. generalize (Z.to_nat len) as fuel, 0 at 1, 0 at 1.
  induction fuel as [|fuel IH]; intros i0 o0 outbuf Hl; cbn [decode64_loop] in Hl;
    destruct (_ && _); try done; [by injection Hl as ->| |by injection Hl as ->].
  destruct (decodeblock _ _ _ _ _ _) as [out2|] eqn:Hb; cbn [mbind option_bind] in Hl; [|done].
  destruct (int_ok (o0 + 4)); cbn [mbind option_bind] in Hl; [|done].
  destruct (int_ok (i0 + 3)); cbn [mbind option_bind] in Hl; [|done].
  apply IH in Hl. apply decodeblock_zlen in Hb. congruence.
Qed.

(** Encoding and decoding, for any data and enough room. *)
Lemma base64_lossless inbuf len outbuf outlen obuf outlen2 :
  0 < len -> bytes_ok inbuf -> 3 * ((len + 2) / 3) <= zlen inbuf ->
  2 * len <= zlen outbuf -> 4 * ((len + 2) / 3) < zlen outbuf ->
  4 * ((len + 2) / 3) <= outlen -> len <= outlen2 <= zlen obuf -> len < 1073741824 ->
  exists text out,
    encode64 inbuf len outbuf outlen = Some (4 * ((len + 2) / 3), text) /\
    decode64 text (4 * ((len + 2) / 3)) obuf outlen2 = Some (len, out) /\
    ztake len out = ztake len inbuf.
Proof.
  intros Hlen Hb Hin H2 H4 Hol Hol2 Hint.
  destruct (blocks_split inbuf len Hlen Hin) as (A & x & y & z & post & -> & HA).
  rewrite !Forall_app, !Forall_cons in Hb. destruct Hb as (HbA & (Hx & Hy & Hz & _) & _).
  destruct (encode64_text A x y z post len outbuf outlen) as [t Ht]; try done.
  destruct (decode64_text A x y z (0 :: t) len obuf outlen2) as (out & Hd & Htk); try done.
  eexists _, out. split; [exact Ht|]. split; [exact Hd|]. rewrite Htk.
  rewrite app_assoc. symmetry. apply ztake_app_le. rewrite zlen_app, HA.
  change (zlen [x; y; z]) with 3. dlia.
Qed.



(** ** Base32 *)

(** [temp] of the encoder is the little-endian number of the workspace. *)
Lemma or_step temp v k :
  0 <= k -> 0 <= temp < 2 ^ k -> 0 <= v -> v * 2 ^ k + temp < 18446744073709551616 ->
  u64 (Z.lor temp (Z.shiftl v k)) = temp + v * 2 ^ k.
Proof.
  intros Hk Ht Hv Hb. rewrite Z.lor_comm, lor_shiftl_add by done.
  rewrite u64_small; [lia|]. nia.
Qed.

Lemma workspace_value a b c d e :
  is_byte a -> is_byte b -> is_byte c -> is_byte d -> is_byte e ->
  foldl (fun temp j => u64 (Z.lor temp
    (Z.shiftl (nth j [a; b; c; d; e] 0) (Z.of_nat j * 8)))) 0 (seq 0 5) =
  unle [a; b; c; d; e].
Proof.
  unfold is_byte. intros. cbn [seq foldl nth unle].
  change (Z.of_nat 0 * 8) with 0. change (Z.of_nat 1 * 8) with 8.
  change (Z.of_nat 2 * 8) with 16. change (Z.of_nat 3 * 8) with 24.
  change (Z.of_nat 4 * 8) with 32.
  rewrite (or_step 0 a 0) by lia. rewrite (or_step _ b 8) by lia.
  rewrite (or_step _ c 16) by lia. rewrite (or_step _ d 24) by lia.
  rewrite (or_step _ e 32) by lia. lia.
Qed.

Lemma unle_5_range ws : bytes_ok ws -> zlen ws = 5 -> 0 <= unle ws < 2 ^ 40.
Proof. intros Hb Hl. pose proof (unle_bound ws Hb) as H. rewrite Hl in H. exact H. Qed.

Lemma encode32_block_digits lut ws :
  bytes_ok ws -> zlen ws = 5 ->
  encode32_block lut ws =
    map (fun j => lut_get lut (unle ws / 2 ^ (Z.of_nat j * 5) mod 32)) (seq 0 8).
Proof.
  intros Hb Hl. pose proof (unle_5_range ws Hb Hl) as Hr.
  destruct ws as [|a [|b [|c [|d [|e [|]]]]]]; try (unfold zlen in Hl; simpl in Hl; lia).
  unfold encode32_block. rewrite !Forall_cons in Hb.
  rewrite workspace_value by tauto. set (V := unle [a; b; c; d; e]) in *.
  apply map_ext. intros j. f_equal. rewrite (land_mask _ 5 31) by done.
  rewrite Z.shiftr_div_pow2 by lia. change (2 ^ 5) with 32. unfold i32.
  generalize (V / 2 ^ (Z.of_nat j * 5)). intros q. dlia.
Qed.

(** [temp] of the decoder after its first [m] characters, with digits [d]. *)
Definition or_digits (d : nat -> Z) (m : nat) : Z :=
  foldl (fun temp j => u64 (Z.lor temp (Z.shiftl (d j) (Z.of_nat j * 5)))) 0 (seq 0 m).

Lemma or_digits_S d m :
  or_digits d (S m) =
    u64 (Z.lor (or_digits d m) (Z.shiftl (d m) (Z.of_nat m * 5))).
Proof. unfold or_digits. rewrite seq_S, foldl_app. done. Qed.

(** Correct digits collect the low bits of the value. *)
Lemma or_digits_low d V m :
  (m <= 8)%nat -> 0 <= V ->
  (forall j, (j < m)%nat -> d j = V / 2 ^ (Z.of_nat j * 5) mod 32) ->
  or_digits d m = V mod 2 ^ (Z.of_nat m * 5).
Proof.
  intros Hm HV. induction m as [|m IH]; intros Hd.
  - change (2 ^ (Z.of_nat 0 * 5)) with 1. by rewrite Z.mod_1_r.
  - rewrite or_digits_S, IH by (lia || intros; apply Hd; lia). rewrite Hd by lia.
    set (k := Z.of_nat m * 5).
    assert (0 < 2 ^ k) by (apply Z.pow_pos_nonneg; lia).
    assert (2 ^ k <= 2 ^ 35) by (apply Z.pow_le_mono_r; lia).
    pose proof (Z.mod_pos_bound V (2 ^ k)). pose proof (Z.mod_pos_bound (V / 2 ^ k) 32).
    rewrite or_step; [|lia..|change (2 ^ 35) with 34359738368 in *; nia].
    replace (Z.of_nat (S m) * 5) with (k + 5) by lia.
    rewrite Z.pow_add_r by lia. rewrite Z.rem_mul_r by lia.
    change (2 ^ 5) with 32. lia.
Qed.

(** Later digits do not change the low bits. *)
Lemma or_digits_high d m k :
  (m <= 12)%nat ->
  or_digits d (m + k) mod 2 ^ (Z.of_nat m * 5) = or_digits d m mod 2 ^ (Z.of_nat m * 5).
Proof.
  intros Hm. induction k as [|k IH]; [by rewrite Nat.add_0_r|].
  rewrite Nat.add_succ_r, or_digits_S, <- IH. unfold u64.
  change 18446744073709551616 with (2 ^ 64).
  replace 64 with (Z.of_nat m * 5 + (64 - Z.of_nat m * 5)) by lia.
  rewrite Z.pow_add_r by lia.
  set (x := Z.lor _ _). set (n := Z.of_nat m * 5) in *.
  assert (0 < 2 ^ n) by (apply Z.pow_pos_nonneg; lia).
  assert (0 < 2 ^ (64 - n)) by (apply Z.pow_pos_nonneg; lia).
  rewrite Z.rem_mul_r, (Z.mul_comm (2 ^ n)), Z.mod_add, Z.mod_mod by lia.
  subst x. rewrite <- !Z.land_ones, Z.land_lor_distr_l by lia.
  assert (Z.land (Z.shiftl (d (m + k)%nat) (Z.of_nat (m + k) * 5)) (Z.ones n) = 0) as ->;
    [|by rewrite Z.lor_0_r].
  rewrite Z.land_ones, Z.shiftl_mul_pow2 by lia.
  replace (Z.of_nat (m + k) * 5) with (Z.of_nat k * 5 + n) by lia.
  rewrite Z.pow_add_r, Z.mul_assoc by lia. apply Z.mod_mul. lia.
Qed.

(** A byte of a number is determined by the bits up to its end. *)
Lemma byte_of_low x V j n :
  0 <= j -> 8 * j + 8 <= n -> x mod 2 ^ n = V mod 2 ^ n ->
  (x / 2 ^ (8 * j)) mod 256 = (V / 2 ^ (8 * j)) mod 256.
Proof.
  intros Hj Hn E.
  assert (forall y, (y / 2 ^ (8 * j)) mod 256 = (y mod 2 ^ n) / 2 ^ (8 * j) mod 256) as Hy.
  { intros y. replace n with (8 * j + (8 + (n - 8 * j - 8))) by lia.
    assert (0 < 2 ^ (8 * j)) by (apply Z.pow_pos_nonneg; lia).
    rewrite (Z.pow_add_r 2 (8 * j)) by lia.
    rewrite (Z.rem_mul_r y) by (assert (0 < 2 ^ (8 + (n - 8 * j - 8)))
      by (apply Z.pow_pos_nonneg; lia); lia).
    rewrite (Z.mul_comm (2 ^ (8 * j))), Z.div_add by lia.
    rewrite (Z.div_small (y mod 2 ^ (8 * j))) by (apply Z.mod_pos_bound; lia).
    rewrite Z.add_0_l.
    rewrite Z.pow_add_r by lia. change (2 ^ 8) with 256.
    assert (0 < 2 ^ (n - 8 * j - 8)) by (apply Z.pow_pos_nonneg; lia).
    rewrite Z.rem_mul_r by lia. rewrite (Z.mul_comm 256), Z.mod_add by lia.
    by rewrite Z.mod_mod by lia. }
  by rewrite Hy, E, <- Hy.
Qed.

Lemma unle_byte (l : list Z) (j : nat) :
  bytes_ok l -> (j < length l)%nat ->
  (unle l / 2 ^ (8 * Z.of_nat j)) mod 256 = nth j l 0.
Proof.
  intros Hb. revert j. induction Hb as [|b l Hb Hl IH]; intros j Hj; [simpl in Hj; lia|].
  unfold is_byte in Hb. destruct j as [|j]; cbn [unle nth].
  - change (2 ^ (8 * Z.of_nat 0)) with 1. rewrite Z.div_1_r. dlia.
  - replace (8 * Z.of_nat (S j)) with (8 + 8 * Z.of_nat j) by lia.
    rewrite Z.pow_add_r by lia. assert (0 < 2 ^ (8 * Z.of_nat j)) by (apply Z.pow_pos_nonneg; lia).
    rewrite <- Z.div_div by lia.
    change (2 ^ 8) with 256. rewrite (Z.mul_comm 256), Z.div_add, (Z.div_small b) by lia.
    rewrite Z.add_0_l. apply IH. simpl in Hj. lia.
Qed.

(** The characters of a last block with [r] data bytes. *)
Definition stuffed (r : Z) (cs : list Z) : list Z :=
  ztake (3 + r) cs ++ replicate (Z.to_nat (5 - r)) STUFF_CHAR.

(** Decoding a block restores the bytes that it was made of. *)
Lemma decode32_block_spec ws r :
  bytes_ok ws -> zlen ws = 5 -> 1 <= r <= 5 ->
  ztake r (decode32_block (decode_lut encode_init)
             (stuffed r (encode32_block (encode_lut encode_init) ws))) = ztake r ws.
Proof.
  intros Hb Hl Hr. pose proof (unle_5_range ws Hb Hl) as HV.
  set (cs := stuffed r _).
  set (d j := lut_get (decode_lut encode_init) (nth j cs 0)).
  assert (decode32_block (decode_lut encode_init) cs =
    map (fun j => Z.land (Z.shiftr (or_digits d 8) (Z.of_nat j * 8)) 255) (seq 0 5)) as ->
    by done.
  assert (exists m : nat, Z.of_nat m = 3 + r) as [m Hm] by (exists (Z.to_nat (3 + r)); lia).
  assert (or_digits d 8 mod 2 ^ (Z.of_nat m * 5) = unle ws mod 2 ^ (Z.of_nat m * 5)) as Hlow.
  { replace 8%nat with (m + (8 - m))%nat by lia. rewrite or_digits_high by lia.
    rewrite (or_digits_low d (unle ws)) by (try lia; intros j Hj;
      subst d cs; unfold stuffed; cbv beta;
      rewrite app_nth1 by (unfold ztake; rewrite length_take;
        rewrite encode32_block_digits by done; rewrite length_map, length_seq; lia);
      rewrite encode32_block_digits by done; unfold ztake;
      rewrite nth_firstn, (proj2 (Nat.ltb_lt _ _)) by lia;
      erewrite nth_indep by (rewrite length_map, length_seq; lia);
      rewrite (map_nth (fun j => lut_get (encode_lut encode_init)
                 (unle ws / 2 ^ (Z.of_nat j * 5) mod 32)) (seq 0 8) 0%nat);
      rewrite seq_nth by lia; apply luts32; apply Z.mod_pos_bound; lia).
    by rewrite Z.mod_mod by (assert (0 < 2 ^ (Z.of_nat m * 5))
      by (apply Z.pow_pos_nonneg; lia); lia). }
  set (X := or_digits d 8) in *. clearbody X. clear d cs.
  apply (nth_ext _ _ 0 0).
  - unfold zlen in Hl. unfold ztake. rewrite !length_take, length_map, length_seq. lia.
  - intros j Hj. unfold ztake in *. rewrite length_take, length_map, length_seq in Hj.
    rewrite !nth_firstn, !(proj2 (Nat.ltb_lt j (Z.to_nat r))) by lia.
    erewrite nth_indep by (rewrite length_map, length_seq; lia).
    rewrite (map_nth (fun j => Z.land (Z.shiftr X (Z.of_nat j * 8)) 255)
               (seq 0 5) 0%nat), seq_nth by lia. rewrite Nat.add_0_l.
    rewrite (land_mask _ 8 255), Z.shiftr_div_pow2 by (done || lia).
    change (2 ^ 8) with 256. rewrite (Z.mul_comm _ 8).
    rewrite (byte_of_low _ (unle ws) _ (Z.of_nat m * 5)) by (done || lia).
    apply unle_byte; [done|]. unfold zlen in Hl. lia.
Qed.

Fixpoint b32 (lut : list Z) (n : nat) (l : list Z) : list Z :=
  match n with
  | O => []
  | S n' => encode32_block lut (ztake 5 l) ++ b32 lut n' (zdrop 5 l)
  end.

Lemma zlen_encode32_block lut ws : zlen (encode32_block lut ws) = 8.
Proof. unfold encode32_block. rewrite zlen_map. done. Qed.

Lemma zlen_decode32_block lut cs : zlen (decode32_block lut cs) = 5.
Proof. unfold decode32_block. rewrite zlen_map. done. Qed.

Lemma zlen_b32 lut n l : zlen (b32 lut n l) = 8 * Z.of_nat n.
Proof.
  revert l. induction n as [|n IH]; intros l; [done|]. cbn [b32].
  rewrite zlen_app, zlen_encode32_block, IH. lia.
Qed.

Lemma decode32_block_full ws :
  bytes_ok ws -> zlen ws = 5 ->
  decode32_block (decode_lut encode_init) (encode32_block (encode_lut encode_init) ws) = ws.
Proof.
  intros Hb Hl. pose proof (decode32_block_spec ws 5 Hb Hl ltac:(lia)) as H.
  unfold stuffed in H. rewrite (ztake_all (3 + 5)) in H by (rewrite zlen_encode32_block; lia).
  change (replicate (Z.to_nat (5 - 5)) STUFF_CHAR) with (@nil Z) in H.
  rewrite app_nil_r in H. by rewrite !ztake_all in H by (rewrite ?zlen_decode32_block; lia).
Qed.

(** [n] turns of the encoder on full blocks. *)
Lemma encode32_loop_full lut (n : nat) fuel inbuf pre src post len out i o :
  inbuf = pre ++ src ++ post -> i = zlen pre -> zlen src = 5 * Z.of_nat n ->
  0 <= o -> o + 8 * Z.of_nat n <= zlen out -> i + 5 * Z.of_nat n <= len ->
  i + 5 * Z.of_nat n <= 2147483647 -> o + 8 * Z.of_nat n <= 2147483647 ->
  encode32_loop (n + fuel) lut inbuf len out i o =
  encode32_loop fuel lut inbuf len (zover o (b32 lut n src) out)
    (i + 5 * Z.of_nat n) (o + 8 * Z.of_nat n).
Proof.
  revert pre src out i o. induction n as [|n IH];
    intros pre src out i o Hin Hi Hsrc Ho Hout Hlen HI HO.
  - cbn [b32]. rewrite zover_nil, !Z.add_0_r. done.
  - cbn [Nat.add encode32_loop]. assert ((i <? len) = true) as -> by lia.
    replace (Z.min (len - i) 5) with 5 by lia.
    assert (inbuf = pre ++ ztake 5 src ++ zdrop 5 src ++ post) as Hin5
      by (rewrite Hin; rewrite (app_assoc (ztake 5 src)), ztake_zdrop; done).
    assert (zlen (ztake 5 src) = 5) as H5 by (rewrite zlen_ztake; lia).
    assert (zread i 5 inbuf = ztake 5 src) as Hrd
      by (rewrite Hin5; apply zread_app_mid; lia).
    assert ((i + 5 <=? zlen inbuf) = true) as ->
      by (rewrite Hin5, !zlen_app, H5; zlen_facts; lia).
    mred. rewrite Hrd, zover_0, H5, zdrop_all, app_nil_r by (rewrite zlen_replicate; lia).
    rewrite bput_ok by (rewrite ?zlen_encode32_block; lia). mred.
    pose proof (zlen_nonneg pre) as Hpre. rewrite !int_ok_small by lia. mred.
    rewrite (IH (pre ++ ztake 5 src) (zdrop 5 src)); try done; try lia.
    + cbn [b32]. rewrite <- zover_zover by lia. rewrite zlen_encode32_block.
      f_equal; lia.
    + by rewrite Hin5, <- app_assoc.
    + rewrite zlen_app, H5. lia.
    + rewrite zlen_zdrop. lia.
    + rewrite zlen_zover by (rewrite ?zlen_encode32_block; lia). lia.
Qed.

Lemma decode32_loop_full (n : nat) fuel inbuf pre src post len out i o :
  inbuf = pre ++ b32 (encode_lut encode_init) n src ++ post ->
  i = zlen pre -> zlen src = 5 * Z.of_nat n -> bytes_ok src ->
  0 <= o -> o + 5 * Z.of_nat n <= zlen out -> i + 8 * Z.of_nat n <= len ->
  i + 8 * Z.of_nat n <= 2147483647 -> o + 5 * Z.of_nat n <= 2147483647 ->
  decode32_loop (n + fuel) (decode_lut encode_init) inbuf len out i o =
  decode32_loop fuel (decode_lut encode_init) inbuf len (zover o src out)
    (i + 8 * Z.of_nat n) (o + 5 * Z.of_nat n).
Proof.
  revert pre src out i o. induction n as [|n IH];
    intros pre src out i o Hin Hi Hsrc Hb Ho Hout Hlen HI HO.
  - rewrite (zlen_0_nil src) by lia. rewrite zover_nil, !Z.add_0_r. done.
  - cbn [Nat.add decode32_loop]. assert ((i <? len) = true) as -> by lia.
    cbn [b32] in Hin. rewrite <- app_assoc in Hin.
    assert (zlen (ztake 5 src) = 5) as H5 by (rewrite zlen_ztake; lia).
    set (blk := encode32_block (encode_lut encode_init) (ztake 5 src)) in *.
    assert (zlen blk = 8) as H8 by apply zlen_encode32_block.
    assert (zread i 8 inbuf = blk) as Hrd by (rewrite Hin; apply zread_app_mid; lia).
    assert ((i + 8 <=? zlen inbuf) = true) as ->
      by (rewrite Hin, !zlen_app, H8; zlen_facts; lia).
    mred. rewrite Hrd. subst blk. rewrite decode32_block_full by auto with aff4.
    rewrite bput_ok by lia. mred.
    pose proof (zlen_nonneg pre) as Hpre. rewrite !int_ok_small by lia. mred.
    rewrite (IH (pre ++ encode32_block (encode_lut encode_init) (ztake 5 src))
               (zdrop 5 src)); try done; try lia; try by auto with aff4.
    + rewrite <- (ztake_zdrop 5 src) at 3. rewrite <- zover_zover by lia. rewrite H5.
      f_equal; lia.
    + by rewrite Hin, <- app_assoc.
    + rewrite zlen_app, H8. lia.
    + rewrite zlen_zdrop. lia.
    + rewrite zlen_zover by lia. lia.
Qed.

Lemma zover_app_r {A} (pre l x : list A) off k :
  off = zlen pre + k -> 0 <= k -> zover off x (pre ++ l) = pre ++ zover k x l.
Proof.
  intros -> Hk. unfold zover. rewrite ztake_app_ge by lia.
  rewrite zdrop_app_ge by (pose proof (zlen_nonneg x); lia).
  rewrite <- app_assoc. do 2 f_equal; [f_equal; lia|]. f_equal. f_equal. lia.
Qed.

Lemma encode32_text (n : nat) A l post outbuf outlen :
  zlen A = 5 * Z.of_nat n -> 1 <= zlen l <= 5 ->
  8 * Z.of_nat n + 8 < zlen outbuf -> 8 * Z.of_nat n + 8 <= 2147483647 ->
  exists t, encode32 (A ++ l ++ post) (5 * Z.of_nat n + zlen l) outbuf outlen =
    Some (8 * Z.of_nat n + 8,
          b32 (encode_lut encode_init) n A ++
          stuffed (zlen l) (encode32_block (encode_lut encode_init)
                              (l ++ replicate (Z.to_nat (5 - zlen l)) 0)) ++ 0 :: t).
Proof.
  intros HA Hl Hout Hint. set (len := 5 * Z.of_nat n + zlen l).
  set (cs := encode32_block _ _).
  assert (zlen cs = 8) as Hcs by apply zlen_encode32_block.
  set (B := b32 (encode_lut encode_init) n A).
  assert (zlen B = 8 * Z.of_nat n) as HB by apply zlen_b32.
  assert (exists t0 t, zdrop (8 * Z.of_nat n + 8) outbuf = t0 :: t) as (t0 & t & Et).
  { destruct (zdrop _ outbuf) as [|t0 t] eqn:Et; [|by exists t0, t].
    apply (f_equal (@zlen Z)) in Et. rewrite zlen_zdrop in Et.
    change (zlen (@nil Z)) with 0 in Et. lia. }
  unfold encode32.
  assert (encode32_loop (Z.to_nat len) (encode_lut encode_init) (A ++ l ++ post) len
    outbuf 0 0 = Some (B ++ cs ++ t0 :: t, 5 * Z.of_nat n + 5, zlen B + 8)) as ->.
  { replace (Z.to_nat len) with (n + S (Z.to_nat (len - 1) - n))%nat by lia.
    rewrite (encode32_loop_full _ n _ _ [] A (l ++ post)) by (done || lia).
    cbn [encode32_loop]. assert ((0 + 5 * Z.of_nat n <? len) = true) as -> by lia.
    replace (Z.min (len - (0 + 5 * Z.of_nat n)) 5) with (zlen l) by lia.
    assert ((0 + 5 * Z.of_nat n + zlen l <=? zlen (A ++ l ++ post)) = true) as ->
      by (rewrite !zlen_app; zlen_facts; lia). mred.
    rewrite (zread_app_mid (0 + 5 * Z.of_nat n) (zlen l) A l post) by lia.
    assert (zover 0 l (replicate 5 0) = l ++ replicate (Z.to_nat (5 - zlen l)) 0) as ->.
    { rewrite zover_0. f_equal. unfold zdrop. rewrite drop_replicate. f_equal.
      unfold zlen. lia. }
    fold cs B. rewrite bput_ok by (rewrite ?zlen_zover; lia). mred.
    assert ((0 + 5 * Z.of_nat n + 5 <? len) = false) as E by lia.
    rewrite !int_ok_small by lia. mred.
    assert (forall f o, encode32_loop f (encode_lut encode_init) (A ++ l ++ post) len o
      (0 + 5 * Z.of_nat n + 5) (0 + 8 * Z.of_nat n + 8) =
      Some (o, 0 + 5 * Z.of_nat n + 5, 0 + 8 * Z.of_nat n + 8)) as ->
      by (intros [|f] o; cbn [encode32_loop]; by rewrite E).
    rewrite <- HB, !Z.add_0_l. do 3 f_equal.
    replace (zlen B) with (0 + zlen B) by lia. rewrite zover_zover by (zlen_facts; lia). rewrite zover_0.
    rewrite zlen_app, HB, Hcs, Et. by rewrite <- app_assoc. }
  clearbody cs B. mred.
  destruct cs as [|c0 [|c1 [|c2 [|c3 [|c4 [|c5 [|c6 [|c7 [|]]]]]]]]];
    try (unfold zlen in Hcs; simpl in Hcs; lia).
  exists t. replace (5 * Z.of_nat n + 5 - len) with (5 - zlen l) by lia.
  replace (8 * Z.of_nat n + 8) with (zlen B + 8) by lia.
  assert (zlen l = 1 \/ zlen l = 2 \/ zlen l = 3 \/ zlen l = 4 \/ zlen l = 5)
    as [Hc|[Hc|[Hc|[Hc|Hc]]]] by lia; rewrite Hc;
    [change (5 - 1) with 4|change (5 - 2) with 3|change (5 - 3) with 2
    |change (5 - 4) with 1|change (5 - 5) with 0];
    cbn [Z.leb Z.compare Pos.compare Pos.compare_cont andb].
  all: repeat first [ rewrite bput_ok by wlen | progress mred ].
  all: do 2 f_equal.
  all: repeat first
    [ rewrite (zover_app_r B _ _ (zlen B + 8 - 4) 4) by lia
    | rewrite (zover_app_r B _ _ (zlen B + 8 - 3) 5) by lia
    | rewrite (zover_app_r B _ _ (zlen B + 8 - 2) 6) by lia
    | rewrite (zover_app_r B _ _ (zlen B + 8 - 1) 7) by lia
    | rewrite (zover_app_r B _ _ (zlen B + 8) 8) by lia ].
  all: reflexivity.
Qed.

(** The last four characters of a block: the stuffed ones and no others. *)
Lemma stuffed_count ws r :
  bytes_ok ws -> zlen ws = 5 -> 1 <= r <= 5 ->
  forall k, (k < 8)%nat ->
  (nth k (stuffed r (encode32_block (encode_lut encode_init) ws)) 0 =? STUFF_CHAR)
    = (3 + r <=? Z.of_nat k).
Proof.
  intros Hb Hl Hr k Hk. unfold stuffed.
  pose proof (zlen_encode32_block (encode_lut encode_init) ws) as H8. unfold zlen in H8.
  destruct (Z.leb_spec (3 + r) (Z.of_nat k)).
  - rewrite app_nth2; unfold ztake; rewrite length_take; [|lia].
    apply Z.eqb_eq. apply nth_lookup_Some, lookup_replicate_2. lia.
  - rewrite app_nth1 by (unfold ztake; rewrite length_take; lia).
    unfold ztake. rewrite nth_firstn, (proj2 (Nat.ltb_lt _ _)) by lia.
    rewrite encode32_block_digits by done.
    erewrite nth_indep by (rewrite length_map, length_seq; lia).
    rewrite (map_nth (fun j => lut_get (encode_lut encode_init)
               (unle ws / 2 ^ (Z.of_nat j * 5) mod 32)) (seq 0 8) 0%nat).
    apply Z.eqb_neq. apply luts32. apply Z.mod_pos_bound. lia.
Qed.

Lemma zlen_stuffed r lut ws : 1 <= r <= 5 -> zlen (stuffed r (encode32_block lut ws)) = 8.
Proof.
  intros Hr. unfold stuffed. rewrite zlen_app, zlen_ztake, zlen_replicate.
  rewrite zlen_encode32_block. lia.
Qed.

Lemma decode32_text (n : nat) A l t obuf outlen :
  zlen A = 5 * Z.of_nat n -> bytes_ok A -> bytes_ok l -> 1 <= zlen l <= 5 ->
  5 * Z.of_nat n + 5 <= zlen obuf -> 8 * Z.of_nat n + 8 <= 2147483647 ->
  exists out, decode32
    (b32 (encode_lut encode_init) n A ++
     stuffed (zlen l) (encode32_block (encode_lut encode_init)
                         (l ++ replicate (Z.to_nat (5 - zlen l)) 0)) ++ t)
    (8 * Z.of_nat n + 8) obuf outlen = Some (5 * Z.of_nat n + zlen l, out) /\
    ztake (5 * Z.of_nat n + zlen l) out = A ++ l.
Proof.
  intros HA HbA Hbl Hl Hout Hint. set (ws := l ++ _).
  assert (zlen ws = 5) as Hws by (subst ws; rewrite zlen_app, zlen_replicate; lia).
  assert (bytes_ok ws) as Hbw.
  { apply Forall_app. split; [done|]. apply Forall_replicate. unfold is_byte. lia. }
  pose proof (decode32_block_spec ws (zlen l) Hbw Hws Hl) as Hdec.
  pose proof (stuffed_count ws (zlen l) Hbw Hws Hl) as Hcnt.
  pose proof (zlen_stuffed (zlen l) (encode_lut encode_init) ws Hl) as H8.
  set (cs := stuffed _ _) in *. set (B := b32 _ n A).
  assert (zlen B = 8 * Z.of_nat n) as HB by apply zlen_b32.
  unfold decode32.
  replace (Z.to_nat (8 * Z.of_nat n + 8)) with (n + S (7 * n + 7))%nat by lia.
  rewrite (decode32_loop_full n _ _ [] A (cs ++ t)) by (done || lia).
  cbn [decode32_loop]. fold B.
  assert ((0 + 8 * Z.of_nat n <? 8 * Z.of_nat n + 8) = true) as -> by lia.
  assert ((0 + 8 * Z.of_nat n + 8 <=? zlen (B ++ cs ++ t)) = true) as ->
    by (rewrite !zlen_app; zlen_facts; lia). mred.
  rewrite (zread_app_mid _ 8 B cs t) by lia.
  set (bs := decode32_block _ _) in *.
  assert (zlen bs = 5) as Hbs by apply zlen_decode32_block.
  rewrite bput_ok by (rewrite ?zlen_zover; lia). mred.
  rewrite (Nat.add_comm (7 * n) 7). cbn [Nat.add decode32_loop].
  rewrite !int_ok_small by lia. mred.
  assert ((0 + 8 * Z.of_nat n + 8 <? 8 * Z.of_nat n + 8) = false) as -> by lia. mred.
  assert (forall j, 0 <= j < 8 ->
    bget (B ++ cs ++ t) (zlen B + j) = Some (nth (Z.to_nat j) cs 0)) as Hg.
  { intros j Hj. rewrite bget_list by lia. unfold bget.
    destruct (Z.ltb_spec j 0); [lia|]. unfold zlen in H8.
    destruct (nth_lookup_or_length cs (Z.to_nat j) 0) as [?|?]; [done|lia]. }
  cbn [foldl]. replace (0 + 8 * Z.of_nat n + 8 - 1) with (zlen B + 7) by lia.
  replace (0 + 8 * Z.of_nat n + 8 - 2) with (zlen B + 6) by lia.
  replace (0 + 8 * Z.of_nat n + 8 - 3) with (zlen B + 5) by lia.
  replace (0 + 8 * Z.of_nat n + 8 - 4) with (zlen B + 4) by lia.
  repeat (rewrite Hg by lia; mred). rewrite !Hcnt by lia.
  eexists. split.
  - do 2 f_equal. repeat case_bool; lia.
  - rewrite zover_0, Z.add_0_l. rewrite ztake_zover_prefix by lia. rewrite Hdec. f_equal.
    apply ztake_app_eq. done.
Qed.

(** Base32 round trip.  [encode32] of any non-empty data produces eight
    characters for every started block of five bytes, the last ones replaced
    by the stuff character, and [decode32] of that text restores exactly the
    original length and bytes. *)
Theorem base32_roundtrip inbuf len outbuf outlen obuf outlen2 :
  0 < len -> bytes_ok inbuf -> len <= zlen inbuf ->
  8 * ((len + 4) / 5) < zlen outbuf -> 5 * ((len + 4) / 5) <= zlen obuf ->
  8 * ((len + 4) / 5) <= 2147483647 ->
  exists text out,
    encode32 inbuf len outbuf outlen = Some (8 * ((len + 4) / 5), text) /\
    decode32 text (8 * ((len + 4) / 5)) obuf outlen2 = Some (len, out) /\
    ztake len out = ztake len inbuf.
Proof.
  intros Hlen Hb Hin Ho1 Ho2 Hint.
  assert (exists n : nat, Z.of_nat n = (len - 1) / 5) as [n Hn]
    by (exists (Z.to_nat ((len - 1) / 5)); dlia).
  assert ((len + 4) / 5 = Z.of_nat n + 1) as HN by dlia.
  set (A := ztake (5 * Z.of_nat n) inbuf).
  set (l := zread (5 * Z.of_nat n) (len - 5 * Z.of_nat n) inbuf).
  assert (zlen A = 5 * Z.of_nat n) as HA by (subst A; rewrite zlen_ztake; dlia).
  assert (zlen l = len - 5 * Z.of_nat n) as Hl by (apply zlen_zread; dlia).
  assert (ztake len inbuf = A ++ l) as Htk.
  { subst A l. rewrite <- (ztake_zdrop (5 * Z.of_nat n) (ztake len inbuf)).
    rewrite ztake_ztake, zdrop_ztake by dlia. done. }
  assert (inbuf = A ++ l ++ zdrop len inbuf) as Hsp
    by (rewrite app_assoc, <- Htk; symmetry; apply ztake_zdrop).
  destruct (encode32_text n A l (zdrop len inbuf) outbuf outlen) as [t Ht];
    [done|dlia|lia|lia|]. rewrite <- Hsp in Ht.
  replace (5 * Z.of_nat n + zlen l) with len in Ht by lia.
  destruct (decode32_text n A l (0 :: t) obuf outlen2) as (out & Hd & Hout);
    [done|by apply Forall_ztake|by apply Forall_ztake, Forall_zdrop|dlia|lia|lia|].
  replace (5 * Z.of_nat n + zlen l) with len in Hd, Hout by lia.
  rewrite HN. replace (8 * (Z.of_nat n + 1)) with (8 * Z.of_nat n + 8) by lia.
  eexists _, out. split; [exact Ht|]. split; [exact Hd|]. congruence.
Qed.

Lemma base32_roundtrip_witness :
  exists text out,
    encode32 [1; 2; 3; 255; 0; 7] 6 (replicate 17 0) 17 = Some (16, text) /\
    decode32 text 16 (replicate 10 0) 10 = Some (6, out) /\
    ztake 6 out = ztake 6 [1; 2; 3; 255; 0; 7].
Proof.
  apply (base32_roundtrip [1; 2; 3; 255; 0; 7] 6 (replicate 17 0) 17 (replicate 10 0) 10).
  1, 3-6: vm_compute; intuition congruence.
  repeat (constructor; [unfold is_byte; lia|]). constructor.
Defined.

(** ** Hexadecimal *)

(** The value of a lower-case hexadecimal digit. *)
Definition unhexdigit (c : Z) : Z := if c <? 58 then c - 48 else c - 87.

Fixpoint unhex (l : list Z) : list Z :=
  match l with
  | a :: b :: l' => unhexdigit a * 16 + unhexdigit b :: unhex l'
  | _ => []
  end.

Lemma hex02x_value b : is_byte b ->
  exists x y, hex02x b = [x; y] /\ unhexdigit x * 16 + unhexdigit y = b /\ x <> 0 /\ y <> 0.
Proof.
  unfold is_byte. intros Hb. unfold hex02x. eexists _, _. split; [done|].
  rewrite (land_mask b 4 15), Z.shiftr_div_pow2 by (done || lia). change (2 ^ 4) with 16.
  assert (0 <= b / 16 < 16 /\ 0 <= b mod 16 < 16 /\ b = b / 16 * 16 + b mod 16)
    as (H1 & H2 & H3) by dlia.
  unfold unhexdigit, hexdigit. repeat case_bool; lia.
Qed.

Lemma unhex_hex l : bytes_ok l -> unhex (flat_map hex02x l) = l.
Proof.
  induction 1 as [|b l Hb Hl IH]; [done|].
  change (flat_map hex02x (b :: l)) with (hex02x b ++ flat_map hex02x l).
  destruct (hex02x_value b Hb) as (x & y & -> & Hv & _). simpl. by rewrite Hv, IH.
Qed.

Lemma zlen_hex l : zlen (flat_map hex02x l) = 2 * zlen l.
Proof.
  induction l as [|b l IH]; [done|]. change (flat_map hex02x (b :: l))
    with (hex02x b ++ flat_map hex02x l).
  rewrite zlen_app, zlen_cons, IH. change (zlen (hex02x b)) with 2. lia.
Qed.

Lemma encodehex_loop_spec n inbuf i outbuf :
  0 <= i -> i + Z.of_nat n <= zlen inbuf -> 2 * (i + Z.of_nat n) < zlen outbuf ->
  (0 < n)%nat -> 2 * (i + Z.of_nat n) <= 2147483647 ->
  encodehex_loop inbuf n i outbuf =
    Some (zover (i * 2) (flat_map hex02x (zread i (Z.of_nat n) inbuf) ++ [0]) outbuf).
Proof.
  revert i outbuf. induction n as [|n IH]; intros i outbuf Hi Hin Hout Hn Hint; [lia|].
  cbn [encodehex_loop].
  rewrite (zread_split i 1 (Z.of_nat (S n))) by lia.
  replace (Z.of_nat (S n) - 1) with (Z.of_nat n) by lia.
  destruct (zread i 1 inbuf) as [|b [|]] eqn:Eb;
    try (apply (f_equal (@zlen Z)) in Eb; rewrite zlen_zread in Eb by lia;
         rewrite ?zlen_cons in Eb; change (zlen (@nil Z)) with 0 in Eb; zlen_facts; lia).
  assert (bget inbuf i = Some b) as ->.
  { unfold zread, ztake, zdrop in Eb. unfold bget. destruct (Z.ltb_spec i 0); [lia|].
    rewrite <- (Nat.add_0_r (Z.to_nat i)), <- lookup_drop.
    destruct (drop (Z.to_nat i) inbuf) as [|b' l']; [done|]. simpl in Eb |- *.
    change (Pos.to_nat 1) with 1%nat in Eb. simpl in Eb. by injection Eb as ->. }
  mred. rewrite int_ok_small by lia. mred. assert (zlen (hex02x b ++ [0]) = 3) as H3 by done.
  rewrite bput_ok by lia. mred.
  change (flat_map hex02x ([b] ++ zread (i + 1) (Z.of_nat n) inbuf))
    with (hex02x b ++ flat_map hex02x (zread (i + 1) (Z.of_nat n) inbuf)).
  destruct n as [|n].
  { done. }
  rewrite IH by (rewrite ?zlen_zover; lia).
  set (T := flat_map _ _). f_equal.
  assert (2 <= zlen T) as HT by (subst T; rewrite zlen_hex, zlen_zread; lia).
  replace ((i + 1) * 2) with (i * 2 + 2) by lia.
  rewrite (zover_overlap (i * 2) 2) by (rewrite ?H3, ?zlen_app; zlen_facts; lia).
  by rewrite <- app_assoc.
Qed.

(** [encodehex] writes two lower-case hexadecimal digits for each byte and
    a terminating NUL, and the digits determine the data. *)
Theorem encodehex_text inbuf len outbuf :
  0 < len <= zlen inbuf -> bytes_ok inbuf -> 2 * len < zlen outbuf -> len < 1073741824 ->
  exists text rest,
    encodehex inbuf len outbuf = Some (len * 2, text ++ 0 :: rest) /\
    zlen text = len * 2 /\ unhex text = ztake len inbuf.
Proof.
  intros Hlen Hb Hout Hint. unfold encodehex.
  rewrite encodehex_loop_spec by lia. mred. rewrite int_ok_small by lia. mred.
  rewrite Z2Nat.id by lia. rewrite zover_0. unfold zread. rewrite (zdrop_0 0) by lia.
  eexists (flat_map hex02x (ztake len inbuf)), _. split_and!.
  - by rewrite <- app_assoc.
  - rewrite zlen_hex, zlen_ztake. lia.
  - by apply unhex_hex, Forall_ztake.
Qed.

Lemma encodehex_text_witness :
  exists text rest,
    encodehex [0; 171; 255] 2 (replicate 5 1) = Some (4, text ++ 0 :: rest) /\
    zlen text = 4 /\ unhex text = [0; 171].
Proof.
  apply (encodehex_text [0; 171; 255] 2 (replicate 5 1)).
  1, 3-4: vm_compute; intuition congruence.
  repeat (constructor; [unfold is_byte; lia|]). constructor.
Defined.
