(* ===== verification/CText.v ===== *)
(** * CText: the C library's text routines that the sources use

    [strtoll] with base 0, the integer conversions of [printf], [strstr],
    [strchr]/[strrchr] and [memcmp]-style comparisons, on byte strings.  Numbers
    are printed and read back digit by digit; the round-trip lemmas at the end
    are shared by every component that stores a number as text. *)
From S2P Require Import Prelude.

(** ** Character classes *)

Definition isspace (c : Z) : bool := (c =? 32) || ((9 <=? c) && (c <=? 13)).

(** The value of a digit in bases up to 36. *)
Definition digit_value (c : Z) : option Z :=
  if (48 <=? c) && (c <=? 57) then Some (c - 48)
  else if (65 <=? c) && (c <=? 90) then Some (c - 55)
  else if (97 <=? c) && (c <=? 122) then Some (c - 87)
  else None.

(** ** [strtoll(s, &endptr, 0)] *)

(** The digits of a base at the start of a text: the number, and the rest. *)
Fixpoint scan_digits (base acc : Z) (l : list Z) : Z * list Z :=
  match l with
  | [] => (acc, [])
  | c :: l' =>
      match digit_value c with
      | Some d => if d <? base then scan_digits base (acc * base + d) l' else (acc, l)
      | None => (acc, l)
      end
  end.

Definition starts_digit (base : Z) (l : list Z) : bool :=
  match l with
  | c :: _ => match digit_value c with Some d => d <? base | None => false end
  | [] => false
  end.

Fixpoint skip_space (l : list Z) : list Z :=
  match l with
  | c :: l' => if isspace c then skip_space l' else l
  | [] => []
  end.

(** The optional sign. *)
Definition take_sign (l : list Z) : bool * list Z :=
  match l with
  | c :: l' => if c =? 45 then (true, l') else if c =? 43 then (false, l') else (false, l)
  | [] => (false, [])
  end.

(** Base 0: [0x] before a hexadecimal digit is base 16, a leading 0 is octal. *)
Definition choose_base (l : list Z) : Z * list Z :=
  match l with
  | z :: x :: l' =>
      if (z =? 48) && ((x =? 120) || (x =? 88)) && starts_digit 16 l' then (16, l')
      else if z =? 48 then (8, l) else (10, l)
  | z :: _ => if z =? 48 then (8, l) else (10, l)
  | [] => (10, [])
  end.

Definition clamp_ll (v : Z) : Z := Z.max LLONG_MIN (Z.min v LLONG_MAX).

(** The value and the text from [*endptr] on. *)
Definition strtoll (s : list Z) : Z * list Z :=
  let '(neg, l) := take_sign (skip_space s) in
  let '(base, l) := choose_base l in
  if starts_digit base l then
    let '(v, rest) := scan_digits base 0 l in
    (clamp_ll (if neg : bool then - v else v), rest)
  else (0, s).

(** ** [printf] integer conversions *)

Definition digit_upper (d : Z) : Z := if d <? 10 then 48 + d else 55 + d.

(** The digits of a number, most significant first, at least one. *)
Fixpoint digits (fuel : nat) (base n : Z) : list Z :=
  match fuel with
  | O => [n mod base]
  | S fuel' => if n <? base then [n] else digits fuel' base (n / base) ++ [n mod base]
  end.

(** [%llu] and [%lX] of a 64-bit number; 64 digits are enough for any base. *)
Definition print_dec (n : Z) : list Z := map digit_upper (digits 64 10 n).
Definition print_HEX (n : Z) : list Z := map digit_upper (digits 64 16 n).

(** A minimum field width filled with zeros. *)
Definition zero_pad (w : Z) (l : list Z) : list Z :=
  replicate (Z.to_nat (w - zlen l)) 48 ++ l.

(** [%02X] and [%08X] *)
Definition print_02X (n : Z) : list Z := zero_pad 2 (print_HEX n).
Definition print_08X (n : Z) : list Z := zero_pad 8 (print_HEX n).

(** [snprintf(buf, size, ..)]: the text stored in the buffer. *)
Definition snprintf_text (size : Z) (text : list Z) : list Z := ztake (size - 1) text.

(** ** Searching *)

Fixpoint is_prefix (p l : list Z) : bool :=
  match p, l with
  | [], _ => true
  | x :: p', y :: l' => (x =? y) && is_prefix p' l'
  | _ :: _, [] => false
  end.

(** [strstr]: the suffix that starts with the needle. *)
Fixpoint strstr (l needle : list Z) : option (list Z) :=
  if is_prefix needle l then Some l
  else match l with [] => None | _ :: l' => strstr l' needle end.

(** ** Lemmas *)

Lemma is_prefix_spec p l : is_prefix p l = true <-> exists t, l = p ++ t.
Proof.
  revert l. induction p as [|x p IH]; intros l; simpl.
  - split; [by exists l|done].
  - destruct l as [|y l]; [split; [done|by intros [? ?]]|].
    rewrite andb_true_iff, Z.eqb_eq, IH. split.
    + intros [-> [t ->]]. by exists t.
    + intros [t [= -> ->]]. split; [done|by exists t].
Qed.

Lemma strstr_spec l needle s :
  strstr l needle = Some s ->
  exists pre t, l = pre ++ s /\ s = needle ++ t.
Proof.
  revert s. induction l as [|c l IH]; intros s; cbn [strstr];
    destruct (is_prefix needle _) eqn:E.
  - intros [= <-]. apply is_prefix_spec in E as [t Ht]. by exists [], t.
  - done.
  - intros [= <-]. apply is_prefix_spec in E as [t Ht]. by exists [], t.
  - intros H. destruct (IH s H) as (pre & t & -> & ->). by exists (c :: pre), t.
Qed.

Lemma strstr_none l needle pre t :
  strstr l needle = None -> l = pre ++ needle ++ t -> False.
Proof.
  revert pre. induction l as [|c l IH]; intros pre H E.
  - destruct pre; [|done]. cbn [strstr] in H.
    rewrite (proj2 (is_prefix_spec needle [])) in H; [done|by exists t].
  - cbn [strstr] in H. destruct (is_prefix needle (c :: l)) eqn:Ep; [done|].
    destruct pre as [|c' pre].
    + rewrite (proj2 (is_prefix_spec _ _)) in Ep; [done|by exists t].
    + injection E as -> E. by eapply IH.
Qed.

(** The value of a digit sequence. *)
Definition value_of (base acc : Z) (ds : list Z) : Z :=
  foldl (fun a d => a * base + d) acc ds.

Lemma digits_value fuel base n :
  1 < base -> 0 <= n < base ^ (Z.of_nat fuel + 1) -> value_of base 0 (digits fuel base n) = n.
Proof.
  intros Hb. revert n. induction fuel as [|fuel IH]; intros n Hn; cbn [digits].
  - unfold value_of. simpl. rewrite Z.mod_small by (rewrite Z.pow_1_r in Hn; lia). lia.
  - destruct (Z.ltb_spec n base); [unfold value_of; simpl; lia|].
    unfold value_of in *. rewrite foldl_app, IH.
    + simpl. pose proof (Z.div_mod n base). lia.
    + split; [apply Z.div_pos; lia|]. apply Z.div_lt_upper_bound; [lia|].
      rewrite <- Z.pow_succ_r by lia.
      replace (Z.succ (Z.of_nat fuel + 1)) with (Z.of_nat (S fuel) + 1) by lia. lia.
Qed.

Lemma digits_range fuel base n :
  1 < base -> 0 <= n -> Forall (fun d => 0 <= d < base) (digits fuel base n).
Proof.
  intros Hb. revert n. induction fuel as [|fuel IH]; intros n Hn; cbn [digits].
  - repeat constructor; apply Z.mod_pos_bound; lia.
  - destruct (Z.ltb_spec n base); [repeat constructor; lia|].
    apply Forall_app. split; [apply IH, Z.div_pos; lia|].
    repeat constructor; apply Z.mod_pos_bound; lia.
Qed.

Lemma digits_nonempty fuel base n : digits fuel base n <> [].
Proof.
  destruct fuel; cbn [digits]; [done|]. destruct (n <? base); [done|].
  by destruct (digits fuel base (n / base)).
Qed.

Lemma digits_head fuel base n :
  1 < base -> 0 < n < base ^ (Z.of_nat fuel + 1) -> hd 0 (digits fuel base n) <> 0.
Proof.
  intros Hb. revert n. induction fuel as [|fuel IH]; intros n Hn; cbn [digits].
  - simpl. rewrite Z.mod_small by (rewrite Z.pow_1_r in Hn; lia). lia.
  - destruct (Z.ltb_spec n base); [simpl; lia|].
    pose proof (digits_nonempty fuel base (n / base)).
    assert (hd 0 (digits fuel base (n / base)) <> 0) as Hh.
    { apply IH. split; [apply Z.div_str_pos; lia|]. apply Z.div_lt_upper_bound; [lia|].
      rewrite <- Z.pow_succ_r by lia.
      replace (Z.succ (Z.of_nat fuel + 1)) with (Z.of_nat (S fuel) + 1) by lia. lia. }
    by destruct (digits fuel base (n / base)).
Qed.

Lemma digit_value_upper d : 0 <= d < 36 -> digit_value (digit_upper d) = Some d.
Proof.
  intros Hd. unfold digit_value, digit_upper.
  destruct (Z.ltb_spec d 10).
  - assert ((48 <=? 48 + d) && (48 + d <=? 57) = true) as -> by lia. f_equal. lia.
  - assert ((48 <=? 55 + d) && (55 + d <=? 57) = false) as -> by lia.
    assert ((65 <=? 55 + d) && (55 + d <=? 90) = true) as -> by lia. f_equal. lia.
Qed.

(** Scanning reads the printed digits and stops at the first non-digit. *)
Lemma scan_digits_printed base acc ds rest :
  base <= 36 -> Forall (fun d => 0 <= d < base) ds -> starts_digit base rest = false ->
  scan_digits base acc (map digit_upper ds ++ rest) = (value_of base acc ds, rest).
Proof.
  intros Hb Hds Hr. revert acc. induction Hds as [|d ds Hd Hds IH]; intros acc; simpl.
  - destruct rest as [|c rest]; [done|]. simpl in Hr |- *.
    destruct (digit_value c) as [d|]; [|done]. by rewrite Hr.
  - rewrite digit_value_upper by lia. by rewrite (proj2 (Z.ltb_lt _ _)) by lia.
Qed.

Lemma digit_upper_class d : 0 <= d < 36 ->
  isspace (digit_upper d) = false /\ digit_upper d <> 45 /\ digit_upper d <> 43 /\
  (digit_upper d = 48 <-> d = 0) /\ digit_upper d <> 120 /\ 48 <= digit_upper d < 91 /\
  (d < 16 -> digit_upper d <> 88).
Proof.
  intros Hd. unfold digit_upper, isspace. case_bool; split_and!; lia.
Qed.

Lemma value_of_zeros base k ds : value_of base 0 (replicate k 0 ++ ds) = value_of base 0 ds.
Proof.
  induction k as [|k IH]; [done|]. unfold value_of in *. simpl. exact IH.
Qed.

Lemma zero_pad_digits w ds :
  zero_pad w (map digit_upper ds) =
    map digit_upper (replicate (Z.to_nat (w - zlen ds)) 0 ++ ds).
Proof.
  unfold zero_pad. rewrite zlen_map, map_app. f_equal.
  induction (Z.to_nat (w - zlen ds)) as [|k IH]; [done|]. simpl. by rewrite IH.
Qed.

Lemma starts_digit_upper base d ds rest :
  0 <= d < base -> base <= 36 ->
  starts_digit base (map digit_upper (d :: ds) ++ rest) = true.
Proof. intros. simpl. rewrite digit_value_upper by lia. lia. Qed.

(** A text whose digits can be scanned to the end of the number: no digit and
    no [x] follows. *)
Definition number_end (rest : list Z) : Prop :=
  starts_digit 16 rest = false /\ hd 0 rest <> 120 /\ hd 0 rest <> 88.

#[export] Instance number_end_dec rest : Decision (number_end rest).
Proof. unfold number_end. apply _. Defined.

Lemma number_end_digit base rest :
  base <= 16 -> number_end rest -> starts_digit base rest = false.
Proof.
  intros Hb (H & _). destruct rest as [|c rest]; [done|]. simpl in *.
  destruct (digit_value c); [|done]. lia.
Qed.

(** [strtoll] reads back a printed decimal number, clamped to its range. *)
Lemma strtoll_print_dec n rest :
  0 <= n < 18446744073709551616 -> number_end rest ->
  strtoll (print_dec n ++ rest) = (clamp_ll n, rest).
Proof.
  intros Hn He. unfold print_dec.
  assert (n < 10 ^ (Z.of_nat 64 + 1)) as Hn' by
    (eapply Z.lt_trans; [apply Hn|reflexivity]).
  pose proof (digits_range 64 10 n ltac:(lia) ltac:(lia)) as Hr.
  pose proof (digits_value 64 10 n ltac:(lia) ltac:(lia)) as Hv.
  assert (n = 0 \/ hd 0 (digits 64 10 n) <> 0) as Hh.
  { destruct (Z.eq_dec n 0); [by left|right]. apply digits_head; lia. }
  destruct (digits 64 10 n) as [|d ds] eqn:Ed; [by apply digits_nonempty in Ed|].
  pose proof Hr as Hr'. apply Forall_cons in Hr' as [Hd _].
  pose proof (digit_upper_class d ltac:(lia)) as (Hs & Hm & Hp & Hz & _).
  unfold strtoll. cbn [map app skip_space]. rewrite Hs. cbn [take_sign].
  rewrite (proj2 (Z.eqb_neq _ _) Hm), (proj2 (Z.eqb_neq _ _) Hp).
  destruct Hh as [->|Hh].
  - vm_compute in Ed. injection Ed as <- <-. simpl.
    destruct He as (He1 & He2 & He3).
    destruct rest as [|c rest]; [done|]. simpl in He2, He3.
    rewrite (proj2 (Z.eqb_neq _ _) He2), (proj2 (Z.eqb_neq _ _) He3).
    cbn [orb andb]. simpl. simpl in He1.
    destruct (digit_value c) as [d|]; [|done].
    destruct (Z.ltb_spec d 8); [lia|]. done.
  - assert (choose_base (digit_upper d :: map digit_upper ds ++ rest) =
      (10, digit_upper d :: map digit_upper ds ++ rest)) as ->.
    { simpl in Hh. assert ((digit_upper d =? 48) = false) as E by lia.
      unfold choose_base. rewrite E. by destruct (map digit_upper ds ++ rest). }
    change (digit_upper d :: map digit_upper ds ++ rest)
      with (map digit_upper (d :: ds) ++ rest).
    rewrite starts_digit_upper by lia.
    rewrite scan_digits_printed; [|lia|done|by apply number_end_digit].
    by rewrite Hv.
Qed.

(** [strtoll] reads back a number printed as [0x%0wX]. *)
Lemma strtoll_print_hex w n rest :
  0 <= n < 18446744073709551616 -> starts_digit 16 rest = false ->
  strtoll (lit "0x" ++ zero_pad w (print_HEX n) ++ rest) = (clamp_ll n, rest).
Proof.
  intros Hn He. unfold print_HEX. rewrite zero_pad_digits.
  assert (n < 16 ^ (Z.of_nat 64 + 1)) as Hn' by
    (eapply Z.lt_trans; [apply Hn|reflexivity]).
  pose proof (digits_range 64 16 n ltac:(lia) ltac:(lia)) as Hr.
  pose proof (digits_value 64 16 n ltac:(lia) ltac:(lia)) as Hv.
  set (ds := replicate _ 0 ++ digits 64 16 n).
  assert (Forall (fun d => 0 <= d < 16) ds) as Hds.
  { apply Forall_app. split; [|done]. apply Forall_replicate. lia. }
  assert (value_of 16 0 ds = n) as Hvs by (unfold ds; by rewrite value_of_zeros).
  assert (ds <> []) as Hne.
  { unfold ds. intros E. apply app_eq_nil in E as [_ E]. by apply digits_nonempty in E. }
  clearbody ds. destruct ds as [|d ds]; [done|].
  pose proof Hds as Hds'. apply Forall_cons in Hds' as [Hd _].
  unfold strtoll. cbn [lit app skip_space].
  change (isspace (c2z "0")) with false. cbn [take_sign].
  change (c2z "0" =? 45) with false. change (c2z "0" =? 43) with false.
  cbv iota. cbn [choose_base].
  rewrite starts_digit_upper by lia.
  change ((c2z "0" =? 48) && ((c2z "x" =? 120) || (c2z "x" =? 88)) && true) with true.
  cbv iota. rewrite starts_digit_upper by lia.
  rewrite scan_digits_printed by (done || lia). by rewrite Hvs.
Qed.

Lemma digits_len fuel base n k :
  1 < base -> (0 < k)%nat -> 0 <= n < base ^ Z.of_nat k -> (k <= fuel)%nat ->
  (length (digits fuel base n) <= k)%nat.
Proof.
  intros Hb. revert n k. induction fuel as [|fuel IH]; intros n k Hk Hn Hf; [lia|].
  cbn [digits]. destruct (Z.ltb_spec n base); [simpl; lia|].
  rewrite length_app. simpl. destruct k as [|k]; [lia|].
  assert (0 < k)%nat.
  { destruct k; [|lia]. change (Z.of_nat 1) with 1 in Hn. rewrite Z.pow_1_r in Hn. lia. }
  enough (length (digits fuel base (n / base)) <= k)%nat by lia. apply IH; [done| |lia].
  split; [apply Z.div_pos; lia|]. apply Z.div_lt_upper_bound; [lia|].
  rewrite <- Z.pow_succ_r, <- Nat2Z.inj_succ by lia. apply Hn.
Qed.

(** Eight upper-case hexadecimal digits that determine the number. *)
Lemma print_08X_text n : 0 <= n < 4294967296 ->
  zlen (print_08X n) = 8 /\
  Forall (fun c => 48 <= c <= 57 \/ 65 <= c <= 70) (print_08X n).
Proof.
  intros Hn. unfold print_08X, print_HEX. rewrite zero_pad_digits.
  pose proof (digits_len 64 16 n 8 ltac:(lia) ltac:(lia) ltac:(lia) ltac:(lia)) as Hl.
  split.
  - rewrite zlen_map, zlen_app, zlen_replicate. unfold zlen. lia.
  - apply Forall_fmap, Forall_app. split.
    + apply Forall_replicate. cbn. lia.
    + eapply Forall_impl; [apply digits_range; lia|]. intros d Hd. cbn in Hd |- *.
      unfold digit_upper. case_bool; lia.
Qed.

Lemma clamp_ll_small v : LLONG_MIN <= v <= LLONG_MAX -> clamp_ll v = v.
Proof. intros [H1 H2]. unfold clamp_ll. rewrite Z.min_l by exact H2. by apply Z.max_r. Qed.

Lemma print_08X_inj n m : 0 <= n < 4294967296 -> 0 <= m < 4294967296 ->
  print_08X n = print_08X m -> n = m.
Proof.
  assert (forall k, 0 <= k < 4294967296 ->
    strtoll (lit "0x" ++ print_08X k ++ []) = (k, [])) as Hk.
  { intros k Hk. rewrite <- (clamp_ll_small k) at 2 by (unfold LLONG_MIN, LLONG_MAX; lia).
    apply strtoll_print_hex; [lia|reflexivity]. }
  intros Hn Hm E. assert ((n, @nil Z) = (m, [])) as H3
    by (rewrite <- (Hk n Hn), <- (Hk m Hm), E; reflexivity).
  by injection H3.
Qed.
