(* ===== verification/Misc.v ===== *)
(** * Misc: numbers and file names as text (lib/misc.c), error state (lib/error.c)

    Strings are NUL-free byte lists; where the code reads or writes a buffer by
    index the buffer is an array and an access outside of it is [None]. *)
From S2P Require Import Prelude Talloc CText.

(** ** Integers (misc.c) *)

(** [parse_int]: [None] is the NULL string. *)
Definition parse_int (string : option (list Z)) : Z :=
  match string with
  | None => 0
  | Some s =>
      let '(v, endptr) := strtoll s in
      let result := u64 v in
      let c := hd 0 endptr in
      if c =? c2z "s" then u64 (result * 512)
      else if (c =? c2z "K") || (c =? c2z "k") then u64 (result * 1024)
      else if (c =? c2z "m") || (c =? c2z "M") then u64 (result * (1024 * 1024))
      else if (c =? c2z "g") || (c =? c2z "G") then u64 (result * (1024 * 1024 * 1024))
      else result
  end.

Definition from_int (arg : Z) : list Z :=
  snprintf_text BUFF_SIZE (lit "0x" ++ print_02X (u64 arg)).

(** [htonl] on a little-endian machine: the four bytes reversed. *)
Definition htonl (n : Z) : Z := unle (reverse (le 4 n)).

Definition htonll (n : Z) : Z :=
  let retval := u64 (Z.shiftl (htonl (Z.land n 4294967295)) 32) in
  Z.lor retval (htonl (Z.shiftr (Z.land n 18446744069414584320) 32)).

(** ** File names (misc.c) *)

(** The characters of [illegal_filename_chars]; the string has a quote, so the
    list is written out. *)
Definition illegal_filename_chars : list Z :=
  lit "|?[]\+<>:%;&'" ++ [34] ++ lit ",*#".

Definition init_luts : list Z :=
  foldl (fun lut c => <[Z.to_nat c := 1]> lut) (replicate 128 0) illegal_filename_chars.

(** [%02X] of a [char]: the promoted [int] is printed as unsigned. *)
Definition sprintf_02X_char (x : Z) : list Z := print_02X (u32 x).

(** The loop of [escape_filename]: [x] is a signed [char]; the output buffer, the
    input index and the output index.  Reading past the table is [None]. *)
Fixpoint escape_loop (lut filename : list Z) (n : nat) (i : Z)
    (buffer : option talloc_chunk) (j : Z) : option (option talloc_chunk * Z) :=
  match n with
  | O => Some (buffer, j)
  | S n' =>
      b ← bget filename i;
      let x := i8 b in
      illegal ← (if x <? 32 then Some true else l ← bget lut x; Some (negb (l =? 0)));
      if illegal : bool then
        buffer' ← mem_write buffer j ([c2z "%"] ++ sprintf_02X_char x ++ [0]);
        if j + 3 >? BUFF_SIZE - 10 then Some (Some buffer', j + 3)
        else escape_loop lut filename n' (i + 1) (Some buffer') (j + 3)
      else
        buffer' ← mem_write buffer j [b];
        escape_loop lut filename n' (i + 1) (Some buffer') (j + 1)
  end.

(** [filename] is the caller's buffer, NUL included; the result is the C string
    left in the new buffer. *)
Definition escape_filename (filename : list Z) (length : Z) : option (list Z) :=
  let length := if length =? 0 then Z.of_nat (strlen_nat filename) else length in
  let buffer := talloc_size (u32 (u32 (length * 3) + 1)) in
  '(buffer, j) ← escape_loop init_luts filename (Z.to_nat length) 0 buffer 0;
  buffer ← mem_write buffer j [0];
  Some (cstr (tc_mem buffer)).

(** The loop of [unescape_filename]; [%] takes the next two characters as the
    text [0xHH]. *)
Fixpoint unescape_loop (fuel : nat) (filename : list Z) (limit i : Z)
    (buffer : list Z) : option (list Z) :=
  if i <? limit then
    match fuel with
    | O => None
    | S fuel' =>
        c ← bget filename i;
        if c =? c2z "%" then
          h1 ← bget filename (i + 1);
          h2 ← bget filename (i + 2);
          let tmp := cstr [c2z "0"; c2z "x"; h1; h2; 0] in
          unescape_loop fuel' filename limit (i + 3)
            (buffer ++ [u8 (parse_int (Some tmp))])
        else unescape_loop fuel' filename limit (i + 1) (buffer ++ [c])
    end
  else Some buffer.

(** The bytes of the string value that is returned. *)
Definition unescape_filename (filename : list Z) : option (list Z) :=
  let length := Z.of_nat (strlen_nat filename) in
  unescape_loop (Z.to_nat length) filename (Z.min length (BUFF_SIZE - 10)) 0 [].

Definition startswith (haystack needle : list Z) : bool :=
  if zlen haystack <? zlen needle then false
  else bool_decide (ztake (zlen needle) haystack = needle).

Definition endswith (haystack needle : list Z) : bool :=
  let haylen := zlen haystack in
  let needlelen := zlen needle in
  if haylen <? needlelen then false
  else bool_decide (zread (haylen - needlelen) needlelen haystack = needle).

Definition normalise_url (url : list Z) : list Z :=
  match strstr url (lit "://") with
  | Some _ => url
  | None => snprintf_text BUFF_SIZE (lit "file://" ++ url)
  end.

(** [tdb_data_from_string]: the size includes the NUL. *)
Definition tdb_data_from_string (string : option (list Z)) : list Z :=
  match string with Some s => s ++ [0] | None => [] end.

(** ** The error state (error.c) *)

Definition ERROR_BUFF_SIZE : Z := 10240.

Record error_state := { error_type : aff4_error; error_buffer : list Z }.

(** [strncat(buffer, s, n)] into a static array: [None] when the text and its
    NUL do not fit. *)
Definition strncat (buffer s : list Z) (n : Z) : option (list Z) :=
  bput buffer (Z.of_nat (strlen_nat buffer)) (ztake n s ++ [0]).

(** [reason] is the formatted text; without one [tmp] is not initialised. *)
Definition aff4_raise_errors (st : error_state) (t : aff4_error)
    (reason : option (list Z)) : option error_state :=
  tmp ← (s ← reason; Some (ztake (ERROR_BUFF_SIZE - 2) s));
  buffer ← (if decide (error_type st = EZero) then bput (error_buffer st) 0 [0]
            else strncat (error_buffer st) [10] (ERROR_BUFF_SIZE - 1));
  let type := if decide (error_type st = EZero) then t else error_type st in
  buffer ← strncat buffer tmp (ERROR_BUFF_SIZE - 1);
  Some {| error_type := type; error_buffer := buffer |}.

(** ** Numbers *)

Lemma from_int_text n :
  0 <= n < 18446744073709551616 -> from_int n = lit "0x" ++ zero_pad 2 (print_HEX n).
Proof.
  intros Hn. unfold from_int, snprintf_text, print_02X. rewrite u64_small by lia.
  apply ztake_all. unfold zero_pad, print_HEX. rewrite !zlen_app, zlen_replicate, zlen_map.
  assert (forall f b m, zlen (digits f b m) <= Z.of_nat f + 1) as Hd.
  { clear. induction f as [|f IH]; intros b m; cbn [digits]; [done|].
    destruct (m <? b); [rewrite zlen_cons, zlen_nil; lia|].
    rewrite zlen_app, zlen_cons, zlen_nil. specialize (IH b (m / b)). lia. }
  specialize (Hd 64%nat 16 n). change (zlen (lit "0x")) with 2. unfold BUFF_SIZE.
  pose proof (zlen_nonneg (digits 64 16 n)). lia.
Qed.

(** A number written by [from_int] is read back by [parse_int], except that
    [strtoll] clamps the upper half of the 64-bit range to [LLONG_MAX]. *)
Theorem parse_int_from_int n :
  0 <= n < 18446744073709551616 -> parse_int (Some (from_int n)) = Z.min n LLONG_MAX.
Proof.
  intros Hn. rewrite from_int_text by done. unfold parse_int.
  pose proof (strtoll_print_hex 2 n [] Hn eq_refl) as E. rewrite app_nil_r in E.
  rewrite E. change (u64 (clamp_ll n) = Z.min n LLONG_MAX).
  unfold clamp_ll, LLONG_MAX, LLONG_MIN. rewrite u64_small; lia.
Qed.

Lemma parse_int_from_int_witness :
  parse_int (Some (from_int 18446744073709551615)) =
    Z.min 18446744073709551615 LLONG_MAX.
Proof. apply (parse_int_from_int 18446744073709551615). lia. Defined.

Lemma htonl_range n : 0 <= htonl n < 4294967296.
Proof.
  unfold htonl. pose proof (unle_bound (reverse (le 4 n))) as H.
  assert (zlen (reverse (le 4 n)) = 4) as E by done. rewrite E in H.
  apply H. apply Forall_reverse, le_bytes_ok.
Qed.

Lemma le_htonl n : le 4 (htonl n) = reverse (le 4 n).
Proof.
  unfold htonl. pose proof (le_unle (reverse (le 4 n))) as H.
  apply H. apply Forall_reverse, le_bytes_ok.
Qed.

(** [htonll] is the conversion to network byte order: the bytes of the
    result in memory are those of the argument in reverse. *)
Theorem htonll_reverses n :
  0 <= n < 18446744073709551616 -> le 8 (htonll n) = reverse (le 8 n).
Proof.
  intros Hn. unfold htonll.
  assert (Z.land n 4294967295 = n mod 2 ^ 32) as -> by (apply (Z.land_ones n 32); lia).
  assert (Z.shiftr (Z.land n 18446744069414584320) 32 = n / 2 ^ 32) as ->.
  { rewrite Z.shiftr_land. change (Z.shiftr 18446744069414584320 32) with (Z.ones 32).
    rewrite Z.land_ones, Z.shiftr_div_pow2 by lia. apply Z.mod_small. dlia. }
  pose proof (htonl_range (n mod 2 ^ 32)) as H1. pose proof (htonl_range (n / 2 ^ 32)) as H2.
  rewrite Z.shiftl_mul_pow2 by lia. change (2 ^ 32) with 4294967296 in *.
  rewrite u64_small by lia.
  replace (htonl (n mod 4294967296) * 4294967296)
    with (Z.shiftl (htonl (n mod 4294967296)) 32) by (rewrite Z.shiftl_mul_pow2; lia).
  rewrite lor_shiftl_add by lia. change (2 ^ 32) with 4294967296.
  change 8%nat with (4 + 4)%nat. rewrite (le_app 4 4 n), reverse_app. change (256 ^ Z.of_nat 4) with 4294967296.
  rewrite (le_app 4 4). change (256 ^ Z.of_nat 4) with 4294967296. f_equal.
  - rewrite <- (le_mod 4 _ 4294967296) by done. rewrite Z.add_comm, Z.mod_add by lia.
    rewrite Z.mod_small by lia. apply le_htonl.
  - rewrite Z.div_add_l, Z.div_small by lia. rewrite Z.add_0_r, le_htonl.
    by rewrite (le_mod 4).
Qed.

Lemma htonll_reverses_witness :
  le 8 (htonll 72623859790382856) = reverse (le 8 72623859790382856).
Proof. apply (htonll_reverses 72623859790382856). lia. Defined.

(** ** File names *)

(** A character that [escape_filename] writes as it is. *)
Definition legal_char (b : Z) : bool :=
  (32 <=? b) && negb (bool_decide (b ∈ illegal_filename_chars)).

Lemma init_luts_spec b : 0 <= b < 128 ->
  bget init_luts b = Some (if bool_decide (b ∈ illegal_filename_chars) then 1 else 0).
Proof.
  intros Hb. apply (bool_decide_eq_true
    (bget init_luts b = Some (if bool_decide (b ∈ illegal_filename_chars) then 1 else 0))).
  revert b Hb. apply (forall_below (fun b => bool_decide (bget init_luts b =
    Some (if bool_decide (b ∈ illegal_filename_chars) then 1 else 0))) 128).
  vm_compute. reflexivity.
Qed.

(** What is written for one character. *)
Definition escape_char (b : Z) : list Z :=
  if legal_char b then [b] else [c2z "%"] ++ print_02X b.

Lemma print_02X_two b : 0 <= b < 256 ->
  exists h1 h2, print_02X b = [h1; h2] /\ 48 <= h1 /\ 48 <= h2 /\
    u8 (parse_int (Some [c2z "0"; c2z "x"; h1; h2])) = b.
Proof.
  intros Hb.
  pose proof (forall_below (fun b => match print_02X b with
    | [h1; h2] => (48 <=? h1) && (48 <=? h2) &&
                  (u8 (parse_int (Some [c2z "0"; c2z "x"; h1; h2])) =? b)
    | _ => false end) 256 ltac:(vm_compute; reflexivity) b Hb) as H.
  cbv beta in H. destruct (print_02X b) as [|h1 [|h2 [|]]]; try done.
  apply andb_prop in H as [[H1 H2]%andb_prop H3]. exists h1, h2. split_and!; lia || done.
Qed.

Definition ascii_string (s : list Z) : Prop := Forall (fun b => 1 <= b < 128) s.

Lemma escape_char_illegal b : 1 <= b < 128 ->
  (if i8 b <? 32 then Some true
   else l ← bget init_luts (i8 b); Some (negb (l =? 0))) = Some (negb (legal_char b)).
Proof.
  intros Hb. rewrite i8_small by lia. unfold legal_char.
  destruct (Z.ltb_spec b 32), (Z.leb_spec 32 b); try lia; [done|].
  rewrite init_luts_spec by lia. simpl. by case_bool_decide.
Qed.

Lemma escape_char_len b : 1 <= b < 128 -> 1 <= zlen (escape_char b) <= 3.
Proof.
  intros Hb. unfold escape_char. destruct (legal_char b); [done|].
  destruct (print_02X_two b) as (h1 & h2 & -> & _); [lia|]. done.
Qed.

(** The loop writes the escaped characters one after the other. *)
Lemma escape_loop_spec src filename pre post tc i j :
  filename = pre ++ src ++ post -> i = zlen pre -> ascii_string src ->
  0 <= j -> j + 3 * zlen src <= BUFF_SIZE - 10 ->
  j + 3 * zlen src + 1 <= zlen (tc_mem tc) ->
  exists tc', escape_loop init_luts filename (length src) i (Some tc) j =
      Some (Some tc', j + zlen (flat_map escape_char src)) /\
    zlen (tc_mem tc') = zlen (tc_mem tc) /\
    ztake (j + zlen (flat_map escape_char src)) (tc_mem tc') =
      ztake j (tc_mem tc) ++ flat_map escape_char src.
Proof.
  revert pre tc i j. induction src as [|b src IH]; intros pre tc i j Hf Hi Ha Hj Hb Hm.
  { exists tc. cbn [flat_map]. rewrite zlen_nil, Z.add_0_r, app_nil_r. done. }
  apply Forall_cons in Ha as [Hbr Ha]. pose proof (zlen_nonneg src).
  rewrite zlen_cons in Hb, Hm. cbn [length escape_loop].
  assert (bget filename i = Some b) as ->.
  { rewrite Hf. rewrite <- (Z.add_0_r i), bget_app_r by lia. done. }
  mred. rewrite escape_char_illegal by done. mred.
  pose proof (escape_char_len b Hbr) as Hlen.
  (* one more character [w] was stored, perhaps with a NUL after it *)
  assert (forall w k tc1, w = escape_char b -> (k = [] \/ k = [0]) ->
    tc1 = {| tc_size := tc_size tc; tc_mem := zover j (w ++ k) (tc_mem tc) |} ->
    exists tc', escape_loop init_luts filename (length src) (i + 1) (Some tc1) (j + zlen w) =
      Some (Some tc', j + zlen (flat_map escape_char (b :: src))) /\
    zlen (tc_mem tc') = zlen (tc_mem tc) /\
    ztake (j + zlen (flat_map escape_char (b :: src))) (tc_mem tc') =
      ztake j (tc_mem tc) ++ flat_map escape_char (b :: src)) as Hnext.
  { intros w k tc1 -> Hk ->.
    assert (0 <= zlen k <= 1) as Hkl by (by destruct Hk as [->| ->]).
    assert (zlen (zover j (escape_char b ++ k) (tc_mem tc)) = zlen (tc_mem tc)) as Hz
      by (apply zlen_zover; rewrite ?zlen_app; lia).
    destruct (IH (pre ++ [b]) {| tc_size := tc_size tc;
        tc_mem := zover j (escape_char b ++ k) (tc_mem tc) |} (i + 1) (j + zlen (escape_char b)))
      as (tc' & He & Hl & Ht); try done; try (cbn [tc_mem]; lia).
    - by rewrite Hf, <- app_assoc.
    - rewrite zlen_app, zlen_cons, zlen_nil. lia.
    - exists tc'. cbn [tc_mem] in *. cbn [flat_map]. rewrite zlen_app, Z.add_assoc.
      split; [done|]. split; [congruence|]. rewrite Ht.
      rewrite <- (ztake_zdrop j (tc_mem tc)) at 1.
      rewrite ztake_zover_prefix by (rewrite ?zlen_ztake, ?zlen_app; lia).
      rewrite ztake_app_eq by done. by rewrite <- app_assoc. }
  destruct (legal_char b) eqn:El; cbn [negb].
  - rewrite mem_write_ok by wlen. mred.
    apply (Hnext [b] []); [unfold escape_char; by rewrite El|by left|done].
  - assert (sprintf_02X_char (i8 b) = print_02X b) as ->
      by (unfold sprintf_02X_char; rewrite i8_small, u32_small by lia; done).
    assert (escape_char b = [c2z "%"] ++ print_02X b) as Ee
      by (unfold escape_char; by rewrite El).
    assert (zlen (escape_char b) = 3) as E3.
    { rewrite Ee. destruct (print_02X_two b) as (h1 & h2 & -> & _); [lia|done]. }
    rewrite (app_assoc [c2z "%"]), <- Ee.
    rewrite mem_write_ok by wlen. mred.
    destruct (Z.gtb_spec (j + 3) (BUFF_SIZE - 10)); [lia|].
    rewrite <- E3. apply (Hnext (escape_char b) [0]); [done|by right|done].
Qed.

Lemma unescape_loop_spec src fuel filename pre post limit i buffer :
  filename = pre ++ flat_map escape_char src ++ post -> i = zlen pre ->
  limit = i + zlen (flat_map escape_char src) -> ascii_string src ->
  (length src <= fuel)%nat ->
  unescape_loop fuel filename limit i buffer = Some (buffer ++ src).
Proof.
  revert fuel pre i buffer. induction src as [|b src IH];
    intros fuel pre i buffer Hf Hi Hl Ha Hfu.
  { rewrite app_nil_r. assert ((i <? limit) = false) as E by (rewrite Hl; cbn [flat_map]; rewrite zlen_nil; lia).
    destruct fuel; cbn [unescape_loop]; by rewrite E. }
  apply Forall_cons in Ha as [Hb Ha]. destruct fuel as [|fuel]; [simpl in Hfu; lia|].
  change (flat_map escape_char (b :: src))
    with (escape_char b ++ flat_map escape_char src) in *.
  pose proof (escape_char_len b Hb) as Hlen. rewrite zlen_app in Hl.
  pose proof (zlen_nonneg (flat_map escape_char src)).
  cbn [unescape_loop]. assert ((i <? limit) = true) as -> by lia.
  assert (forall k, 0 <= k -> bget filename (i + k) =
    bget (escape_char b ++ flat_map escape_char src ++ post) k) as Hg
    by (intros k Hk; rewrite Hf, <- app_assoc; by apply bget_app_r).
  rewrite <- (Z.add_0_r i) at 1. rewrite !Hg by lia. clear Hg.
  assert (buffer ++ b :: src = (buffer ++ [b]) ++ src) as -> by by rewrite <- app_assoc.
  destruct (legal_char b) eqn:El.
  - assert (escape_char b = [b]) as Ee by (unfold escape_char; by rewrite El).
    rewrite Ee in *. change (bget ([b] ++ flat_map _ src ++ post) 0) with (Some b). mred.
    assert ((b =? c2z "%") = false) as ->.
    { apply Z.eqb_neq. intros ->. vm_compute in El. done. }
    apply (IH _ (pre ++ [b])); try done.
    + by rewrite Hf, <- !app_assoc.
    + rewrite zlen_app, zlen_cons, zlen_nil. lia.
    + change (zlen [b]) with 1 in Hl. lia.
    + simpl in Hfu. lia.
  - destruct (print_02X_two b) as (h1 & h2 & E2 & Hh1 & Hh2 & Hp); [lia|].
    assert (escape_char b = [c2z "%"] ++ [h1; h2]) as Ee
      by (unfold escape_char; by rewrite El, E2).
    rewrite Ee in *.
    change (bget (([c2z "%"] ++ [h1; h2]) ++ _ ++ post) 0) with (Some (c2z "%")).
    change (bget (([c2z "%"] ++ [h1; h2]) ++ _ ++ post) 1) with (Some h1).
    change (bget (([c2z "%"] ++ [h1; h2]) ++ _ ++ post) 2) with (Some h2). mred.
    rewrite Z.eqb_refl.
    assert (cstr [c2z "0"; c2z "x"; h1; h2; 0] = [c2z "0"; c2z "x"; h1; h2]) as ->.
    { unfold cstr. cbn [strlen_nat]. change (c2z "0" =? 0) with false.
      change (c2z "x" =? 0) with false. change (0 =? 0) with true. cbv iota.
      rewrite (proj2 (Z.eqb_neq h1 0)), (proj2 (Z.eqb_neq h2 0)) by lia. done. }
    rewrite Hp. apply (IH _ (pre ++ [c2z "%"; h1; h2])); try done.
    + by rewrite Hf, <- !app_assoc.
    + rewrite zlen_app, !zlen_cons, zlen_nil. lia.
    + change (zlen ([c2z "%"] ++ [h1; h2])) with 3 in Hl. lia.
    + simpl in Hfu. lia.
Qed.

Lemma escape_text_facts s : ascii_string s ->
  cstring (flat_map escape_char s) /\ zlen s <= zlen (flat_map escape_char s) <= 3 * zlen s /\
  Forall (fun c => legal_char c = true \/ c = c2z "%") (flat_map escape_char s).
Proof.
  induction 1 as [|b s Hb Hs (IH1 & IH2 & IH3)]; [split_and!; (constructor || done)|].
  change (flat_map escape_char (b :: s)) with (escape_char b ++ flat_map escape_char s).
  rewrite zlen_app, zlen_cons. pose proof (escape_char_len b Hb).
  unfold cstring in *. rewrite !Forall_app.
  enough (Forall (fun c => 1 <= c < 256) (escape_char b) /\
    Forall (fun c => legal_char c = true \/ c = c2z "%") (escape_char b))
    by (split_and!; tauto || lia).
  unfold escape_char. destruct (legal_char b) eqn:El.
  - split; repeat constructor; tauto || lia.
  - pose proof (forall_below (fun b => forallb (fun c => (1 <=? c) && (c <? 256) && legal_char c)
      (print_02X b)) 256 ltac:(vm_compute; reflexivity) b ltac:(lia)) as H'.
    cbv beta in H'. rewrite forallb_forall in H'.
    rewrite !Forall_app. split; (split; [repeat constructor; done || lia|]);
      apply Forall_forall; intros c Hc%list_elem_of_In%H';
      apply andb_prop in Hc as [[H1 H2]%andb_prop H3]; [lia|by left].
Qed.

Lemma escape_filename_text s post length :
  ascii_string s -> 3 * zlen s <= BUFF_SIZE - 10 -> length = 0 \/ length = zlen s ->
  escape_filename (s ++ 0 :: post) length = Some (flat_map escape_char s).
Proof.
  intros Ha Hb Hl. unfold escape_filename.
  assert (cstring s) as Hc by (eapply Forall_impl; [exact Ha|simpl; lia]).
  assert ((if length =? 0 then Z.of_nat (strlen_nat (s ++ 0 :: post)) else length)
    = zlen s) as ->.
  { rewrite strlen_cstring by done. unfold zlen in *. case_bool; lia. }
  pose proof (zlen_nonneg s). unfold BUFF_SIZE in Hb.
  rewrite !u32_small by (rewrite ?u32_small; lia).
  destruct (talloc_size_ok (zlen s * 3 + 1)) as (tc & -> & _ & Hm & _);
    [unfold MAX_TALLOC_SIZE; lia|].
  replace (Z.to_nat (zlen s)) with (List.length s) by (unfold zlen; lia).
  destruct (escape_loop_spec s (s ++ 0 :: post) [] (0 :: post) tc 0 0)
    as (tc' & -> & Hz & Ht); try done; try (unfold BUFF_SIZE; lia).
  rewrite Z.add_0_l in *. mred.
  destruct (escape_text_facts s Ha) as (Hce & Hle & _).
  rewrite mem_write_ok by wlen. mred. f_equal. cbn [tc_mem].
  unfold zover. rewrite Ht, ztake_0 by lia. by apply cstr_app_nul.
Qed.

Lemma unescape_filename_text s post :
  ascii_string s -> 3 * zlen s <= BUFF_SIZE - 10 ->
  unescape_filename (flat_map escape_char s ++ 0 :: post) = Some s.
Proof.
  intros Ha Hb. destruct (escape_text_facts s Ha) as (Hce & Hle & _).
  unfold unescape_filename. rewrite strlen_cstring by done.
  apply (unescape_loop_spec s _ _ [] (0 :: post)); try done; unfold zlen in *; lia.
Qed.

(** File names survive escaping.  [escape_filename] of an ASCII name stays
    inside its buffer, contains no character a file system could object to (the
    escape character apart), and [unescape_filename] restores the name.  The
    bound is the fixed buffer of [BUFF_SIZE]. *)
Theorem escape_filename_roundtrip s post length :
  ascii_string s -> 3 * zlen s <= BUFF_SIZE - 10 -> length = 0 \/ length = zlen s ->
  exists e, escape_filename (s ++ 0 :: post) length = Some e /\
    Forall (fun c => legal_char c = true \/ c = c2z "%") e /\
    unescape_filename (e ++ [0]) = Some s.
Proof.
  intros Ha Hb Hl. exists (flat_map escape_char s).
  destruct (escape_text_facts s Ha) as (Hce & Hle & Hf).
  split; [by apply escape_filename_text|]. split; [done|].
  by apply unescape_filename_text.
Qed.

Lemma escape_filename_roundtrip_witness :
  exists e, escape_filename (lit "aff4://a b?" ++ [0]) 0 = Some e /\
    Forall (fun c => legal_char c = true \/ c = c2z "%") e /\
    unescape_filename (e ++ [0]) = Some (lit "aff4://a b?").
Proof.
  apply (escape_filename_roundtrip (lit "aff4://a b?") [] 0).
  - vm_compute. repeat (constructor; [intuition congruence|]). constructor.
  - vm_compute. congruence.
  - by left.
Defined.

(** A byte above 127 makes [escape_filename] write outside of its buffer: the
    signed character prints as [%FFFFFF80], ten bytes with the NUL, into the four
    bytes that were allocated for the one-character name. *)
Theorem escape_filename_high_byte_overflows :
  escape_filename [128; 0] 0 = None /\ escape_filename [65; 0] 0 = Some [65].
Proof. split; vm_compute; reflexivity. Qed.

(** ** The error state *)

(** The C string in the buffer. *)
Definition error_text (st : error_state) : list Z := cstr (error_buffer st).

Lemma strlen_split l : strlen_nat l <> length l ->
  exists t, l = cstr l ++ 0 :: t.
Proof.
  unfold cstr. induction l as [|b l IH]; [done|]. simpl. intros H.
  destruct (Z.eqb_spec b 0) as [->|Hb]; [by exists l|].
  destruct IH as [t Ht]; [congruence|]. exists t. simpl. by rewrite Ht at 1.
Qed.

Lemma cstr_cstring l : bytes_ok l -> cstring (cstr l).
Proof.
  unfold cstr, cstring. induction 1 as [|b l Hb Hl IH]; [constructor|]. simpl.
  destruct (Z.eqb_spec b 0); simpl; constructor; [unfold is_byte in Hb; lia|done].
Qed.

Lemma zover_bytes off x l : bytes_ok x -> bytes_ok l -> bytes_ok (zover off x l).
Proof.
  intros. unfold zover. rewrite !Forall_app. auto with aff4.
Qed.

Lemma strncat_spec buffer s n :
  bytes_ok buffer -> cstring s -> zlen s <= n ->
  zlen (cstr buffer) + zlen s < zlen buffer ->
  exists b', strncat buffer s n = Some b' /\ cstr b' = cstr buffer ++ s /\
    zlen b' = zlen buffer /\ bytes_ok b'.
Proof.
  intros Hb Hs Hn Hr. unfold strncat. rewrite (ztake_all n) by done.
  assert (zlen (cstr buffer) = Z.of_nat (strlen_nat buffer)) as Hl.
  { unfold zlen, cstr. rewrite length_take. f_equal.
    assert (forall l, strlen_nat l <= length l)%nat as H
      by (induction l as [|b l IH]; simpl; [lia|destruct (b =? 0); lia]).
    specialize (H buffer). lia. }
  rewrite <- Hl. pose proof (zlen_nonneg s). pose proof (zlen_nonneg (cstr buffer)).
  rewrite bput_ok by wlen.
  eexists; split; [done|]. split_and!.
  - unfold zover.
    assert (ztake (zlen (cstr buffer)) buffer = cstr buffer) as ->.
    { rewrite Hl. unfold ztake, cstr. by rewrite Nat2Z.id. }
    rewrite <- app_assoc, app_assoc. apply cstr_app_nul.
    apply cstring_app. split; [by apply cstr_cstring|done].
  - apply zlen_zover; rewrite ?zlen_app, ?zlen_cons, ?zlen_nil; lia.
  - apply zover_bytes; [|done]. apply Forall_app. split; [by apply cstring_bytes_ok|].
    repeat constructor; lia.
Qed.

(** The first error decides the type.  With no error pending [RaiseError]
    records the type and the message; with one pending it keeps the type and
    appends a line, as long as the text still fits the static buffer. *)
Theorem raise_error_accumulates st t reason :
  zlen (error_buffer st) = ERROR_BUFF_SIZE -> bytes_ok (error_buffer st) ->
  cstring reason -> zlen reason <= ERROR_BUFF_SIZE - 2 ->
  zlen (error_text st) + zlen reason + 1 < ERROR_BUFF_SIZE ->
  exists st', aff4_raise_errors st t (Some reason) = Some st' /\
    zlen (error_buffer st') = ERROR_BUFF_SIZE /\
    (error_type st = EZero -> error_type st' = t /\ error_text st' = reason) /\
    (error_type st <> EZero -> error_type st' = error_type st /\
       error_text st' = error_text st ++ [10] ++ reason).
Proof.
  intros Hz Hb Hc Hn Hr. unfold aff4_raise_errors, error_text in *. mred.
  rewrite (ztake_all (ERROR_BUFF_SIZE - 2)) by done.
  pose proof (zlen_nonneg (cstr (error_buffer st))). pose proof (zlen_nonneg reason).
  unfold ERROR_BUFF_SIZE in *.
  destruct (decide (error_type st = EZero)) as [Ht|Ht].
  - rewrite bput_ok by wlen. mred.
    rewrite zover_0. set (b0 := [0] ++ _).
    assert (zlen b0 = 10240) as Hb0.
    { unfold b0. rewrite zlen_app, zlen_zdrop. wlen. }
    assert (bytes_ok b0) by (apply Forall_app; split; [repeat constructor; lia|auto with aff4]).
    destruct (strncat_spec b0 reason (10240 - 1)) as (b' & -> & Hcs & Hl & _);
      [done|done|lia|change (cstr b0) with (@nil Z); wlen|].
    mred. eexists; split; [done|]. simpl. split; [congruence|]. split; [done|tauto].
  - destruct (strncat_spec (error_buffer st) [10] (10240 - 1)) as (b1 & -> & Hcs & Hl & Hb1);
      [done|repeat constructor; lia|done|wlen|]. mred.
    destruct (strncat_spec b1 reason (10240 - 1)) as (b2 & -> & Hcs2 & Hl2 & Hb2);
      [done|done|lia|rewrite Hcs; wlen|]. mred.
    eexists; split; [done|]. simpl. split; [congruence|]. split; [tauto|]. intros _.
    split; [done|]. rewrite Hcs2, Hcs. by rewrite <- app_assoc.
Qed.

Definition error_example : error_state :=
  {| error_type := EKeyError; error_buffer := lit "no key" ++ replicate (Z.to_nat 10234) 0 |}.

Lemma raise_error_accumulates_witness :
  exists st', aff4_raise_errors error_example EIOError (Some (lit "read")) = Some st' /\
    zlen (error_buffer st') = ERROR_BUFF_SIZE /\
    (EKeyError = EZero -> error_type st' = EIOError /\ error_text st' = lit "read") /\
    (EKeyError <> EZero -> error_type st' = EKeyError /\
       error_text st' = error_text error_example ++ [10] ++ lit "read").
Proof.
  apply (raise_error_accumulates error_example EIOError (lit "read")).
  - vm_compute. reflexivity.
  - apply Forall_app. split; [|apply Forall_replicate; unfold is_byte; lia].
    repeat (constructor; [split; vm_compute; congruence|]). constructor.
  - repeat (constructor; [split; vm_compute; congruence|]). constructor.
  - vm_compute. congruence.
  - vm_compute. congruence.
Defined.

(** The bound passed to [strncat] is the size of the buffer, not of the room
    left in it: a second long message is written past the end of the static
    error buffer. *)
Theorem raise_error_overflows :
  exists st, aff4_raise_errors
      {| error_type := EZero; error_buffer := replicate (Z.to_nat 10240) 0 |} EIOError
      (Some (replicate (Z.to_nat 6000) 65)) = Some st /\
    aff4_raise_errors st EIOError (Some (replicate (Z.to_nat 6000) 65)) = None.
Proof.
  assert (aff4_raise_errors
      {| error_type := EZero; error_buffer := replicate (Z.to_nat 10240) 0 |} EIOError
      (Some (replicate (Z.to_nat 6000) 65)) =
    Some {| error_type := EIOError; error_buffer := replicate (Z.to_nat 6000) 65 ++ replicate (Z.to_nat 4240) 0 |})
    as E by (vm_compute; reflexivity).
  eexists. split; [exact E|]. vm_compute. reflexivity.
Qed.
