(* ===== verification/Sync.v ===== *)
(** * Sync: the global lock, queues and the thread pool
      (lib/aff4_utils.c, lib/queue.c)

    The library runs under one recursive lock.  [lock_step] is what threads may
    do with it, on the code's own operations; [pool_step] is a pool of workers
    that take jobs from a bounded queue, each step being what a thread does
    between two points where it gives the lock up. *)
From S2P Require Import Prelude.

Abbreviation tid := nat.

(** ** The global lock *)

(** A recursive POSIX mutex: its owner and how often it is locked. *)
Record mutex := { owner : option tid; count : Z }.

(** [None]: the caller blocks. *)
Definition pthread_mutex_lock (m : mutex) (t : tid) : option mutex :=
  match owner m with
  | None => Some {| owner := Some t; count := 1 |}
  | Some o => if decide (o = t) then Some {| owner := Some t; count := count m + 1 |}
              else None
  end.

(** Unlocking somebody else's mutex is an error that the code ignores. *)
Definition pthread_mutex_unlock (m : mutex) (t : tid) : mutex :=
  match owner m with
  | None => m
  | Some o =>
      if decide (o = t) then
        if count m =? 1 then {| owner := None; count := 0 |}
        else {| owner := Some t; count := count m - 1 |}
      else m
  end.

Record AFF4GlobalLock := { gl_mutex : mutex; depth : Z }.

Definition AFF4GlobalLock_Con : AFF4GlobalLock :=
  {| gl_mutex := {| owner := None; count := 0 |}; depth := 0 |}.

Fixpoint lock_times (n : nat) (self : AFF4GlobalLock) (t : tid) : option AFF4GlobalLock :=
  match n with
  | O => Some self
  | S n' =>
      m ← pthread_mutex_lock (gl_mutex self) t;
      lock_times n' {| gl_mutex := m; depth := depth self + 1 |} t
  end.

Definition AFF4GlobalLock_lock (self : AFF4GlobalLock) (t : tid) (number : Z)
  : option AFF4GlobalLock := lock_times (Z.to_nat number) self t.

Fixpoint unlock_times (n : nat) (self : AFF4GlobalLock) (t : tid) : AFF4GlobalLock :=
  match n with
  | O => self
  | S n' =>
      unlock_times n' {| gl_mutex := pthread_mutex_unlock (gl_mutex self) t;
                         depth := depth self - 1 |} t
  end.

Definition AFF4GlobalLock_unlock (self : AFF4GlobalLock) (t : tid) (number : Z)
  : AFF4GlobalLock :=
  unlock_times (Z.to_nat (Z.min number (depth self))) self t.

(** The deadline of a wait: [now] in seconds and microseconds, [timeout] in
    microseconds, to seconds and nanoseconds. *)
Definition wait_deadline (now_sec now_usec timeout : Z) : Z * Z :=
  (now_sec + Z.quot timeout 1000000, (now_usec + Z.rem timeout 1000000) * 1000).

(** [pthread_cond_timedwait] refuses other deadlines with [EINVAL]. *)
Definition deadline_valid (deadline : Z * Z) : bool :=
  (0 <=? deadline.2) && (deadline.2 <? 1000000000).

(** [AFF4GlobalLock_timedwait] up to the point where the wait has released the
    mutex; the saved [depth] of the caller, and the lock. *)
Definition timedwait_enter (self : AFF4GlobalLock) (t : tid) : Z * AFF4GlobalLock :=
  let saved := depth self in
  let self := AFF4GlobalLock_unlock self t (saved - 1) in
  (saved, {| gl_mutex := pthread_mutex_unlock (gl_mutex self) t;
             depth := depth self - 1 |}).

(** The rest, from the point where the wait has the mutex again. *)
Definition timedwait_leave (self : AFF4GlobalLock) (t : tid) (saved : Z)
  : option AFF4GlobalLock :=
  m ← pthread_mutex_lock (gl_mutex self) t;
  AFF4GlobalLock_lock {| gl_mutex := m; depth := depth self + 1 |} t (saved - 1).

Definition AFF4GlobalLock_allow_threads (self : AFF4GlobalLock) (t : tid)
  : Z * AFF4GlobalLock :=
  let d := depth self in (d, AFF4GlobalLock_unlock self t d).

(** ** Threads that use the lock *)

(** What a thread that gave the lock up does to have it back. *)
Inductive suspended := InWait (saved : Z) | InAllow (saved : Z).

Record lock_sys := {
  lk : AFF4GlobalLock;
  (** how often each thread has locked without unlocking *)
  held : tid -> Z;
  away : tid -> option suspended
}.

Definition upd {A} (f : tid -> A) (t : tid) (x : A) : tid -> A :=
  fun t' => if decide (t' = t) then x else f t'.

Definition lock_init : lock_sys :=
  {| lk := AFF4GlobalLock_Con; held := fun _ => 0; away := fun _ => None |}.

Inductive lock_step : lock_sys -> lock_sys -> Prop :=
| step_lock s t n l :
    away s t = None -> 0 < n -> AFF4GlobalLock_lock (lk s) t n = Some l ->
    lock_step s {| lk := l; held := upd (held s) t (held s t + n); away := away s |}
| step_unlock s t n :
    away s t = None -> 0 <= n <= held s t ->
    lock_step s {| lk := AFF4GlobalLock_unlock (lk s) t n;
                   held := upd (held s) t (held s t - n); away := away s |}
| step_wait s t d l :
    away s t = None -> 0 < held s t -> timedwait_enter (lk s) t = (d, l) ->
    lock_step s {| lk := l; held := upd (held s) t 0;
                   away := upd (away s) t (Some (InWait d)) |}
| step_wake s t d l :
    away s t = Some (InWait d) -> timedwait_leave (lk s) t d = Some l ->
    lock_step s {| lk := l; held := upd (held s) t d; away := upd (away s) t None |}
| step_allow s t d l :
    away s t = None -> 0 < held s t -> AFF4GlobalLock_allow_threads (lk s) t = (d, l) ->
    lock_step s {| lk := l; held := upd (held s) t 0;
                   away := upd (away s) t (Some (InAllow d)) |}
| step_end_allow s t d l :
    away s t = Some (InAllow d) -> AFF4GlobalLock_lock (lk s) t d = Some l ->
    lock_step s {| lk := l; held := upd (held s) t d; away := upd (away s) t None |}.

(** ** Queues *)

Section Queue.

Context {D : Type} `{EqDecision D}.

Record Queue := { items : list D; maxsize : Z; queue_size : Z }.

Definition Queue_Con (maxsize : Z) : Queue :=
  {| items := []; maxsize := maxsize; queue_size := 0 |}.

(** [Queue_get] after its waiting loop: [None] is the access through the head of
    an empty list. *)
Definition queue_take (self : Queue) : option (D * Queue) :=
  match items self with
  | [] => None
  | x :: l => Some (x, {| items := l; maxsize := maxsize self;
                          queue_size := queue_size self - 1 |})
  end.

(** One pass of [Queue_get] under the lock. *)
Inductive get_result := GetWait | GetCrash | GetItem (x : D) (q : Queue).

Definition Queue_get_pass (self : Queue) : get_result :=
  if queue_size self =? 0 then GetWait
  else match queue_take self with Some (x, q) => GetItem x q | None => GetCrash end.

(** [Queue_put] once it does not wait (any more). *)
Definition queue_append (self : Queue) (x : D) : Queue :=
  {| items := items self ++ [x]; maxsize := maxsize self;
     queue_size := queue_size self + 1 |}.

Definition Queue_put_pass (self : Queue) (x : D) : option Queue :=
  if queue_size self >=? maxsize self then None else Some (queue_append self x).

(** The loop of [Queue_remove]: unlink the first item with this data. *)
Fixpoint remove_first (x : D) (l : list D) : option (list D) :=
  match l with
  | [] => None
  | y :: l' => if decide (y = x) then Some l' else (cons y) <$> remove_first x l'
  end.

Definition Queue_remove (self : Queue) (x : D) : option D * Queue :=
  match remove_first x (items self) with
  | Some l => (Some x, {| items := l; maxsize := maxsize self;
                          queue_size := queue_size self |})
  | None => (None, self)
  end.

End Queue.

Arguments Queue : clear implicits.
Arguments get_result : clear implicits.

(** ** The thread pool *)

Section ThreadPool.

Context {J : Type} `{EqDecision J}.

(** Where a worker is: about to look at the queue in [Queue_get], in the wait of
    [Queue_get], running a job, or gone. *)
Inductive worker := Getting | Waiting | Running (j : J) | Quit.

(** Where a client of [schedule] is. *)
Record pool := {
  jobs : Queue J;
  active : bool;
  workers : list worker;
  (** clients blocked in [Queue_put], with their job *)
  putting : list J;
  (** jobs accepted, jobs handed to a worker, jobs finished: in order *)
  accepted : list J;
  started : list J;
  finished : list J
}.

Definition ThreadPool_Con (number : nat) : pool :=
  {| jobs := Queue_Con (Z.of_nat number); active := true;
     workers := replicate number Getting; putting := [];
     accepted := []; started := []; finished := [] |}.

Definition set_jobs (p : pool) (q : Queue J) : pool :=
  {| jobs := q; active := active p; workers := workers p; putting := putting p;
     accepted := accepted p; started := started p; finished := finished p |}.

Definition accept (p : pool) (j : J) (waiting : list J) : pool :=
  {| jobs := queue_append (jobs p) j; active := active p; workers := workers p;
     putting := waiting; accepted := accepted p ++ [j]; started := started p;
     finished := finished p |}.

Definition set_workers (p : pool) (ws : list worker) : pool :=
  {| jobs := jobs p; active := active p; workers := ws; putting := putting p;
     accepted := accepted p; started := started p; finished := finished p |}.

Definition set_putting (p : pool) (l : list J) : pool :=
  {| jobs := jobs p; active := active p; workers := workers p; putting := l;
     accepted := accepted p; started := started p; finished := finished p |}.

(** Where a worker goes that got NULL from [Queue_get]. *)
Definition without_job (p : pool) : worker := if active p then Getting else Quit.

(** What workers do.  Under the lock a worker looks at the queue and takes a job, or finds
    it empty and waits.  The wait gives the lock up; when it is over the worker looks again
    if it was woken ([worker_wakes]), and if the time was up [Queue_get] returns NULL
    without another look at the queue.  A deadline that is refused is over at once. *)
Inductive worker_step : pool -> pool -> Prop :=
| worker_takes p w j q :
    workers p !! w = Some Getting -> Queue_get_pass (jobs p) = GetItem j q ->
    worker_step p {| jobs := q; active := active p;
                     workers := <[w := Running j]> (workers p); putting := putting p;
                     accepted := accepted p; started := started p ++ [j];
                     finished := finished p |}
| worker_finishes p w j :
    workers p !! w = Some (Running j) ->
    worker_step p {| jobs := jobs p; active := active p;
                     workers := <[w := Getting]> (workers p); putting := putting p;
                     accepted := accepted p; started := started p;
                     finished := finished p ++ [j] |}
| worker_waits p w :
    workers p !! w = Some Getting -> Queue_get_pass (jobs p) = GetWait ->
    worker_step p (set_workers p (<[w := Waiting]> (workers p)))
| worker_refused p w :
    workers p !! w = Some Getting -> Queue_get_pass (jobs p) = GetWait ->
    worker_step p (set_workers p (<[w := without_job p]> (workers p)))
| worker_times_out p w :
    workers p !! w = Some Waiting ->
    worker_step p (set_workers p (<[w := without_job p]> (workers p))).

(** The steps of the pool: those of its workers, a worker that is woken, and what clients
    do.  [schedule] looks at nothing but the queue: it goes on after [join] made the pool
    inactive, which [join] does at any time. *)
Inductive pool_step : pool -> pool -> Prop :=
| pool_worker p p' : worker_step p p' -> pool_step p p'
| pool_wakes p w :
    workers p !! w = Some Waiting ->
    pool_step p (set_workers p (<[w := Getting]> (workers p)))
| pool_schedule p j q :
    Queue_put_pass (jobs p) j = Some q -> pool_step p (accept p j (putting p))
| pool_schedule_blocks p j :
    Queue_put_pass (jobs p) j = None -> pool_step p (set_putting p (j :: putting p))
| pool_put_wakes p j pre post :
    putting p = pre ++ j :: post -> pool_step p (accept p j (pre ++ post))
| pool_put_times_out p j pre post :
    putting p = pre ++ j :: post -> pool_step p (set_putting p (pre ++ post))
| pool_join p :
    pool_step p {| jobs := jobs p; active := false; workers := workers p;
                   putting := putting p; accepted := accepted p;
                   started := started p; finished := finished p |}.

(** A run of the workers alone: the number of its steps, and how many of them are wakes. *)
Inductive worker_run : nat -> nat -> pool -> pool -> Prop :=
| run_end p : worker_run 0 0 p p
| run_step k m p p' p'' :
    worker_step p p' -> worker_run k m p' p'' -> worker_run (S k) m p p''
| run_wake k m p w p'' :
    workers p !! w = Some Waiting ->
    worker_run k m (set_workers p (<[w := Getting]> (workers p))) p'' ->
    worker_run (S k) (S m) p p''.

End ThreadPool.

Arguments pool : clear implicits.
Arguments worker : clear implicits.

(** ** Lemmas on the lock *)

(** The lock in a state where [depth] counts the owner's locks. *)
Definition lock_at (o : option tid) (n : Z) : AFF4GlobalLock :=
  {| gl_mutex := {| owner := o; count := n |}; depth := n |}.

Lemma lock_times_own n t k :
  0 < k -> lock_times n (lock_at (Some t) k) t = Some (lock_at (Some t) (k + Z.of_nat n)).
Proof.
  revert k. induction n as [|n IH]; intros k Hk; [by rewrite Z.add_0_r|].
  cbn [lock_times lock_at gl_mutex pthread_mutex_lock owner count depth].
  unfold pthread_mutex_lock. cbn [owner count]. rewrite decide_True by done. mred.
  fold (lock_at (Some t) (k + 1)). rewrite IH by lia. f_equal. f_equal. lia.
Qed.

Lemma lock_free t n :
  0 < n -> AFF4GlobalLock_lock (lock_at None 0) t n = Some (lock_at (Some t) n).
Proof.
  intros Hn. unfold AFF4GlobalLock_lock.
  replace (Z.to_nat n) with (S (Z.to_nat (n - 1))) by lia.
  change (lock_times (Z.to_nat (n - 1)) (lock_at (Some t) 1) t = Some (lock_at (Some t) n)).
  rewrite lock_times_own by lia. do 2 f_equal. lia.
Qed.

Lemma lock_own t k n :
  0 < k -> 0 <= n ->
  AFF4GlobalLock_lock (lock_at (Some t) k) t n = Some (lock_at (Some t) (k + n)).
Proof.
  intros. unfold AFF4GlobalLock_lock. rewrite lock_times_own by done. do 2 f_equal. lia.
Qed.

Lemma lock_blocked o t k n :
  o <> t -> 0 < n -> AFF4GlobalLock_lock (lock_at (Some o) k) t n = None.
Proof.
  intros Ho Hn. unfold AFF4GlobalLock_lock.
  replace (Z.to_nat n) with (S (Z.to_nat (n - 1))) by lia.
  cbn [lock_times]. unfold pthread_mutex_lock. cbn [owner gl_mutex lock_at].
  by rewrite decide_False.
Qed.

Lemma unlock_times_own n t k :
  Z.of_nat n <= k -> 0 < k ->
  unlock_times n (lock_at (Some t) k) t =
    lock_at (if k =? Z.of_nat n then None else Some t) (k - Z.of_nat n).
Proof.
  revert k. induction n as [|n IH]; intros k Hn Hk.
  - rewrite Z.sub_0_r. destruct (Z.eqb_spec k (Z.of_nat 0)); [lia|done].
  - cbn [unlock_times lock_at gl_mutex depth]. unfold pthread_mutex_unlock.
    cbn [owner count]. rewrite decide_True by done. destruct (Z.eqb_spec k 1) as [->|Hk1].
    + replace n with O by lia. done.
    + fold (lock_at (Some t) (k - 1)). rewrite IH by lia.
      destruct (Z.eqb_spec (k - 1) (Z.of_nat n)), (Z.eqb_spec k (Z.of_nat (S n)));
        try lia; f_equal; lia.
Qed.

Lemma unlock_own t k n :
  0 <= n <= k -> 0 < k ->
  AFF4GlobalLock_unlock (lock_at (Some t) k) t n =
    lock_at (if k =? n then None else Some t) (k - n).
Proof.
  intros Hn Hk. unfold AFF4GlobalLock_unlock. simpl depth.
  rewrite Z.min_l, unlock_times_own by lia. by rewrite Z2Nat.id by lia.
Qed.

Lemma timedwait_enter_own t k :
  0 < k -> timedwait_enter (lock_at (Some t) k) t = (k, lock_at None 0).
Proof.
  intros Hk. unfold timedwait_enter. simpl depth. rewrite unlock_own by lia.
  destruct (Z.eqb_spec k (k - 1)); [lia|]. replace (k - (k - 1)) with 1 by lia.
  unfold pthread_mutex_unlock. cbn [owner gl_mutex lock_at]. by rewrite decide_True.
Qed.

Lemma timedwait_leave_free t d :
  0 < d -> timedwait_leave (lock_at None 0) t d = Some (lock_at (Some t) d).
Proof.
  intros Hd. change (AFF4GlobalLock_lock (lock_at (Some t) 1) t (d - 1) =
    Some (lock_at (Some t) d)). rewrite lock_own by lia. do 2 f_equal. lia.
Qed.

(** ** The invariant of the lock *)

Definition saved_depth (x : suspended) : Z :=
  match x with InWait d | InAllow d => d end.

Record lock_inv (s : lock_sys) : Prop := {
  inv_lock : exists o n, lk s = lock_at o n /\ 0 <= n /\ (o = None <-> n = 0) /\
    forall t, held s t = if decide (o = Some t) then n else 0;
  inv_away t x : away s t = Some x -> 0 < saved_depth x /\ held s t = 0
}.

Lemma lock_init_inv : lock_inv lock_init.
Proof.
  split; [|done]. exists None, 0. by split_and!.
Qed.

(** The lock of an invariant state, seen from a thread that holds it. *)
Lemma inv_holder s t :
  lock_inv s -> 0 < held s t ->
  lk s = lock_at (Some t) (held s t) /\
  forall u, u <> t -> held s u = 0.
Proof.
  intros [(o & n & Hl & Hn & Ho & Hh) _] Ht. rewrite (Hh t) in Ht |- *.
  case_decide as Eo; [|lia]. subst o. split; [done|]. intros u Hu. rewrite Hh.
  case_decide; [congruence|done].
Qed.

(** The state after the lock changed hands, or depth, for one thread. *)
Lemma inv_update s t n aw :
  0 <= n -> (forall u, u <> t -> held s u = 0) ->
  (forall u x, aw u = Some x -> 0 < saved_depth x /\ (u = t -> n = 0)) ->
  lock_inv {| lk := lock_at (if n =? 0 then None else Some t) n;
              held := upd (held s) t n; away := aw |}.
Proof.
  intros Hn Hu Ha. split; simpl.
  2: { intros u x Hx. destruct (Ha u x Hx) as [? Hz]. split; [done|]. unfold upd.
       case_decide; auto. }
  eexists _, n. split; [done|]. split; [done|]. split; [destruct (Z.eqb_spec n 0); split; congruence|].
  intros u. unfold upd. case_decide as Et.
  - subst u. destruct (Z.eqb_spec n 0) as [->|]; case_decide; congruence.
  - rewrite Hu by done. destruct (n =? 0); case_decide; congruence.
Qed.

(** A thread that gets the lock found it free, or already had it. *)
Lemma inv_acquire s t :
  lock_inv s ->
  (lk s = lock_at None 0 /\ forall u, held s u = 0) \/
  (lk s = lock_at (Some t) (held s t) /\ 0 < held s t /\ forall u, u <> t -> held s u = 0) \/
  exists o k, o <> t /\ lk s = lock_at (Some o) k.
Proof.
  intros [(o & n & Hl & Hn & Ho & Hh) _].
  destruct o as [o|].
  - destruct (decide (o = t)) as [->|Hot]; [|right; right; by exists o, n].
    right; left. rewrite (Hh t), decide_True by done. split; [done|]. split.
    + destruct (decide (n = 0)) as [E|]; [by apply Ho in E|lia].
    + intros u Hu. rewrite Hh. case_decide; [congruence|done].
  - left. assert (n = 0) as -> by tauto. split; [done|]. intros u. rewrite Hh. by case_decide.
Qed.

Lemma away_upd s t x :
  lock_inv s -> 0 < saved_depth x ->
  forall u y, upd (away s) t (Some x) u = Some y -> 0 < saved_depth y /\ (u = t -> 0 = 0).
Proof.
  intros Hi Hx u y. unfold upd. case_decide; [by intros [= <-]|].
  intros Hy. split; [by eapply (inv_away s Hi)|done].
Qed.

Lemma away_clear s t :
  lock_inv s -> forall u y, upd (away s) t None u = Some y -> 0 < saved_depth y /\ u <> t.
Proof.
  intros Hi u y. unfold upd. case_decide; [done|]. intros Hy.
  split; [by eapply (inv_away s Hi)|done].
Qed.

(** A thread with the lock, or about to get it, is not suspended. *)
Lemma away_other s t :
  lock_inv s -> away s t = None ->
  forall u y, away s u = Some y -> 0 < saved_depth y /\ u <> t.
Proof.
  intros Hi Ht u y Hy. split; [by eapply (inv_away s Hi)|congruence].
Qed.

(** [take_lock d]: the state after thread [t] has the lock [d] times. *)
Lemma inv_take s t d aw :
  0 < d -> (forall u, u <> t -> held s u = 0) ->
  (forall u x, aw u = Some x -> 0 < saved_depth x /\ u <> t) ->
  lock_inv {| lk := lock_at (Some t) d; held := upd (held s) t d; away := aw |}.
Proof.
  intros Hd Hu Ha. pose proof (inv_update s t d aw ltac:(lia) Hu) as H.
  rewrite (proj2 (Z.eqb_neq d 0)) in H by lia. apply H.
  intros u x Hx. destruct (Ha u x Hx). split; [done|tauto].
Qed.

Lemma lock_step_inv s s' : lock_inv s -> lock_step s s' -> lock_inv s'.
Proof.
  intros Hi Hs. destruct Hs as [s t n l Ha Hn Hl|s t n Ha Hn|s t d l Ha Hh Hw|s t d l Ha Hw
    |s t d l Ha Hh Hw|s t d l Ha Hw].
  - destruct (inv_acquire s t Hi) as [(E & Hz)|[(E & Hp & Hz)|(o & k & Ho & E)]];
      rewrite E in Hl.
    + rewrite lock_free in Hl by done. injection Hl as <-. rewrite Hz.
      apply inv_take; [lia|done|by apply away_other].
    + rewrite lock_own in Hl by lia. injection Hl as <-.
      apply inv_take; [lia|done|by apply away_other].
    + by rewrite lock_blocked in Hl.
  - destruct (Z.eq_dec (held s t) 0) as [E0|E0].
    + assert (n = 0) as -> by lia. rewrite Z.sub_0_r.
      assert (AFF4GlobalLock_unlock (lk s) t 0 = lk s) as ->.
      { unfold AFF4GlobalLock_unlock. by rewrite Z2Nat.nonpos by lia. }
      destruct Hi as [(o & n & Hl & Hn' & Ho & Hh) Haw]. split.
      2: { intros u x Hx. cbn in Hx |- *. unfold upd. case_decide; [subst u; congruence|by apply Haw]. }
      exists o, n. split_and!; try done; try tauto. intros u. simpl. unfold upd.
      case_decide; [by subst|apply Hh].
    + destruct (inv_holder s t Hi ltac:(lia)) as [E Hz]. rewrite E, unlock_own by lia.
      assert ((held s t =? n) = (held s t - n =? 0)) as ->
        by (destruct (Z.eqb_spec (held s t) n), (Z.eqb_spec (held s t - n) 0); lia || done).
      apply inv_update; [lia|done|].
      intros u y Hy. destruct (away_other s t Hi Ha u y Hy). split; [done|tauto].
  - destruct (inv_holder s t Hi Hh) as [E Hz]. rewrite E, timedwait_enter_own in Hw by done.
    injection Hw as <- <-. apply (inv_update s t 0); [lia|done|by apply away_upd].
  - pose proof (inv_away s Hi t _ Ha) as [Hd Hz0]. simpl in Hd.
    destruct (inv_acquire s t Hi) as [(E & Hz)|[(E & Hp & Hz)|(o & k & Ho & E)]];
      rewrite E in Hw.
    + rewrite timedwait_leave_free in Hw by done. injection Hw as <-.
      apply inv_take; [done|done|by apply away_clear].
    + lia.
    + unfold timedwait_leave, pthread_mutex_lock in Hw. cbn [owner gl_mutex lock_at] in Hw.
      by rewrite decide_False in Hw.
  - destruct (inv_holder s t Hi Hh) as [E Hz]. rewrite E in Hw.
    unfold AFF4GlobalLock_allow_threads in Hw. simpl depth in Hw.
    rewrite unlock_own, Z.eqb_refl, Z.sub_diag in Hw by lia. injection Hw as <- <-.
    apply (inv_update s t 0); [lia|done|by apply away_upd].
  - pose proof (inv_away s Hi t _ Ha) as [Hd Hz0]. simpl in Hd.
    destruct (inv_acquire s t Hi) as [(E & Hz)|[(E & Hp & Hz)|(o & k & Ho & E)]];
      rewrite E in Hw.
    + rewrite lock_free in Hw by done. injection Hw as <-.
      apply inv_take; [done|done|by apply away_clear].
    + lia.
    + by rewrite lock_blocked in Hw.
Qed.

Lemma lock_reachable_inv s : rtc lock_step lock_init s -> lock_inv s.
Proof.
  pose proof lock_init_inv as Hi. intros Hr. revert Hi.
  induction Hr as [|s1 s2 s3 Hs _ IH]; [done|]. intros Hi. apply IH. by eapply lock_step_inv.
Qed.

(** C32: the global lock.  However threads lock, unlock, wait on conditions and
    let other threads run, [depth] is the number of times the mutex is locked
    and at most one thread holds it, exactly that many times. *)
Theorem global_lock_invariant s :
  rtc lock_step lock_init s ->
  depth (lk s) = count (gl_mutex (lk s)) /\
  (forall t u, 0 < held s t -> 0 < held s u -> t = u) /\
  (forall t, 0 < held s t ->
     owner (gl_mutex (lk s)) = Some t /\ depth (lk s) = held s t).
Proof.
  intros Hr. pose proof (lock_reachable_inv s Hr) as Hi. split_and!.
  - destruct Hi as [(o & n & -> & _) _]. done.
  - intros t u Ht Hu. destruct (inv_holder s t Hi Ht) as [_ Hz].
    destruct (decide (u = t)) as [|Hne]; [done|]. rewrite (Hz u Hne) in Hu. lia.
  - intros t Ht. destruct (inv_holder s t Hi Ht) as [-> _]. done.
Qed.

(** Thread 1 locks twice, and thread 2 once it waits. *)
Definition lock_example : lock_sys :=
  {| lk := lock_at (Some 2%nat) 1;
     held := upd (upd (upd (fun _ => 0) 1%nat 2) 1%nat 0) 2%nat 1;
     away := upd (fun _ => None) 1%nat (Some (InWait 2)) |}.

Lemma lock_example_reach : rtc lock_step lock_init lock_example.
Proof.
  eapply rtc_l; [apply (step_lock _ 1%nat 2 (lock_at (Some 1%nat) 2)); done || lia|].
  eapply rtc_l; [apply (step_wait _ 1%nat 2 (lock_at None 0)); done || lia|].
  eapply rtc_l; [apply (step_lock _ 2%nat 1 (lock_at (Some 2%nat) 1)); done || lia|].
  apply rtc_refl.
Qed.

Lemma global_lock_invariant_witness :
  depth (lk lock_example) = count (gl_mutex (lk lock_example)) /\
  (forall t u, 0 < held lock_example t -> 0 < held lock_example u -> t = u) /\
  (forall t, 0 < held lock_example t ->
     owner (gl_mutex (lk lock_example)) = Some t /\ depth (lk lock_example) = held lock_example t).
Proof. exact (global_lock_invariant lock_example lock_example_reach). Defined.

(** A wait gives the whole lock up and takes it back.  A thread that holds the
    lock, however deeply, leaves it free while it waits, and when it has it
    again it holds it as deeply as before. *)
Theorem timedwait_releases_and_restores s t :
  rtc lock_step lock_init s -> 0 < held s t ->
  exists l, timedwait_enter (lk s) t = (held s t, l) /\
    owner (gl_mutex l) = None /\ depth l = 0 /\
    forall s', rtc lock_step lock_init s' -> owner (gl_mutex (lk s')) = None ->
      exists l', timedwait_leave (lk s') t (held s t) = Some l' /\
        owner (gl_mutex l') = Some t /\ count (gl_mutex l') = held s t /\
        depth l' = held s t.
Proof.
  intros Hr Ht. destruct (inv_holder s t (lock_reachable_inv s Hr) Ht) as [E _].
  exists (lock_at None 0). rewrite E, timedwait_enter_own by done.
  split_and!; try done. intros s' Hr' Ho.
  destruct (lock_reachable_inv s' Hr') as [(o & n & El & _ & Hon & _) _].
  rewrite El in Ho |- *. simpl in Ho. subst o. assert (n = 0) as -> by tauto.
  rewrite timedwait_leave_free by done. by eexists.
Qed.

Lemma timedwait_releases_and_restores_witness :
  exists l, timedwait_enter (lk lock_example) 2%nat = (1, l) /\
    owner (gl_mutex l) = None /\ depth l = 0 /\
    forall s', rtc lock_step lock_init s' -> owner (gl_mutex (lk s')) = None ->
      exists l', timedwait_leave (lk s') 2%nat 1 = Some l' /\
        owner (gl_mutex l') = Some 2%nat /\ count (gl_mutex l') = 1 /\ depth l' = 1.
Proof.
  exact (timedwait_releases_and_restores lock_example 2%nat lock_example_reach
    ltac:(vm_compute; reflexivity)).
Defined.

(** The deadline of a wait is not normalised: the microseconds of the clock
    and of the timeout are added without a carry, so a wait of a tenth of a
    second that starts in the last tenth of a second has an invalid deadline,
    which the wait refuses at once instead of waiting. *)
Theorem wait_deadline_not_normalised :
  deadline_valid (wait_deadline 1000 950000 100000) = false /\
  deadline_valid (wait_deadline 1000 850000 100000) = true.
Proof. split; vm_compute; reflexivity. Qed.

(** ** Lemmas on the pool *)

Section PoolLemmas.

Context {J : Type} `{EqDecision J}.
Implicit Types (p : pool J).

Definition running_job (w : worker J) : option J :=
  match w with Running j => Some j | _ => None end.

Record pool_inv (n : nat) p : Prop := {
  pool_size : queue_size (jobs p) = zlen (items (jobs p));
  pool_fifo : accepted p = started p ++ items (jobs p);
  pool_ran : started p ≡ₚ finished p ++ omap running_job (workers p);
  pool_gone : Quit ∈ workers p -> active p = false;
  pool_workers : length (workers p) = n
}.

Lemma omap_running_insert l w x y :
  l !! w = Some x ->
  running_job x :: map running_job (<[w := y]> l) ≡ₚ running_job y :: map running_job l.
Proof.
  revert w. induction l as [|z l IH]; intros [|w] Hw; try done.
  - injection Hw as ->. simpl. apply Permutation_swap.
  - change (<[S w := y]> (z :: l)) with (z :: <[w := y]> l). cbn [map].
    etrans; [apply Permutation_swap|]. rewrite (IH w Hw). apply Permutation_swap.
Qed.

Lemma omap_map_id (l : list (worker J)) :
  omap running_job l = omap id (map running_job l).
Proof. induction l as [|x l IH]; [done|]. csimpl. by rewrite IH. Qed.

Lemma running_insert l w x y :
  l !! w = Some x ->
  omap id [running_job x] ++ omap running_job (<[w := y]> l) ≡ₚ
  omap id [running_job y] ++ omap running_job l.
Proof.
  intros Hw. rewrite !omap_map_id, <- !omap_app. simpl app.
  apply omap_Permutation. by apply omap_running_insert.
Qed.

Lemma quit_insert (l : list (worker J)) (w : nat) y :
  Quit ∈ <[w := y]> l -> y <> Quit -> Quit ∈ l.
Proof.
  intros Hq Hy. apply list_elem_of_lookup in Hq as [i Hi].
  apply list_lookup_insert_Some in Hi as [(_ & E & _)|[_ Hi]]; [congruence|].
  by eapply list_elem_of_lookup_2.
Qed.

Lemma pool_init_inv n : pool_inv n (ThreadPool_Con n).
Proof.
  split; simpl; try done.
  - assert (omap running_job (replicate n Getting) = []) as ->; [|done].
    induction n; [done|]. done.
  - intros Hq. apply list_elem_of_lookup in Hq as [i Hi].
    by apply lookup_replicate_1 in Hi as [? _].
  - apply length_replicate.
Qed.

Lemma pool_accept_inv n p j l : pool_inv n p -> pool_inv n (accept p j l).
Proof.
  intros [Hs Hf Hr Hg Hw]. split; simpl; try done.
  - rewrite Hs. wlen.
  - by rewrite Hf, <- app_assoc.
Qed.

(** A worker that goes from one place without a job to another. *)
Lemma pool_move_inv n p w x y :
  pool_inv n p -> workers p !! w = Some x -> running_job x = None -> running_job y = None ->
  (y = Quit -> active p = false) -> pool_inv n (set_workers p (<[w := y]> (workers p))).
Proof.
  intros [Hs Hf Hr Hg Hw] Hl Hx Hy Hq. split; simpl; try done.
  - rewrite Hr. pose proof (running_insert _ _ _ y Hl) as E. rewrite Hx, Hy in E. by rewrite E.
  - intros Hin. destruct (decide (active p = false)) as [|Ha]; [done|].
    apply Hg. apply quit_insert in Hin; [done|]. intros ->. by apply Ha, Hq.
  - by rewrite length_insert.
Qed.

Lemma without_job_quit p : without_job p = Quit -> active p = false.
Proof. unfold without_job. by destruct (active p). Qed.

Lemma without_job_idle p : running_job (without_job p) = None.
Proof. unfold without_job. by destruct (active p). Qed.

Lemma worker_step_inv n p p' : pool_inv n p -> worker_step p p' -> pool_inv n p'.
Proof.
  intros Hi Hst. pose proof Hi as [Hs Hf Hr Hg Hw].
  destruct Hst as [p w j q Hl Hq|p w j Hl|p w Hl Hq|p w Hl Hq|p w Hl].
  - unfold Queue_get_pass, queue_take in Hq. case_bool_in Hq; [done|].
    destruct (items (jobs p)) as [|x l] eqn:El; [done|]. injection Hq as <- <-.
    rewrite zlen_cons in Hs. split; simpl; try done.
    + lia.
    + rewrite Hf. by rewrite <- app_assoc.
    + rewrite Hr. pose proof (running_insert _ _ _ (Running x) Hl) as E. simpl in E.
      rewrite E. solve_Permutation.
    + intros Hqt. apply quit_insert in Hqt; [|done]. by apply Hg.
    + by rewrite length_insert.
  - split; simpl; try done.
    + rewrite Hr. pose proof (running_insert _ _ _ Getting Hl) as E. simpl in E.
      rewrite <- E. solve_Permutation.
    + intros Hqt. apply quit_insert in Hqt; [|done]. by apply Hg.
    + by rewrite length_insert.
  - by eapply pool_move_inv.
  - eapply pool_move_inv; eauto using without_job_idle, without_job_quit.
  - eapply pool_move_inv; eauto using without_job_idle, without_job_quit.
Qed.

Lemma pool_step_inv n p p' : pool_inv n p -> pool_step p p' -> pool_inv n p'.
Proof.
  intros Hi Hst. destruct Hst as [p p' Hst|p w Hl|p j q Hp|p j Hp|p j pre post Hp|p j pre post Hp|p].
  - by eapply worker_step_inv.
  - by eapply pool_move_inv.
  - by apply pool_accept_inv.
  - by destruct Hi.
  - by apply pool_accept_inv.
  - by destruct Hi.
  - by destruct Hi.
Qed.

Lemma pool_reachable_inv n p : rtc pool_step (ThreadPool_Con n) p -> pool_inv n p.
Proof.
  pose proof (pool_init_inv n) as Hi. intros Hr. revert Hi.
  induction Hr as [|p1 p2 p3 Hs _ IH]; [done|]. intros Hi. apply IH. by eapply pool_step_inv.
Qed.

(** The value of a worker's place: how many steps it can still take when the pool is
    inactive and the queue empty. *)
Definition place_value (w : worker J) : nat :=
  match w with Running _ => 3 | Getting => 2 | Waiting => 1 | Quit => 0 end.

Definition pool_measure p : nat :=
  (4 * length (items (jobs p)) + sum_list_with place_value (workers p))%nat.

Lemma place_insert l w x y :
  l !! w = Some x ->
  (sum_list_with place_value (<[w := y]> l) + place_value x =
   sum_list_with place_value l + place_value y)%nat.
Proof.
  revert w. induction l as [|z l IH]; intros [|w] Hw; try done.
  - injection Hw as ->. simpl. lia.
  - change (<[S w := y]> (z :: l)) with (z :: <[w := y]> l). cbn [sum_list_with].
    specialize (IH w Hw). lia.
Qed.

Lemma pool_measure_bound p :
  (pool_measure p <= 4 * length (items (jobs p)) + 3 * length (workers p))%nat.
Proof.
  unfold pool_measure. induction (workers p) as [|w l IH]; cbn [sum_list_with length]; [lia|].
  destruct w; cbn [place_value]; lia.
Qed.

Lemma worker_step_measure p p' :
  active p = false -> worker_step p p' ->
  (pool_measure p' < pool_measure p)%nat /\ active p' = false.
Proof.
  intros Ha Hst.
  destruct Hst as [p w j q Hl Hq|p w j Hl|p w Hl Hq|p w Hl Hq|p w Hl];
    unfold pool_measure, set_workers, without_job; cbn [jobs workers active]; rewrite ?Ha.
  1: { pose proof (place_insert _ _ _ (Running j) Hl) as E. cbn [place_value] in E.
       unfold Queue_get_pass, queue_take in Hq. case_bool_in Hq; [done|].
       destruct (items (jobs p)) as [|x l]; [done|]. injection Hq as <- <-.
       cbn [items length]. split; [lia|done]. }
  1: pose proof (place_insert _ _ _ Getting Hl) as E.
  2: pose proof (place_insert _ _ _ Waiting Hl) as E.
  3, 4: pose proof (place_insert _ _ _ Quit Hl) as E.
  all: cbn [place_value] in E; split; [lia|done].
Qed.

Lemma wake_measure p w :
  workers p !! w = Some Waiting ->
  pool_measure (set_workers p (<[w := Getting]> (workers p))) = S (pool_measure p).
Proof.
  intros Hl. pose proof (place_insert _ _ _ Getting Hl) as E. cbn [place_value] in E.
  unfold pool_measure, set_workers; cbn [jobs workers]. lia.
Qed.

(** A run of the workers of an inactive pool is as long as the measure and the wakes allow. *)
Lemma worker_run_bound k m p p' :
  worker_run k m p p' -> active p = false ->
  (k + pool_measure p' <= pool_measure p + 2 * m)%nat /\ active p' = false.
Proof.
  induction 1 as [p|k m p p1 p2 Hst _ IH|k m p w p2 Hl _ IH]; intros Ha.
  - split; [lia|done].
  - destruct (worker_step_measure _ _ Ha Hst) as [Hm Ha1]. destruct (IH Ha1) as [? ?].
    split; [lia|done].
  - destruct (IH Ha) as [Hm ?]. rewrite (wake_measure _ _ Hl) in Hm. split; [lia|done].
Qed.

Lemma worker_run_inv n k m p p' : worker_run k m p p' -> pool_inv n p -> pool_inv n p'.
Proof.
  induction 1 as [p|k m p p1 p2 Hst _ IH|k m p w p2 Hl _ IH]; intros Hi; [done| |].
  - apply IH. by eapply worker_step_inv.
  - apply IH. by eapply pool_move_inv.
Qed.

(** A worker that is left can take a step. *)
Lemma worker_enabled n p w x :
  pool_inv n p -> workers p !! w = Some x -> x <> Quit -> exists p', worker_step p p'.
Proof.
  intros [Hs _ _ _ _] Hl Hx. destruct x as [| |j|]; [| |by eexists; eapply worker_finishes|done].
  2: by eexists; eapply worker_times_out.
  destruct (items (jobs p)) as [|j l] eqn:El.
  - eexists. eapply worker_waits; [done|]. unfold Queue_get_pass. by rewrite Hs.
  - eexists. eapply (worker_takes p w j); [done|].
    unfold Queue_get_pass, queue_take. rewrite Hs, El, zlen_cons.
    pose proof (zlen_nonneg l). destruct (Z.eqb_spec (1 + zlen l) 0); [lia|done].
Qed.

Lemma some_worker_left (l : list (worker J)) :
  Forall (eq Quit) l \/ exists (w : nat) x, l !! w = Some x /\ x <> Quit.
Proof.
  induction l as [|x l [IH|(w & y & Hw & Hy)]]; [by left| |right; by exists (S w), y].
  destruct x; [right; by exists 0%nat, Getting|right; by exists 0%nat, Waiting
    |right; by exists 0%nat, (Running j)|left; by constructor].
Qed.

Lemma workers_drain n p :
  pool_inv n p -> active p = false ->
  exists k p', worker_run k 0 p p' /\ Forall (eq Quit) (workers p').
Proof.
  remember (pool_measure p) as s eqn:Es. revert p Es.
  induction s as [s IH] using lt_wf_ind. intros p -> Hi Ha.
  destruct (some_worker_left (workers p)) as [Hq|(w & x & Hl & Hx)].
  - exists 0%nat, p. split; [constructor|done].
  - destruct (worker_enabled n p w x Hi Hl Hx) as [p1 Hst].
    destruct (worker_step_measure _ _ Ha Hst) as [Hm Ha1].
    destruct (IH _ Hm p1 eq_refl ltac:(by eapply worker_step_inv) Ha1) as (k & p2 & Hr & Hq).
    exists (S k), p2. split; [by eapply run_step|done].
Qed.

(** Steps on which nothing is lost: no worker quits while a job is queued, and no job is
    accepted once the pool is inactive. *)
Definition prompt_step p p' : Prop :=
  pool_step p p' /\
  (items (jobs p) <> [] -> Quit ∈ workers p' -> Quit ∈ workers p) /\
  (active p = false -> accepted p' = accepted p).

(** Only an acceptance adds to the queue. *)
Lemma pool_step_items p p' :
  pool_step p p' -> items (jobs p) = [] -> accepted p' = accepted p -> items (jobs p') = [].
Proof.
  assert (forall a (j : J), a ++ [j] <> a) as Hne.
  { intros a j E. apply (f_equal length) in E. rewrite length_app in E. simpl in E. lia. }
  intros [q p1 Hst|q w Hl|q j q' Hp|q j Hp|q j pre post Hp|q j pre post Hp|q] Hnil Hacc;
    try done; try (by apply Hne in Hacc).
  destruct Hst as [q w j q' Hl Hq|q w j Hl|q w Hl Hq|q w Hl Hq|q w Hl]; try done.
  unfold Queue_get_pass, queue_take in Hq. rewrite Hnil in Hq. by case_bool_in Hq.
Qed.

Lemma prompt_reachable n p :
  rtc prompt_step (ThreadPool_Con n) p ->
  pool_inv n p /\ (Quit ∈ workers p -> items (jobs p) = []).
Proof.
  revert p. apply rtc_ind_r; [split; [apply pool_init_inv|done]|].
  intros p p' _ (Hst & Hquit & Hacc) [Hi Hnil].
  split; [by eapply pool_step_inv|]. intros Hq.
  assert (active p' = false) as Ha' by by eapply (pool_gone n p'); [by eapply pool_step_inv|].
  destruct (decide (items (jobs p) = [])) as [E|E].
  2: destruct (E (Hnil (Hquit E Hq))).
  destruct (decide (active p = false)) as [Ha|Ha].
  - eapply pool_step_items; [done..|]. by apply Hacc.
  - apply not_false_iff_true in Ha. destruct Hst as [q p1 Hst|q w Hl|q j q' Hp|q j Hp
      |q j pre post Hp|q j pre post Hp|q]; try done; try (simpl in Ha'; congruence).
    destruct Hst; simpl in Ha'; congruence.
Qed.

(** A pool whose workers have all quit runs nothing. *)
Lemma quit_runs_nothing (l : list (worker J)) :
  Forall (eq Quit) l -> omap running_job l = [].
Proof. induction 1 as [|w ws <- _ IH]; [done|]. csimpl. exact IH. Qed.

(** Every worker goes the same way. *)
Lemma workers_move (x y : worker J) (P : pool J -> Prop) p a b :
  (forall q w, P q -> workers q !! w = Some x ->
     pool_step q (set_workers q (<[w := y]> (workers q))) /\
     P (set_workers q (<[w := y]> (workers q)))) ->
  P p -> workers p = replicate a y ++ replicate b x ->
  rtc pool_step p (set_workers p (replicate (a + b) y)).
Proof.
  intros Hstep. revert p a. induction b as [|b IH]; intros p a Hp Hw.
  - rewrite Nat.add_0_r. rewrite app_nil_r in Hw. rewrite <- Hw.
    destruct p; apply rtc_refl.
  - assert (workers p !! a = Some x) as Hl.
    { rewrite Hw, lookup_app_r by (rewrite length_replicate; lia).
      by rewrite length_replicate, Nat.sub_diag. }
    destruct (Hstep p a Hp Hl) as [Hst Hp'].
    eapply rtc_l; [exact Hst|].
    assert (<[a := y]> (workers p) = replicate (S a) y ++ replicate b x) as Ew.
    { rewrite Hw. replace a with (length (replicate a y) + 0)%nat at 1
        by (rewrite length_replicate; lia).
      rewrite insert_app_r. simpl. change (y :: replicate b x) with ([y] ++ replicate b x).
      rewrite app_assoc. f_equal. rewrite <- replicate_cons_app. done. }
    rewrite Ew in Hp' |- *.
    specialize (IH (set_workers p (replicate (S a) y ++ replicate b x)) (S a) Hp' eq_refl).
    replace (a + S b)%nat with (S a + b)%nat by lia. exact IH.
Qed.

(** The run on which a joined pool loses a job: all workers wait, a job comes, the pool is
    joined, and the time of every wait is up before a worker is woken. *)
Lemma pool_loses n (j : J) :
  (0 < n)%nat ->
  exists p, rtc pool_step (ThreadPool_Con n) p /\ Forall (eq Quit) (workers p) /\
    accepted p = [j] /\ items (jobs p) = [j] /\ started p = [] /\ finished p = [].
Proof.
  intros Hn. eexists. split.
  - etrans.
    { apply (workers_move Getting Waiting (fun q => queue_size (jobs q) = 0) _ 0 n).
      - intros q w Hq Hl. split; [|done]. apply pool_worker, worker_waits; [done|].
        unfold Queue_get_pass. by rewrite Hq.
      - done.
      - done. }
    eapply rtc_l.
    { eapply (pool_schedule _ j). unfold Queue_put_pass. simpl.
      destruct (Z.geb_spec 0 (Z.of_nat n)); [lia|reflexivity]. }
    eapply rtc_l; [apply pool_join|].
    apply (workers_move Waiting Quit (fun q => active q = false) _ 0 n).
    + intros q w Hq Hl. split; [|done].
      pose proof (worker_times_out q w Hl) as Hs. unfold without_job in Hs. rewrite Hq in Hs.
      by apply pool_worker.
    + done.
    + done.
  - simpl. split_and!; try done. by apply Forall_replicate.
Qed.

End PoolLemmas.

(** C33: the pool hands every accepted job to a worker at most once, in the order of
    acceptance, and never reads an empty queue; a job that was accepted is queued, running
    or finished.  This holds after any steps of workers and clients: waits that are woken or
    run out, refused deadlines, [schedule] after [join]. *)
Theorem pool_fifo_no_loss {J} `{EqDecision J} n (p : pool J) :
  rtc pool_step (ThreadPool_Con n) p ->
  accepted p = started p ++ items (jobs p) /\
  started p ≡ₚ finished p ++ omap running_job (workers p) /\
  Queue_get_pass (jobs p) <> GetCrash.
Proof.
  intros Hr. destruct (pool_reachable_inv n p Hr) as [Hs Hf Hp _ _].
  split_and!; [done|done|]. unfold Queue_get_pass, queue_take.
  destruct (Z.eqb_spec (queue_size (jobs p)) 0); [done|].
  destruct (items (jobs p)); [done|done].
Qed.

(** [pool_run tac]: one more step of a concrete run. *)
Tactic Notation "pool_run" tactic(tac) :=
  eapply rtc_l; [tac; reflexivity|]; simpl.

(** [prompt_run tac]: one more step of a concrete run that loses nothing. *)
Tactic Notation "prompt_run" tactic(tac) :=
  eapply rtc_l; [split; [tac; reflexivity|split; simpl; [set_solver|done]]|]; simpl.

(** Two jobs on one worker, the pool is joined before the worker took the second. *)
Lemma pool_example_prompt : exists p : pool nat,
  rtc prompt_step (ThreadPool_Con 1) p /\ Forall (eq Quit) (workers p) /\
  accepted p = [7%nat; 8%nat].
Proof.
  eexists. split.
  - prompt_run (eapply (pool_schedule _ 7%nat)).
    prompt_run (eapply pool_worker, (worker_takes _ 0%nat)).
    prompt_run (eapply (pool_schedule _ 8%nat)).
    prompt_run (eapply pool_join).
    prompt_run (eapply pool_worker, (worker_finishes _ 0%nat)).
    prompt_run (eapply pool_worker, (worker_takes _ 0%nat)).
    prompt_run (eapply pool_worker, (worker_finishes _ 0%nat)).
    prompt_run (eapply pool_worker, (worker_waits _ 0%nat)).
    prompt_run (eapply pool_worker, (worker_times_out _ 0%nat)). apply rtc_refl.
  - simpl. split_and!; try done. by repeat constructor.
Qed.

(** The steps that lose nothing are steps of the pool. *)
Lemma prompt_pool {J} `{EqDecision J} n (p : pool J) :
  rtc prompt_step (ThreadPool_Con n) p -> rtc pool_step (ThreadPool_Con n) p.
Proof. apply rtc_subrel. by intros q q' [? _]. Qed.

Lemma pool_fifo_no_loss_witness :
  exists p : pool nat, accepted p = [7%nat; 8%nat] /\
    accepted p = started p ++ items (jobs p) /\
    started p ≡ₚ finished p ++ omap running_job (workers p) /\
    Queue_get_pass (jobs p) <> GetCrash.
Proof.
  destruct pool_example_prompt as (p & Hr & _ & Ha). exists p. split; [exact Ha|].
  exact (pool_fifo_no_loss 1 p (prompt_pool 1 p Hr)).
Defined.



(** C35: [ThreadPool_join] terminates, as far as the jobs do.  From any state of a joined
    pool, a run of its workers with [m] wakes takes at most [4] steps for each queued job,
    [3] for each worker and [2] for each wake; a worker that has not quit can always take a
    step; and there is a run without wakes at whose end every worker has quit. *)
Theorem pool_join_progress {J} `{EqDecision J} n (p : pool J) :
  rtc pool_step (ThreadPool_Con n) p -> active p = false ->
  (forall k m p', worker_run k m p p' ->
     (k <= 4 * length (items (jobs p)) + 3 * n + 2 * m)%nat /\
     forall w x, workers p' !! w = Some x -> x <> Quit -> exists p'', worker_step p' p'') /\
  exists k p', worker_run k 0 p p' /\ Forall (eq Quit) (workers p').
Proof.
  intros Hr Ha. pose proof (pool_reachable_inv n p Hr) as Hi.
  split; [|by eapply workers_drain]. intros k m p' Hrun. split.
  - destruct (worker_run_bound k m p p' Hrun Ha) as [Hk _].
    pose proof (pool_measure_bound p) as Hb. rewrite (pool_workers n p Hi) in Hb. lia.
  - intros w x. apply (worker_enabled n). by eapply worker_run_inv.
Qed.

(** An inactive pool with one queued job. *)
Lemma pool_example_busy : exists p : pool nat,
  rtc pool_step (ThreadPool_Con 1) p /\ active p = false /\ items (jobs p) = [7%nat].
Proof.
  eexists. split.
  - pool_run (eapply (pool_schedule _ 7%nat)).
    pool_run (eapply pool_join). apply rtc_refl.
  - done.
Qed.

Lemma pool_join_progress_witness :
  exists p : pool nat, items (jobs p) = [7%nat] /\
    (forall k m p', worker_run k m p p' -> (k <= 7 + 2 * m)%nat) /\
    exists k p', worker_run k 0 p p' /\ Forall (eq Quit) (workers p').
Proof.
  destruct pool_example_busy as (p & Hr & Ha & Hl). exists p. split; [exact Hl|].
  destruct (pool_join_progress 1 p Hr Ha) as [Hk He]. split; [|exact He].
  intros k m p' Hrun. destruct (Hk k m p' Hrun) as [Hb _]. rewrite Hl in Hb. exact Hb.
Defined.

(** A full queue can overflow its bound.  [Queue_put] waits once and does not
    look again: a client that is woken after another one took the free place
    appends all the same. *)
Theorem Queue_put_exceeds_maxsize :
  exists p : pool nat, rtc pool_step (ThreadPool_Con 1) p /\
    maxsize (jobs p) = 1 /\ queue_size (jobs p) = 2.
Proof.
  eexists. split.
  - pool_run (eapply (pool_schedule _ 7%nat)).
    pool_run (eapply (pool_schedule_blocks _ 8%nat)).
    pool_run (eapply pool_worker, (worker_takes _ 0%nat)).
    pool_run (eapply (pool_schedule _ 9%nat)).
    pool_run (eapply (pool_put_wakes _ 8%nat [])). apply rtc_refl.
  - split; reflexivity.
Qed.

(** [Queue_remove] does not count the item it unlinks: after a put and the
    removal of that item the queue is empty but its size is one, and the next
    [Queue_get] reads through the head of the empty list. *)
Theorem Queue_remove_desynchronises :
  let q := queue_append (Queue_Con 4) 7%nat in
  let '(r, q') := Queue_remove q 7%nat in
  r = Some 7%nat /\ items q' = [] /\ queue_size q' = 1 /\ Queue_get_pass q' = GetCrash.
Proof. vm_compute. done. Qed.
