(* ===== verification/Url.v ===== *)
(** * Url: parsing and normalising URLs (lib/rdf.c, class URLParse)

    [URLParse_parse] is the state machine of the source, one character at a time;
    the fixed buffer it collects a part in is bounded, and a character past its
    end is [None].  [collapse_path] and [URLParse_string] put the parts together
    again; the text they make is the normal form every URN is kept in. *)
From S2P Require Import Prelude CText.

Inductive url_state :=
| STATE_METHOD | STATE_COLLON | STATE_NETLOCK | STATE_QUERY | STATE_FRAGMENT | STATE_END.

Record URLParse := {
  scheme : list Z;
  netloc : list Z;
  query : list Z;
  fragment : list Z
}.

#[export] Instance URLParse_eq_dec : EqDecision URLParse.
Proof. solve_decision. Defined.

Definition url_empty : URLParse :=
  {| scheme := []; netloc := []; query := []; fragment := [] |}.

(** The machine between two characters; [buff] holds the [j] characters
    collected so far. *)
Record parsing := { pstate : url_state; buff : list Z; parts : URLParse }.

(** [buff[j++] = c] *)
Definition collect (s : parsing) (c : Z) : option parsing :=
  if zlen (buff s) <? BUFF_SIZE
  then Some {| pstate := pstate s; buff := buff s ++ [c]; parts := parts s |}
  else None.

(** [buff[j]=0; j=0; .. = strdup(buff)]: the text collected. *)
Definition collected (s : parsing) : option (list Z) :=
  if zlen (buff s) <? BUFF_SIZE then Some (buff s) else None.

(** One turn of the loop on [url[i]] and [url[i+1]]: the new state and by how
    much [i] has grown at the end of the turn. *)
Definition parse_char (s : parsing) (c next : Z) : option (parsing * nat) :=
  let p := parts s in
  match pstate s with
  | STATE_METHOD =>
      if (c =? c2z "#") || (c =? c2z "/") then
        Some ({| pstate := STATE_QUERY; buff := buff s; parts := p |}, 0%nat)
      else if c =? 0 then
        b ← collected s;
        Some ({| pstate := STATE_QUERY; buff := [];
                 parts := {| scheme := scheme p; netloc := netloc p; query := b;
                             fragment := fragment p |} |}, 1%nat)
      else if c =? c2z ":" then
        b ← collected s;
        Some ({| pstate := STATE_COLLON; buff := [];
                 parts := {| scheme := b; netloc := netloc p; query := query p;
                             fragment := fragment p |} |}, 1%nat)
      else s' ← collect s c; Some (s', 1%nat)
  | STATE_COLLON =>
      if (c =? c2z "/") && (next =? c2z "/") then
        Some ({| pstate := STATE_NETLOCK; buff := buff s; parts := p |}, 2%nat)
      else Some ({| pstate := STATE_QUERY; buff := buff s; parts := p |}, 1%nat)
  | STATE_NETLOCK =>
      if (c =? 0) || (c =? c2z "/") || (c =? c2z "#") then
        b ← collected s;
        Some ({| pstate := STATE_QUERY; buff := [];
                 parts := {| scheme := scheme p; netloc := b; query := query p;
                             fragment := fragment p |} |},
              if c =? 0 then 1%nat else 0%nat)
      else s' ← collect s c; Some (s', 1%nat)
  | STATE_QUERY =>
      if (c =? 0) || (c =? c2z "#") then
        b ← collected s;
        Some ({| pstate := STATE_FRAGMENT; buff := [];
                 parts := {| scheme := scheme p; netloc := netloc p; query := b;
                             fragment := fragment p |} |}, 1%nat)
      else s' ← collect s c; Some (s', 1%nat)
  | STATE_FRAGMENT =>
      if c =? 0 then
        b ← collected s;
        Some ({| pstate := STATE_END; buff := [];
                 parts := {| scheme := scheme p; netloc := netloc p; query := query p;
                             fragment := b |} |}, 1%nat)
      else s' ← collect s c; Some (s', 1%nat)
  | STATE_END => Some (s, 1%nat)
  end.

(** The loop; [l] is the text from [url + i] on.  At most two turns do not move
    on, so twice the length and two turns more are enough. *)
Fixpoint parse_loop (fuel : nat) (s : parsing) (l : list Z) : option parsing :=
  match fuel with
  | O => None
  | S fuel' =>
      '(s', d) ← parse_char s (hd 0 l) (hd 0 (tl l));
      if hd 0 l =? 0 then Some s' else parse_loop fuel' s' (drop d l)
  end.

Definition parse_start : parsing :=
  {| pstate := STATE_METHOD; buff := []; parts := url_empty |}.

(** [None] for the URL is the NULL pointer. *)
Definition URLParse_parse (url : option (list Z)) : option URLParse :=
  match url with
  | None => Some url_empty
  | Some u => parts <$> parse_loop (2 * length u + 3) parse_start u
  end.

(** ** Paths *)

(** What happens to a finished element of the path: [..] pops, [.] and the empty
    one are dropped. *)
Definition push_element (path : list (list Z)) (e : list Z) : list (list Z) :=
  if bool_decide (e = lit "..") then removelast path
  else if bool_decide (e = lit ".") then path
  else if bool_decide (e = []) then path
  else path ++ [e].

(** The splitting loop; [cur] is the text between [j] and [i]. *)
Fixpoint split_path (l cur : list Z) (path : list (list Z)) : list (list Z) :=
  match l with
  | [] => push_element path cur
  | c :: l' =>
      if c =? c2z "/" then split_path l' [] (push_element path cur)
      else split_path l' (cur ++ [c]) path
  end.

Definition join_path (path : list (list Z)) : list Z :=
  flat_map (fun e => c2z "/" :: e) path.

Definition collapse_path (q : list Z) : list Z := join_path (split_path q [] []).

Definition URLParse_string (p : URLParse) : list Z :=
  let sch := if bool_decide (scheme p = []) then lit "file" else scheme p in
  let q := collapse_path (query p) in
  let base := sch ++ lit "://" ++ netloc p in
  if 0 <? zlen (fragment p) then base ++ q ++ lit "#" ++ fragment p
  else if 0 <? zlen (query p) then base ++ q
  else base.

(** ** What a URL is made of *)

(** The characters that a state just collects. *)
Definition plain (st : url_state) (c : Z) : bool :=
  match st with
  | STATE_METHOD =>
      negb ((c =? 0) || (c =? c2z "#") || (c =? c2z "/") || (c =? c2z ":"))
  | STATE_NETLOCK => negb ((c =? 0) || (c =? c2z "/") || (c =? c2z "#"))
  | STATE_QUERY => negb ((c =? 0) || (c =? c2z "#"))
  | STATE_FRAGMENT => negb (c =? 0)
  | _ => false
  end.

Fixpoint span (P : Z -> bool) (l : list Z) : list Z * list Z :=
  match l with
  | [] => ([], [])
  | c :: l' => if P c then let '(a, b) := span P l' in (c :: a, b) else ([], l)
  end.

(** The query and fragment of a text, after [b] was collected. *)
Definition split_query (p : URLParse) (b r : list Z) : URLParse :=
  let '(q, r') := span (plain STATE_QUERY) r in
  {| scheme := scheme p; netloc := netloc p; query := b ++ q; fragment := tl r' |}.

(** The whole URL, by longest runs instead of characters. *)
Definition split_url (u : list Z) : URLParse :=
  let '(m, r) := span (plain STATE_METHOD) u in
  match r with
  | [] => {| scheme := []; netloc := []; query := m; fragment := [] |}
  | c :: r' =>
      if c =? c2z ":" then
        let p := {| scheme := m; netloc := []; query := []; fragment := [] |} in
        match r' with
        | [] => p
        | c1 :: r1 =>
            if (c1 =? c2z "/") && (hd 0 r1 =? c2z "/") then
              let '(n, r2) := span (plain STATE_NETLOCK) (tl r1) in
              let p := {| scheme := m; netloc := n; query := []; fragment := [] |} in
              if bool_decide (r2 = []) then p else split_query p [] r2
            else split_query p [] r1
        end
      else split_query url_empty m r
  end.

Lemma span_spec P l :
  let '(a, b) := span P l in
  l = a ++ b /\ forallb P a = true /\ (b = [] \/ P (hd 0 b) = false).
Proof.
  induction l as [|c l IH]; simpl; [by auto|]. destruct (P c) eqn:E.
  - destruct (span P l) as [a b]. destruct IH as (-> & Ha & Hb). simpl. by rewrite E.
  - simpl. split_and!; auto.
Qed.

Lemma span_app P a b :
  forallb P a = true -> (b = [] \/ P (hd 0 b) = false) -> span P (a ++ b) = (a, b).
Proof.
  intros Ha Hb. induction a as [|c a IH]; simpl in *.
  - destruct b as [|c b]; [done|]. simpl. destruct Hb as [|Hb]; [done|]. simpl in Hb.
    by rewrite Hb.
  - apply andb_prop in Ha as [-> Ha]. by rewrite IH.
Qed.

(** ** The state machine computes it *)

Lemma parse_loop_mono f f' s l r :
  parse_loop f s l = Some r -> (f <= f')%nat -> parse_loop f' s l = Some r.
Proof.
  revert f' s l. induction f as [|f IH]; intros f' s l H Hf; [done|].
  destruct f' as [|f']; [lia|]. cbn [parse_loop] in *.
  destruct (parse_char s (hd 0 l) (hd 0 (tl l))) as [[s' d]|]; [|done].
  mred. cbn [mbind option_bind] in H. destruct (hd 0 l =? 0); [done|].
  apply IH; [done|lia].
Qed.

Lemma plain_collects st b p c next :
  plain st c = true ->
  parse_char {| pstate := st; buff := b; parts := p |} c next =
    (s' ← collect {| pstate := st; buff := b; parts := p |} c; Some (s', 1%nat)).
Proof.
  destruct st; try done; unfold plain, parse_char; cbn [pstate]; intros H;
    apply negb_true_iff in H; repeat apply orb_false_elim in H as [H ?];
    repeat match goal with E : (c =? _) = false |- _ => rewrite E; clear E end; done.
Qed.

Lemma plain_nonzero st c : plain st c = true -> (c =? 0) = false.
Proof.
  destruct st; try done; unfold plain; intros H; apply negb_true_iff in H;
    repeat apply orb_false_elim in H as [H ?]; done.
Qed.

Lemma run_collect st b p l rest fuel :
  forallb (plain st) l = true -> zlen b + zlen l <= BUFF_SIZE ->
  parse_loop (length l + fuel) {| pstate := st; buff := b; parts := p |} (l ++ rest) =
  parse_loop fuel {| pstate := st; buff := b ++ l; parts := p |} rest.
Proof.
  revert b. induction l as [|c l IH]; intros b Hl Hb; [by rewrite app_nil_r|].
  apply andb_prop in Hl as [Hc Hl]. rewrite zlen_cons in Hb. pose proof (zlen_nonneg l).
  cbn [length Nat.add app parse_loop hd tl]. rewrite plain_collects by done.
  unfold collect. cbn [buff pstate parts].
  rewrite (proj2 (Z.ltb_lt (zlen b) BUFF_SIZE)) by lia. mred.
  rewrite (plain_nonzero st c Hc). rewrite ?skipn_cons, ?drop_0.
  rewrite (IH (b ++ [c])); [|done|rewrite zlen_app; zlen_lia].
  by rewrite <- app_assoc.
Qed.

Lemma cstring_app_nonzero l c r : cstring (l ++ c :: r) -> (c =? 0) = false.
Proof.
  intros H. apply cstring_app in H as [_ H]. apply Forall_cons in H as [? _]. lia.
Qed.

Lemma collected_ok st b p :
  zlen b < BUFF_SIZE ->
  collected {| pstate := st; buff := b; parts := p |} = Some b.
Proof. intros. unfold collected. simpl. by rewrite (proj2 (Z.ltb_lt _ _)). Qed.

(** From the query state on. *)
Lemma parse_query p b r :
  cstring r -> zlen b + zlen r < BUFF_SIZE -> fragment p = [] ->
  parts <$> parse_loop (length r + 2) {| pstate := STATE_QUERY; buff := b; parts := p |} r =
    Some (split_query p b r).
Proof.
  intros Hr Hb Hp. unfold split_query. pose proof (span_spec (plain STATE_QUERY) r) as Hs.
  destruct (span (plain STATE_QUERY) r) as [q r']. destruct Hs as (-> & Hq & Hr').
  rewrite zlen_app in Hb. pose proof (zlen_nonneg r'). pose proof (zlen_nonneg q).
  rewrite length_app, <- Nat.add_assoc, run_collect by (done || lia).
  destruct r' as [|c r'].
  - cbn [length Nat.add parse_loop hd tl]. unfold parse_char. cbn [pstate parts].
    change ((0 =? 0) || (0 =? c2z "#")) with true. cbv iota.
    rewrite collected_ok by wlen. mred. simpl. by rewrite Hp.
  - destruct Hr' as [|Hc]; [done|]. simpl in Hc.
    pose proof (cstring_app_nonzero _ _ _ Hr) as Hc0. rewrite zlen_cons in *.
    cbn [length Nat.add parse_loop hd tl]. unfold parse_char. cbn [pstate parts].
    apply negb_false_iff in Hc. rewrite Hc. rewrite collected_ok by wlen. mred.
    rewrite Hc0. rewrite ?skipn_cons, ?drop_0. replace (length r' + 2)%nat with (length r' + 2)%nat by lia.
    apply cstring_app in Hr as [_ Hr]. apply Forall_cons in Hr as [_ Hr].
    pose proof (zlen_nonneg b).
    rewrite <- (app_nil_r r') at 2. rewrite run_collect; [| |wlen].
    + cbn [parse_loop hd tl]. unfold parse_char. cbn [pstate parts].
      change (0 =? 0) with true. cbv iota. rewrite collected_ok by wlen. done.
    + apply forallb_forall. intros x Hx%list_elem_of_In.
      rewrite Forall_forall in Hr. apply Hr in Hx. unfold plain.
      apply negb_true_iff, Z.eqb_neq. lia.
Qed.

Lemma parse_mono_parts f f' s l p :
  parts <$> parse_loop f s l = Some p -> (f <= f')%nat ->
  parts <$> parse_loop f' s l = Some p.
Proof.
  intros H Hf. destruct (parse_loop f s l) as [r|] eqn:E; [|done].
  by rewrite (parse_loop_mono f f' s l r E Hf).
Qed.

(** [parse_step]: the next turn of the loop, on a known character. *)
Ltac parse_step := cbn [length Nat.add parse_loop hd tl]; unfold parse_char at 1;
  cbn [pstate parts buff].

(** After the colon. *)
Lemma parse_colon p r' :
  cstring r' -> zlen r' < BUFF_SIZE ->
  query p = [] -> fragment p = [] -> netloc p = [] ->
  parts <$> parse_loop (2 * length r' + 2)
    {| pstate := STATE_COLLON; buff := []; parts := p |} r' =
  Some (match r' with
        | [] => p
        | c1 :: r1 =>
            if (c1 =? c2z "/") && (hd 0 r1 =? c2z "/") then
              let '(n, r2) := span (plain STATE_NETLOCK) (tl r1) in
              let p' := {| scheme := scheme p; netloc := n; query := []; fragment := [] |} in
              if bool_decide (r2 = []) then p' else split_query p' [] r2
            else split_query p [] r1
        end).
Proof.
  intros Hr Hl Hq Hf Hn. destruct r' as [|c1 r1].
  { change (2 * length [] + 2)%nat with 2%nat. parse_step.
    change ((0 =? c2z "/") && (0 =? c2z "/")) with false. done. }
  pose proof (cstring_app_nonzero [] c1 r1 Hr) as H0. rewrite zlen_cons in Hl.
  apply Forall_cons in Hr as [_ Hr].
  replace (2 * length (c1 :: r1) + 2)%nat with (S (2 * length r1 + 3)) by (simpl; lia).
  parse_step. destruct ((c1 =? c2z "/") && (hd 0 r1 =? c2z "/")) eqn:E; mred; rewrite H0;
    rewrite ?skipn_cons, ?drop_0.
  - destruct r1 as [|c2 r2]; [apply andb_prop in E as [_ E]; done|]. simpl tl.
    rewrite skipn_cons, drop_0. apply Forall_cons in Hr as [_ Hr].
    pose proof (span_spec (plain STATE_NETLOCK) r2) as Hs.
    destruct (span (plain STATE_NETLOCK) r2) as [n r3]. destruct Hs as (-> & Hp & Hr3).
    rewrite zlen_cons, zlen_app in Hl. pose proof (zlen_nonneg r3).
    replace (2 * length (c2 :: n ++ r3) + 3)%nat
      with (length n + S (length n + 2 * length r3 + 4))%nat
      by (simpl; rewrite length_app; lia).
    rewrite run_collect by (done || zlen_nils; zlen_facts; lia).
    destruct r3 as [|c3 r3].
    + parse_step. change ((0 =? 0) || (0 =? c2z "/") || (0 =? c2z "#")) with true. cbv iota.
      rewrite collected_ok by wlen. mred. simpl. by rewrite Hq, Hf.
    + destruct Hr3 as [|Hc3]; [done|]. simpl in Hc3. apply negb_false_iff in Hc3.
      pose proof (cstring_app_nonzero n c3 r3 Hr) as H3.
      apply cstring_app in Hr as [_ Hr]. rewrite bool_decide_eq_false_2 by done.
      parse_step. rewrite Hc3. rewrite collected_ok by wlen. mred. rewrite H3.
      rewrite drop_0, Hq, Hf. eapply parse_mono_parts; [apply parse_query; [done| |done]|].
      * rewrite zlen_cons in *. zlen_nils. pose proof (zlen_nonneg n). lia.
      * simpl. lia.
  - eapply parse_mono_parts; [apply parse_query; [done| |done]|].
    + zlen_nils. lia.
    + lia.
Qed.

Lemma URLParse_parse_split u :
  cstring u -> zlen u < BUFF_SIZE -> URLParse_parse (Some u) = Some (split_url u).
Proof.
  intros Hu Hl. unfold URLParse_parse, split_url, parse_start.
  pose proof (span_spec (plain STATE_METHOD) u) as Hs.
  destruct (span (plain STATE_METHOD) u) as [m r]. destruct Hs as (-> & Hm & Hr).
  rewrite zlen_app in Hl. pose proof (zlen_nonneg r) as Hzr. pose proof (zlen_nonneg m) as Hzm.
  replace (2 * length (m ++ r) + 3)%nat
    with (length m + S (length m + 2 * length r + 2))%nat by (rewrite length_app; lia).
  rewrite run_collect by (done || zlen_nils; lia). destruct r as [|c r].
  - parse_step. change ((0 =? c2z "#") || (0 =? c2z "/")) with false.
    change (0 =? 0) with true. cbv iota. rewrite collected_ok by wlen. done.
  - destruct Hr as [|Hc]; [done|]. simpl in Hc. apply negb_false_iff in Hc.
    pose proof (cstring_app_nonzero m c r Hu) as H0.
    apply cstring_app in Hu as [_ Hu]. rewrite zlen_cons in *.
    parse_step. destruct (Z.eqb_spec c (c2z ":")) as [->|Hcolon].
    + change ((c2z ":" =? c2z "#") || (c2z ":" =? c2z "/")) with false.
      change (c2z ":" =? 0) with false. cbv iota. rewrite collected_ok by wlen. mred.
      change (c2z ":" =? 0) with false. cbv iota. rewrite skipn_cons, drop_0.
      apply Forall_cons in Hu as [_ Hu].
      eapply parse_mono_parts; [by apply parse_colon; try done; lia|]. lia.
    + assert ((c =? c2z "#") || (c =? c2z "/") = true) as ->.
      { rewrite H0 in Hc. destruct (c =? c2z "#"), (c =? c2z "/"); done. }
      mred. rewrite H0, drop_0. eapply parse_mono_parts; [apply parse_query; [done| |done]|].
      * rewrite zlen_cons. simpl. lia.
      * simpl. lia.
Qed.

(** ** The normal form *)

(** The parts a parse can deliver. *)
Record parts_ok (p : URLParse) : Prop := {
  ok_scheme : forallb (plain STATE_METHOD) (scheme p) = true;
  ok_netloc : forallb (plain STATE_NETLOCK) (netloc p) = true;
  ok_query : forallb (plain STATE_QUERY) (query p) = true;
  ok_fragment : cstring (fragment p)
}.

Lemma plain_query_of_method l :
  forallb (plain STATE_METHOD) l = true -> forallb (plain STATE_QUERY) l = true.
Proof.
  rewrite !forallb_forall. intros H x Hx%H. unfold plain in *.
  apply negb_true_iff in Hx. apply negb_true_iff.
  repeat apply orb_false_elim in Hx as [Hx ?]. by rewrite Hx.
Qed.

Lemma split_query_ok p b r :
  cstring r -> forallb (plain STATE_METHOD) (scheme p) = true ->
  forallb (plain STATE_NETLOCK) (netloc p) = true ->
  forallb (plain STATE_QUERY) b = true -> parts_ok (split_query p b r).
Proof.
  intros Hr Hs Hn Hb. unfold split_query.
  pose proof (span_spec (plain STATE_QUERY) r) as H.
  destruct (span (plain STATE_QUERY) r) as [q r']. destruct H as (-> & Hq & _).
  apply cstring_app in Hr as [_ Hr]. split; simpl; try done.
  - by rewrite forallb_app, Hb, Hq.
  - destruct r' as [|c r']; [constructor|]. by apply Forall_cons in Hr as [_ ?].
Qed.

Lemma split_url_ok u : cstring u -> parts_ok (split_url u).
Proof.
  intros Hu. unfold split_url. pose proof (span_spec (plain STATE_METHOD) u) as H.
  destruct (span (plain STATE_METHOD) u) as [m r]. destruct H as (-> & Hm & _).
  apply cstring_app in Hu as [_ Hr]. destruct r as [|c r].
  { split; simpl; try done. by apply plain_query_of_method. }
  destruct (c =? c2z ":").
  - apply Forall_cons in Hr as [_ Hr]. destruct r as [|c1 r1].
    { by split. }
    apply Forall_cons in Hr as [_ Hr]. destruct (_ && _); [|by apply split_query_ok].
    destruct r1 as [|c2 r2]; simpl tl.
    { by split. }
    apply Forall_cons in Hr as [_ Hr].
    pose proof (span_spec (plain STATE_NETLOCK) r2) as H.
    destruct (span (plain STATE_NETLOCK) r2) as [n r3]. destruct H as (-> & Hn & _).
    apply cstring_app in Hr as [_ Hr]. case_bool_decide; [|by apply split_query_ok].
    split; simpl; try done; constructor.
  - apply split_query_ok; try done. by apply plain_query_of_method.
Qed.

(** A path element that stays in a collapsed path. *)
Definition good_element (e : list Z) : Prop :=
  e <> [] /\ e <> lit "." /\ e <> lit ".." /\ forallb (fun c => negb (c =? c2z "/")) e = true.

#[export] Instance good_element_dec e : Decision (good_element e).
Proof. unfold good_element. apply _. Defined.

Lemma push_element_good path e :
  Forall good_element path -> forallb (fun c => negb (c =? c2z "/")) e = true ->
  Forall good_element (push_element path e).
Proof.
  intros Hp He. unfold push_element. repeat case_bool_decide; try done.
  - destruct path as [|x path] using rev_ind; [done|].
    rewrite removelast_last. by apply Forall_app in Hp as [? _].
  - apply Forall_app. split; [done|]. by repeat constructor.
Qed.

Lemma split_path_good l cur path :
  Forall good_element path -> forallb (fun c => negb (c =? c2z "/")) cur = true ->
  Forall good_element (split_path l cur path).
Proof.
  revert cur path. induction l as [|c l IH]; intros cur path Hp Hc; simpl.
  - by apply push_element_good.
  - destruct (c =? c2z "/") eqn:E.
    + apply IH; [by apply push_element_good|done].
    + apply IH; [done|]. rewrite forallb_app, Hc. simpl. by rewrite E.
Qed.

Lemma split_path_run e l cur path :
  forallb (fun c => negb (c =? c2z "/")) e = true ->
  split_path (e ++ l) cur path = split_path l (cur ++ e) path.
Proof.
  revert cur. induction e as [|c e IH]; intros cur He; [by rewrite app_nil_r|].
  apply andb_prop in He as [Hc He]. simpl. apply negb_true_iff in Hc. rewrite Hc.
  rewrite IH by done. by rewrite <- app_assoc.
Qed.

Lemma push_good path e : good_element e -> push_element path e = path ++ [e].
Proof.
  intros (H0 & H1 & H2 & _). unfold push_element.
  by rewrite !bool_decide_eq_false_2 by done.
Qed.

Lemma split_path_join elems path e :
  Forall good_element elems -> good_element e ->
  split_path (join_path elems) e path = path ++ e :: elems.
Proof.
  revert path e. induction elems as [|x elems IH]; intros path e Hes He; simpl.
  - by apply push_good.
  - apply Forall_cons in Hes as [Hx Hes].
    rewrite split_path_run by apply Hx. rewrite push_good by done.
    rewrite IH by done. simpl. by rewrite <- app_assoc.
Qed.

(** Splitting a joined path restores its elements. *)
Lemma split_join elems :
  Forall good_element elems -> split_path (join_path elems) [] [] = elems.
Proof.
  intros He. destruct elems as [|x elems]; [done|].
  apply Forall_cons in He as [Hx Hes]. simpl.
  rewrite split_path_run by apply Hx. by rewrite split_path_join.
Qed.

Lemma collapse_idempotent q : collapse_path (collapse_path q) = collapse_path q.
Proof.
  unfold collapse_path. rewrite split_join; [done|]. by apply split_path_good.
Qed.

Lemma collapse_plain q :
  forallb (plain STATE_QUERY) q = true -> forallb (plain STATE_QUERY) (collapse_path q) = true.
Proof.
  intros Hq. unfold collapse_path.
  assert (forall l cur path, forallb (plain STATE_QUERY) l = true ->
    forallb (plain STATE_QUERY) cur = true ->
    Forall (fun e => forallb (plain STATE_QUERY) e = true) path ->
    Forall (fun e => forallb (plain STATE_QUERY) e = true) (split_path l cur path)) as H.
  { assert (forall path e, forallb (plain STATE_QUERY) e = true ->
      Forall (fun e => forallb (plain STATE_QUERY) e = true) path ->
      Forall (fun e => forallb (plain STATE_QUERY) e = true) (push_element path e)) as Hp.
    { intros path e He Hpa. unfold push_element. repeat case_bool_decide; try done.
      - destruct path as [|x path] using rev_ind; [done|].
        rewrite removelast_last. by apply Forall_app in Hpa as [? _].
      - apply Forall_app. split; [done|]. by repeat constructor. }
    induction l as [|c l IH]; intros cur path Hl Hc Hpa; simpl; [by apply Hp|].
    apply andb_prop in Hl as [Hc' Hl]. destruct (c =? c2z "/").
    - apply IH; [done|done|by apply Hp].
    - apply IH; [done| |done]. rewrite forallb_app, Hc. cbn [forallb]. by rewrite Hc'. }
  specialize (H q [] [] Hq eq_refl ltac:(constructor)).
  induction H as [|e es He Hes IH]; [done|]. simpl.
  rewrite forallb_app, He. simpl. exact IH.
Qed.

(** A collapsed path is empty or starts with a slash. *)
Lemma collapse_start q : collapse_path q = [] \/ exists t, collapse_path q = c2z "/" :: t.
Proof.
  unfold collapse_path. destruct (split_path q [] []) as [|e es]; [by left|].
  right. simpl. by eexists.
Qed.

Lemma join_path_app a b : join_path (a ++ b) = join_path a ++ join_path b.
Proof. apply flat_map_app. Qed.

Lemma zlen_push path e :
  zlen (join_path (push_element path e)) <= zlen (join_path path) + zlen e + 1.
Proof.
  pose proof (zlen_nonneg e). unfold push_element. repeat case_bool_decide; try lia.
  - destruct path as [|x path] using rev_ind; [simpl; lia|].
    rewrite removelast_last, join_path_app, zlen_app. zlen_facts. lia.
  - rewrite join_path_app, zlen_app. simpl. rewrite zlen_cons, app_nil_r. lia.
Qed.

Lemma zlen_collapse q : zlen (collapse_path q) <= zlen q + 1.
Proof.
  assert (forall l cur path, zlen (join_path (split_path l cur path)) <=
    zlen (join_path path) + zlen cur + zlen l + 1) as H.
  { induction l as [|c l IH]; intros cur path; simpl.
    - pose proof (zlen_push path cur). zlen_nils. lia.
    - rewrite zlen_cons. destruct (c =? c2z "/").
      + pose proof (zlen_push path cur). specialize (IH [] (push_element path cur)).
        zlen_nils. lia.
      + specialize (IH (cur ++ [c]) path). rewrite zlen_app, zlen_cons in IH. zlen_nils. lia. }
  specialize (H q [] []). unfold collapse_path. zlen_nils. simpl in H. zlen_nils. lia.
Qed.

Definition parts_len (p : URLParse) : Z :=
  zlen (scheme p) + zlen (netloc p) + zlen (query p) + zlen (fragment p).

Lemma split_query_len p b r :
  parts_len (split_query p b r) <= zlen (scheme p) + zlen (netloc p) + zlen b + zlen r.
Proof.
  unfold split_query. pose proof (span_spec (plain STATE_QUERY) r) as H.
  destruct (span (plain STATE_QUERY) r) as [q r']. destruct H as (-> & _).
  unfold parts_len. simpl. rewrite !zlen_app.
  destruct r'; simpl; rewrite ?zlen_cons; zlen_facts; lia.
Qed.

Lemma split_url_len u : parts_len (split_url u) <= zlen u.
Proof.
  unfold split_url. pose proof (span_spec (plain STATE_METHOD) u) as H.
  destruct (span (plain STATE_METHOD) u) as [m r]. destruct H as (-> & _).
  rewrite zlen_app. destruct r as [|c r]; [unfold parts_len; simpl; zlen_nils; lia|].
  rewrite zlen_cons. pose proof (zlen_nonneg r). destruct (c =? c2z ":").
  - destruct r as [|c1 r1]; [unfold parts_len; simpl; zlen_nils; lia|].
    rewrite zlen_cons in *. destruct (_ && _).
    + destruct r1 as [|c2 r2]; cbn [tl span].
      { rewrite bool_decide_eq_true_2 by done. unfold parts_len. simpl. zlen_nils. lia. }
      pose proof (span_spec (plain STATE_NETLOCK) r2) as Hs.
      destruct (span (plain STATE_NETLOCK) r2) as [n r3]. destruct Hs as (-> & _).
      rewrite zlen_cons, zlen_app in *. pose proof (zlen_nonneg r3).
      case_bool_decide; [unfold parts_len; simpl; zlen_nils; lia|].
      etrans; [apply split_query_len|]. simpl. zlen_nils. lia.
    + etrans; [apply split_query_len|]. simpl. zlen_nils. lia.
  - etrans; [apply split_query_len|]. rewrite zlen_cons. simpl. zlen_nils. lia.
Qed.

(** The text of a URL as one concatenation. *)
Definition scheme_of (p : URLParse) : list Z :=
  if bool_decide (scheme p = []) then lit "file" else scheme p.

Definition fragment_text (f : list Z) : list Z :=
  if bool_decide (f = []) then [] else lit "#" ++ f.

Lemma URLParse_string_text p :
  URLParse_string p =
    scheme_of p ++ lit "://" ++ netloc p ++ collapse_path (query p) ++
    fragment_text (fragment p).
Proof.
  unfold URLParse_string, fragment_text. fold (scheme_of p).
  destruct (fragment p) as [|f fs] eqn:Ef.
  - change (0 <? zlen (@nil Z)) with false. cbv iota. rewrite bool_decide_eq_true_2 by done.
    rewrite app_nil_r. destruct (query p) as [|q qs] eqn:Eq.
    + change (0 <? zlen (@nil Z)) with false. cbv iota.
      change (collapse_path []) with (@nil Z). by rewrite app_nil_r.
    + rewrite (proj2 (Z.ltb_lt 0 (zlen (q :: qs)))) by (rewrite zlen_cons; zlen_facts; lia).
      by rewrite <- !app_assoc.
  - rewrite (proj2 (Z.ltb_lt 0 (zlen (f :: fs)))) by (rewrite zlen_cons; zlen_facts; lia).
    rewrite bool_decide_eq_false_2 by done. by rewrite <- !app_assoc.
Qed.

(** The parts the text of a URL is parsed into. *)
Definition normal_parts (p : URLParse) : URLParse :=
  {| scheme := scheme_of p; netloc := netloc p; query := collapse_path (query p);
     fragment := fragment p |}.

Lemma split_url_string p :
  parts_ok p -> split_url (URLParse_string p) = normal_parts p.
Proof.
  intros [Hs Hn Hq Hf]. rewrite URLParse_string_text. unfold split_url.
  assert (forallb (plain STATE_METHOD) (scheme_of p) = true) as Hs'.
  { unfold scheme_of. by case_bool_decide. }
  rewrite (span_app _ (scheme_of p)) by (done || by right).
  cbn [lit app]. change (c2z ":" =? c2z ":") with true. cbv iota.
  change ((c2z "/" =? c2z "/") && (hd 0 (c2z "/" :: _) =? c2z "/")) with true. cbv iota.
  cbn [tl].
  set (rest := collapse_path (query p) ++ fragment_text (fragment p)).
  assert (rest = [] \/ plain STATE_NETLOCK (hd 0 rest) = false) as Hrest.
  { unfold rest. destruct (collapse_start (query p)) as [->|[t ->]]; [|by right].
    unfold fragment_text. case_bool_decide; [by left|by right]. }
  rewrite (span_app _ (netloc p)) by done.
  assert (split_query {| scheme := scheme_of p; netloc := netloc p; query := [];
      fragment := [] |} [] rest = normal_parts p) as Hsq.
  { unfold split_query, rest. rewrite span_app; [|by apply collapse_plain|].
    - simpl. unfold normal_parts. f_equal. unfold fragment_text.
      case_bool_decide as E; [by rewrite E|done].
    - unfold fragment_text. case_bool_decide; [by left|by right]. }
  case_bool_decide as E; [|exact Hsq].
  rewrite <- Hsq, E. done.
Qed.

Lemma string_normal_parts p :
  parts_ok p -> URLParse_string (normal_parts p) = URLParse_string p.
Proof.
  intros Hp. rewrite !URLParse_string_text. unfold normal_parts.
  assert (scheme_of {| scheme := scheme_of p; netloc := netloc p;
    query := collapse_path (query p); fragment := fragment p |} = scheme_of p) as ->.
  { unfold scheme_of. cbn [scheme].
    destruct (bool_decide (scheme p = [])) eqn:E; [reflexivity|by rewrite E]. }
  simpl. by rewrite collapse_idempotent.
Qed.

Lemma scheme_of_len p : zlen (scheme_of p) <= zlen (scheme p) + 4.
Proof.
  unfold scheme_of. case_bool_decide; [|lia]. change (zlen (lit "file")) with 4.
  zlen_facts. lia.
Qed.

Lemma string_len p : zlen (URLParse_string p) <= parts_len p + 9.
Proof.
  rewrite URLParse_string_text, !zlen_app. pose proof (scheme_of_len p).
  pose proof (zlen_collapse (query p)). change (zlen (lit "://")) with 3.
  assert (zlen (fragment_text (fragment p)) <= zlen (fragment p) + 1).
  { unfold fragment_text. case_bool_decide; [zlen_nils; zlen_facts; lia|].
    rewrite zlen_app. change (zlen (lit "#")) with 1. lia. }
  unfold parts_len. lia.
Qed.

Lemma plain_cstring st l :
  bytes_ok l -> forallb (plain st) l = true -> cstring l.
Proof.
  intros Hb Hp. rewrite forallb_forall in Hp. unfold cstring.
  rewrite Forall_forall in Hb |- *. intros x Hx. pose proof (Hb x Hx) as Hxb.
  unfold is_byte in Hxb. apply list_elem_of_In, Hp, plain_nonzero in Hx. lia.
Qed.

(** C37: the URL parser.  On every URL that fits its buffer the state machine
    ends, and delivers the parts that the longest runs of each part's own
    characters give: the scheme before the first colon, the network location
    up to a slash or hash, the query up to a hash, and the fragment.  After a colon
    that two slashes do not follow one character is dropped, as [split_url] does. *)
Theorem URLParse_parse_runs u :
  cstring u -> zlen u < BUFF_SIZE ->
  URLParse_parse (Some u) = Some (split_url u) /\ parts_ok (split_url u) /\
  parts_len (split_url u) <= zlen u.
Proof.
  intros Hu Hl. split_and!; [by apply URLParse_parse_split|by apply split_url_ok|].
  apply split_url_len.
Qed.

Lemma URLParse_parse_runs_witness :
  URLParse_parse (Some (lit "http://host/a/b#frag")) =
    Some (split_url (lit "http://host/a/b#frag")) /\
  parts_ok (split_url (lit "http://host/a/b#frag")) /\
  parts_len (split_url (lit "http://host/a/b#frag")) <= zlen (lit "http://host/a/b#frag").
Proof.
  apply (URLParse_parse_runs (lit "http://host/a/b#frag")).
  - repeat (constructor; [split; vm_compute; congruence|]). constructor.
  - vm_compute. reflexivity.
Defined.

(** The colon state swallows a character: of a URL without [//] after the
    colon the first character of the path is lost. *)
Theorem URLParse_parse_drops_character :
  URLParse_parse (Some (lit "urn:abc")) =
    Some {| scheme := lit "urn"; netloc := []; query := lit "bc"; fragment := [] |}.
Proof. vm_compute. reflexivity. Qed.

(** What does not fit: the loop never gets to its end, whatever the fuel. *)
Lemma run_overflows b p l fuel :
  forallb (plain STATE_METHOD) l = true -> BUFF_SIZE <= zlen b + zlen l ->
  parse_loop fuel {| pstate := STATE_METHOD; buff := b; parts := p |} l = None.
Proof.
  revert b fuel. induction l as [|c l IH]; intros b fuel Hl Hb; destruct fuel as [|fuel]; try done.
  - cbn [parse_loop hd tl]. unfold parse_char. cbn [pstate buff parts].
    change (zlen (@nil Z)) with 0 in Hb. unfold collected. cbn [buff].
    rewrite (proj2 (Z.ltb_ge (zlen b) BUFF_SIZE)) by lia. done.
  - apply andb_prop in Hl as [Hc Hl]. rewrite zlen_cons in Hb.
    cbn [parse_loop hd tl]. rewrite plain_collects by done. unfold collect. cbn [buff pstate parts].
    destruct (zlen b <? BUFF_SIZE); mred; [|done].
    rewrite (plain_nonzero STATE_METHOD c Hc). rewrite ?skipn_cons, ?drop_0.
    apply IH; [done|]. rewrite zlen_app. change (zlen [c]) with 1. lia.
Qed.

(** A URL that is too long runs over the parser's buffer.  Of a URL without a colon, a slash
    or a hash all characters are collected in the buffer on the stack, and nothing checks
    that they fit. *)
Theorem URLParse_parse_overflows u :
  forallb (plain STATE_METHOD) u = true -> BUFF_SIZE <= zlen u -> URLParse_parse (Some u) = None.
Proof.
  intros Hp Hl. unfold URLParse_parse, parse_start. rewrite run_overflows; [done|done|].
  change (zlen (@nil Z)) with 0. lia.
Qed.

Lemma URLParse_parse_overflows_witness :
  URLParse_parse (Some (replicate (Z.to_nat BUFF_SIZE) (c2z "a"))) = None.
Proof. apply URLParse_parse_overflows; [vm_compute; reflexivity|by vm_compute]. Defined.
