(* ===== verification/Rdf.v ===== *)
(** * Rdf: the values of RDF statements (lib/rdf.c)

    The value classes and their four conversions: to and from the data store
    ([encode], [decode]) and to and from text ([serialise], [parse]); URNs, which
    are kept in normal form; the registry of value classes; the output buffer of
    the serialiser. *)
From S2P Require Import Prelude Talloc Cache DataStore CText Misc Url.

(** include/aff4_constants.h *)
Definition DATATYPE_XSD_STRING : list Z := [].
Definition DATATYPE_XSD_INTEGER : list Z :=
  lit "http://www.w3.org/2001/XMLSchema#integer".
Definition DATATYPE_XSD_DATETIME : list Z :=
  lit "http://www.w3.org/2001/XMLSchema#dateTime".
Definition DATATYPE_RDF_URN : list Z :=
  lit "http://www.w3.org/1999/02/22-rdf-syntax-ns#urn".

(** ** XSDInteger: a signed 64-bit [value] *)

Definition XSDInteger_set (value : Z) : Z := i64 value.

Definition XSDInteger_encode (value : Z) : DataStoreObject :=
  DataStoreObject_Con (le 8 value) 8 DATATYPE_XSD_INTEGER.

(** An object of another length leaves zero. *)
Definition XSDInteger_decode (obj : DataStoreObject) : Z :=
  if zlen (dso_data obj) =? 8 then i64 (unle (dso_data obj)) else 0.

Definition XSDInteger_serialise (value : Z) : list Z := print_dec (u64 value).
Definition XSDInteger_parse (serialised : list Z) : Z := (strtoll serialised).1.

(** ** XSDDatetime: microseconds since the epoch *)

Definition XSDDatetime_set (tv_sec tv_usec : Z) : Z := i64 (tv_sec * 1000000 + tv_usec).

(** The product is an [int] product. *)
Definition XSDDatetime_Con (now : Z) : Z := i32 (i32 now * 1000000).

(** ** XSDString: a buffer, NUL included, and the length without it *)

Record XSDString := { xs_value : option (list Z); xs_length : Z }.

Definition new_XSDString : XSDString := {| xs_value := None; xs_length := 0 |}.

(** [string] is the caller's buffer; [length + 1] bytes of it are copied. *)
Definition XSDString_set (self : XSDString) (string : list Z) (length : Z)
  : sum aff4_error (option XSDString) :=
  if length <? 0 then inl ERuntimeError
  else inr (if length + 1 <=? zlen string then
              Some {| xs_value := Some (ztake length string ++ [0]); xs_length := length |}
            else None).

Definition XSDString_encode (self : XSDString) : DataStoreObject :=
  {| dso_data := ztake (xs_length self) (default [] (xs_value self));
     dso_rdf_type := DATATYPE_XSD_STRING |}.

Definition XSDString_decode (obj : DataStoreObject) : XSDString :=
  {| xs_value := Some (dso_data obj ++ [0]); xs_length := zlen (dso_data obj) |}.

Definition XSDString_serialise (self : XSDString) : option (list Z) :=
  v ← xs_value self; escape_filename v (xs_length self).

(** [unescape_filename] fills a new string from its stack buffer. *)
Definition XSDString_parse (serialise : list Z) : option XSDString :=
  s ← unescape_filename serialise;
  Some {| xs_value := Some (s ++ [0]); xs_length := zlen s |}.

(** ** RDFURN: the text of the URL, and the parser that holds its parts *)

Record RDFURN := { urn_value : list Z; urn_parser : option URLParse }.

#[export] Instance RDFURN_eq_dec : EqDecision RDFURN.
Proof. solve_decision. Defined.

(** The parser is constructed without a URL: its parts are NULL pointers. *)
Definition RDFURN_Con : RDFURN :=
  {| urn_value := lit "(unset)"; urn_parser := None |}.

Definition RDFURN_set (self : RDFURN) (string : option (list Z)) : option RDFURN :=
  p ← URLParse_parse string;
  Some {| urn_value := URLParse_string p; urn_parser := Some p |}.

(** [RDFURN_Con2]: the convenience constructor. *)
Definition RDFURN_Con2 (urn : option (list Z)) : option RDFURN :=
  match urn with
  | None => Some RDFURN_Con
  | Some _ => RDFURN_set RDFURN_Con urn
  end.

Definition RDFURN_copy (self : RDFURN) : option RDFURN :=
  RDFURN_set RDFURN_Con (Some (urn_value self)).

Definition RDFURN_parse (self : RDFURN) (serialised : list Z) : option RDFURN :=
  RDFURN_set self (Some serialised).

Definition RDFURN_serialise (self : RDFURN) : list Z := urn_value self.

Definition RDFURN_encode (self : RDFURN) : DataStoreObject :=
  DataStoreObject_Con (urn_value self ++ [0]) (zlen (urn_value self) + 1) DATATYPE_RDF_URN.

(** The last byte of the object is overwritten by a NUL. *)
Definition RDFURN_decode (self : RDFURN) (obj : DataStoreObject) : option RDFURN :=
  data ← bput (dso_data obj) (zlen (dso_data obj) - 1) [0];
  RDFURN_set self (Some (cstr data)).

Definition RDFURN_add (self : RDFURN) (filename : list Z) : option RDFURN :=
  parser ← URLParse_parse (Some filename);
  if 0 <? zlen (scheme parser) then
    Some {| urn_value := URLParse_string parser; urn_parser := Some parser |}
  else
    p ← urn_parser self;
    let seperator := if zlen (query p) =? 0 then [] else lit "/" in
    let p' := {| scheme := scheme p; netloc := netloc p;
                 query := query p ++ seperator ++ query parser;
                 fragment := fragment p ++ fragment parser |} in
    Some {| urn_value := URLParse_string p'; urn_parser := Some p' |}.

(** [query] is the caller's buffer. *)
Definition RDFURN_add_query (self : RDFURN) (query : list Z) (len : Z) : option RDFURN :=
  buffer ← escape_filename query len;
  RDFURN_add self buffer.

Definition RDFURN_relative_name (self volume : RDFURN) : list Z :=
  if startswith (urn_value self) (urn_value volume)
  then zdrop (zlen (urn_value volume)) (urn_value self)
  else urn_value self.

(** ** Values of any class *)

Inductive RDFValue :=
| VInteger (v : Z)
| VDatetime (v : Z)
| VString (s : XSDString)
| VURN (u : RDFURN).

(** The classes, as the registry holds them. *)
Inductive rdf_class := CInteger | CDatetime | CString | CURN.

#[export] Instance rdf_class_eq_dec : EqDecision rdf_class.
Proof. solve_decision. Defined.

Definition class_of (v : RDFValue) : rdf_class :=
  match v with
  | VInteger _ => CInteger | VDatetime _ => CDatetime
  | VString _ => CString | VURN _ => CURN
  end.

Definition dataType (c : rdf_class) : list Z :=
  match c with
  | CInteger => DATATYPE_XSD_INTEGER | CDatetime => DATATYPE_XSD_DATETIME
  | CString => DATATYPE_XSD_STRING | CURN => DATATYPE_RDF_URN
  end.

(** [encode] of each class; dates inherit the integers' with their own type. *)
Definition RDFValue_encode (v : RDFValue) : DataStoreObject :=
  match v with
  | VInteger i => XSDInteger_encode i
  | VDatetime i => {| dso_data := dso_data (XSDInteger_encode i);
                      dso_rdf_type := DATATYPE_XSD_DATETIME |}
  | VString s => XSDString_encode s
  | VURN u => RDFURN_encode u
  end.

(** [decode] into a fresh value of a class. *)
Definition RDFValue_decode (c : rdf_class) (obj : DataStoreObject) : option RDFValue :=
  match c with
  | CInteger => Some (VInteger (XSDInteger_decode obj))
  | CDatetime => Some (VDatetime (XSDInteger_decode obj))
  | CString => Some (VString (XSDString_decode obj))
  | CURN => VURN <$> RDFURN_decode RDFURN_Con obj
  end.

(** ** The registry of classes *)

Definition registry_key (c : rdf_class) : list Z := dataType c ++ [0].

Definition register_rdf_value_class (registry : option (Cache rdf_class)) (c : rdf_class)
  : option (Cache rdf_class) :=
  let r := default (Cache_Con 100 0) registry in
  if Cache_present r (registry_key c) then Some r
  else Cache_put r (registry_key c) (Some c).

(** [AFF4_MODULE_INIT(A000_rdf)]: the basic types. *)
Definition A000_rdf : option (Cache rdf_class) :=
  r ← register_rdf_value_class None CInteger;
  r ← register_rdf_value_class (Some r) CString;
  r ← register_rdf_value_class (Some r) CURN;
  register_rdf_value_class (Some r) CDatetime.

(** A fresh value of a class. *)
Definition construct (c : rdf_class) (now : Z) : RDFValue :=
  match c with
  | CInteger => VInteger 0
  | CDatetime => VDatetime (XSDDatetime_Con now)
  | CString => VString new_XSDString
  | CURN => VURN RDFURN_Con
  end.

(** [new_rdfvalue]: [type] without its NUL. *)
Definition new_rdfvalue (registry : Cache rdf_class) (type : list Z) (now : Z)
  : option RDFValue :=
  c ← Cache_borrow registry (type ++ [0]);
  Some (construct c now).

(** ** The output buffer of the serialiser *)

(** [buff], of twice [BUFF_SIZE] bytes, with its fill [i], and the bytes already
    written to [fd]. *)
Record RDFSerializer := { ser_buff : list Z; ser_i : Z; ser_fd : list Z }.

Definition RDFSerializer_Con (fd : list Z) : RDFSerializer :=
  {| ser_buff := replicate (Z.to_nat (BUFF_SIZE * 2)) 0; ser_i := 0; ser_fd := fd |}.

(** [CALL(self->fd, write, self->buff, self->i); self->i = 0;] *)
Definition ser_flush (self : RDFSerializer) : RDFSerializer :=
  {| ser_buff := ser_buff self; ser_i := 0;
     ser_fd := ser_fd self ++ ztake (ser_i self) (ser_buff self) |}.

Definition iostream_write_byte (self : RDFSerializer) (byte : Z) : option RDFSerializer :=
  b ← bput (ser_buff self) (ser_i self) [u8 byte];
  let self := {| ser_buff := b; ser_i := ser_i self + 1; ser_fd := ser_fd self |} in
  Some (if ser_i self >=? BUFF_SIZE then ser_flush self else self).

(** The loop of [iostream_write_bytes]; [None] is also the [abort] before it. *)
Fixpoint write_bytes_loop (fuel : nat) (self : RDFSerializer) (src : list Z)
  : option RDFSerializer :=
  if 0 <? zlen src then
    match fuel with
    | O => None
    | S fuel' =>
        let available := Z.min (zlen src) (u32 (BUFF_SIZE - ser_i self)) in
        if available <=? 0 then write_bytes_loop fuel' (ser_flush self) src
        else
          b ← bput (ser_buff self) (ser_i self) (ztake available src);
          write_bytes_loop fuel'
            {| ser_buff := b; ser_i := ser_i self + available; ser_fd := ser_fd self |}
            (zdrop available src)
    end
  else Some self.

Definition iostream_write_bytes (self : RDFSerializer) (src : list Z)
  : option RDFSerializer :=
  if ser_i self >? BUFF_SIZE then None
  else write_bytes_loop (2 * length src + 2) self src.

(** [RDFSerializer_close]: the rest of the buffer is written. *)
Definition RDFSerializer_close (self : RDFSerializer) : list Z := ser_fd (ser_flush self).

Inductive ser_op := WriteByte (b : Z) | WriteBytes (l : list Z).

Fixpoint ser_run (self : RDFSerializer) (ops : list ser_op) : option RDFSerializer :=
  match ops with
  | [] => Some self
  | WriteByte b :: ops' => self' ← iostream_write_byte self b; ser_run self' ops'
  | WriteBytes l :: ops' => self' ← iostream_write_bytes self l; ser_run self' ops'
  end.

Definition ser_bytes (op : ser_op) : list Z :=
  match op with WriteByte b => [u8 b] | WriteBytes l => l end.

(** ** Integers and strings *)

Lemma unle_le8_signed v :
  -9223372036854775808 <= v < 9223372036854775808 -> i64 (unle (le 8 v)) = v.
Proof. intros. rewrite unle_le8, i64_u64. by apply i64_small. Qed.

Lemma XSDInteger_encode_decode v :
  LLONG_MIN <= v <= LLONG_MAX -> XSDInteger_decode (XSDInteger_encode v) = v.
Proof.
  unfold LLONG_MIN, LLONG_MAX. intros Hv.
  unfold XSDInteger_decode, XSDInteger_encode, DataStoreObject_Con. cbn [dso_data].
  rewrite ztake_all by done. rewrite zlen_le. apply unle_le8_signed. lia.
Qed.

Lemma XSDInteger_text v :
  LLONG_MIN <= v <= LLONG_MAX ->
  XSDInteger_parse (XSDInteger_serialise v) = if v <? 0 then LLONG_MAX else v.
Proof.
  intros Hv. unfold LLONG_MIN, LLONG_MAX in Hv. unfold XSDInteger_parse, XSDInteger_serialise.
  rewrite <- (app_nil_r (print_dec _)).
  rewrite strtoll_print_dec by (try apply u64_range; by vm_compute). cbn [fst].
  unfold clamp_ll, u64, LLONG_MIN, LLONG_MAX. destruct (Z.ltb_spec v 0); [|dlia].
  replace (v mod 18446744073709551616) with (v + 18446744073709551616) by dlia. lia.
Qed.

(** Integers survive the data store for every 64-bit value, and survive
    their text form exactly when they are not negative: a negative one is
    printed as unsigned, and reading it back saturates. *)
Theorem XSDInteger_roundtrips v :
  LLONG_MIN <= v <= LLONG_MAX ->
  XSDInteger_decode (XSDInteger_encode v) = v /\
  XSDInteger_parse (XSDInteger_serialise v) = if v <? 0 then LLONG_MAX else v.
Proof. intros Hv. split; [by apply XSDInteger_encode_decode|by apply XSDInteger_text]. Qed.

Lemma XSDInteger_roundtrips_witness :
  XSDInteger_decode (XSDInteger_encode (-1)) = -1 /\
  XSDInteger_parse (XSDInteger_serialise (-1)) = if -1 <? 0 then LLONG_MAX else -1.
Proof. apply (XSDInteger_roundtrips (-1)). vm_compute. intuition congruence. Defined.

(** The constructor of a date multiplies the current time as an [int]: for
    a present-day clock the product overflows and the date is not the current
    time. *)
Theorem XSDDatetime_Con_overflows :
  XSDDatetime_Con 1300000000 <> XSDDatetime_set 1300000000 0.
Proof. vm_compute. discriminate. Qed.

(** The string object that holds a byte string. *)
Definition string_of (s : list Z) : XSDString :=
  {| xs_value := Some (s ++ [0]); xs_length := zlen s |}.

Lemma XSDString_encode_decode s :
  XSDString_decode (XSDString_encode (string_of s)) = string_of s.
Proof.
  assert (ztake (zlen s) (s ++ [0]) = s) as E by by apply ztake_app_eq.
  unfold XSDString_decode, XSDString_encode, string_of. simpl. by rewrite E.
Qed.

Lemma XSDString_text s :
  ascii_string s -> 3 * zlen s <= BUFF_SIZE - 10 ->
  exists e, XSDString_serialise (string_of s) = Some e /\
    XSDString_parse (e ++ [0]) = Some (string_of s).
Proof.
  intros Ha Hb. exists (flat_map escape_char s). unfold XSDString_serialise, string_of.
  cbn [xs_value xs_length]. mred. rewrite escape_filename_text by (done || by right).
  split; [done|]. unfold XSDString_parse. by rewrite unescape_filename_text.
Qed.

(** Strings.  [set] keeps the first [length] bytes; the data store keeps any
    bytes; the text form of an ASCII string reads back as the string. *)
Theorem XSDString_roundtrips s post :
  ascii_string s -> 3 * zlen s <= BUFF_SIZE - 10 ->
  XSDString_set new_XSDString (s ++ 0 :: post) (zlen s) = inr (Some (string_of s)) /\
  XSDString_decode (XSDString_encode (string_of s)) = string_of s /\
  exists e, XSDString_serialise (string_of s) = Some e /\
    XSDString_parse (e ++ [0]) = Some (string_of s).
Proof.
  intros Ha Hb. pose proof (zlen_nonneg s). split_and!.
  - unfold XSDString_set. destruct (Z.ltb_spec (zlen s) 0); [lia|].
    rewrite (proj2 (Z.leb_le (zlen s + 1) _)) by (rewrite zlen_app, zlen_cons; zlen_facts; lia).
    by rewrite ztake_app_eq.
  - apply XSDString_encode_decode.
  - by apply XSDString_text.
Qed.

Lemma XSDString_roundtrips_witness :
  XSDString_set new_XSDString (lit "a:b" ++ 0 :: []) (zlen (lit "a:b")) =
    inr (Some (string_of (lit "a:b"))) /\
  XSDString_decode (XSDString_encode (string_of (lit "a:b"))) = string_of (lit "a:b") /\
  exists e, XSDString_serialise (string_of (lit "a:b")) = Some e /\
    XSDString_parse (e ++ [0]) = Some (string_of (lit "a:b")).
Proof.
  apply (XSDString_roundtrips (lit "a:b") []).
  - repeat (constructor; [split; vm_compute; congruence|]). constructor.
  - vm_compute. congruence.
Defined.

(** ** URNs *)

(** A URN as [RDFURN_set] leaves it: its parts can be parsed, and its text is
    theirs; [n] bounds the size of the parts. *)
Definition urn_ok (n : Z) (r : RDFURN) : Prop :=
  exists p, urn_parser r = Some p /\ urn_value r = URLParse_string p /\
    parts_ok p /\ cstring (URLParse_string p) /\ parts_len p <= n.

Lemma forallb_cstring st l : bytes_ok l -> forallb (plain st) l = true -> cstring l.
Proof. apply plain_cstring. Qed.

(** Every byte of the parts is one of the URL's. *)
Lemma split_url_bytes u : cstring u ->
  cstring (scheme (split_url u)) /\ cstring (netloc (split_url u)) /\
  cstring (query (split_url u)) /\ cstring (fragment (split_url u)).
Proof.
  assert (forall P l, cstring l -> cstring (span P l).1 /\ cstring (span P l).2) as Hsp.
  { intros P l Hl. pose proof (span_spec P l) as H. destruct (span P l) as [a b].
    destruct H as (-> & _). by apply cstring_app in Hl. }
  assert (forall l : list Z, cstring l -> cstring (tl l)) as Htl
    by (intros [|c l] Hl; [done|by apply Forall_cons in Hl as [_ ?]]).
  assert (forall p b r, cstring (scheme p) -> cstring (netloc p) -> cstring b -> cstring r ->
    cstring (scheme (split_query p b r)) /\ cstring (netloc (split_query p b r)) /\
    cstring (query (split_query p b r)) /\ cstring (fragment (split_query p b r))) as Hsq.
  { intros p b r Hs Hn Hb Hr. unfold split_query. destruct (Hsp (plain STATE_QUERY) r Hr).
    destruct (span _ r) as [q r']. simpl in *. split_and!; auto. by apply cstring_app. }
  assert (cstring []) as H0 by constructor.
  intros Hu. unfold split_url. destruct (Hsp (plain STATE_METHOD) u Hu) as [Hm Hr].
  destruct (span (plain STATE_METHOD) u) as [m r]. simpl in Hm, Hr.
  destruct r as [|c r]; [by simpl|].
  destruct (c =? c2z ":"); [|by apply Hsq].
  apply Forall_cons in Hr as [_ Hr]. destruct r as [|c1 r1]; [by simpl|].
  apply Forall_cons in Hr as [_ Hr]. destruct (_ && _); [|by apply Hsq].
  destruct (Hsp (plain STATE_NETLOCK) (tl r1)) as [Hn Hr2]; [by apply Htl|].
  destruct (span (plain STATE_NETLOCK) (tl r1)) as [n r2]. simpl in Hn, Hr2.
  case_bool_decide; [by simpl|by apply Hsq].
Qed.

Lemma collapse_cstring q : cstring q -> cstring (collapse_path q).
Proof.
  intros Hq. unfold collapse_path.
  assert (forall path e, cstring e -> Forall cstring path ->
    Forall cstring (push_element path e)) as Hp.
  { intros path e He Hpa. unfold push_element. repeat case_bool_decide; try done.
    - destruct path as [|x path] using rev_ind; [done|].
      rewrite removelast_last. by apply Forall_app in Hpa as [? _].
    - apply Forall_app. split; [done|]. by repeat constructor. }
  assert (forall l cur path, cstring l -> cstring cur -> Forall cstring path ->
    Forall cstring (split_path l cur path)) as H.
  { induction l as [|c l IH]; intros cur path Hl Hc Hpa; simpl; [by apply Hp|].
    apply Forall_cons in Hl as [Hc' Hl]. destruct (c =? c2z "/").
    - apply IH; [done|constructor|by apply Hp].
    - apply IH; [done| |done]. apply cstring_app. split; [done|].
      constructor; [done|constructor]. }
  specialize (H q [] [] Hq ltac:(constructor) ltac:(constructor)).
  induction H as [|e es He Hes IH]; [constructor|]. simpl.
  constructor; [vm_compute; intuition congruence|]. by apply cstring_app.
Qed.

Lemma string_cstring p :
  cstring (scheme p) -> cstring (netloc p) -> cstring (query p) -> cstring (fragment p) ->
  cstring (URLParse_string p).
Proof.
  intros Hs Hn Hq Hf. rewrite URLParse_string_text, !cstring_app. split_and!.
  - unfold scheme_of. case_bool_decide; [|done].
    repeat (constructor; [vm_compute; intuition congruence|]). constructor.
  - repeat (constructor; [vm_compute; intuition congruence|]). constructor.
  - done.
  - by apply collapse_cstring.
  - unfold fragment_text. case_bool_decide; [constructor|].
    constructor; [vm_compute; intuition congruence|done].
Qed.

Lemma RDFURN_set_ok self u :
  cstring u -> zlen u < BUFF_SIZE ->
  exists r, RDFURN_set self (Some u) = Some r /\ urn_ok (zlen u) r /\
    urn_value r = URLParse_string (split_url u).
Proof.
  intros Hu Hl. unfold RDFURN_set. rewrite URLParse_parse_split by done. mred.
  eexists; split; [done|]. split; [|done]. exists (split_url u). split_and!; try done.
  - by apply split_url_ok.
  - destruct (split_url_bytes u Hu) as (? & ? & ? & ?). by apply string_cstring.
  - apply split_url_len.
Qed.

(** Setting a URN to the text of another gives the same text. *)
Lemma RDFURN_set_value n r self :
  urn_ok n r -> n + 9 < BUFF_SIZE ->
  exists r', RDFURN_set self (Some (urn_value r)) = Some r' /\ urn_value r' = urn_value r /\
    urn_ok (n + 9) r'.
Proof.
  intros (p & _ & Hv & Hok & Hc & Hl) Hn. rewrite Hv. pose proof (string_len p).
  destruct (RDFURN_set_ok self (URLParse_string p) Hc) as (r' & Hs & Hok' & Hv'); [lia|].
  exists r'. split; [done|]. split.
  - rewrite Hv', split_url_string by done. by apply string_normal_parts.
  - destruct Hok' as (p' & ? & ? & ? & ? & ?). exists p'. split_and!; try done. lia.
Qed.

Lemma RDFURN_encode_decode n r :
  urn_ok n r -> n + 9 < BUFF_SIZE ->
  exists r', RDFURN_decode RDFURN_Con (RDFURN_encode r) = Some r' /\ urn_value r' = urn_value r.
Proof.
  intros Hok Hn. destruct (RDFURN_set_value _ r RDFURN_Con Hok) as (r' & Hs' & Hv' & _); [lia|].
  exists r'. split; [|done]. unfold RDFURN_decode.
  assert (dso_data (RDFURN_encode r) = urn_value r ++ [0]) as ->.
  { unfold RDFURN_encode, DataStoreObject_Con. cbn [dso_data]. apply ztake_all. wlen. }
  rewrite bput_ok by wlen. mred.
  replace (zover (zlen (urn_value r ++ [0]) - 1) [0] (urn_value r ++ [0]))
    with (urn_value r ++ [0] ++ []) by (symmetry; apply (zover_mid _ _ _ [0]); wlen).
  destruct Hok as (p & _ & Hv & _ & Hc & _).
  change (urn_value r ++ [0] ++ []) with (urn_value r ++ 0 :: []).
  by rewrite cstr_app_nul by (by rewrite Hv).
Qed.

(** C39: URNs are in normal form.  Whatever URL of less than BUFF_SIZE - 9 bytes a URN is set
    to, copying the URN, parsing its text again, or encoding it for the data store and
    decoding it gives a URN with the same text.  The bound is the parser's: nothing checks
    that a URL fits its buffer on the stack ([URLParse_parse_overflows]). *)
Theorem RDFURN_normal_form u :
  cstring u -> zlen u + 9 < BUFF_SIZE ->
  exists r, RDFURN_set RDFURN_Con (Some u) = Some r /\
    urn_value <$> RDFURN_copy r = Some (urn_value r) /\
    urn_value <$> RDFURN_parse RDFURN_Con (RDFURN_serialise r) = Some (urn_value r) /\
    urn_value <$> RDFURN_decode RDFURN_Con (RDFURN_encode r) = Some (urn_value r).
Proof.
  intros Hu Hl. destruct (RDFURN_set_ok RDFURN_Con u Hu) as (r & Hs & Hok & _); [lia|].
  destruct (RDFURN_set_value _ r RDFURN_Con Hok) as (r' & Hs' & Hv' & _); [lia|].
  destruct (RDFURN_encode_decode _ r Hok) as (r2 & Hd & Hv2); [lia|].
  exists r. split; [done|]. unfold RDFURN_copy, RDFURN_parse, RDFURN_serialise.
  rewrite Hs', Hd. cbn. by rewrite Hv', Hv2.
Qed.

Lemma RDFURN_normal_form_witness :
  exists r, RDFURN_set RDFURN_Con (Some (lit "http://h/a/../b/./c#d")) = Some r /\
    urn_value <$> RDFURN_copy r = Some (urn_value r) /\
    urn_value <$> RDFURN_parse RDFURN_Con (RDFURN_serialise r) = Some (urn_value r) /\
    urn_value <$> RDFURN_decode RDFURN_Con (RDFURN_encode r) = Some (urn_value r).
Proof.
  apply (RDFURN_normal_form (lit "http://h/a/../b/./c#d")).
  - repeat (constructor; [split; vm_compute; congruence|]). constructor.
  - vm_compute. reflexivity.
Defined.

Lemma split_path_slash q t cur path :
  split_path (q ++ c2z "/" :: t) cur path = split_path t [] (split_path q cur path).
Proof.
  revert cur path. induction q as [|c q IH]; intros cur path.
  - cbn [app split_path]. by rewrite Z.eqb_refl.
  - cbn [app split_path]. destruct (c =? c2z "/"); apply IH.
Qed.

(** A name that is a single element of a path. *)
Definition simple_name (name : list Z) : Prop :=
  good_element name /\ forallb (plain STATE_METHOD) name = true.

#[export] Instance simple_name_dec name : Decision (simple_name name).
Proof. unfold simple_name. apply _. Defined.

Lemma split_url_simple name :
  simple_name name ->
  split_url name = {| scheme := []; netloc := []; query := name; fragment := [] |}.
Proof.
  intros [_ Hp]. unfold split_url. rewrite <- (app_nil_r name) at 1.
  by rewrite span_app by (done || by left).
Qed.

Lemma collapse_snoc q name :
  good_element name ->
  collapse_path (q ++ (if zlen q =? 0 then [] else lit "/") ++ name) =
    collapse_path q ++ c2z "/" :: name.
Proof.
  intros Hg. unfold collapse_path.
  assert (forall path, split_path name [] path = path ++ [name]) as Hn.
  { intros path. rewrite <- (app_nil_r name) at 1. rewrite split_path_run by apply Hg.
    by apply push_good. }
  destruct q as [|c q].
  - simpl. rewrite Hn. simpl. by rewrite app_nil_r.
  - assert ((zlen (c :: q) =? 0) = false) as -> by (rewrite zlen_cons; zlen_facts; lia).
    change (lit "/" ++ name) with (c2z "/" :: name). rewrite split_path_slash, Hn.
    rewrite join_path_app. simpl join_path at 2. by rewrite app_nil_r.
Qed.

(** A URN whose text is that of its parts, without a fragment. *)
Definition urn_plain (n : Z) (r : RDFURN) : Prop :=
  urn_ok n r /\ fragment <$> urn_parser r = Some [].

Lemma RDFURN_add_simple n r name :
  urn_plain n r -> cstring name -> zlen name < BUFF_SIZE -> simple_name name ->
  exists r', RDFURN_add r name = Some r' /\ urn_value r' = urn_value r ++ lit "/" ++ name /\
    urn_plain (n + zlen name + 1) r'.
Proof.
  intros [(p & Hp & Hv & Hok & Hc & Hl) Hf] Hn Hnl Hs. rewrite Hp in Hf. injection Hf as Hf.
  unfold RDFURN_add. rewrite URLParse_parse_split by done. mred.
  rewrite split_url_simple by done. cbn [scheme query fragment].
  change (0 <? zlen (@nil Z)) with false. cbv iota. rewrite Hp. mred. rewrite Hf.
  set (p' := {| scheme := _; netloc := _; query := _; fragment := _ |}).
  assert (URLParse_string p' = urn_value r ++ lit "/" ++ name) as Hv'.
  { rewrite Hv, !URLParse_string_text. cbn [p' netloc query fragment].
    rewrite Hf. change (fragment_text ([] ++ [])) with (@nil Z).
    change (fragment_text []) with (@nil Z). rewrite !app_nil_r.
    rewrite collapse_snoc by apply Hs. unfold scheme_of. cbn [scheme p'].
    by rewrite <- !app_assoc. }
  eexists. split; [reflexivity|]. cbn [urn_value urn_parser]. split; [done|].
  split; [|done]. exists p'. split_and!; try done.
  - destruct Hok as [H1 H2 H3 _]. split; cbn [p' scheme netloc query fragment]; try done; [|constructor].
    rewrite !forallb_app, H3. cbn [andb].
    rewrite (plain_query_of_method name) by apply Hs. by destruct (zlen (query p) =? 0).
  - rewrite Hv', cstring_app, cstring_app. split_and!; [by rewrite Hv| |done].
    repeat constructor; vm_compute; congruence.
  - unfold parts_len in *. cbn [p' scheme netloc query fragment]. rewrite !zlen_app, Hf in *.
    assert (zlen (if zlen (query p) =? 0 then [] else lit "/") <= 1) by (by case_bool).
    change (zlen (@nil Z)) with 0 in *. lia.
Qed.

(** The text of such a URN survives a copy. *)
Lemma urn_plain_copy n r :
  urn_plain n r -> n + 9 < BUFF_SIZE ->
  exists r', RDFURN_copy r = Some r' /\ urn_value r' = urn_value r /\ urn_plain (n + 9) r'.
Proof.
  intros [Hok Hf] Hn. pose proof Hok as (p & Hp & Hv & Hpo & Hc & Hl).
  destruct (RDFURN_set_value n r RDFURN_Con Hok Hn) as (r' & Hs & Hv' & Hok').
  exists r'. split_and!; try done. split; [done|]. unfold RDFURN_set in Hs. rewrite Hv in Hs.
  pose proof (string_len p).
  rewrite URLParse_parse_split, split_url_string in Hs by (done || lia). cbn in Hs.
  injection Hs as <-. cbn. by rewrite Hp in Hf.
Qed.

Lemma RDFURN_set_plain self u :
  cstring u -> zlen u < BUFF_SIZE -> fragment (split_url u) = [] ->
  exists r, RDFURN_set self (Some u) = Some r /\ urn_plain (zlen u) r.
Proof.
  intros Hu Hl Hf. destruct (RDFURN_set_ok self u Hu Hl) as (r & Hs & Hok & _).
  exists r. split; [done|]. split; [done|]. unfold RDFURN_set in Hs.
  rewrite URLParse_parse_split in Hs by done. cbn in Hs. injection Hs as <-. cbn. by rewrite Hf.
Qed.

(** The name of a URN below another one. *)
Lemma relative_name_app r vol x :
  urn_value r = urn_value vol ++ x -> RDFURN_relative_name r vol = x.
Proof.
  intros Hv. unfold RDFURN_relative_name, startswith. rewrite Hv.
  destruct (Z.ltb_spec (zlen (urn_value vol ++ x)) (zlen (urn_value vol)));
    [rewrite zlen_app in *; zlen_facts; lia|].
  rewrite ztake_app_eq, zdrop_app_eq, bool_decide_eq_true_2 by done. done.
Qed.

(** Adding a name to a URN.  A simple relative name becomes the last element of
    the URN's path, and [relative_name] against the original URN gives it back;
    an absolute URL replaces the URN. *)
Theorem RDFURN_add_name u name :
  cstring u -> zlen u < BUFF_SIZE -> cstring name -> zlen name < BUFF_SIZE ->
  simple_name name -> fragment (split_url u) = [] ->
  exists r r', RDFURN_set RDFURN_Con (Some u) = Some r /\ RDFURN_add r name = Some r' /\
    urn_value r' = urn_value r ++ lit "/" ++ name /\
    RDFURN_relative_name r' r = lit "/" ++ name /\
    (forall v, cstring v -> zlen v < BUFF_SIZE -> scheme (split_url v) <> [] ->
       urn_value <$> RDFURN_add r v = Some (URLParse_string (split_url v))).
Proof.
  intros Hu Hul Hn Hnl Hs Hf.
  destruct (RDFURN_set_plain RDFURN_Con u Hu Hul Hf) as (r & Hr & Hp).
  destruct (RDFURN_add_simple _ r name Hp Hn Hnl Hs) as (r' & Hr' & Hv & _).
  exists r, r'. split_and!; try done.
  - by apply relative_name_app.
  - intros v Hcv Hlv Hsv. unfold RDFURN_add. rewrite URLParse_parse_split by done. mred.
    destruct (scheme (split_url v)) as [|c l] eqn:E; [done|].
    rewrite (proj2 (Z.ltb_lt 0 _)) by (rewrite zlen_cons; zlen_facts; lia). done.
Qed.

Lemma RDFURN_add_name_witness :
  exists r r', RDFURN_set RDFURN_Con (Some (lit "aff4://vol")) = Some r /\
    RDFURN_add r (lit "index") = Some r' /\
    urn_value r' = urn_value r ++ lit "/" ++ lit "index" /\
    RDFURN_relative_name r' r = lit "/" ++ lit "index" /\
    (forall v, cstring v -> zlen v < BUFF_SIZE -> scheme (split_url v) <> [] ->
       urn_value <$> RDFURN_add r v = Some (URLParse_string (split_url v))).
Proof.
  apply (RDFURN_add_name (lit "aff4://vol") (lit "index")).
  - repeat (constructor; [split; vm_compute; congruence|]). constructor.
  - vm_compute. reflexivity.
  - repeat (constructor; [split; vm_compute; congruence|]). constructor.
  - vm_compute. reflexivity.
  - apply (bool_decide_unpack _). vm_compute. exact I.
  - vm_compute. reflexivity.
Defined.

(** ** The registry *)

Lemma dataType_inj c c' : registry_key c = registry_key c' -> c = c'.
Proof. destruct c, c'; (done || vm_compute; discriminate). Qed.

(** A registry: a cache without a bound in which each class has at most its own
    entry. *)
Record registry_ok (r : Cache rdf_class) : Prop := {
  reg_wf : cache_wf r;
  reg_max : max_cache_size r = 0;
  reg_entries c : entries r (registry_key c) = [] \/ entries r (registry_key c) = [Some c]
}.

Definition registered (r : Cache rdf_class) (c : rdf_class) : Prop :=
  entries r (registry_key c) = [Some c].

(** Registering a value class.  Whatever was registered before, afterwards the
    class is registered once, also when it already was, every other class is
    registered exactly when it was before, and [new_rdfvalue] makes a value of
    the class from its data type. *)
Theorem register_rdf_value_class_once r c now :
  registry_ok r ->
  exists r', register_rdf_value_class (Some r) c = Some r' /\ registry_ok r' /\
    registered r' c /\ (forall c', c' <> c -> registered r' c' <-> registered r c') /\
    new_rdfvalue r' (dataType c) now = Some (construct c now).
Proof.
  intros [Hw Hm He]. unfold register_rdf_value_class.
  change (default (Cache_Con 100 0) (Some r)) with r. cbv zeta.
  rewrite Cache_present_entries. unfold registered, new_rdfvalue.
  fold (registry_key c).
  destruct (He c) as [Hc|Hc]; rewrite Hc.
  - rewrite bool_decide_eq_true_2 by done. cbn [negb].
    rewrite cache_put_unbounded by done.
    assert (forall c', entries (cache_link r (registry_key c) (Some c)) (registry_key c') =
      entries r (registry_key c') ++ if decide (c = c') then [Some c] else []) as Hl.
    { intros c'. rewrite entries_link by done. f_equal.
      destruct (decide (c = c')) as [->|Hne]; [by rewrite decide_True|].
      rewrite decide_False; [done|]. by intros E%dataType_inj. }
    eexists. split; [done|]. split; [|split_and!].
    + split; [by apply wf_link|done|]. intros c'. rewrite Hl.
      destruct (decide (c = c')) as [<-|]; [rewrite Hc; by right|]. rewrite app_nil_r. apply He.
    + by rewrite Hl, Hc, decide_True.
    + intros c' Hne. rewrite Hl, decide_False, app_nil_r by congruence. done.
    + rewrite Cache_borrow_entries, Hl, Hc, decide_True by done. done.
  - rewrite bool_decide_eq_false_2 by done. cbn [negb]. exists r. split_and!; try done.
    rewrite Cache_borrow_entries, Hc. done.
Qed.

Lemma registry_empty_ok : registry_ok (Cache_Con 100 0).
Proof. split; [by apply Cache_Con_wf|done|by left]. Qed.

Lemma register_rdf_value_class_once_witness :
  exists r', register_rdf_value_class (Some (Cache_Con 100 0)) CURN = Some r' /\
    registry_ok r' /\ registered r' CURN /\
    (forall c', c' <> CURN -> registered r' c' <-> registered (Cache_Con 100 0) c') /\
    new_rdfvalue r' (dataType CURN) 0 = Some (construct CURN 0).
Proof. exact (register_rdf_value_class_once (Cache_Con 100 0) CURN 0 registry_empty_ok). Defined.

(** ** The output buffer *)

Definition ser_ok (self : RDFSerializer) : Prop :=
  zlen (ser_buff self) = BUFF_SIZE * 2 /\ 0 <= ser_i self <= BUFF_SIZE.

Lemma ser_flush_ok self : ser_ok self -> ser_ok (ser_flush self).
Proof. intros [Hz Hi]. split; [done|]. simpl. unfold BUFF_SIZE. lia. Qed.

Lemma ser_flush_close self : RDFSerializer_close (ser_flush self) = RDFSerializer_close self.
Proof.
  unfold RDFSerializer_close, ser_flush. simpl. rewrite (ztake_0 0) by lia. apply app_nil_r.
Qed.

(** Storing bytes in the buffer appends them to what closing will have written. *)
Lemma ser_store self l :
  ser_ok self -> ser_i self + zlen l <= BUFF_SIZE + 1 ->
  exists b, bput (ser_buff self) (ser_i self) l = Some b /\ zlen b = BUFF_SIZE * 2 /\
    RDFSerializer_close {| ser_buff := b; ser_i := ser_i self + zlen l; ser_fd := ser_fd self |}
    = RDFSerializer_close self ++ l.
Proof.
  intros [Hz Hi] Hl. unfold BUFF_SIZE in *. pose proof (zlen_nonneg l).
  rewrite bput_ok by lia. eexists; split; [done|].
  split; [rewrite zlen_zover; lia|]. unfold RDFSerializer_close, ser_flush. simpl.
  rewrite <- (ztake_zdrop (ser_i self) (ser_buff self)) at 1.
  rewrite ztake_zover_prefix by (rewrite ?zlen_ztake; lia).
  rewrite (ztake_all (zlen l)) by lia. by rewrite app_assoc.
Qed.

Lemma write_bytes_loop_spec fuel self src :
  ser_ok self -> (2 * length src + (if (ser_i self =? BUFF_SIZE)%Z then 1 else 0) <= fuel)%nat ->
  exists self', write_bytes_loop fuel self src = Some self' /\ ser_ok self' /\
    RDFSerializer_close self' = RDFSerializer_close self ++ src.
Proof.
  revert self src. induction fuel as [|fuel IH]; intros self src Hok Hf.
  { destruct src; [|simpl in Hf; lia]. exists self. by rewrite app_nil_r. }
  cbn [write_bytes_loop]. destruct (Z.ltb_spec 0 (zlen src)) as [Hs|Hs].
  2: { rewrite (zlen_0_nil src) by (pose proof (zlen_nonneg src); lia).
       exists self. by rewrite app_nil_r. }
  pose proof Hok as [Hz Hi]. rewrite u32_small by (unfold BUFF_SIZE in *; lia).
  destruct (Z.leb_spec (Z.min (zlen src) (BUFF_SIZE - ser_i self)) 0) as [Ha|Ha].
  - assert (ser_i self = BUFF_SIZE) as E by lia. rewrite E in Hf.
    destruct (IH (ser_flush self) src) as (s' & Hw & Hok' & Hc);
      [by apply ser_flush_ok|simpl in *; lia|].
    exists s'. rewrite ser_flush_close in Hc. done.
  - set (a := Z.min _ _) in *.
    assert (zlen (ztake a src) = a) as Hza by (rewrite zlen_ztake; lia).
    destruct (ser_store self (ztake a src) Hok) as (b & -> & Hzb & Hcb); [lia|]. mred.
    rewrite Hza in Hcb.
    destruct (IH {| ser_buff := b; ser_i := ser_i self + a; ser_fd := ser_fd self |} (zdrop a src))
      as (s' & Hw & Hok' & Hc).
    + unfold ser_ok. simpl. lia.
    + unfold zdrop. rewrite length_drop. unfold zlen in *. simpl ser_i.
      repeat case_bool; lia.
    + exists s'. split; [done|]. split; [done|].
      by rewrite Hc, Hcb, <- app_assoc, ztake_zdrop.
Qed.

(** The serialiser's buffered output.  Whatever sequence of single bytes and
    runs of bytes is written, no write leaves the buffer, and the file has, once
    the serialiser is closed, exactly the bytes written, in order, after what it
    had before. *)
Theorem RDFSerializer_output ops fd :
  exists self, ser_run (RDFSerializer_Con fd) ops = Some self /\
    RDFSerializer_close self = fd ++ flat_map ser_bytes ops.
Proof.
  assert (forall ops self, ser_ok self -> exists self', ser_run self ops = Some self' /\
    RDFSerializer_close self' = RDFSerializer_close self ++ flat_map ser_bytes ops) as H.
  { clear. induction ops as [|op ops IH]; intros self Hok.
    { exists self. by rewrite app_nil_r. }
    destruct op as [b|l]; cbn [ser_run flat_map ser_bytes].
    - destruct (ser_store self [u8 b] Hok) as (b' & Hb & Hz & Hc);
        [destruct Hok; zlen_lia|].
      unfold iostream_write_byte. rewrite Hb. mred.
      change (zlen [u8 b]) with 1 in Hc. set (s1 := {| ser_buff := b'; ser_i := _; ser_fd := _ |}) in *.
      destruct Hok as [_ Hi]. unfold BUFF_SIZE in *.
      destruct (Z.geb_spec (ser_i s1) 40960) as [Hg|Hg].
      + destruct (IH (ser_flush s1)) as (s2 & Hr & Hc2).
        { unfold ser_ok, BUFF_SIZE. simpl. lia. }
        exists s2. split; [done|]. rewrite Hc2, ser_flush_close, Hc. by rewrite <- app_assoc.
      + destruct (IH s1) as (s2 & Hr & Hc2).
        { unfold ser_ok, BUFF_SIZE. subst s1. simpl in *. lia. }
        exists s2. split; [done|]. rewrite Hc2, Hc. by rewrite <- app_assoc.
    - unfold iostream_write_bytes. pose proof Hok as [_ Hi].
      destruct (Z.gtb_spec (ser_i self) BUFF_SIZE); [lia|].
      destruct (write_bytes_loop_spec (2 * length l + 2) self l Hok)
        as (s1 & -> & Hok1 & Hc1); [case_bool; lia|]. mred.
      destruct (IH s1 Hok1) as (s2 & Hr & Hc2). exists s2. split; [done|].
      by rewrite Hc2, Hc1, <- app_assoc. }
  destruct (H ops (RDFSerializer_Con fd)) as (s & Hr & Hc).
  { unfold ser_ok, RDFSerializer_Con. cbn [ser_buff ser_i]. rewrite zlen_replicate.
    unfold BUFF_SIZE. lia. }
  exists s. split; [done|]. rewrite Hc. f_equal.
  change (fd ++ ztake 0 (ser_buff (RDFSerializer_Con fd)) = fd).
  rewrite (ztake_0 0) by lia. apply app_nil_r.
Qed.
