(* ===== verification/File.v ===== *)
(** * File: file-like objects (lib/file.c)

    [FileLike] is the interface the volumes and images use: a file-like object
    has contents and a position.  [FileBackedObject] implements it on a POSIX
    file, which has an offset of its own next to the object's [readptr].
    Regular files: a read delivers everything up to the end of the file, a write
    is complete or fails. *)
From S2P Require Import Prelude Url Rdf.

(** ** POSIX files *)

Record posix_file := { pf_data : list Z; pf_off : Z; pf_writable : bool }.

(** [None] is the result -1: the offset would be negative. *)
Definition posix_lseek (f : posix_file) (offset : Z) (w : whence)
  : option (Z * posix_file) :=
  let to n := if n <? 0 then None
              else Some (n, {| pf_data := pf_data f; pf_off := n;
                               pf_writable := pf_writable f |}) in
  match w with
  | SEEK_SET => to offset
  | SEEK_CUR => to (pf_off f + offset)
  | SEEK_END => to (zlen (pf_data f) + offset)
  | SEEK_OTHER => None
  end.

Definition posix_read (f : posix_file) (n : Z) : list Z * posix_file :=
  let bytes := zread (pf_off f) n (pf_data f) in
  (bytes, {| pf_data := pf_data f; pf_off := pf_off f + zlen bytes;
             pf_writable := pf_writable f |}).

(** A write past the end of the file leaves a hole of zeros. *)
Definition fill_to (n : Z) (l : list Z) : list Z :=
  l ++ replicate (Z.to_nat (n - zlen l)) 0.

Definition posix_write (f : posix_file) (bytes : list Z) : option posix_file :=
  if pf_writable f then
    Some {| pf_data := zover (pf_off f) bytes (fill_to (pf_off f) (pf_data f));
            pf_off := pf_off f + zlen bytes; pf_writable := true |}
  else None.

Definition posix_ftruncate (f : posix_file) (n : Z) : posix_file :=
  if pf_writable f then
    {| pf_data := ztake n (fill_to n (pf_data f)); pf_off := pf_off f; pf_writable := true |}
  else f.

(** ** AFFObject: the URN every object carries *)

Definition FQN : list Z := lit "aff4://".

(** The URN an object is constructed with. *)
Definition AFFObject_Con (uri : option RDFURN) : option RDFURN :=
  match uri with
  | Some u => RDFURN_copy u
  | None => Some RDFURN_Con
  end.

(** An object without a URN gets an anonymous one; [uuid] is the text of
    [uuid_generate]. *)
Definition AFFObject_finish (uuid : list Z) (urn : RDFURN) : option RDFURN :=
  match urn_parser urn with
  | None => RDFURN_set urn (Some (FQN ++ uuid))
  | Some _ => Some urn
  end.

(** ** FileBackedObject *)

Record FileBackedObject := { fb_readptr : Z; fb_file : posix_file }.

(** The files of the system, by path; [mode] is [true] for writing.  The check is for a NULL
    parser, which no URN has; the parser of a URN that was never set has a NULL scheme,
    which [strlen] follows: [None]. *)
Definition FileBackedObject_AFFObject_finish (fs : gmap (list Z) (list Z)) (urn : RDFURN)
    (write_mode : bool) : option (aff4_error + FileBackedObject * gmap (list Z) (list Z)) :=
  p ← urn_parser urn;
  if (0 <? zlen (scheme p)) && negb (bool_decide (scheme p = lit "file"))
  then Some (inl ERuntimeError)
  else
    let file data := {| fb_readptr := 0;
                        fb_file := {| pf_data := data; pf_off := 0;
                                      pf_writable := write_mode |} |} in
    match fs !! query p with
    | Some data => Some (inr (file data, fs))
    | None => if write_mode then Some (inr (file [], <[query p := []]> fs))
              else Some (inl EIOError)
    end.

(** [resolve(AFF4_SIZE)]: the size, found by seeking to the end. *)
Definition FileBackedObject_resolve_size (self : FileBackedObject)
  : Z * FileBackedObject :=
  match posix_lseek (fb_file self) 0 SEEK_END with
  | Some (n, f) => (n, {| fb_readptr := fb_readptr self; fb_file := f |})
  | None => (-1, self)
  end.

(** [lseek(fd, readptr, SEEK_SET)] with the result ignored. *)
Definition fb_sync (self : FileBackedObject) : posix_file :=
  match posix_lseek (fb_file self) (fb_readptr self) SEEK_SET with
  | Some (_, f) => f
  | None => fb_file self
  end.

Definition FileBackedObject_read (self : FileBackedObject) (length : Z)
  : list Z * FileBackedObject :=
  let '(bytes, f) := posix_read (fb_sync self) length in
  (bytes, {| fb_readptr := fb_readptr self + zlen bytes; fb_file := f |}).

(** The result, the error raised, the object. *)
Definition FileBackedObject_write (self : FileBackedObject) (buffer : list Z)
  : Z * option aff4_error * FileBackedObject :=
  if zlen buffer =? 0 then (0, None, self)
  else
    match posix_write (fb_sync self) buffer with
    | Some f => (zlen buffer, None,
                 {| fb_readptr := fb_readptr self + zlen buffer; fb_file := f |})
    | None => (-1, Some EIOError,
               {| fb_readptr := fb_readptr self + -1; fb_file := fb_sync self |})
    end.

Definition FileBackedObject_seek (self : FileBackedObject) (offset : Z) (w : whence)
  : Z * FileBackedObject :=
  match posix_lseek (fb_file self) offset w with
  | Some (n, f) => (n, {| fb_readptr := n; fb_file := f |})
  | None => (0, {| fb_readptr := 0; fb_file := fb_file self |})
  end.

(** [FileLikeObject_truncate]: the position of any file-like object. *)
Definition FileLikeObject_truncate (readptr offset : Z) : Z := Z.min offset readptr.

Definition FileBackedObject_truncate (self : FileBackedObject) (offset : Z)
  : FileBackedObject :=
  {| fb_readptr := FileLikeObject_truncate (fb_readptr self) offset;
     fb_file := posix_ftruncate (fb_file self) offset |}.

Definition FileLikeObject_tell (self : FileBackedObject) : Z := fb_readptr self.

(** ** What every file-like object inherits *)

(** [FileLikeObject_seek] of an object whose size attribute is [size]. *)
Definition FileLikeObject_seek (readptr size offset : Z) (w : whence) : Z :=
  let readptr :=
    match w with
    | SEEK_SET => offset
    | SEEK_CUR => let r := i64 (readptr + offset) in if r <? 0 then 0 else r
    | SEEK_END => i64 (size + offset)
    | SEEK_OTHER => readptr
    end in
  if readptr <? 0 then 0 else readptr.

(** The search of [FileLikeObject_readline] in the bytes read: the index of the
    line's end and the length of the line break. *)
Fixpoint find_line (l : list Z) (i : Z) : option (Z * Z) :=
  match l with
  | c :: ((d :: _) as l') =>
      if c =? 13 then if d =? 10 then Some (i, 2) else find_line l' (i + 1)
      else if c =? 10 then Some (i, 1)
      else find_line l' (i + 1)
  | _ => None
  end.

(** Result, the buffer's bytes, and the object. *)
Definition FileLikeObject_readline (self : FileBackedObject) (length : Z)
  : Z * list Z * FileBackedObject :=
  let offset := fb_readptr self in
  let '(buffer, self') := FileBackedObject_read self length in
  match find_line buffer 0 with
  | Some (i, n) =>
      (i, zover i [0] buffer,
       {| fb_readptr := offset + i + n; fb_file := fb_file self' |})
  | None => (zlen buffer, buffer, self')
  end.

Definition MAX_CACHED_FILESIZE : Z := 1000000.

(** [FileLikeObject_get_data]: the whole file, in a buffer with room to spare. *)
Definition FileLikeObject_get_data (self : FileBackedObject)
  : option XSDString * FileBackedObject :=
  let '(size, self) := FileBackedObject_resolve_size self in
  if size >? MAX_CACHED_FILESIZE then (None, self)
  else
    let '(_, self) := FileBackedObject_seek self 0 SEEK_SET in
    let '(bytes, self) := FileBackedObject_read self size in
    (Some {| xs_value := Some (zover 0 bytes
                           (replicate (Z.to_nat (size + BUFF_SIZE)) 0));
             xs_length := size |}, self).

(** ** The interface *)

Class FileLike (F : Type) := {
  fl_ok : F -> Prop;
  fl_contents : F -> list Z;
  fl_pos : F -> Z;
  fl_read : F -> Z -> list Z * F;
  fl_write : F -> list Z -> Z * option aff4_error * F;
  fl_seek : F -> Z -> whence -> Z * F;
  fl_truncate : F -> Z -> F
}.

(** The object is the same but for its contents and position. *)
Definition fl_at `{FileLike F} (f : F) (c : list Z) (p : Z) : Prop :=
  fl_ok f /\ fl_contents f = c /\ fl_pos f = p.

Class FileLikeLaws (F : Type) `{FileLike F} := {
  fl_pos_nonneg f : fl_ok f -> 0 <= fl_pos f;
  fl_read_law f n : fl_ok f -> 0 <= n ->
    let r := zread (fl_pos f) n (fl_contents f) in
    exists f', fl_read f n = (r, f') /\ fl_at f' (fl_contents f) (fl_pos f + zlen r);
  fl_write_law f b : fl_ok f -> fl_pos f <= zlen (fl_contents f) ->
    exists f', fl_write f b = (zlen b, None, f') /\
      fl_at f' (zover (fl_pos f) b (fl_contents f)) (fl_pos f + zlen b);
  fl_seek_set_law f n : fl_ok f -> 0 <= n ->
    exists f', fl_seek f n SEEK_SET = (n, f') /\ fl_at f' (fl_contents f) n;
  fl_seek_end_law f n : fl_ok f ->
    let p := Z.max 0 (zlen (fl_contents f) + n) in
    exists f', fl_seek f n SEEK_END = (p, f') /\ fl_at f' (fl_contents f) p;
  fl_truncate_law f n : fl_ok f -> 0 <= n <= zlen (fl_contents f) ->
    fl_at (fl_truncate f n) (ztake n (fl_contents f)) (Z.min n (fl_pos f))
}.

(** A file opened for writing, with a position that is not negative. *)
#[export] Instance FileBackedObject_ops : FileLike FileBackedObject := {
  fl_ok f := 0 <= fb_readptr f /\ pf_writable (fb_file f) = true;
  fl_contents f := pf_data (fb_file f);
  fl_pos := fb_readptr;
  fl_read := FileBackedObject_read;
  fl_write := FileBackedObject_write;
  fl_seek := FileBackedObject_seek;
  fl_truncate := FileBackedObject_truncate
}.

(** ** Lemmas *)

Lemma fb_sync_ok f : 0 <= fb_readptr f ->
  fb_sync f = {| pf_data := pf_data (fb_file f); pf_off := fb_readptr f;
                 pf_writable := pf_writable (fb_file f) |}.
Proof.
  intros H. unfold fb_sync, posix_lseek. destruct (Z.ltb_spec (fb_readptr f) 0); [lia|done].
Qed.

Lemma fill_to_short n l : n <= zlen l -> fill_to n l = l.
Proof. intros. unfold fill_to. by rewrite Z2Nat.nonpos, app_nil_r by lia. Qed.

Lemma FileBackedObject_write_ok f b :
  0 <= fb_readptr f -> pf_writable (fb_file f) = true -> b <> [] ->
  FileBackedObject_write f b =
    (zlen b, None,
     {| fb_readptr := fb_readptr f + zlen b;
        fb_file := {| pf_data := zover (fb_readptr f) b
                                   (fill_to (fb_readptr f) (pf_data (fb_file f)));
                      pf_off := fb_readptr f + zlen b; pf_writable := true |} |}).
Proof.
  intros H Hw Hb. unfold FileBackedObject_write. rewrite fb_sync_ok by done.
  destruct (Z.eqb_spec (zlen b) 0) as [E|_]; [by apply zlen_0_nil in E|].
  unfold posix_write. cbn [pf_writable]. by rewrite Hw.
Qed.

#[export] Instance FileBackedObject_laws : FileLikeLaws FileBackedObject.
Proof.
  split; cbn [fl_ok fl_contents fl_pos fl_read fl_write fl_seek fl_truncate
    FileBackedObject_ops].
  - by intros f [? _].
  - intros f n [Hr Hw] Hn. unfold FileBackedObject_read. rewrite fb_sync_ok by done.
    eexists; split; [done|]. unfold fl_at. simpl. split_and!; try done.
    pose proof (zlen_nonneg (zread (fb_readptr f) n (pf_data (fb_file f)))). lia.
  - intros f b [Hr Hw] Hp. destruct b as [|x b].
    + exists f. split; [done|]. unfold fl_at. simpl. by rewrite zover_nil, Z.add_0_r.
    + rewrite FileBackedObject_write_ok, fill_to_short by done. eexists; split; [done|].
      unfold fl_at. simpl. pose proof (zlen_nonneg (x :: b)). split_and!; done || lia.
  - intros f n [Hr Hw] Hn. unfold FileBackedObject_seek, posix_lseek.
    destruct (Z.ltb_spec n 0); [lia|]. eexists; split; [done|]. done.
  - intros f n [Hr Hw]. unfold FileBackedObject_seek, posix_lseek.
    destruct (Z.ltb_spec (zlen (pf_data (fb_file f)) + n) 0).
    + rewrite Z.max_l by lia. eexists; split; [done|]. done.
    + rewrite Z.max_r by lia. eexists; split; [done|]. done.
  - intros f n [Hr Hw] Hn. unfold fl_at, FileBackedObject_truncate, posix_ftruncate.
    rewrite Hw. simpl. rewrite fill_to_short by lia. unfold FileLikeObject_truncate.
    split_and!; done || lia.
Qed.

(** ** A file-backed object is a file *)

Inductive file_op :=
| FRead (n : Z) | FReadline (n : Z) | FWrite (b : list Z) | FSeekSet (n : Z)
| FSeekEnd (n : Z) | FTruncate (n : Z) | FSize | FTell.

(** The bytes and the number that an operation delivers, in its type: [read], [readline],
    [write] and [truncate] return an int, whatever the width of their argument; [seek] and
    [tell] an unsigned number of 64 bits; the size is a signed one. *)
Definition fb_step (f : FileBackedObject) (op : file_op)
  : list Z * Z * FileBackedObject :=
  match op with
  | FRead n => let '(b, f') := FileBackedObject_read f n in (b, i32 (zlen b), f')
  | FReadline n => let '(r, b, f') := FileLikeObject_readline f n in (b, i32 r, f')
  | FWrite b => let '(r, _, f') := FileBackedObject_write f b in ([], i32 r, f')
  | FSeekSet n => let '(r, f') := FileBackedObject_seek f n SEEK_SET in ([], u64 r, f')
  | FSeekEnd n => let '(r, f') := FileBackedObject_seek f n SEEK_END in ([], u64 r, f')
  | FTruncate n => ([], i32 n, FileBackedObject_truncate f n)
  | FSize => let '(r, f') := FileBackedObject_resolve_size f in ([], i64 r, f')
  | FTell => ([], u64 (FileLikeObject_tell f), f)
  end.

(** The same on contents and a position, in numbers without a width but for the result of
    a truncation, which keeps 32 bits of its argument. *)
Definition file_step (c : list Z) (p : Z) (op : file_op) : list Z * Z * (list Z * Z) :=
  match op with
  | FRead n => let b := zread p n c in (b, zlen b, (c, p + zlen b))
  | FReadline n =>
      let b := zread p n c in
      match find_line b 0 with
      | Some (i, k) => (zover i [0] b, i, (c, p + i + k))
      | None => (b, zlen b, (c, p + zlen b))
      end
  | FWrite [] => ([], 0, (c, p))
  | FWrite b => ([], zlen b, (zover p b (fill_to p c), p + zlen b))
  | FSeekSet n => ([], Z.max 0 n, (c, Z.max 0 n))
  | FSeekEnd n => ([], Z.max 0 (zlen c + n), (c, Z.max 0 (zlen c + n)))
  | FTruncate n => ([], i32 n, (ztake n (fill_to n c), Z.min n p))
  | FSize => ([], zlen c, (c, p))
  | FTell => ([], p, (c, p))
  end.

Fixpoint fb_run (f : FileBackedObject) (ops : list file_op)
  : list (list Z * Z) * FileBackedObject :=
  match ops with
  | [] => ([], f)
  | op :: ops' =>
      let '(o, f') := fb_step f op in
      let '(os, f'') := fb_run f' ops' in (o :: os, f'')
  end.

Fixpoint file_run (c : list Z) (p : Z) (ops : list file_op)
  : list (list Z * Z) * (list Z * Z) :=
  match ops with
  | [] => ([], (c, p))
  | op :: ops' =>
      let '(o, (c', p')) := file_step c p op in
      let '(os, s) := file_run c' p' ops' in (o :: os, s)
  end.

(** The most bytes one [read] or [write] of the system transfers. *)
Definition MAX_RW_COUNT : Z := 2147479552.

(** The arguments of one call: lengths the system transfers at once, offsets of 64 bits,
    truncations to a length. *)
Definition op_ok (op : file_op) : Prop :=
  match op with
  | FRead n | FReadline n => 0 <= n <= MAX_RW_COUNT
  | FWrite b => zlen b <= MAX_RW_COUNT
  | FSeekSet n | FSeekEnd n => LLONG_MIN <= n
  | FTruncate n => 0 <= n
  | FSize | FTell => True
  end.

(** How far an operation can move the position or the end of the file. *)
Definition op_reach (op : file_op) : Z :=
  match op with
  | FWrite b => zlen b
  | FSeekSet n | FSeekEnd n | FTruncate n => Z.max 0 n
  | _ => 0
  end.

Definition ops_reach (ops : list file_op) : Z := foldr (fun op n => op_reach op + n) 0 ops.

(** The larger of position and size. *)
Definition file_extent (f : FileBackedObject) : Z := Z.max (fl_pos f) (zlen (fl_contents f)).

Lemma find_line_range l i j k :
  0 <= i -> find_line l i = Some (j, k) -> i <= j /\ 1 <= k <= 2 /\ j + k <= i + zlen l.
Proof.
  revert i. induction l as [|c l IH]; intros i Hi; [done|]. cbn [find_line].
  destruct l as [|d l]; [done|]. rewrite !zlen_cons. pose proof (zlen_nonneg l).
  destruct (c =? 13); [destruct (d =? 10)|destruct (c =? 10)].
  - intros [= <- <-]. lia.
  - intros H1%IH; [|lia]. rewrite zlen_cons in H1. lia.
  - intros [= <- <-]. lia.
  - intros H1%IH; [|lia]. rewrite zlen_cons in H1. lia.
Qed.

Lemma op_reach_nonneg op : 0 <= op_reach op.
Proof. destruct op; cbn [op_reach]; try lia. apply zlen_nonneg. Qed.

Lemma ops_reach_nonneg ops : 0 <= ops_reach ops.
Proof.
  induction ops as [|op ops IH]; [done|]. cbn [ops_reach foldr]. fold (ops_reach ops).
  pose proof (op_reach_nonneg op). lia.
Qed.

Lemma u64_int n : 0 <= n <= LLONG_MAX -> u64 n = n.
Proof. intros H. apply u64_small. unfold LLONG_MAX in H. lia. Qed.

Lemma i64_int n : 0 <= n <= LLONG_MAX -> i64 n = n.
Proof. intros H. apply i64_small. unfold LLONG_MAX in H. lia. Qed.

Lemma i32_count n : 0 <= n <= MAX_RW_COUNT -> i32 n = n.
Proof. intros H. apply i32_small. unfold MAX_RW_COUNT in H. lia. Qed.

Lemma read_end (p n : Z) (c : list Z) : 0 <= p -> p + zlen (zread p n c) <= Z.max p (zlen c).
Proof. intros Hp. unfold zread. rewrite zlen_ztake, zlen_zdrop. pose proof (zlen_nonneg c). lia. Qed.

Lemma fb_step_refines f op :
  fl_ok f -> op_ok op -> file_extent f + op_reach op <= LLONG_MAX ->
  let '(o, f') := fb_step f op in
  file_step (fl_contents f) (fl_pos f) op = (o, (fl_contents f', fl_pos f')) /\ fl_ok f' /\
  file_extent f' <= file_extent f + op_reach op.
Proof.
  intros [Hr Hw] Hop Hx. unfold file_extent in *.
  cbn [fl_contents fl_pos FileBackedObject_ops] in *.
  pose proof (zlen_nonneg (pf_data (fb_file f))) as Hd.
  destruct op as [n|n|b|n|n|n| |]; cbn [fb_step file_step fl_ok FileBackedObject_ops op_ok op_reach]
    in *.
  - unfold FileBackedObject_read. rewrite fb_sync_ok by done. simpl.
    pose proof (read_end (fb_readptr f) n (pf_data (fb_file f)) Hr).
    pose proof (zlen_nonneg (zread (fb_readptr f) n (pf_data (fb_file f)))).
    assert (zlen (zread (fb_readptr f) n (pf_data (fb_file f))) <= Z.max 0 n)
      by (unfold zread; rewrite zlen_ztake; lia).
    rewrite i32_count by lia. split_and!; [done|lia|done|lia].
  - unfold FileLikeObject_readline, FileBackedObject_read. rewrite fb_sync_ok by done.
    unfold posix_read. cbn [pf_off pf_data pf_writable].
    pose proof (read_end (fb_readptr f) n (pf_data (fb_file f)) Hr) as He.
    assert (zlen (zread (fb_readptr f) n (pf_data (fb_file f))) <= Z.max 0 n) as Hn
      by (unfold zread; rewrite zlen_ztake; lia).
    set (b := zread _ _ _) in *. pose proof (zlen_nonneg b).
    destruct (find_line b 0) as [[i k]|] eqn:E; simpl.
    + apply find_line_range in E; [|lia]. rewrite i32_count by lia.
      split_and!; [done|lia|done|lia].
    + rewrite i32_count by lia. split_and!; [done|lia|done|lia].
  - destruct b as [|x b]; [split_and!; [done..|change (zlen (@nil Z)) with 0; cbn; lia]|].
    rewrite FileBackedObject_write_ok by done. simpl.
    pose proof (zlen_nonneg b). rewrite zlen_cons in *. rewrite i32_count by lia.
    split_and!; [done|lia|done|]. unfold zover, fill_to.
    rewrite !zlen_app, zlen_ztake, zlen_zdrop, !zlen_app, zlen_replicate, zlen_cons. lia.
  - unfold FileBackedObject_seek, posix_lseek.
    destruct (Z.ltb_spec n 0); simpl; rewrite u64_int by lia;
      (split_and!; [|lia|done|lia]); do 2 f_equal; try f_equal; lia.
  - unfold FileBackedObject_seek, posix_lseek.
    destruct (Z.ltb_spec (zlen (pf_data (fb_file f)) + n) 0); simpl; rewrite u64_int by lia;
      (split_and!; [|lia|done|lia]); do 2 f_equal; try f_equal; lia.
  - unfold FileBackedObject_truncate, posix_ftruncate, FileLikeObject_truncate. rewrite Hw.
    simpl in *. split_and!; [done|lia|done|]. rewrite zlen_ztake. lia.
  - unfold FileBackedObject_resolve_size, posix_lseek. rewrite Z.add_0_r.
    destruct (Z.ltb_spec (zlen (pf_data (fb_file f))) 0); [lia|]. simpl.
    rewrite i64_int by lia. split_and!; done || lia.
  - unfold FileLikeObject_tell. rewrite u64_int by lia. split_and!; done || lia.
Qed.

(** C28: a file-backed object opened for writing behaves as a file.  For every sequence of
    reads, line reads, writes, absolute seeks, truncations and size queries, the bytes and
    the numbers delivered and the final contents and position are those of plain contents
    with a position; seeks before the start go to the start, writes past the end leave
    zeros, and a truncation returns its length cut to an int.  One read or write is of at
    most 0x7ffff000 bytes, what the system transfers at once, and the sequence stays below
    2^63: position and size, plus what the operations can add to them. *)
Theorem FileBackedObject_refines_file f ops :
  fl_ok f -> Forall op_ok ops -> file_extent f + ops_reach ops <= LLONG_MAX ->
  let '(os, f') := fb_run f ops in
  file_run (fl_contents f) (fl_pos f) ops = (os, (fl_contents f', fl_pos f')) /\ fl_ok f'.
Proof.
  intros Hok Hops. revert f Hok.
  induction Hops as [|op ops Hop Hops IH]; intros f Hok Hx; [done|].
  cbn [ops_reach foldr] in Hx. fold (ops_reach ops) in Hx.
  pose proof (ops_reach_nonneg ops). cbn [fb_run file_run].
  pose proof (fb_step_refines f op Hok Hop ltac:(lia)) as Hs.
  destruct (fb_step f op) as [o f1]. destruct Hs as (-> & Hok1 & Hx1).
  specialize (IH f1 Hok1 ltac:(lia)).
  destruct (fb_run f1 ops) as [os f2]. destruct IH as [-> Hok2]. done.
Qed.

Definition file_example : FileBackedObject :=
  {| fb_readptr := 0;
     fb_file := {| pf_data := lit "one" ++ [13; 10] ++ lit "two"; pf_off := 0;
                   pf_writable := true |} |}.

Lemma FileBackedObject_refines_file_witness :
  let ops := [FReadline 80; FTell; FWrite (lit "2"); FSeekSet 0; FRead 8] in
  let '(os, f') := fb_run file_example ops in
  file_run (fl_contents file_example) 0 ops = (os, (fl_contents f', fl_pos f')) /\ fl_ok f'.
Proof.
  exact (FileBackedObject_refines_file file_example
    [FReadline 80; FTell; FWrite (lit "2"); FSeekSet 0; FRead 8]
    ltac:(split; [vm_compute; discriminate|reflexivity])
    ltac:(repeat constructor; by vm_compute) ltac:(by vm_compute)).
Defined.

(** A relative seek is relative to the kernel's offset, not to the object's:
    after a line has been read, or the size asked for, seeking by zero does not
    stay where [tell] says the object is. *)
Theorem FileBackedObject_seek_cur_diverges :
  let '(_, _, f1) := FileLikeObject_readline file_example 80 in
  let '(_, f2) := FileBackedObject_resolve_size file_example in
  FileLikeObject_tell f1 = 5 /\ (FileBackedObject_seek f1 0 SEEK_CUR).1 = 8 /\
  FileLikeObject_tell f2 = 0 /\ (FileBackedObject_seek f2 0 SEEK_CUR).1 = 8.
Proof. vm_compute. done. Qed.

(** A failed write moves the position back by one. *)
Theorem FileBackedObject_write_failure_moves f b :
  0 <= fb_readptr f -> pf_writable (fb_file f) = false -> b <> [] ->
  exists f', FileBackedObject_write f b = (-1, Some EIOError, f') /\
    fb_readptr f' = fb_readptr f - 1.
Proof.
  intros Hr Hw Hb. unfold FileBackedObject_write. rewrite fb_sync_ok by done.
  destruct (Z.eqb_spec (zlen b) 0) as [E|_]; [by apply zlen_0_nil in E|].
  unfold posix_write. cbn [pf_writable]. rewrite Hw. eexists; split; [done|]. simpl. lia.
Qed.

Lemma FileBackedObject_write_failure_moves_witness :
  exists f', FileBackedObject_write
    {| fb_readptr := 4; fb_file := {| pf_data := []; pf_off := 0; pf_writable := false |} |} [1]
    = (-1, Some EIOError, f') /\ fb_readptr f' = 4 - 1.
Proof.
  apply (FileBackedObject_write_failure_moves
    {| fb_readptr := 4; fb_file := {| pf_data := []; pf_off := 0; pf_writable := false |} |} [1]);
    [simpl; lia|reflexivity|discriminate].
Defined.
