(* ===== verification/Treap.v ===== *)
(** Treaps (include/trp.h): the balanced search trees lib/map.c keeps its points in.

    The macros are modelled on trees of values with a 64-bit key; [trp_gen]'s
    comparison is the one of [map_point_cmp].  A node's priority comes from the
    generator in the treap's root structure.  The recursion of [remove] goes to a
    rotated tree, so it is defined by well-founded recursion on the size. *)
From stdpp Require Import sorting.
From Equations Require Import Equations.
From S2P Require Import Prelude.

Set Equations Transparent.

Section Treap.

Context {A : Type}.
Variable key : A -> Z.

Inductive treap :=
| Leaf
| Node (left : treap) (value : A) (prio : Z) (right : treap).

Record trp := { trp_root : treap; trp_prn_state : Z }.

Definition tree_new (seed : Z) : trp := {| trp_root := Leaf; trp_prn_state := seed |}.

(** [trp_prn] with the parameters lib/map.c gives. *)
Definition trp_prn (state : Z) : Z := u32 (state * 1297 + 1301).

Fixpoint tree_size (t : treap) : nat :=
  match t with Leaf => 0 | Node l _ _ r => S (tree_size l + tree_size r) end.

Definition rotate_left (t : treap) : treap :=
  match t with
  | Node l a p (Node rl b q rr) => Node (Node l a p rl) b q rr
  | t => t
  end.

Definition rotate_right (t : treap) : treap :=
  match t with
  | Node (Node ll b q lr) a p r => Node ll b q (Node lr a p r)
  | t => t
  end.

(** The priority of a node that is there. *)
Definition prio_of (t : treap) : Z := match t with Leaf => 0 | Node _ _ p _ => p end.

(** A node with the key of the new one fails the assertion. *)
Fixpoint insert_recurse (cur : treap) (x : A) (prio : Z) : option treap :=
  match cur with
  | Leaf => Some (Node Leaf x prio Leaf)
  | Node l a p r =>
      match key x ?= key a with
      | Eq => None
      | Lt =>
          l' ← insert_recurse l x prio;
          Some (if prio_of l' <? p then rotate_right (Node l' a p r) else Node l' a p r)
      | Gt =>
          r' ← insert_recurse r x prio;
          Some (if prio_of r' <? p then rotate_left (Node l a p r') else Node l a p r')
      end
  end.

Definition tree_insert (t : trp) (x : A) : option trp :=
  let prio := trp_prn (trp_prn_state t) in
  root ← insert_recurse (trp_root t) x prio;
  Some {| trp_root := root; trp_prn_state := prio |}.

(** The node is rotated down, away from the child with the smaller priority, until it
    has no children. *)
Equations? remove_recurse (cur : treap) (k : Z) : treap by wf (tree_size cur) lt :=
remove_recurse Leaf k := Leaf;
remove_recurse (Node l a p r) k with k ?= key a => {
  | Lt := Node (remove_recurse l k) a p r;
  | Gt := Node l a p (remove_recurse r k);
  | Eq with l => {
    | Leaf with r => {
      | Leaf := Leaf;
      | Node rl b q rr := Node (remove_recurse (Node Leaf a p rl) k) b q rr };
    | Node ll b q lr with r => {
      | Leaf := Node ll b q (remove_recurse (Node lr a p Leaf) k);
      | Node rl c s rr with q <? s => {
        | true := Node ll b q (remove_recurse (Node lr a p (Node rl c s rr)) k);
        | false := Node (remove_recurse (Node (Node ll b q lr) a p rl) k) c s rr } } } }.
Proof. all: cbn; lia. Qed.

Arguments remove_recurse : simpl never.

Definition tree_remove (t : trp) (k : Z) : trp :=
  {| trp_root := remove_recurse (trp_root t) k; trp_prn_state := trp_prn_state t |}.

Fixpoint tree_search (t : treap) (k : Z) : option A :=
  match t with
  | Leaf => None
  | Node l a _ r =>
      match k ?= key a with Eq => Some a | Lt => tree_search l k | Gt => tree_search r k end
  end.

(** The loops of [nsearch] and [psearch] with their candidate [ret]. *)
Fixpoint nsearch_loop (t : treap) (k : Z) (ret : option A) : option A :=
  match t with
  | Leaf => ret
  | Node l a _ r =>
      match k ?= key a with
      | Lt => nsearch_loop l k (Some a) | Gt => nsearch_loop r k ret | Eq => Some a
      end
  end.

Definition tree_nsearch (t : treap) (k : Z) : option A := nsearch_loop t k None.

Fixpoint psearch_loop (t : treap) (k : Z) (ret : option A) : option A :=
  match t with
  | Leaf => ret
  | Node l a _ r =>
      match k ?= key a with
      | Lt => psearch_loop l k ret | Gt => psearch_loop r k (Some a) | Eq => Some a
      end
  end.

Definition tree_psearch (t : treap) (k : Z) : option A := psearch_loop t k None.

(** [iter_recurse]: the callback returns its state and whether to stop. *)
Fixpoint iter_recurse {S} (cb : S -> A -> S * bool) (t : treap) (s : S) : S * bool :=
  match t with
  | Leaf => (s, false)
  | Node l a _ r =>
      let '(s, stop) := iter_recurse cb l s in
      if stop then (s, true)
      else
        let '(s, stop) := cb s a in
        if stop then (s, true) else iter_recurse cb r s
  end.

(** ** What a treap holds *)

Fixpoint tree_elements (t : treap) : list A :=
  match t with Leaf => [] | Node l a _ r => tree_elements l ++ a :: tree_elements r end.

Definition klt (a b : A) : Prop := key a < key b.

(** Search-tree order and heap order. *)
Definition tree_sorted (t : treap) : Prop := StronglySorted klt (tree_elements t).

Definition prio_above (m : Z) (t : treap) : Prop :=
  match t with Leaf => True | Node _ _ p _ => m <= p end.

Fixpoint tree_heap (t : treap) : Prop :=
  match t with
  | Leaf => True
  | Node l _ p r => tree_heap l /\ tree_heap r /\ prio_above p l /\ prio_above p r
  end.

(** The operations on the sorted list of the elements. *)
Definition below (k : Z) (l : list A) : list A := filter (fun a => key a < k) l.
Definition above (k : Z) (l : list A) : list A := filter (fun a => k < key a) l.

Definition list_put (x : A) (l : list A) : list A := below (key x) l ++ x :: above (key x) l.
Definition list_drop_key (k : Z) (l : list A) : list A := filter (fun a => key a <> k) l.
Definition list_get (k : Z) (l : list A) : option A := head (filter (fun a => key a = k) l).
Definition list_next (k : Z) (l : list A) : option A := head (filter (fun a => k <= key a) l).
Definition list_prev (k : Z) (l : list A) : option A := last (filter (fun a => key a <= k) l).

Fixpoint iter_list {S} (cb : S -> A -> S * bool) (l : list A) (s : S) : S * bool :=
  match l with
  | [] => (s, false)
  | a :: l => let '(s, stop) := cb s a in if stop then (s, true) else iter_list cb l s
  end.

Arguments list_put : simpl never.
Arguments list_drop_key : simpl never.

(** ** Lemmas *)

Lemma sorted_node l a r :
  StronglySorted klt (l ++ a :: r) <->
  StronglySorted klt l /\ StronglySorted klt r /\
  Forall (fun b => key b < key a) l /\ Forall (fun b => key a < key b) r.
Proof.
  rewrite StronglySorted_app. split.
  - intros (H1 & H2 & [H3 H4]%StronglySorted_inv). split_and!; try done.
    apply Forall_forall. intros b Hb. apply (H1 b a Hb). by left.
  - intros (H1 & H2 & H3 & H4). split_and!; [|done|by constructor].
    intros b c Hb [->|Hc]%elem_of_cons; rewrite Forall_forall in H3, H4; unfold klt.
    + by apply H3.
    + specialize (H3 b Hb). specialize (H4 c Hc). cbn in *. lia.
Qed.

Lemma sorted_cons a r :
  StronglySorted klt (a :: r) <-> StronglySorted klt r /\ Forall (fun b => key a < key b) r.
Proof. rewrite StronglySorted_cons. tauto. Qed.

Lemma filter_sorted (P : A -> Prop) `{!forall a, Decision (P a)} l :
  StronglySorted klt l -> StronglySorted klt (filter P l).
Proof.
  induction 1 as [|a l Hs IH Hf]; [constructor|]. rewrite filter_cons. case_decide; [|done].
  constructor; [done|]. apply list.Forall_forall. intros b [_ Hb]%list_elem_of_filter.
  rewrite list.Forall_forall in Hf. by apply Hf.
Qed.

Lemma list_put_sorted x l : StronglySorted klt l -> StronglySorted klt (list_put x l).
Proof.
  intros Hs. apply sorted_node. split_and!; try by apply filter_sorted.
  all: apply list.Forall_forall; intros b [Hb _]%list_elem_of_filter; exact Hb.
Qed.

(** Splits a filter over a node's elements and decides it on each part by the bounds
    that the order gives the part. *)
Ltac part :=
  match goal with
  | H : Forall _ ?u |- Forall _ ?u => eapply Forall_impl; [exact H|]; cbn; intros; lia
  end.
Ltac node_filter :=
  rewrite ?filter_app, ?filter_cons;
  repeat match goal with
  | |- context [decide ?P] => destruct (decide P); try (cbn in *; lia)
  end;
  repeat match goal with
  | |- context [filter ?P ?u] =>
      first [rewrite (filter_keep P u) by part | rewrite (filter_none P u) by part]
  end.

Lemma list_put_left x l a r :
  StronglySorted klt (l ++ a :: r) -> key x < key a ->
  list_put x (l ++ a :: r) = list_put x l ++ a :: r.
Proof.
  intros (_ & _ & Hl & Hr)%sorted_node Hx. unfold list_put, below, above.
  rewrite !filter_app, (filter_cons_False (fun b => key b < key x)) by lia.
  rewrite (filter_cons_True (fun b => key x < key b)) by lia.
  rewrite (filter_none (fun b => key b < key x) r) by part.
  rewrite (filter_keep (fun b => key x < key b) r) by part.
  by rewrite app_nil_r, <- !app_assoc.
Qed.

Lemma list_put_right x l a r :
  StronglySorted klt (l ++ a :: r) -> key a < key x ->
  list_put x (l ++ a :: r) = l ++ a :: list_put x r.
Proof.
  intros (_ & _ & Hl & Hr)%sorted_node Hx. unfold list_put, below, above.
  rewrite !filter_app, (filter_cons_True (fun b => key b < key x)) by lia.
  rewrite (filter_cons_False (fun b => key x < key b)) by lia.
  rewrite (filter_keep (fun b => key b < key x) l) by part.
  rewrite (filter_none (fun b => key x < key b) l) by part.
  by rewrite <- !app_assoc.
Qed.

Lemma rotate_right_elements t : tree_elements (rotate_right t) = tree_elements t.
Proof. destruct t as [|[] ? ? ?]; cbn; rewrite <- ?app_assoc; done. Qed.

Lemma rotate_left_elements t : tree_elements (rotate_left t) = tree_elements t.
Proof. destruct t as [|? ? ? []]; cbn; rewrite <- ?app_assoc; done. Qed.

Lemma if_elements (b : bool) t t' :
  tree_elements t = tree_elements t' -> tree_elements (if b then t else t') = tree_elements t'.
Proof. by destruct b. Qed.

Lemma insert_elements t x prio t' :
  tree_sorted t -> insert_recurse t x prio = Some t' ->
  tree_elements t' = list_put x (tree_elements t).
Proof.
  unfold tree_sorted. revert t'.
  induction t as [|l IHl a p r IHr]; cbn; intros t' Hs Hi; [by simplify_eq|].
  pose proof Hs as (Hl & Hr & _)%sorted_node.
  destruct (Z.compare_spec (key x) (key a)); [done|..].
  - destruct (insert_recurse l x prio) as [l'|]; simplify_eq/=.
    rewrite if_elements by apply (rotate_right_elements (Node l' a p r)). cbn.
    by rewrite (IHl l'), list_put_left.
  - destruct (insert_recurse r x prio) as [r'|]; simplify_eq/=.
    rewrite if_elements by apply (rotate_left_elements (Node l a p r')). cbn.
    by rewrite (IHr r'), list_put_right.
Qed.

Lemma search_spec t k : tree_sorted t -> tree_search t k = list_get k (tree_elements t).
Proof.
  unfold tree_sorted, list_get.
  induction t as [|l IHl a p r IHr]; [done|]; cbn.
  intros (Hl & Hr & Hla & Har)%sorted_node.
  destruct (Z.compare_spec k (key a)); node_filter.
  - done.
  - rewrite app_nil_r. auto.
  - auto.
Qed.

Lemma insert_fails t x prio :
  insert_recurse t x prio = None <-> is_Some (tree_search t (key x)).
Proof.
  induction t as [|l IHl a p r IHr]; cbn; [by split; [|intros [? ?]]|].
  destruct (key x ?= key a); [by split|..].
  - rewrite <- IHl. destruct (insert_recurse l x prio); by cbn.
  - rewrite <- IHr. destruct (insert_recurse r x prio); by cbn.
Qed.

Lemma psearch_spec t k ret :
  tree_sorted t ->
  psearch_loop t k ret = match list_prev k (tree_elements t) with Some a => Some a | None => ret end.
Proof.
  unfold tree_sorted, list_prev. revert ret.
  induction t as [|l IHl a p r IHr]; intros ret; [done|]; cbn.
  intros (Hl & Hr & Hla & Har)%sorted_node.
  destruct (Z.compare_spec k (key a)); node_filter.
  - by rewrite last_snoc.
  - rewrite app_nil_r. auto.
  - rewrite IHr, last_app, last_cons by done.
    by destruct (last (filter _ (tree_elements r))).
Qed.

Lemma nsearch_spec t k ret :
  tree_sorted t ->
  nsearch_loop t k ret = match list_next k (tree_elements t) with Some a => Some a | None => ret end.
Proof.
  unfold tree_sorted, list_next. revert ret.
  induction t as [|l IHl a p r IHr]; intros ret; [done|]; cbn.
  intros (Hl & Hr & Hla & Har)%sorted_node.
  destruct (Z.compare_spec k (key a)); node_filter.
  - done.
  - rewrite IHl by done. by destruct (filter _ (tree_elements l)).
  - cbn. auto.
Qed.

Lemma iter_spec {S} (cb : S -> A -> S * bool) t s :
  iter_recurse cb t s = iter_list cb (tree_elements t) s.
Proof.
  revert s. induction t as [|l IHl a p r IHr]; intros s; cbn; [done|].
  rewrite IHl. generalize (tree_elements l) as u. clear IHl. intros u. revert s.
  induction u as [|b u IH]; intros s; cbn.
  - by destruct (cb s a) as [s' []].
  - destruct (cb s b) as [s' []]; [done|]. apply IH.
Qed.

(** *** Removal *)

(** Takes the order of a tree apart down to its subtrees. *)
Ltac sorted_parts :=
  do 2 (rewrite ?sorted_node, ?sorted_cons, ?list.Forall_app, ?list.Forall_cons in *; destruct_and?).

Lemma remove_elements t k :
  tree_sorted t -> tree_elements (remove_recurse t k) = list_drop_key k (tree_elements t).
Proof.
  unfold tree_sorted, list_drop_key.
  funelim (remove_recurse t k); try rewrite <- Heqcall; cbn [tree_elements app] in *; [done|..];
    intros Hs;
    sorted_parts; destruct (Z.compare_spec k (key a)); try done.
  all: try (rewrite H by (rewrite ?sorted_node, ?sorted_cons; split_and?; done || constructor)).
  all: do 3 node_filter; rewrite <- ?app_assoc; done.
Qed.

(** *** Heap order *)

Lemma prio_above_le m m' t : m' <= m -> prio_above m t -> prio_above m' t.
Proof. destruct t; cbn; [done|lia]. Qed.

(** Either the new tree's root keeps the bound of the old one, or it is the inserted
    node and its subtrees keep it: what the rotations rely on. *)
Definition keeps_bound (m : Z) (x : A) (prio : Z) (t : treap) : Prop :=
  prio_above m t \/ exists l r, t = Node l x prio r /\ prio_above m l /\ prio_above m r.

Lemma rotate_right_heap l a p r x prio :
  tree_heap l -> tree_heap r -> prio_above p r -> keeps_bound p x prio l -> l <> Leaf ->
  let t := if prio_of l <? p then rotate_right (Node l a p r) else Node l a p r in
  tree_heap t /\ forall m, m <= p -> keeps_bound m x prio t.
Proof.
  intros Hl Hr Hp Hk Hn. destruct l as [|u b q v]; [done|]. cbn in Hl. destruct_and!.
  destruct Hk as [Hk|(u' & v' & Hk & Hu & Hv)]; cbn in *.
  - destruct (Z.ltb_spec q p); [lia|]. split; [by cbn|]. intros m Hm. by left.
  - simplify_eq. destruct (Z.ltb_spec prio p); cbn.
    + split; [split_and!; done || lia|]. intros m Hm. right. do 2 eexists. split; [done|].
      cbn. split; [by apply (prio_above_le p)|lia].
    + split; [by split_and!|]. intros m Hm. left. cbn. lia.
Qed.

Lemma rotate_left_heap l a p r x prio :
  tree_heap l -> tree_heap r -> prio_above p l -> keeps_bound p x prio r -> r <> Leaf ->
  let t := if prio_of r <? p then rotate_left (Node l a p r) else Node l a p r in
  tree_heap t /\ forall m, m <= p -> keeps_bound m x prio t.
Proof.
  intros Hl Hr Hp Hk Hn. destruct r as [|u b q v]; [done|]. cbn in Hr. destruct_and!.
  destruct Hk as [Hk|(u' & v' & Hk & Hu & Hv)]; cbn in *.
  - destruct (Z.ltb_spec q p); [lia|]. split; [by cbn|]. intros m Hm. by left.
  - simplify_eq. destruct (Z.ltb_spec prio p); cbn.
    + split; [split_and!; done || lia|]. intros m Hm. right. do 2 eexists. split; [done|].
      cbn. split; [lia|by apply (prio_above_le p)].
    + split; [by split_and!|]. intros m Hm. left. cbn. lia.
Qed.

Lemma insert_not_leaf t x prio t' : insert_recurse t x prio = Some t' -> t' <> Leaf.
Proof.
  destruct t as [|l a p r]; cbn; [by intros [= <-]|].
  destruct (key x ?= key a); [done|..].
  - destruct (insert_recurse l x prio) as [[]|]; intros ?; simplify_eq/=; by case_match.
  - destruct (insert_recurse r x prio) as [[]|]; intros ?; simplify_eq/=; by case_match.
Qed.

Lemma insert_heap t x prio t' :
  tree_heap t -> insert_recurse t x prio = Some t' ->
  tree_heap t' /\ forall m, prio_above m t -> keeps_bound m x prio t'.
Proof.
  revert t'. induction t as [|l IHl a p r IHr]; intros t' Hh Hi.
  { cbn in Hi. simplify_eq. split; [done|]. intros m _. right. eauto. }
  destruct Hh as (Hl & Hr & Hpl & Hpr). cbn [insert_recurse] in Hi.
  destruct (key x ?= key a); [done|..].
  - destruct (insert_recurse l x prio) as [l'|] eqn:E; simplify_option_eq.
    destruct (IHl l' Hl eq_refl). eapply rotate_right_heap; eauto using insert_not_leaf.
  - destruct (insert_recurse r x prio) as [r'|] eqn:E; simplify_option_eq.
    destruct (IHr r' Hr eq_refl). eapply rotate_left_heap; eauto using insert_not_leaf.
Qed.

(** While a node goes down, its own priority is out of order: the heap order of a tree
    except at a root with the key [k]. *)
Definition heap_except (k : Z) (t : treap) : Prop :=
  match t with
  | Leaf => True
  | Node l a p r =>
      tree_heap l /\ tree_heap r /\ (key a <> k -> prio_above p l /\ prio_above p r)
  end.

Definition above_except (k m : Z) (t : treap) : Prop :=
  match t with
  | Leaf => True
  | Node l a p r => (key a = k -> prio_above m l /\ prio_above m r) /\ (key a <> k -> m <= p)
  end.

Lemma heap_heap_except k t : tree_heap t -> heap_except k t.
Proof. destruct t; cbn; tauto. Qed.

Lemma above_above_except k m t : tree_heap t -> prio_above m t -> above_except k m t.
Proof.
  destruct t as [|l a p r]; cbn; [done|]. intros (_ & _ & Hl & Hr) Hm.
  split; [|done]. split; by apply (prio_above_le p).
Qed.

Lemma remove_heap_except t k :
  heap_except k t ->
  tree_heap (remove_recurse t k) /\
  forall m, above_except k m t -> prio_above m (remove_recurse t k).
Proof.
  funelim (remove_recurse t k); try rewrite <- Heqcall; cbn in *; [done|..];
    intros Hh; destruct_and!; destruct (Z.compare_spec k (key a)); try done.
  1, 2: destruct (H ltac:(by apply heap_heap_except)) as [? Hb];
    destruct H3 as [? ?]; [lia|]; split; [split_and!; try done|intros m [_ Hm]; apply Hm; lia];
    by apply Hb, above_above_except.
  all: edestruct H as [? Hb]; [split_and!; by intros|]; split; [split_and!; try done|].
  all: try (intros m [Hm _]; by apply Hm).
  all: apply Hb; split; [intros _|done]; cbn.
  all: try (destruct (Z.ltb_spec q s); [|done]); try (destruct (Z.ltb_spec q s); [done|]).
  all: split; done || lia.
Qed.

Lemma remove_heap t k : tree_heap t -> tree_heap (remove_recurse t k).
Proof. intros Hh. apply remove_heap_except. by apply heap_heap_except. Qed.

(** ** Any sequence of insertions and removals *)

Inductive trp_op := TInsert (x : A) | TRemove (k : Z).

Definition trp_step (t : trp) (o : trp_op) : option trp :=
  match o with TInsert x => tree_insert t x | TRemove k => Some (tree_remove t k) end.

(** The sorted list the treap stands for. *)
Definition list_step (l : list A) (o : trp_op) : option (list A) :=
  match o with
  | TInsert x => match list_get (key x) l with Some _ => None | None => Some (list_put x l) end
  | TRemove k => Some (list_drop_key k l)
  end.

Fixpoint run_ops {S} (step : S -> trp_op -> option S) (s : S) (ops : list trp_op) : option S :=
  match ops with [] => Some s | o :: ops => s ← step s o; run_ops step s ops end.

Definition trp_ok (t : trp) : Prop := tree_sorted (trp_root t) /\ tree_heap (trp_root t).

Lemma tree_insert_spec t x :
  trp_ok t ->
  match tree_insert t x with
  | None => is_Some (list_get (key x) (tree_elements (trp_root t)))
  | Some t' =>
      trp_ok t' /\ list_get (key x) (tree_elements (trp_root t)) = None /\
      tree_elements (trp_root t') = list_put x (tree_elements (trp_root t))
  end.
Proof.
  intros [Hs Hh]. unfold tree_insert. rewrite <- search_spec by done.
  destruct (insert_recurse _ _ _) as [r|] eqn:E; cbn; [|by eapply insert_fails].
  pose proof (insert_elements _ _ _ _ Hs E) as He. split_and!; [split|..].
  - unfold tree_sorted. cbn. rewrite He. by apply list_put_sorted.
  - by eapply insert_heap.
  - apply eq_None_not_Some. by rewrite <- insert_fails, E.
  - done.
Qed.

Lemma tree_remove_spec t k :
  trp_ok t ->
  trp_ok (tree_remove t k) /\
  tree_elements (trp_root (tree_remove t k)) = list_drop_key k (tree_elements (trp_root t)).
Proof.
  intros [Hs Hh]. pose proof (remove_elements _ k Hs) as He. split; [split|done].
  - unfold tree_sorted. cbn. rewrite He. by apply filter_sorted.
  - by apply remove_heap.
Qed.

Lemma run_ops_refines ops t :
  trp_ok t ->
  match run_ops trp_step t ops with
  | None => run_ops list_step (tree_elements (trp_root t)) ops = None
  | Some t' =>
      trp_ok t' /\
      run_ops list_step (tree_elements (trp_root t)) ops = Some (tree_elements (trp_root t'))
  end.
Proof.
  revert t. induction ops as [|[x|k] ops IH]; intros t Hok; cbn; [done|..].
  - pose proof (tree_insert_spec t x Hok) as Hi. destruct (tree_insert t x) as [t'|]; cbn.
    + destruct Hi as (Hok' & -> & He). cbn. rewrite <- He. by apply IH.
    + by destruct Hi as [? ->].
  - destruct (tree_remove_spec t k Hok) as [Hok' He]. rewrite <- He. by apply IH.
Qed.

(** C9: refinement of a sorted list.  Any sequence of insertions and removals on a fresh
    treap, whatever the seed, does on the tree what it does on the sorted list of its
    elements: it fails the assertion exactly when a key is inserted that is there, and
    otherwise the tree's elements in order are the list, the tree keeps its search order
    and its heap order, [search] finds the element with the key, [nsearch] the first
    element with that key or a later one, [psearch] the last element with that key or an
    earlier one, and the iteration runs the callback over the elements in order until it
    asks to stop. *)
Theorem treap_refines_sorted_list seed ops :
  match run_ops trp_step (tree_new seed) ops with
  | None => run_ops list_step [] ops = None
  | Some t =>
      let l := tree_elements (trp_root t) in
      run_ops list_step [] ops = Some l /\
      tree_sorted (trp_root t) /\ tree_heap (trp_root t) /\
      (forall k, tree_search (trp_root t) k = list_get k l /\
                 tree_nsearch (trp_root t) k = list_next k l /\
                 tree_psearch (trp_root t) k = list_prev k l) /\
      (forall (cb : Z -> A -> Z * bool) s, iter_recurse cb (trp_root t) s = iter_list cb l s)
  end.
Proof.
  pose proof (run_ops_refines ops (tree_new seed)) as Hr.
  destruct (run_ops trp_step _ _) as [t|]; [|apply Hr; split; [constructor|done]].
  destruct Hr as [[Hs Hh] He]; [split; [constructor|done]|]. cbn zeta. split_and!; [done..| |].
  - intros k. unfold tree_nsearch, tree_psearch.
    rewrite search_spec, nsearch_spec, psearch_spec by done.
    split_and!; [done|by destruct (list_next _ _)|by destruct (list_prev _ _)].
  - intros cb s. apply iter_spec.
Qed.

End Treap.

Arguments treap A : clear implicits.
Arguments trp A : clear implicits.
Arguments Leaf {A}.
