(* ===== verification/Map.v ===== *)
(** Map streams (lib/map.c): a stream made of pieces of other streams.

    A map is a treap of points.  A point says where in a target the image continues from
    its offset; between two points the image follows the first one, before the first
    point it follows that one backwards.  [MapValue_add_point] leaves out a point that the
    map predicts already.  The driver copies from the targets piece by piece.

    The streams the driver reads from are a parameter: opening a URN, seeking, reading.
    A negative result of [read] is [None]. *)

From stdpp Require Import sorting.
From S2P Require Import Prelude Talloc Cache DataStore CText Misc Url Rdf File Treap.

(** ** Points *)

Record map_point_node := {
  mp_image_offset : Z;
  mp_target_offset : Z;
  mp_target_idx : Z
}.

(** [talloc] of a node and the assignments of [MapValue_add_point]. *)
Definition new_point (image_offset target_offset idx : Z) : map_point_node :=
  {| mp_image_offset := i64 image_offset; mp_target_offset := i64 target_offset;
     mp_target_idx := u32 idx |}.

(** The part of the class the points are about; [mv_cache] gives the index of a target
    by its name. *)
Record MapValue := {
  mv_size : Z;
  mv_number_of_points : Z;
  mv_number_of_urns : Z;
  mv_tree : trp map_point_node;
  mv_targets : list RDFURN;
  mv_cache : Cache Z;
  mv_target_period : Z;
  mv_image_period : Z
}.

Definition MapValue_Con : MapValue :=
  {| mv_size := 0; mv_number_of_points := 0; mv_number_of_urns := 0;
     mv_tree := tree_new 42; mv_targets := []; mv_cache := Cache_Con 100 0;
     mv_target_period := -1; mv_image_period := -1 |}.

Definition with_tree (self : MapValue) (t : trp map_point_node) (n : Z) : MapValue :=
  {| mv_size := mv_size self; mv_number_of_points := n;
     mv_number_of_urns := mv_number_of_urns self; mv_tree := t;
     mv_targets := mv_targets self; mv_cache := mv_cache self;
     mv_target_period := mv_target_period self; mv_image_period := mv_image_period self |}.

Definition with_size (self : MapValue) (n : Z) : MapValue :=
  {| mv_size := n; mv_number_of_points := mv_number_of_points self;
     mv_number_of_urns := mv_number_of_urns self; mv_tree := mv_tree self;
     mv_targets := mv_targets self; mv_cache := mv_cache self;
     mv_target_period := mv_target_period self; mv_image_period := mv_image_period self |}.

Definition psearch (self : MapValue) (k : Z) : option map_point_node :=
  tree_psearch mp_image_offset (trp_root (mv_tree self)) k.

Definition nsearch (self : MapValue) (k : Z) : option map_point_node :=
  tree_nsearch mp_image_offset (trp_root (mv_tree self)) k.

(** What [get_range] returns through its pointers. *)
Record map_range := {
  rg_target : RDFURN;
  rg_target_idx : Z;
  rg_target_offset : Z;
  rg_available : Z
}.

(** The inner [None] is the error of an empty map; the outer one a division by a period
    of zero, the overflow of the signed offset, or an index out of the targets. *)
Definition MapValue_get_range (self : MapValue) (readptr : Z) : option (option map_range) :=
  let period := u64 (mv_image_period self) in
  if period =? 0 then None
  else
    let period_number := readptr / period in
    let image_period_offset := readptr mod period in
    let pnode := psearch self (i64 readptr) in
    if i64 readptr =? LLONG_MAX then None
    else
      let nnode := nsearch self (i64 readptr + 1) in
      let next_offset :=
        u64 match nnode with None => mv_size self | Some n => mp_image_offset n end in
      match pnode, nnode with
      | Some p, _ =>
          target ← mv_targets self !! Z.to_nat (mp_target_idx p);
          Some (Some {|
            rg_target := target; rg_target_idx := mp_target_idx p;
            rg_target_offset :=
              u64 (mp_target_offset p + image_period_offset - mp_image_offset p
                   + period_number * mv_target_period self);
            rg_available := u64 (next_offset - readptr) |})
      | None, Some n =>
          target ← mv_targets self !! Z.to_nat (mp_target_idx n);
          Some (Some {|
            rg_target := target; rg_target_idx := mp_target_idx n;
            rg_target_offset :=
              u64 (mp_target_offset n - (mp_image_offset n - image_period_offset)
                   + period_number * mv_target_period self);
            rg_available := u64 (next_offset - readptr) |})
      | None, None => Some None
      end.

(** The index of a target, which is added to the array when it is new. *)
Definition target_index (self : MapValue) (target : list Z) : option (Z * MapValue) :=
  match Cache_borrow (mv_cache self) (target ++ [0]) with
  | Some i => Some (i, self)
  | None =>
      let i := mv_number_of_urns self in
      urn ← RDFURN_set RDFURN_Con (Some target);
      cache ← Cache_put (mv_cache self) (target ++ [0]) (Some i);
      Some (i, {| mv_size := mv_size self; mv_number_of_points := mv_number_of_points self;
                  mv_number_of_urns := i + 1; mv_tree := mv_tree self;
                  mv_targets := mv_targets self ++ [urn]; mv_cache := cache;
                  mv_target_period := mv_target_period self;
                  mv_image_period := mv_image_period self |})
  end.

(** The point that is at the offset already is removed. *)
Definition remove_point (self : MapValue) (k : Z) : MapValue :=
  match tree_search mp_image_offset (trp_root (mv_tree self)) k with
  | Some _ => with_tree self (tree_remove mp_image_offset (mv_tree self) k)
                (mv_number_of_points self)
  | None => self
  end.

Definition redundant (r : option map_range) (idx target_offset : Z) : bool :=
  match r with
  | Some r => (rg_target_idx r =? idx) && (rg_target_offset r =? target_offset)
  | None => false
  end.

(** The point is stored unless the map predicts it. *)
Definition put_point (self : MapValue) (image_offset target_offset idx : Z)
  : option (Z * MapValue) :=
  r ← MapValue_get_range self image_offset;
  let available := match r with Some r => rg_available r | None => 0 end in
  if redundant r idx target_offset then Some (available, self)
  else
    t ← tree_insert mp_image_offset (mv_tree self) (new_point image_offset target_offset idx);
    Some (available, with_tree self t (mv_number_of_points self + 1)).

Definition MapValue_add_point (self : MapValue) (image_offset target_offset : Z)
    (target : list Z) : option (Z * MapValue) :=
  '(idx, self) ← target_index self target;
  put_point (remove_point self (i64 image_offset)) image_offset target_offset idx.

(** ** The driver *)

(** [md_map] is [None] before a map is set; the driver's size is the map's. *)
Record MapDriver := { md_map : option MapValue; md_readptr : Z; md_write : bool }.

Definition MapDriver_add (self : MapDriver) (image_offset target_offset : Z)
    (target : list Z) : option MapDriver :=
  map ← md_map self;
  '(_, map) ← MapValue_add_point map image_offset target_offset target;
  Some {| md_map := Some map; md_readptr := md_readptr self; md_write := md_write self |}.

(** The error raised without a map changes nothing. *)
Definition MapDriver_write_from (self : MapDriver) (target : RDFURN)
    (target_offset target_length : Z) : option MapDriver :=
  match md_map self with
  | None => Some self
  | Some map =>
      '(_, map) ← MapValue_add_point map (u64 (md_readptr self)) target_offset (urn_value target);
      let readptr := i64 (u64 (md_readptr self) + target_length) in
      Some {| md_map := Some (with_size map (Z.max (mv_size map) readptr));
              md_readptr := readptr; md_write := md_write self |}
  end.

(** [MapDriver_seek] through [FileLikeObject_seek] for readers; an error for writers. *)
Definition MapDriver_seek (self : MapDriver) (offset : Z) (w : whence) : Z * MapDriver :=
  if md_write self then (u64 (-1), self)
  else
    let size := match md_map self with Some m => mv_size m | None => 0 end in
    let p := FileLikeObject_seek (md_readptr self) size offset w in
    (p, {| md_map := md_map self; md_readptr := p; md_write := md_write self |}).

Section Targets.

Context {F : Type}.
Variable open : RDFURN -> option F.
Variable seek : F -> Z -> F.
Variable read : F -> Z -> option (list Z).

(** [None] is -1. *)
Definition MapDriver_partial_read (self : MapDriver) (length : Z)
  : option (option (list Z) * MapDriver) :=
  map ← md_map self;
  r ← MapValue_get_range map (u64 (md_readptr self));
  match r with
  | None => Some (Some [], self)
  | Some r =>
      let available := Z.min (rg_available r) length in
      match open (rg_target r) with
      | None => Some (None, self)
      | Some fd =>
          match read (seek fd (i64 (rg_target_offset r))) (u32 available) with
          | None => Some (None, self)
          | Some bytes =>
              Some (Some bytes,
                    {| md_map := md_map self; md_readptr := md_readptr self + zlen bytes;
                       md_write := md_write self |})
          end
      end
  end.

(** The loop of [MapDriver_read]; [i] is the count it returns, [out] what is in the
    caller's buffer.  After an error the rest of the buffer is filled with zeros and
    [length] is added to the count; the count is an [int]. *)
Fixpoint map_read_loop (fuel : nat) (self : MapDriver) (length i : Z) (out : list Z)
  : option (Z * list Z * MapDriver) :=
  if u64 i <? length then
    match fuel with
    | O => None
    | S fuel =>
        '(res, self) ← MapDriver_partial_read self (length - i);
        match res with
        | Some [] => Some (i, out, self)
        | Some bytes =>
            let i' := i + zlen bytes in
            if i' <=? INT_MAX then map_read_loop fuel self length i' (out ++ bytes) else None
        | None =>
            let i' := i + i32 length in
            if i' <=? INT_MAX
            then map_read_loop fuel self length i'
                   (out ++ replicate (Z.to_nat (length - i)) 0)
            else None
        end
    end
  else Some (i, out, self).

Definition MapDriver_read (self : MapDriver) (length : Z) : option (Z * list Z * MapDriver) :=
  map ← md_map self;
  let length := Z.min length (u64 (mv_size map - md_readptr self)) in
  map_read_loop (Z.to_nat length) self length 0 [].

End Targets.

(** ** What a map means *)

Abbreviation io := mp_image_offset.

Definition pts (self : MapValue) : list map_point_node := tree_elements (trp_root (mv_tree self)).

(** The point the image follows at an offset. *)
Definition follow (l : list map_point_node) (off : Z) : option map_point_node :=
  match list_prev io off l with Some a => Some a | None => list_next io (off + 1) l end.

(** The offset in the target, for a period of the image and one of the target. *)
Definition interp (ip tp : Z) (a : map_point_node) (off : Z) : Z :=
  u64 (mp_target_offset a + off mod ip - io a + off / ip * tp).

Definition next_offset (size : Z) (l : list map_point_node) (off : Z) : Z :=
  match list_next io (off + 1) l with Some n => io n | None => size end.

(** The translation by a list of points. *)
Definition points_translate (targets : list RDFURN) (ip tp : Z) (l : list map_point_node)
    (off : Z) : option (RDFURN * Z) :=
  a ← follow l off; t ← targets !! Z.to_nat (mp_target_idx a); Some (t, interp ip tp a off).

(** The translation the map makes. *)
Definition translate (self : MapValue) (off : Z) : option (RDFURN * Z) :=
  match MapValue_get_range self off with
  | Some (Some r) => Some (rg_target r, rg_target_offset r)
  | _ => None
  end.

Record map_wf (self : MapValue) : Prop := {
  mw_tree : trp_ok io (mv_tree self);
  mw_points : Forall (fun a => 0 <= io a <= LLONG_MAX /\ 0 <= mp_target_idx a < zlen (mv_targets self)) (pts self);
  mw_urns : mv_number_of_urns self = zlen (mv_targets self);
  mw_cache : cache_wf (mv_cache self);
  mw_unbounded : max_cache_size (mv_cache self) = 0;
  mw_entries : forall key, entries (mv_cache self) key = [] \/
    exists i, entries (mv_cache self) key = [Some i];
  mw_index : forall name i, Cache_borrow (mv_cache self) (name ++ [0]) = Some i ->
    0 <= i < zlen (mv_targets self) /\
    mv_targets self !! Z.to_nat i = RDFURN_set RDFURN_Con (Some name)
}.

(** ** Lemmas on points *)

Lemma prev_split k b c :
  Forall (fun a => io a <= k) b -> Forall (fun a => k < io a) c ->
  list_prev io k (b ++ c) = last b.
Proof.
  intros Hb Hc. unfold list_prev. rewrite filter_app, filter_keep, filter_none, app_nil_r.
  - done.
  - eapply Forall_impl; [exact Hc|]. cbn. intros. lia.
  - done.
Qed.

Lemma next_split k b c :
  Forall (fun a => io a < k) b -> Forall (fun a => k <= io a) c ->
  list_next io k (b ++ c) = head c.
Proof.
  intros Hb Hc. unfold list_next. rewrite filter_app, filter_none, filter_keep; [done|done|].
  eapply Forall_impl; [exact Hb|]. cbn. intros. lia.
Qed.

(** A sorted list splits at any offset. *)
Lemma sorted_split l k :
  StronglySorted (klt io) l ->
  exists b c, l = b ++ c /\ Forall (fun a => io a <= k) b /\ Forall (fun a => k < io a) c.
Proof.
  induction 1 as [|a l Hs (b & c & -> & Hb & Hc) Ha]; [by exists [], []|].
  destruct (Z.le_gt_cases (io a) k).
  - exists (a :: b), c. split_and!; [done|by constructor|done].
  - exists [], (a :: b ++ c). split_and!; [done..|]. constructor; [lia|].
    eapply Forall_impl; [exact Ha|]. unfold klt. cbn. intros. lia.
Qed.

Lemma follow_split b c off :
  Forall (fun a => io a <= off) b -> Forall (fun a => off < io a) c ->
  follow (b ++ c) off = match last b with Some a => Some a | None => head c end.
Proof.
  intros Hb Hc. unfold follow. rewrite prev_split by done. destruct (last b); [done|].
  apply next_split.
  - eapply Forall_impl; [exact Hb|]. cbn. intros. lia.
  - eapply Forall_impl; [exact Hc|]. cbn. intros. lia.
Qed.

Lemma put_split a b c :
  Forall (fun p => io p < io a) b -> Forall (fun p => io a < io p) c ->
  list_put io a (b ++ c) = b ++ a :: c.
Proof.
  intros Hb Hc. unfold list_put, below, above. rewrite !filter_app.
  rewrite (filter_keep (fun p => io p < io a) b), (filter_none (fun p => io p < io a) c),
    (filter_none (fun p => io a < io p) b), (filter_keep (fun p => io a < io p) c), app_nil_r;
    try done; [eapply Forall_impl; [exact Hb|]|eapply Forall_impl; [exact Hc|]]; cbn; intros; lia.
Qed.

Lemma put_end a l : Forall (fun p => io p < io a) l -> list_put io a l = l ++ [a].
Proof.
  intros Hl. rewrite <- (app_nil_r l) at 1. apply put_split; [done|apply List.Forall_nil].
Qed.

(** A new point is followed where it is the last one, or, as the first point, before
    it; elsewhere the image follows the point it followed. *)
Lemma follow_put a b c off :
  StronglySorted (klt io) (b ++ c) ->
  Forall (fun p => io p < io a) b -> Forall (fun p => io a < io p) c ->
  follow (b ++ a :: c) off = follow (b ++ c) off \/
  follow (b ++ a :: c) off = Some a /\ follow (b ++ c) off = follow (b ++ c) (io a).
Proof.
  intros Hs Hb Hc. apply StronglySorted_app in Hs as (_ & Hsb & Hsc).
  assert (follow (b ++ c) (io a) = match last b with Some p => Some p | None => head c end) as Ha.
  { apply follow_split; [|done]. eapply Forall_impl; [exact Hb|]. cbn. intros. lia. }
  destruct (Z.lt_ge_cases off (io a)) as [Ho|Ho].
  - destruct (sorted_split b off Hsb) as (b1 & b2 & -> & H1 & H2).
    assert (Forall (fun p => off < io p) c)
      by (eapply Forall_impl; [exact Hc|]; cbn; intros; lia).
    rewrite <- !app_assoc, !follow_split in * by (try done; apply list.Forall_app; split; try done;
      constructor; done).
    destruct (last b1) eqn:E; [by left|]. apply last_None in E as ->.
    destruct b2 as [|p b2]; [|by left]. right. split; [done|]. symmetry. exact Ha.
  - destruct (sorted_split c off Hsc) as (c1 & c2 & -> & H1 & H2).
    assert (Forall (fun p => io p <= off) b)
      by (eapply Forall_impl; [exact Hb|]; cbn; intros; lia).
    replace (b ++ a :: c1 ++ c2) with ((b ++ a :: c1) ++ c2) by by rewrite <- app_assoc.
    rewrite Ha, app_assoc, !follow_split by (try done; apply list.Forall_app; split; try done;
      by constructor).
    rewrite last_app, last_cons, last_app.
    destruct (last c1) eqn:E; [by left|]. apply last_None in E as ->. by right.
Qed.

Lemma u64_eq a b : (a - b) mod 18446744073709551616 = 0 -> u64 a = u64 b.
Proof.
  unfold u64. intros H. apply Z.mod_divide in H as [k Hk]; [|done].
  replace a with (b + k * 18446744073709551616) by lia. apply Z_mod_plus_full.
Qed.

Lemma u64_i64 z : u64 (i64 z) = u64 z.
Proof.
  apply u64_eq. unfold i64. set (m := 18446744073709551616).
  replace ((z + 9223372036854775808) mod m - 9223372036854775808 - z)
    with ((z + 9223372036854775808) mod m - (z + 9223372036854775808)) by lia.
  rewrite Zminus_mod, Zmod_mod, Z.sub_diag. done.
Qed.

Lemma u64_shift a b c : u64 a = u64 b -> u64 (a + c) = u64 (b + c).
Proof.
  unfold u64. intros H. rewrite (Zplus_mod a), (Zplus_mod b), H. done.
Qed.

(** A point where the map predicts it goes on as the map did. *)
Lemma interp_redundant ip tp p a off :
  0 <= io a < ip -> u64 (mp_target_offset a) = interp ip tp p (io a) ->
  interp ip tp a off = interp ip tp p off.
Proof.
  intros Ha Hp. unfold interp in *. rewrite Z.mod_small, Z.div_small in Hp by lia.
  apply (u64_shift _ _ (off mod ip - io a + off / ip * tp)) in Hp.
  etrans; [|etrans; [exact Hp|]]; f_equal; lia.
Qed.

Lemma translate_redundant targets ip tp a b c p off :
  StronglySorted (klt io) (b ++ c) ->
  Forall (fun p => io p < io a) b -> Forall (fun p => io a < io p) c ->
  0 <= io a < ip -> follow (b ++ c) (io a) = Some p ->
  mp_target_idx p = mp_target_idx a -> u64 (mp_target_offset a) = interp ip tp p (io a) ->
  points_translate targets ip tp (b ++ a :: c) off = points_translate targets ip tp (b ++ c) off.
Proof.
  intros Hs Hb Hc Ha Hf Hi Ht. unfold points_translate.
  destruct (follow_put a b c off Hs Hb Hc) as [->|[-> ->]]; [done|].
  rewrite Hf. mred. by rewrite Hi, (interp_redundant ip tp p a off).
Qed.

(** ** Lemmas on maps *)

Lemma psearch_pts self k :
  trp_ok io (mv_tree self) -> psearch self k = list_prev io k (pts self).
Proof.
  intros [Hs _]. unfold psearch, tree_psearch. rewrite psearch_spec by done.
  by destruct (list_prev _ _ _).
Qed.

Lemma nsearch_pts self k :
  trp_ok io (mv_tree self) -> nsearch self k = list_next io k (pts self).
Proof.
  intros [Hs _]. unfold nsearch, tree_nsearch. rewrite nsearch_spec by done.
  by destruct (list_next _ _ _).
Qed.

Lemma list_prev_in k l a : list_prev io k l = Some a -> a ∈ l /\ io a <= k.
Proof. unfold list_prev. intros [Hk Hl]%last_Some_elem_of%list_elem_of_filter. done. Qed.

Lemma list_next_in k l a : list_next io k l = Some a -> a ∈ l /\ k <= io a.
Proof.
  unfold list_next. intros H. assert (a ∈ filter (fun p => k <= io p) l) as [Hk Hl]%list_elem_of_filter.
  { destruct (filter _ l); simplify_eq/=. left. }
  done.
Qed.

Lemma follow_in l off a : follow l off = Some a -> a ∈ l.
Proof.
  unfold follow. destruct (list_prev io off l) eqn:E; intros ?; simplify_eq.
  - by eapply list_prev_in.
  - by eapply list_next_in.
Qed.

Lemma point_target self a :
  map_wf self -> a ∈ pts self -> is_Some (mv_targets self !! Z.to_nat (mp_target_idx a)).
Proof.
  intros Hw Ha. pose proof (mw_points _ Hw) as Hp. rewrite list.Forall_forall in Hp.
  destruct (Hp a Ha) as [_ ?]. apply lookup_lt_is_Some. unfold zlen in *. lia.
Qed.

(** [get_range] in terms of the points in order. *)
Lemma get_range_spec self off :
  map_wf self -> 0 <= off < LLONG_MAX -> u64 (mv_image_period self) <> 0 ->
  MapValue_get_range self off =
  Some (a ← follow (pts self) off;
        t ← mv_targets self !! Z.to_nat (mp_target_idx a);
        Some {| rg_target := t; rg_target_idx := mp_target_idx a;
                rg_target_offset :=
                  interp (u64 (mv_image_period self)) (mv_target_period self) a off;
                rg_available := u64 (u64 (next_offset (mv_size self) (pts self) off) - off) |}).
Proof.
  intros Hw Ho Hp. unfold MapValue_get_range. rewrite i64_small by (unfold LLONG_MAX in *; lia).
  rewrite (proj2 (Z.eqb_neq _ _) Hp), (proj2 (Z.eqb_neq off LLONG_MAX)) by lia.
  pose proof (mw_tree _ Hw). rewrite psearch_pts, nsearch_pts by done.
  pose proof (follow_in (pts self) off) as Hin. unfold follow, next_offset in *.
  destruct (list_prev io off (pts self)) as [a|].
  - destruct (point_target self a Hw (Hin a eq_refl)) as [t Ht]. mred. rewrite Ht. done.
  - destruct (list_next io (off + 1) (pts self)) as [a|]; [|done].
    destruct (point_target self a Hw (Hin a eq_refl)) as [t Ht]. mred. rewrite Ht. mred.
    repeat f_equal. unfold interp. f_equal. lia.
Qed.

Lemma translate_points self off :
  map_wf self -> 0 <= off < LLONG_MAX -> u64 (mv_image_period self) <> 0 ->
  translate self off =
    points_translate (mv_targets self) (u64 (mv_image_period self)) (mv_target_period self)
      (pts self) off.
Proof.
  intros Hw Ho Hp. unfold translate, points_translate. rewrite get_range_spec by done.
  destruct (follow (pts self) off) as [a|]; mred; [|done].
  by destruct (mv_targets self !! Z.to_nat (mp_target_idx a)).
Qed.

(** The index found or allotted is that of the target. *)
Lemma target_index_spec self target :
  map_wf self -> cstring target -> zlen target < BUFF_SIZE ->
  exists i urn self', target_index self target = Some (i, self') /\ map_wf self' /\
    RDFURN_set RDFURN_Con (Some target) = Some urn /\
    0 <= i < zlen (mv_targets self') /\ mv_targets self' !! Z.to_nat i = Some urn /\
    mv_tree self' = mv_tree self /\ mv_size self' = mv_size self /\
    mv_image_period self' = mv_image_period self /\
    mv_target_period self' = mv_target_period self /\
    mv_number_of_urns self' <= mv_number_of_urns self + 1 /\
    mv_targets self `prefix_of` mv_targets self'.
Proof.
  intros Hw Hc Hl. destruct (RDFURN_set_ok RDFURN_Con target Hc Hl) as (urn & Hu & _).
  unfold target_index. destruct (Cache_borrow (mv_cache self) (target ++ [0])) as [i|] eqn:Hb.
  { destruct (mw_index _ Hw target i Hb) as [Hi Ht]. exists i, urn, self.
    split_and!; try done; try lia. by rewrite Ht. }
  rewrite Hu. mred. destruct Hw as [Ht Hp Hn Hcw Hm He Hi].
  rewrite cache_put_unbounded by done. mred.
  assert (entries (mv_cache self) (target ++ [0]) = []) as Hnil.
  { destruct (He (target ++ [0])) as [|[i Hi']]; [done|].
    rewrite Cache_borrow_entries, Hi' in Hb. done. }
  set (c' := cache_link _ _ _).
  assert (forall key, entries c' key =
    if decide (target ++ [0] = key) then [Some (mv_number_of_urns self)]
    else entries (mv_cache self) key) as Hlink.
  { intros key. unfold c'. rewrite entries_link by done.
    case_decide; [subst; by rewrite Hnil|by rewrite app_nil_r]. }
  assert (cache_wf c' /\ max_cache_size c' = 0) as [Hcw' Hm'] by (split; [by apply wf_link|done]).
  clearbody c'. do 3 eexists. split; [reflexivity|]. split.
  { split; cbn; try done.
    - eapply Forall_impl; [exact Hp|]. cbn. intros a [? ?]. wlen.
    - wlen.
    - intros key. rewrite Hlink. case_decide; [right; by eexists|]. apply He.
    - intros name i. rewrite Cache_borrow_entries, Hlink, zlen_app.
      change (zlen [urn]) with 1. case_decide as Hd.
      + intros [= <-]. apply (inj (.++ [0])) in Hd as ->. zlen_facts. split; [lia|].
        rewrite Hn. unfold zlen. by rewrite Nat2Z.id, list_lookup_middle.
      + rewrite <- Cache_borrow_entries. intros [? Hi']%Hi. split; [lia|].
        rewrite lookup_app_l; [done|]. unfold zlen in *. lia. }
  cbn. rewrite zlen_app. change (zlen [urn]) with 1. zlen_facts. split_and!; try done; try lia.
  - rewrite Hn. unfold zlen. by rewrite Nat2Z.id, list_lookup_middle.
  - by exists [urn].
Qed.

Lemma with_tree_wf self t n :
  map_wf self -> trp_ok io t ->
  Forall (fun a => 0 <= io a <= LLONG_MAX /\ 0 <= mp_target_idx a < zlen (mv_targets self))
    (tree_elements (trp_root t)) ->
  map_wf (with_tree self t n).
Proof. intros [Ht Hp Hn Hcw Hm He Hi] Ht' Hp'. by split. Qed.

Lemma drop_key_none k l : list_get io k l = None -> list_drop_key io k l = l.
Proof.
  unfold list_get, list_drop_key. intros H. apply filter_keep. apply list.Forall_forall.
  intros a Ha Hk. assert (a ∈ filter (fun a => io a = k) l) as Hf by by apply list_elem_of_filter.
  by destruct (filter _ l); [apply not_elem_of_nil in Hf|].
Qed.

Lemma remove_point_spec self k :
  map_wf self ->
  exists t, remove_point self k = with_tree self t (mv_number_of_points self) /\ trp_ok io t /\
    tree_elements (trp_root t) = list_drop_key io k (pts self) /\ map_wf (remove_point self k).
Proof.
  intros Hw. pose proof (mw_tree _ Hw) as Ht. unfold remove_point.
  rewrite (search_spec io) by apply Ht.
  destruct (list_get io k _) as [a|] eqn:E.
  - destruct (tree_remove_spec io (mv_tree self) k Ht) as [Ht' He]. eexists.
    split_and!; [done..|]. apply with_tree_wf; [done..|]. rewrite He.
    pose proof (mw_points _ Hw) as Hp. unfold list_drop_key, pts in *.
    apply list.Forall_forall. intros b [_ Hb]%list_elem_of_filter.
    rewrite list.Forall_forall in Hp. by apply Hp.
  - exists (mv_tree self). split_and!; [by destruct self|done| |done].
    symmetry. by apply drop_key_none.
Qed.

(** Without its point at [k] the list splits around [k]. *)
Lemma drop_key_split k l :
  StronglySorted (klt io) l ->
  exists b c, list_drop_key io k l = b ++ c /\ StronglySorted (klt io) (b ++ c) /\
    Forall (fun p => io p < k) b /\ Forall (fun p => k < io p) c.
Proof.
  intros Hs. assert (StronglySorted (klt io) (list_drop_key io k l)) as Hd
    by by apply filter_sorted.
  assert (Forall (fun p => io p <> k) (list_drop_key io k l)) as Hk.
  { apply list.Forall_forall. by intros p [Hp _]%list_elem_of_filter. }
  destruct (sorted_split _ k Hd) as (b & c & E & Hb & Hc). rewrite E in *.
  exists b, c. split_and!; [done..| |done].
  apply list.Forall_app in Hk as [Hk _]. apply list.Forall_forall. intros p Hp.
  rewrite list.Forall_forall in Hk, Hb. specialize (Hk p Hp). specialize (Hb p Hp). cbn in *. lia.
Qed.

Lemma store_point self a n :
  map_wf self -> list_get io (io a) (pts self) = None -> 0 <= io a <= LLONG_MAX ->
  0 <= mp_target_idx a < zlen (mv_targets self) ->
  exists t, tree_insert io (mv_tree self) a = Some t /\ map_wf (with_tree self t n) /\
    pts (with_tree self t n) = list_put io a (pts self).
Proof.
  intros Hw Hg Ha Hi. pose proof (tree_insert_spec io _ a (mw_tree _ Hw)) as Hs.
  unfold pts in *. destruct (tree_insert io (mv_tree self) a) as [t|].
  - destruct Hs as (Ht & _ & He). exists t. split_and!; [done| |done].
    apply with_tree_wf; [done..|]. rewrite He. unfold list_put, below, above.
    pose proof (mw_points _ Hw) as Hp. rewrite list.Forall_forall in Hp.
    apply list.Forall_app. split; [|constructor; [done|]];
      apply list.Forall_forall; intros b [_ Hb]%list_elem_of_filter; by apply Hp.
  - rewrite Hg in Hs. by destruct Hs.
Qed.

Lemma get_drop_key k l : list_get io k (list_drop_key io k l) = None.
Proof.
  unfold list_get, list_drop_key. rewrite filter_none; [done|].
  apply list.Forall_forall. by intros p [Hp _]%list_elem_of_filter.
Qed.

(** The fields that storing a point leaves alone. *)
Definition same_targets (self self' : MapValue) : Prop :=
  mv_targets self' = mv_targets self /\ mv_size self' = mv_size self /\
  mv_image_period self' = mv_image_period self /\
  mv_target_period self' = mv_target_period self /\
  mv_number_of_urns self' = mv_number_of_urns self.

Lemma put_point_spec self image_offset target_offset i :
  map_wf self -> mv_number_of_urns self <= INT_MAX ->
  list_get io image_offset (pts self) = None ->
  0 <= image_offset < LLONG_MAX -> image_offset < u64 (mv_image_period self) ->
  0 <= target_offset < 18446744073709551616 -> 0 <= i < zlen (mv_targets self) ->
  let a := new_point image_offset target_offset i in
  exists available self', put_point self image_offset target_offset i = Some (available, self') /\
    map_wf self' /\ same_targets self self' /\
    (pts self' = list_put io a (pts self) \/ pts self' = pts self /\ pts self <> []) /\
    forall off, 0 <= off < LLONG_MAX ->
      translate self' off =
        points_translate (mv_targets self) (u64 (mv_image_period self))
          (mv_target_period self) (list_put io a (pts self)) off.
Proof.
  intros Hw Hu Hg Ho Hper Hto Hi a. pose proof (mw_urns _ Hw) as Hn.
  assert (io a = image_offset) as Ha by (apply i64_small; unfold LLONG_MAX in *; lia).
  assert (mp_target_idx a = i) as Hai by (apply u32_small; unfold INT_MAX in *; lia).
  unfold put_point. rewrite get_range_spec by (done || lia). mred.
  destruct (redundant _ i target_offset) eqn:Hr.
  - destruct (follow (pts self) image_offset) as [p|] eqn:Hf; [|done].
    destruct (point_target self p Hw (follow_in _ _ _ Hf)) as [t Ht]. cbn in Hr. rewrite Ht in Hr.
    apply andb_true_iff in Hr as [Hri%Z.eqb_eq Hrt%Z.eqb_eq]. cbn in Hri, Hrt.
    do 2 eexists. split; [reflexivity|]. split_and!; [done..| |].
    { right. split; [done|]. intros E. by rewrite E in Hf. }
    intros off Hoff. rewrite translate_points by (done || lia).
    destruct (drop_key_split image_offset (pts self)) as (b & c & E & Hs & Hb & Hc).
    { apply (mw_tree _ Hw). }
    rewrite drop_key_none in E by done. rewrite E in *.
    rewrite put_split by by rewrite Ha. symmetry.
    apply (translate_redundant _ _ _ _ _ _ p); rewrite ?Ha; try done; try lia.
    cbn. rewrite u64_i64, u64_small, Hrt by lia. done.
  - fold a. destruct (store_point self a (mv_number_of_points self + 1) Hw) as (t & -> & Hw' & Hp');
      [by rewrite Ha|lia|lia|].
    mred. do 2 eexists. split; [reflexivity|]. split_and!; [done..| |].
    { by left. }
    intros off Hoff.
    rewrite translate_points by (done || (cbn [with_tree mv_image_period]; lia)). by rewrite Hp'.
Qed.

Lemma add_point_spec self image_offset target_offset target :
  map_wf self -> mv_number_of_urns self < INT_MAX ->
  cstring target -> zlen target < BUFF_SIZE ->
  0 <= image_offset < LLONG_MAX -> image_offset < u64 (mv_image_period self) ->
  0 <= target_offset < 18446744073709551616 ->
  exists available i urn self',
    MapValue_add_point self image_offset target_offset target = Some (available, self') /\
    map_wf self' /\ RDFURN_set RDFURN_Con (Some target) = Some urn /\
    mv_targets self' !! Z.to_nat i = Some urn /\ mv_targets self `prefix_of` mv_targets self' /\
    mv_size self' = mv_size self /\ mv_image_period self' = mv_image_period self /\
    mv_target_period self' = mv_target_period self /\
    mv_number_of_urns self' <= mv_number_of_urns self + 1 /\
    let a := new_point image_offset target_offset i in
    let l := list_drop_key io image_offset (pts self) in
    mp_target_idx a = i /\ (pts self' = list_put io a l \/ pts self' = l /\ l <> []) /\
    forall off, 0 <= off < LLONG_MAX ->
      translate self' off =
        points_translate (mv_targets self') (u64 (mv_image_period self))
          (mv_target_period self) (list_put io a l) off.
Proof.
  intros Hw Hu Hc Hl Ho Hper Hto.
  destruct (target_index_spec self target Hw Hc Hl) as
    (i & urn & s1 & E1 & Hw1 & Hurn & Hi & Hti & Ht1 & Hs1 & Hip1 & Htp1 & Hn1 & Hpre).
  pose proof (mw_urns _ Hw1) as Hu1. unfold MapValue_add_point. rewrite E1. mred.
  rewrite i64_small by (unfold LLONG_MAX in *; lia).
  destruct (remove_point_spec s1 image_offset Hw1) as (t & E2 & Ht & Hel & Hw2).
  assert (pts (remove_point s1 image_offset) = list_drop_key io image_offset (pts self)) as Hp2
    by (rewrite E2; unfold pts in *; cbn; by rewrite Hel, Ht1).
  assert (same_targets s1 (remove_point s1 image_offset)) as (Q1 & Q2 & Q3 & Q4 & Q5)
    by by rewrite E2.
  destruct (put_point_spec (remove_point s1 image_offset) image_offset target_offset i)
    as (av & s3 & E3 & Hw3 & (R1 & R2 & R3 & R4 & R5) & Hp3 & Htr);
    rewrite ?Hp2, ?Q1, ?Q2, ?Q3, ?Q4, ?Q5, ?Hip1 in *; try done; [lia|apply get_drop_key|].
  exists av, i, urn, s3. rewrite Htp1 in Htr. rewrite R1.
  split_and!; try done; try congruence; try lia.
  apply u32_small. unfold INT_MAX in *. lia.
Qed.

(** ** Reading *)

Section Reading.

Context {F : Type} (open : RDFURN -> option F) (seek : F -> Z -> F)
  (read : F -> Z -> option (list Z)).

(** The streams that can be opened, by what reading them gives. *)
Definition serves (content : RDFURN -> option (list Z)) : Prop :=
  forall urn c, content urn = Some c ->
    exists fd, open urn = Some fd /\
      forall off n, 0 <= off <= LLONG_MAX -> 0 <= n ->
        read (seek fd off) n = Some (zread off n c).

(** The byte of the image at an offset. *)
Definition map_byte (content : RDFURN -> option (list Z)) (self : MapValue) (off : Z) : option Z :=
  '(urn, t) ← translate self off; c ← content urn; c !! Z.to_nat t.

(** The bytes of a part of the image; [None] where it is not in the targets. *)
Definition map_bytes (content : RDFURN -> option (list Z)) (self : MapValue) (pos n : Z)
  : option (list Z) :=
  mapM (map_byte content self) (seqZ pos n).

(** Every offset of the map is in its target. *)
Definition map_covered (content : RDFURN -> option (list Z)) (self : MapValue) : Prop :=
  forall off, 0 <= off < mv_size self ->
    exists urn t c, translate self off = Some (urn, t) /\ content urn = Some c /\
      0 <= t < zlen c /\ zlen c <= LLONG_MAX.

Lemma mapM_ext_in {A B} (f g : A -> option B) l :
  (forall x, x ∈ l -> f x = g x) -> mapM f l = mapM g l.
Proof.
  induction l as [|x l IH]; intros He; cbn; [done|]. rewrite He by left.
  destruct (g x); cbn; [|done]. rewrite IH; [done|]. intros y Hy. apply He. by right.
Qed.

Lemma map_bytes_ext content (map map' : MapValue) pos n :
  (forall off, pos <= off < pos + n -> translate map' off = translate map off) ->
  map_bytes content map' pos n = map_bytes content map pos n.
Proof.
  intros He. unfold map_bytes. apply mapM_ext_in. intros off Ho%elem_of_seqZ.
  unfold map_byte. rewrite He; [done|lia].
Qed.

Lemma map_bytes_run content map pos n urn t c :
  0 <= pos -> 0 <= n -> content urn = Some c -> 0 <= t -> t + n <= zlen c ->
  (forall off, pos <= off < pos + n -> translate map off = Some (urn, t + (off - pos))) ->
  map_bytes content map pos n = Some (zread t n c).
Proof.
  intros Hp Hn Hc Ht Hl Htr. apply mapM_Some_2, Forall2_same_length_lookup_2.
  - pose proof (zlen_zread t n c). rewrite length_seqZ. unfold zlen in *. lia.
  - intros i x y Hx Hy. apply lookup_seqZ in Hx as [-> Hi].
    unfold map_byte. rewrite Htr by lia. mred. rewrite Hc. mred.
    unfold zread, ztake, zdrop in Hy. rewrite lookup_take_Some, lookup_drop in Hy.
    destruct Hy as [Hy _]. rewrite <- Hy. f_equal. lia.
Qed.

Definition at_readptr (map : MapValue) (w : bool) (p : Z) : MapDriver :=
  {| md_map := Some map; md_readptr := p; md_write := w |}.

Variable content : RDFURN -> option (list Z).
Hypothesis Hserves : serves content.

Variables (map : MapValue) (w : bool).
Hypothesis Hwf : map_wf map.
Hypothesis Hsize : 0 <= mv_size map < LLONG_MAX.
Hypothesis Hperiod : mv_size map <= u64 (mv_image_period map).
Hypothesis Hcovered : map_covered content map.

Lemma follow_same off d a :
  0 <= d -> off + d < next_offset (mv_size map) (pts map) off ->
  follow (pts map) off = Some a -> off + d < mv_size map -> follow (pts map) (off + d) = Some a.
Proof.
  intros Hd Hn Hf Hs. destruct (sorted_split (pts map) off) as (b & c & E & Hb & Hc).
  { apply (mw_tree _ Hwf). }
  rewrite E in *. rewrite follow_split in Hf by done.
  assert (next_offset (mv_size map) (b ++ c) off
          = match head c with Some n => io n | None => mv_size map end) as En.
  { unfold next_offset. rewrite next_split; [done| |].
    - eapply Forall_impl; [exact Hb|]. cbn. intros. lia.
    - eapply Forall_impl; [exact Hc|]. cbn. intros. lia. }
  rewrite En in Hn. rewrite follow_split; [done| |].
  - eapply Forall_impl; [exact Hb|]. cbn. intros. lia.
  - assert (StronglySorted (klt io) c) as Hsc.
    { pose proof (mw_tree _ Hwf) as [Hst _]. unfold tree_sorted in Hst. fold (pts map) in Hst.
      rewrite E in Hst. by apply StronglySorted_app in Hst as (_ & _ & ?). }
    destruct c as [|n c]; [constructor|]. cbn in Hn. apply StronglySorted_inv in Hsc as [_ Hsc].
    constructor; [lia|]. eapply Forall_impl; [exact Hsc|]. unfold klt. cbn. intros. lia.
Qed.

Lemma interp_step a off d :
  0 <= off -> 0 <= d -> off + d < mv_size map ->
  interp (u64 (mv_image_period map)) (mv_target_period map) a (off + d)
  = u64 (interp (u64 (mv_image_period map)) (mv_target_period map) a off + d).
Proof.
  intros Ho Hd Hs. unfold interp. rewrite !Z.mod_small, !Z.div_small by lia.
  unfold u64. rewrite Zplus_mod_idemp_l. f_equal. lia.
Qed.

Lemma translate_at off :
  0 <= off < mv_size map ->
  translate map off =
    points_translate (mv_targets map) (u64 (mv_image_period map)) (mv_target_period map)
      (pts map) off.
Proof. intros Ho. apply translate_points; [done|lia|lia]. Qed.

(** The offsets up to the next point are consecutive in one target. *)
Lemma translate_run off n :
  0 <= off -> 0 < n <= INT_MAX -> off + n <= mv_size map ->
  off + n <= next_offset (mv_size map) (pts map) off ->
  exists urn t c, translate map off = Some (urn, t) /\ content urn = Some c /\
    0 <= t /\ t + n <= zlen c /\ zlen c <= LLONG_MAX /\
    map_bytes content map off n = Some (zread t n c).
Proof.
  intros Ho Hn Hs Hnext. unfold LLONG_MAX, INT_MAX in *.
  destruct (Hcovered off) as (urn & t & c & Ht & Hc & Htc & Hcl); [lia|].
  assert (forall d, 0 <= d < n -> translate map (off + d) = Some (urn, t + d) /\ t + d < zlen c)
    as Hrun.
  { intros d Hd. destruct (Hcovered (off + d)) as (urn' & t' & c' & Ht' & Hc' & Htc' & _); [lia|].
    rewrite translate_at in Ht, Ht' by lia. unfold points_translate in *.
    destruct (follow (pts map) off) as [a|] eqn:Hf; [|done].
    rewrite (follow_same off d a) in Ht' by (done || lia). cbn in Ht, Ht'.
    destruct (mv_targets map !! _) as [u|] eqn:Hu; simplify_eq/=.
    rewrite interp_step in Htc' by lia. unfold LLONG_MAX in *. rewrite u64_small in Htc' by lia.
    split; [|lia]. rewrite translate_at by lia. unfold points_translate.
    rewrite (follow_same off d a) by (done || lia). cbn. rewrite Hu. cbn.
    rewrite interp_step by lia. by rewrite u64_small by lia. }
  exists urn, t, c. destruct (Hrun (n - 1)); [lia|]. split_and!; try done; try lia.
  apply (map_bytes_run _ _ _ _ urn); try done; try lia. intros off' Ho'.
  destruct (Hrun (off' - off)) as [<- _]; [lia|]. f_equal. lia.
Qed.

Lemma partial_read_spec p length :
  0 <= p -> 0 < length <= INT_MAX -> p + length <= mv_size map ->
  exists n bytes, 0 < n <= length /\ zlen bytes = n /\
    map_bytes content map p n = Some bytes /\
    MapDriver_partial_read open seek read (at_readptr map w p) length
    = Some (Some bytes, at_readptr map w (p + n)).
Proof.
  intros Hp Hl Hs.
  assert (p < next_offset (mv_size map) (pts map) p <= LLONG_MAX) as Hnext.
  { unfold next_offset. destruct (list_next io (p + 1) (pts map)) as [n|] eqn:E; [|lia].
    apply list_next_in in E as [Hin Hn]. pose proof (mw_points _ Hwf) as Hpt.
    rewrite list.Forall_forall in Hpt. specialize (Hpt n Hin). cbn in Hpt. lia. }
  set (next := next_offset (mv_size map) (pts map) p) in *.
  set (n := Z.min (next - p) length).
  destruct (translate_run p n) as (urn & t & c & Ht & Hc & Ht0 & Htn & Hcl & Hb);
    [lia|lia|lia|unfold n, next; lia|].
  exists n, (zread t n c). unfold LLONG_MAX, INT_MAX in *.
  assert (zlen (zread t n c) = n) as Hlen by (rewrite zlen_zread; lia).
  split_and!; [lia|lia|done|done|].
  unfold MapDriver_partial_read. cbn [md_map md_readptr at_readptr]. mred.
  rewrite (u64_small p), get_range_spec by (done || unfold LLONG_MAX; lia). fold next. mred.
  unfold translate in Ht. rewrite get_range_spec in Ht by (done || unfold LLONG_MAX; lia).
  destruct (follow (pts map) p) as [a|]; [|done]. cbn [mbind option_bind] in *.
  destruct (mv_targets map !! Z.to_nat (mp_target_idx a)) as [u|]; cbn in Ht; [|done].
  injection Ht as -> Ht. mred.
  cbn [rg_target rg_target_offset rg_available]. rewrite Ht.
  destruct (Hserves urn c Hc) as (fd & -> & Hr).
  rewrite (u64_small next), (u64_small (next - p)), i64_small, u32_small by lia.
  fold n. rewrite Hr by (unfold LLONG_MAX; lia). by rewrite Hlen.
Qed.

Lemma map_bytes_app p n m a b :
  0 <= n -> 0 <= m -> map_bytes content map p n = Some a ->
  map_bytes content map (p + n) m = Some b -> map_bytes content map p (n + m) = Some (a ++ b).
Proof.
  unfold map_bytes. intros Hn Hm Ha Hb. rewrite seqZ_app by lia.
  apply mapM_Some in Ha, Hb. apply mapM_Some_2. by apply Forall2_app.
Qed.

Lemma map_read_loop_spec fuel p length i out :
  0 <= p -> 0 <= i <= length -> length <= INT_MAX -> p + (length - i) <= mv_size map ->
  length - i <= Z.of_nat fuel ->
  exists bytes, map_bytes content map p (length - i) = Some bytes /\
    map_read_loop open seek read fuel (at_readptr map w p) length i out
    = Some (length, out ++ bytes, at_readptr map w (p + (length - i))).
Proof.
  revert p i out. induction fuel as [|fuel IH]; intros p i out Hp Hi Hl Hs Hf;
    cbn [map_read_loop]; rewrite u64_small by (unfold INT_MAX in *; lia);
    destruct (Z.ltb_spec i length); try lia.
  1, 3: replace (length - i) with 0 by lia; exists [];
    rewrite Z.add_0_r, app_nil_r; replace i with length by lia; done.
  destruct (partial_read_spec p (length - i)) as (n & bytes & Hn & Hlen & Hb & ->);
    [lia|lia|lia|]. mred.
  destruct bytes as [|x bytes]; [change (zlen (@nil Z)) with 0 in Hlen; lia|].
  rewrite Hlen, (proj2 (Z.leb_le _ _)) by (unfold INT_MAX in *; lia).
  destruct (IH (p + n) (i + n) (out ++ x :: bytes)) as (rest & Hr & ->); [lia..|].
  exists ((x :: bytes) ++ rest). split.
  - replace (length - i) with (n + (length - (i + n))) by lia. apply map_bytes_app; [lia..|done|done].
  - replace (p + n + (length - (i + n))) with (p + (length - i)) by lia. by rewrite <- app_assoc.
Qed.

Lemma map_read_spec p length :
  0 <= p <= mv_size map -> 0 <= length ->
  Z.min length (mv_size map - p) <= INT_MAX ->
  let n := Z.min length (mv_size map - p) in
  exists bytes, map_bytes content map p n = Some bytes /\
    MapDriver_read open seek read (at_readptr map w p) length
    = Some (n, bytes, at_readptr map w (p + n)).
Proof.
  intros Hp Hl Hmax n. unfold MapDriver_read. cbn [md_map md_readptr at_readptr]. mred.
  rewrite u64_small by (unfold LLONG_MAX in *; lia). fold n.
  destruct (map_read_loop_spec (Z.to_nat n) p n 0 []) as (bytes & Hb & E); [lia..|].
  rewrite Z.sub_0_r in *. eauto.
Qed.

End Reading.

(** ** Maps built piece by piece *)

(** The arguments of a call of [write_from]. *)
Record piece := { pc_target : RDFURN; pc_offset : Z; pc_length : Z }.

Fixpoint map_write_all (self : MapDriver) (ps : list piece) : option MapDriver :=
  match ps with
  | [] => Some self
  | p :: ps =>
      self ← MapDriver_write_from self (pc_target p) (pc_offset p) (pc_length p);
      map_write_all self ps
  end.

Fixpoint total (ps : list piece) : Z :=
  match ps with [] => 0 | p :: ps => pc_length p + total ps end.

(** The bytes of a piece: a part of the stream its target names. *)
Definition piece_bytes (content : RDFURN -> option (list Z)) (p : piece) : list Z :=
  match RDFURN_copy (pc_target p) ≫= content with
  | Some c => zread (pc_offset p) (pc_length p) c
  | None => []
  end.

Definition piece_ok (content : RDFURN -> option (list Z)) (p : piece) : Prop :=
  0 < pc_length p /\ 0 <= pc_offset p /\
  cstring (urn_value (pc_target p)) /\ zlen (urn_value (pc_target p)) < BUFF_SIZE /\
  exists c, RDFURN_copy (pc_target p) ≫= content = Some c /\
    pc_offset p + pc_length p <= zlen c /\ zlen c <= LLONG_MAX.

Section Built.

Variable content : RDFURN -> option (list Z).

Record built (map : MapValue) (data : list Z) (n : Z) : Prop := {
  bt_wf : map_wf map;
  bt_image_period : mv_image_period map = -1;
  bt_size : mv_size map = zlen data;
  bt_urns : mv_number_of_urns map <= n;
  bt_below : Forall (fun a => io a < zlen data) (pts map);
  bt_first : 0 < zlen data -> is_Some (list_prev io 0 (pts map));
  bt_covered : map_covered content map;
  bt_bytes : map_bytes content map 0 (zlen data) = Some data
}.

Lemma MapValue_Con_wf : map_wf MapValue_Con.
Proof.
  split; try done.
  - split; [constructor|done].
  - by apply Cache_Con_wf.
  - intros key. by left.
Qed.

Lemma built_nil : built MapValue_Con [] 0.
Proof.
  split; try done.
  - apply MapValue_Con_wf.
  - intros off Ho. cbn in Ho. lia.
Qed.

Lemma translate_with_size map n off :
  map_wf map -> 0 <= off < LLONG_MAX -> u64 (mv_image_period map) <> 0 ->
  translate (with_size map n) off = translate map off.
Proof.
  intros [] Ho Hp. rewrite !translate_points; try done; by split.
Qed.

Lemma prev_mono k k' l : k <= k' -> is_Some (list_prev io k l) -> is_Some (list_prev io k' l).
Proof.
  intros Hk [a [Hin Ha]%list_prev_in]. unfold list_prev.
  apply not_eq_None_Some. rewrite last_None. intros E.
  assert (a ∈ filter (fun p => io p <= k') l) as Hf by (apply list_elem_of_filter; split; [lia|done]).
  rewrite E in Hf. by apply not_elem_of_nil in Hf.
Qed.

Lemma drop_key_below k l : Forall (fun a => io a < k) l -> list_drop_key io k l = l.
Proof.
  intros Hl. apply filter_keep. eapply Forall_impl; [exact Hl|]. cbn. intros. lia.
Qed.

(** The translation after a point at the end of the map. *)
Lemma translate_snoc targets targets' ip tp l a off :
  targets `prefix_of` targets' ->
  Forall (fun p => io p < io a /\ 0 <= mp_target_idx p < zlen targets) l ->
  is_Some (list_prev io off l) \/ io a <= off ->
  points_translate targets' ip tp (l ++ [a]) off =
  if off <? io a then points_translate targets ip tp l off
  else t ← targets' !! Z.to_nat (mp_target_idx a); Some (t, interp ip tp a off).
Proof.
  intros [ext ->] Hl Ho. unfold points_translate, follow.
  destruct (Z.ltb_spec off (io a)).
  - destruct Ho as [[p Hp]|]; [|lia].
    assert (list_prev io off (l ++ [a]) = Some p) as ->.
    { unfold list_prev in *. rewrite filter_app, filter_cons_False, app_nil_r by lia. done. }
    rewrite Hp. mred. rewrite lookup_app_l; [done|].
    apply list_prev_in in Hp as [Hp _]. rewrite list.Forall_forall in Hl.
    destruct (Hl p Hp) as [_ ?]. unfold zlen in *. lia.
  - rewrite <- (app_nil_r (l ++ [a])), prev_split, last_snoc; [done| |constructor].
    apply list.Forall_app. split; [|by constructor].
    eapply Forall_impl; [exact Hl|]. cbn. intros. lia.
Qed.

Lemma prev_snoc k l a :
  is_Some (list_prev io k l) \/ io a <= k -> is_Some (list_prev io k (l ++ [a])).
Proof.
  intros Hk. unfold list_prev in *. apply not_eq_None_Some. rewrite last_None, filter_app, filter_cons.
  intros [E1 E2]%app_nil. case_decide; [done|]. destruct Hk as [Hk|Hk]; [|done].
  rewrite E1 in Hk. by destruct Hk.
Qed.

(** Adding a piece's point keeps the translation below it and translates the piece. *)
Lemma built_add_point map data n p :
  built map data n -> n < INT_MAX -> piece_ok content p ->
  zlen data + pc_length p < LLONG_MAX ->
  exists av map' urn c,
    MapValue_add_point map (zlen data) (pc_offset p) (urn_value (pc_target p)) = Some (av, map') /\
    map_wf map' /\ mv_image_period map' = -1 /\ mv_size map' = zlen data /\
    mv_number_of_urns map' <= n + 1 /\
    Forall (fun a => io a < zlen data + pc_length p) (pts map') /\
    is_Some (list_prev io 0 (pts map')) /\
    content urn = Some c /\ pc_offset p + pc_length p <= zlen c <= LLONG_MAX /\
    piece_bytes content p = zread (pc_offset p) (pc_length p) c /\
    (forall off, 0 <= off < zlen data -> translate map' off = translate map off) /\
    (forall off, zlen data <= off < zlen data + pc_length p ->
       translate map' off = Some (urn, pc_offset p + (off - zlen data))).
Proof.
  intros [Hw Hip Hsz Hun Hbel Hfst _ _] Hn (Hlen & Hoff & Hcs & Hcl & c & Hc & Hpc & Hcm) Htot.
  pose proof (zlen_nonneg data) as H0. unfold LLONG_MAX, INT_MAX in *.
  assert (zlen data < u64 (mv_image_period map)) as Hper.
  { rewrite Hip. change (u64 (-1)) with 18446744073709551615. lia. }
  destruct (add_point_spec map (zlen data) (pc_offset p) (urn_value (pc_target p)))
    as (av & i & urn & map' & E & Hw' & Hurn & Hti & Hpre & Hsz' & Hip' & Htp' & Hun' & Hidx & Hpts & Htr);
    try done; unfold LLONG_MAX, INT_MAX in *; try lia.
  rewrite drop_key_below in Hpts, Htr by done.
  set (a := new_point (zlen data) (pc_offset p) i) in *.
  assert (io a = zlen data) as Ha by (apply i64_small; lia).
  rewrite put_end in Hpts, Htr by by rewrite Ha. unfold RDFURN_copy in Hc. rewrite Hurn in Hc. cbn in Hc.
  assert (Forall (fun p => io p < io a /\ 0 <= mp_target_idx p < zlen (mv_targets map)) (pts map))
    as Hall.
  { rewrite Ha. apply Forall_and. split; [done|].
    eapply Forall_impl; [apply (mw_points _ Hw)|]. by intros ? [? ?]. }
  assert (pts map = [] \/ 0 < zlen data) as Hne.
  { destruct (pts map) as [|q l] eqn:Eq; [by left|]. right.
    pose proof (mw_points _ Hw) as Hq. rewrite Eq in Hq.
    apply list.Forall_cons in Hq as [[? _] _], Hbel as [? _]. lia. }
  exists av, map', urn, c. split_and!; try done; try congruence; try lia.
  - eapply Forall_impl with (P := fun q => io q <= zlen data); [|cbn; intros; lia].
    destruct Hpts as [->|[-> _]]; [apply list.Forall_app; split; [|constructor; [lia|done]]|];
      (eapply Forall_impl; [exact Hbel|]; cbn; intros; lia).
  - destruct Hpts as [->|[-> Hne']]; [|apply Hfst; by destruct Hne].
    apply prev_snoc. destruct (Z.lt_ge_cases 0 (zlen data)); [left; by apply Hfst|right; lia].
  - unfold piece_bytes, RDFURN_copy. rewrite Hurn. cbn. by rewrite Hc.
  - intros off Ho. rewrite Htr, (translate_snoc (mv_targets map)); try done; try lia.
    + rewrite (proj2 (Z.ltb_lt _ _)) by lia. symmetry. apply translate_points; [done|..];
        unfold LLONG_MAX; lia.
    + left. apply (prev_mono 0); [lia|]. apply Hfst. lia.
  - intros off Ho. rewrite Htr, (translate_snoc (mv_targets map)); try done; try lia.
    rewrite (proj2 (Z.ltb_ge _ _)), Hidx, Hti by lia. mred. unfold interp.
    rewrite Hip, Ha, Z.mod_small, Z.div_small by (change (u64 (-1)) with 18446744073709551615; lia).
    rewrite Z.mul_0_l, Z.add_0_r, <- (u64_small (pc_offset p + (off - zlen data))) by lia.
    assert (mp_target_offset a = pc_offset p) as -> by (apply i64_small; lia).
    do 3 f_equal. lia.
Qed.

Lemma built_step map data n p :
  built map data n -> n < INT_MAX -> piece_ok content p ->
  zlen data + pc_length p < LLONG_MAX ->
  exists map', MapDriver_write_from (at_readptr map true (zlen data))
      (pc_target p) (pc_offset p) (pc_length p)
    = Some (at_readptr map' true (zlen data + pc_length p)) /\
    built map' (data ++ piece_bytes content p) (n + 1) /\
    zlen (piece_bytes content p) = pc_length p.
Proof.
  intros Hb Hn Hp Htot. pose proof (zlen_nonneg data) as H0.
  destruct (built_add_point map data n p Hb Hn Hp Htot)
    as (av & m & urn & c & E & Hw & Hip & Hsz & Hun & Hbel & Hfst & Hc & Hcl & Hpb & T1 & T2).
  destruct Hp as (Hlen & Hoff & _). unfold LLONG_MAX in *.
  assert (zlen (piece_bytes content p) = pc_length p) as Hpl by (rewrite Hpb, zlen_zread; lia).
  unfold MapDriver_write_from. cbn [md_map md_readptr at_readptr].
  rewrite (u64_small (zlen data)) by lia. rewrite E. mred.
  rewrite i64_small, Hsz, Z.max_r by lia. eexists. split; [reflexivity|]. split; [|done].
  assert (forall off, 0 <= off < zlen data + pc_length p ->
    translate (with_size m (zlen data + pc_length p)) off = translate m off) as Hts.
  { intros off Ho. apply translate_with_size; [done|unfold LLONG_MAX; lia|by rewrite Hip]. }
  split; rewrite ?zlen_app, ?Hpl; try done.
  - destruct Hw. by split.
  - intros off Ho. cbn in Ho. rewrite Hts by done.
    destruct (Z.lt_ge_cases off (zlen data)).
    + rewrite T1 by lia. apply (bt_covered _ _ _ Hb). rewrite (bt_size _ _ _ Hb). lia.
    + rewrite T2 by lia. exists urn, (pc_offset p + (off - zlen data)), c.
      split_and!; try done; unfold LLONG_MAX; lia.
  - apply map_bytes_app; [lia..| |]; rewrite (map_bytes_ext content m) by (intros; apply Hts; lia).
    + rewrite (map_bytes_ext content map) by (intros; apply T1; lia). apply (bt_bytes _ _ _ Hb).
    + rewrite Hpb. apply (map_bytes_run _ _ _ _ urn); try done; try lia.
Qed.

Lemma built_all ps map data n :
  built map data n -> n + zlen ps <= INT_MAX -> Forall (piece_ok content) ps ->
  zlen data + total ps < LLONG_MAX ->
  exists map', map_write_all (at_readptr map true (zlen data)) ps
    = Some (at_readptr map' true (zlen data + total ps)) /\
    built map' (data ++ mjoin (piece_bytes content <$> ps)) (n + zlen ps) /\
    zlen (mjoin (piece_bytes content <$> ps)) = total ps.
Proof.
  revert map data n. induction ps as [|p ps IH]; intros map data n Hb Hn Hp Ht.
  { exists map. cbn. by rewrite app_nil_r, !Z.add_0_r. }
  apply list.Forall_cons in Hp as [Hp Hps]. rewrite zlen_cons in *. cbn [total] in *.
  assert (0 <= total ps) as Ht0.
  { clear -Hps. induction Hps as [|q ps (Hq & _) _ IH]; cbn; lia. }
  pose proof (zlen_nonneg ps). pose proof (zlen_nonneg data).
  assert (0 < pc_length p) by apply Hp.
  destruct (built_step map data n p) as (m & E & Hm & Hl); [done|lia|done|lia|].
  destruct (IH m (data ++ piece_bytes content p) (n + 1)) as (m' & E' & Hm' & Hl');
    rewrite ?zlen_app, ?Hl; [done|lia|done|lia|].
  exists m'. cbn [map_write_all]. rewrite E. mred. rewrite zlen_app, Hl in E'. rewrite E'.
  change (mjoin (piece_bytes content <$> p :: ps))
    with (piece_bytes content p ++ mjoin (piece_bytes content <$> ps)).
  rewrite app_assoc, zlen_app, Hl, Hl'.
  replace (zlen data + (pc_length p + total ps)) with (zlen data + pc_length p + total ps) by lia.
  replace (n + (1 + zlen ps)) with (n + 1 + zlen ps) by lia. done.
Qed.

End Built.

(** A part of the image is a part of its bytes. *)
Lemma map_bytes_part content map data pos n :
  map_bytes content map 0 (zlen data) = Some data -> 0 <= pos -> 0 <= n -> pos + n <= zlen data ->
  map_bytes content map pos n = Some (zread pos n data).
Proof.
  unfold map_bytes. rewrite !mapM_Some. intros Hf Hp Hn Hl.
  apply Forall2_same_length_lookup_2.
  - pose proof (zlen_zread pos n data). rewrite length_seqZ. unfold zlen in *. lia.
  - intros i x y Hx Hy. apply lookup_seqZ in Hx as [-> Hi].
    unfold zread, ztake, zdrop in Hy. rewrite lookup_take_Some, lookup_drop in Hy.
    destruct Hy as [Hy _]. eapply Forall2_lookup_lr in Hf; [exact Hf| |exact Hy].
    apply lookup_seqZ. lia.
Qed.

(** C12: adding a point.  On a well-formed map and for a point in the first period,
    [add_point] succeeds, keeps the map well formed and the targets' numbers, and
    afterwards every offset is translated as by the list of points in which the new point
    replaces the one at its offset: that a point the map predicts is left out cannot be
    told from the translation. *)
Theorem MapValue_add_point_translates self image_offset target_offset target :
  map_wf self -> mv_number_of_urns self < INT_MAX ->
  cstring target -> zlen target < BUFF_SIZE ->
  0 <= image_offset < LLONG_MAX -> image_offset < u64 (mv_image_period self) ->
  0 <= target_offset < 18446744073709551616 ->
  exists available i urn self',
    MapValue_add_point self image_offset target_offset target = Some (available, self') /\
    map_wf self' /\ mv_targets self `prefix_of` mv_targets self' /\
    RDFURN_set RDFURN_Con (Some target) = Some urn /\ mv_targets self' !! Z.to_nat i = Some urn /\
    forall off, 0 <= off < LLONG_MAX ->
      translate self' off =
        points_translate (mv_targets self') (u64 (mv_image_period self)) (mv_target_period self)
          (list_put io (new_point image_offset target_offset i)
             (list_drop_key io image_offset (pts self))) off.
Proof.
  intros Hw Hn Hc Hl Ho Hp Ht.
  destruct (add_point_spec self image_offset target_offset target Hw Hn Hc Hl Ho Hp Ht)
    as (av & i & urn & self' & E & Hw' & Hu & Hi & Hpre & _ & _ & _ & _ & _ & _ & Htr).
  exists av, i, urn, self'. by split_and!.
Qed.

Definition map_name : list Z := lit "aff4://target/a".

Lemma MapValue_add_point_translates_witness :
  exists available i urn self',
    MapValue_add_point MapValue_Con 10 7 map_name = Some (available, self') /\
    map_wf self' /\ [] `prefix_of` mv_targets self' /\
    RDFURN_set RDFURN_Con (Some map_name) = Some urn /\
    mv_targets self' !! Z.to_nat i = Some urn /\
    forall off, 0 <= off < LLONG_MAX ->
      translate self' off =
        points_translate (mv_targets self') (u64 (-1)) (-1)
          (list_put io (new_point 10 7 i) (list_drop_key io 10 (pts MapValue_Con))) off.
Proof.
  apply (MapValue_add_point_translates MapValue_Con 10 7 map_name).
  - apply MapValue_Con_wf.
  - reflexivity.
  - apply (bool_decide_unpack _). vm_compute. exact I.
  - reflexivity.
  - unfold LLONG_MAX. lia.
  - reflexivity.
  - lia.
Defined.

(** C10: a map gives back the pieces it was made of.  After any sequence of [write_from]
    calls on a fresh map, whose pieces lie in streams that can be opened, a reader at any
    position gets, for any length, the bytes of the pieces one after the other from that
    position on, clipped to the size of the map: [read] ends, returns that count and
    moves the position by it.  Nothing is assumed about the order or the overlap of the
    pieces in their targets. *)
Theorem map_write_from_read {F} (open : RDFURN -> option F) seek read content ps pos length :
  serves open seek read content -> Forall (piece_ok content) ps ->
  zlen ps <= INT_MAX -> total ps < LLONG_MAX ->
  0 <= pos <= total ps -> 0 <= length -> Z.min length (total ps - pos) <= INT_MAX ->
  let n := Z.min length (total ps - pos) in
  exists map, map_write_all (at_readptr MapValue_Con true 0) ps
      = Some (at_readptr map true (total ps)) /\ mv_size map = total ps /\
    MapDriver_read open seek read (at_readptr map false pos) length
      = Some (n, zread pos n (mjoin (piece_bytes content <$> ps)),
              at_readptr map false (pos + n)).
Proof.
  intros Hs Hp Hn Ht Hpos Hl Hmax n.
  destruct (built_all content ps MapValue_Con [] 0 (built_nil content)) as (map & E & Hb & Hlen);
    [lia|done|change (zlen (@nil Z)) with 0; lia|].
  cbn [app] in *. change (zlen (@nil Z)) with 0 in E. rewrite !Z.add_0_l in *.
  exists map. split; [done|]. destruct Hb as [Hw Hip Hsz _ _ _ Hcov Hby]. rewrite Hlen in *.
  split; [done|].
  destruct (map_read_spec open seek read content Hs map false Hw) with (p := pos) (length := length)
    as (bytes & Hbytes & Er); rewrite ?Hsz; try done; try lia.
  { rewrite Hip. change (u64 (-1)) with 18446744073709551615. unfold LLONG_MAX in *. lia. }
  rewrite Hsz in Er, Hbytes. fold n in Er, Hbytes. rewrite Er.
  rewrite (map_bytes_part content map (mjoin (piece_bytes content <$> ps))) in Hbytes;
    rewrite ?Hlen; try done; try lia. by injection Hbytes as ->.
Qed.

(** File-like objects serve what they contain. *)
Lemma file_like_serves `{FileLikeLaws F} (open : RDFURN -> option F) content :
  (forall urn c, content urn = Some c ->
     exists fd, open urn = Some fd /\ fl_ok fd /\ fl_contents fd = c) ->
  serves open (fun fd off => (fl_seek fd off SEEK_SET).2) (fun fd n => Some (fl_read fd n).1) content.
Proof.
  intros Ho urn c Hc. destruct (Ho urn c Hc) as (fd & E & Hok & Hfc). exists fd. split; [done|].
  intros off n Hoff Hn. destruct (fl_seek_set_law fd off Hok) as (fd' & -> & Hok' & Hc' & Hp'); [lia|].
  cbn [snd]. destruct (fl_read_law fd' n Hok' Hn) as (fd'' & -> & _). cbn [fst].
  by rewrite Hp', Hc', Hfc.
Qed.

(** A file and a name that does not open. *)
Definition map_content (urn : RDFURN) : option (list Z) :=
  if bool_decide (urn_value urn = map_name) then Some (lit "0123456789") else None.

Definition map_open (urn : RDFURN) : option FileBackedObject :=
  (fun c => {| fb_readptr := 0;
               fb_file := {| pf_data := c; pf_off := 0; pf_writable := true |} |})
    <$> map_content urn.

Definition map_urn (name : list Z) : RDFURN := default RDFURN_Con (RDFURN_Con2 (Some name)).

Definition map_piece (name : list Z) (off len : Z) : piece :=
  {| pc_target := map_urn name; pc_offset := off; pc_length := len |}.

Definition map_pieces : list piece :=
  [map_piece map_name 6 3; map_piece map_name 9 1; map_piece map_name 0 4].

Definition map_seek (fd : FileBackedObject) (off : Z) : FileBackedObject :=
  (fl_seek fd off SEEK_SET).2.
Definition map_read (fd : FileBackedObject) (n : Z) : option (list Z) := Some (fl_read fd n).1.

Lemma map_piece_ok off len :
  0 < len -> 0 <= off -> off + len <= 10 -> piece_ok map_content (map_piece map_name off len).
Proof.
  intros Hl Ho Hs. split_and!; [done|done| |reflexivity|].
  - apply (bool_decide_unpack _). vm_compute. exact I.
  - exists (lit "0123456789"). split; [reflexivity|]. change (zlen (lit "0123456789")) with 10.
    unfold LLONG_MAX. cbn [map_piece pc_offset pc_length]. lia.
Qed.

Lemma map_write_from_read_witness :
  let n := Z.min 5 (total map_pieces - 2) in
  exists map, map_write_all (at_readptr MapValue_Con true 0) map_pieces
      = Some (at_readptr map true (total map_pieces)) /\ mv_size map = total map_pieces /\
    MapDriver_read map_open map_seek map_read (at_readptr map false 2) 5
      = Some (n, zread 2 n (mjoin (piece_bytes map_content <$> map_pieces)),
              at_readptr map false (2 + n)).
Proof.
  apply (map_write_from_read map_open map_seek map_read map_content map_pieces 2 5).
  - apply file_like_serves. intros urn c Hc. unfold map_open. rewrite Hc. eexists.
    split; [reflexivity|]. by split.
  - repeat (constructor; [apply map_piece_ok; lia|]). constructor.
  - vm_compute. discriminate.
  - vm_compute. reflexivity.
  - split; vm_compute; discriminate.
  - lia.
  - vm_compute. discriminate.
Defined.

(** A stream that fails is counted wrongly.  After [i] bytes the next target cannot be
    opened; the rest of the buffer is filled with zeros, and [read] returns [i] more than
    the caller asked for, because the whole length is added to the count. *)
Theorem MapDriver_read_error_overcounts :
  (d ← map_write_all (at_readptr MapValue_Con true 0)
         [map_piece map_name 2 3; map_piece (lit "aff4://gone") 0 5];
   map ← md_map d;
   '(n, bytes, d) ← MapDriver_read map_open map_seek map_read (at_readptr map false 0) 8;
   Some (n, bytes, md_readptr d))
  = Some (11, lit "234" ++ replicate 5 0, 3).
Proof. vm_compute. reflexivity. Qed.

(** A periodic map with points at 0 and 5 of ten offsets: in the second period [get_range]
    searches with the offset in the stream and not the one in the period, so that it
    follows the last point of the first period for all of it. *)
Definition periodic_map : option MapValue :=
  let m := {| mv_size := 20; mv_number_of_points := 0; mv_number_of_urns := 0;
              mv_tree := tree_new 42; mv_targets := []; mv_cache := Cache_Con 100 0;
              mv_target_period := 100; mv_image_period := 10 |} in
  '(_, m) ← MapValue_add_point m 0 0 map_name;
  '(_, m) ← MapValue_add_point m 5 50 (lit "aff4://target/b");
  Some m.

Lemma periodic_map_follows_last :
  (m ← periodic_map; Some (fmap (fun r => (urn_value r.1, r.2)) ∘ translate m <$> [0; 5; 10; 15]))
  = Some [Some (map_name, 0); Some (lit "aff4://target/b", 50);
          Some (lit "aff4://target/b", 145); Some (lit "aff4://target/b", 150)].
Proof. vm_compute. reflexivity. Qed.
