(* ===== verification/MapText.v ===== *)
(** The text forms of maps (lib/map.c): the segment that [MapValue_serialise] writes and
    [MapValue_decode] reads, and the inline form kept in an attribute.

    A point is a line with its two offsets and the URN of its target.  Decoding adds the
    points one by one to a fresh map; targets are numbered anew.  What the resolver has
    stored of a map's parameters, and the data of the segment, are arguments of the
    decoder. *)

From stdpp Require Import sorting.
From S2P Require Import Prelude Talloc Cache DataStore CText Misc Url Rdf File Treap Map.

(** ** [printf] and [sscanf] *)

(** [%lld]. *)
Definition print_lld (n : Z) : list Z :=
  if n <? 0 then 45 :: print_dec (- n) else print_dec n.

(** The conversions of [sscanf]; [None] is a matching failure. *)
Definition scan_lld (s : list Z) : option (Z * list Z) :=
  let '(neg, l) := take_sign (skip_space s) in
  if starts_digit 10 l then
    let '(v, rest) := scan_digits 10 0 l in
    Some (clamp_ll (if neg : bool then - v else v), rest)
  else None.

Definition scan_char (c : Z) (s : list Z) : option (list Z) :=
  match s with x :: s => if x =? c then Some s else None | [] => None end.

Fixpoint scan_nonspace (n : nat) (s : list Z) : list Z :=
  match n, s with
  | S n, c :: s => if isspace c then [] else c :: scan_nonspace n s
  | _, _ => []
  end.

Definition scan_word (n : nat) (s : list Z) : option (list Z) :=
  match scan_nonspace n (skip_space s) with [] => None | w => Some w end.

(** [sscanf(x, "%lld,%lld,%1000s", ..) == 3]. *)
Definition sscanf_point (x : list Z) : option (Z * Z * list Z) :=
  '(image_offset, x) ← scan_lld x;
  x ← scan_char 44 x;
  '(target_offset, x) ← scan_lld x;
  x ← scan_char 44 x;
  target ← scan_word 1000 x;
  Some (image_offset, target_offset, target).

(** ** Serialising *)

(** ["%lld,%lld,%s"] and the separator. *)
Definition point_text (node : map_point_node) (target sep : list Z) : list Z :=
  print_lld (mp_image_offset node) ++ [44] ++ print_lld (mp_target_offset node) ++ [44]
  ++ target ++ sep.

(** The callback of the iteration; the state is what was written.  A text that does not
    fit the buffer is cut, and its terminating NUL is written with it. *)
Definition text_map_iterate_cb (self : MapValue) (fd : option (list Z)) (node : map_point_node)
  : option (list Z) * bool :=
  (out ← fd;
   target ← mv_targets self !! Z.to_nat (mp_target_idx node);
   let text := point_text node (urn_value target) [10] in
   Some (out ++ (if zlen text <? BUFF_SIZE then text else ztake (BUFF_SIZE - 1) text ++ [0])),
   false).

(** The data of the segment [MapValue_serialise] writes. *)
Definition MapValue_text (self : MapValue) : option (list Z) :=
  (iter_recurse (text_map_iterate_cb self) (trp_root (mv_tree self)) (Some [])).1.

(** The parameters it stores: the periods only when there are any. *)
Definition stored_periods (self : MapValue) : option Z * option Z :=
  if mv_image_period self =? -1 then (None, None)
  else (Some (mv_image_period self), Some (mv_target_period self)).

(** The callback of the inline form; the state is the buffer and the index [i].  When [i]
    has reached the end of the buffer the room left is -1, which is a huge [size_t]. *)
Definition inline_map_iterate_cb (self : MapValue) (st : option (list Z * Z))
    (node : map_point_node) : option (list Z * Z) * bool :=
  ('(buffer, i) ← st;
   let available_to_write := BUFF_SIZE - i - 1 in
   let idx := Z.min (u32 (mv_number_of_points self)) (mp_target_idx node) in
   target ← mv_targets self !! Z.to_nat idx;
   let text := point_text node (urn_value target) [124] in
   if available_to_write <? 0 then None
   else
     buffer ← (if available_to_write =? 0 then Some buffer
               else bput buffer i (ztake (available_to_write - 1) text ++ [0]));
     Some (buffer, Z.min (i + zlen text) BUFF_SIZE),
   false).

Definition MapValueInline_serialise (self : MapValue) : option (list Z) :=
  '(buffer, _) ←
    (iter_recurse (inline_map_iterate_cb self) (trp_root (mv_tree self))
       (Some (replicate (Z.to_nat BUFF_SIZE) 0, 0))).1;
  Some (cstr buffer).

(** ** Decoding *)

Definition add_line (self : MapValue) (line : list Z) : option MapValue :=
  match sscanf_point line with
  | Some (image_offset, target_offset, target) =>
      '(_, self) ← MapValue_add_point self (u64 image_offset) (u64 target_offset) target;
      Some self
  | None => Some self
  end.

(** The loop over the lines; [line] is the part of the line scanned so far.  After a last
    line without a separator the scan goes on past the end of the text: [None]. *)
Fixpoint decode_lines (sep : Z -> bool) (self : MapValue) (line text : list Z) : option MapValue :=
  match text with
  | [] => match line with [] => Some self | _ => None end
  | c :: text =>
      if sep c then self ← add_line self line; decode_lines sep self [] text
      else decode_lines sep self (line ++ [c]) text
  end.

(** The parameters found in the resolver replace those of the new value. *)
Definition load_parameters (self : MapValue) (size : option Z) (periods : option Z * option Z)
  : MapValue :=
  {| mv_size := default (mv_size self) size; mv_number_of_points := mv_number_of_points self;
     mv_number_of_urns := mv_number_of_urns self; mv_tree := mv_tree self;
     mv_targets := mv_targets self; mv_cache := mv_cache self;
     mv_target_period := default (mv_target_period self) periods.2;
     mv_image_period := default (mv_image_period self) periods.1 |}.

(** [data] is [None] when the segment cannot be opened. *)
Definition MapValue_decode (self : MapValue) (size : option Z) (periods : option Z * option Z)
    (data : option (list Z)) : option (Z * MapValue) :=
  let self := load_parameters self size periods in
  match data with
  | None => Some (0, self)
  | Some data =>
      self ← decode_lines (fun c => (c =? 13) || (c =? 10)) self [] (cstr data);
      Some (1, self)
  end.

Definition MapValueInline_decode (self : MapValue) (size : option Z)
    (periods : option Z * option Z) (data : list Z) : option (Z * MapValue) :=
  self ← decode_lines (fun c => c =? 124) (load_parameters self size periods) [] (cstr data);
  Some (1, self).

(** ** Lemmas on the text of a point *)

Lemma print_dec_scan n rest :
  0 <= n < 18446744073709551616 -> starts_digit 10 rest = false ->
  starts_digit 10 (print_dec n ++ rest) = true /\
  scan_digits 10 0 (print_dec n ++ rest) = (n, rest) /\
  skip_space (print_dec n ++ rest) = print_dec n ++ rest /\
  take_sign (print_dec n ++ rest) = (false, print_dec n ++ rest).
Proof.
  intros Hn Hr. unfold print_dec.
  assert (n < 10 ^ (Z.of_nat 64 + 1)) as Hn' by (eapply Z.lt_trans; [apply Hn|reflexivity]).
  pose proof (digits_range 64 10 n ltac:(lia) ltac:(lia)) as Hd.
  pose proof (digits_value 64 10 n ltac:(lia) ltac:(lia)) as Hv.
  destruct (digits 64 10 n) as [|d ds] eqn:Ed; [by apply digits_nonempty in Ed|].
  rewrite scan_digits_printed by (done || lia). rewrite Hv.
  apply list.Forall_cons in Hd as [Hd _].
  pose proof (digit_upper_class d ltac:(lia)) as (Hs & Hm & Hp & _).
  rewrite starts_digit_upper by lia. cbn [map app skip_space take_sign]. rewrite Hs.
  rewrite (proj2 (Z.eqb_neq _ _) Hm), (proj2 (Z.eqb_neq _ _) Hp). done.
Qed.

Lemma scan_print_lld n rest :
  LLONG_MIN <= n <= LLONG_MAX -> starts_digit 10 rest = false ->
  scan_lld (print_lld n ++ rest) = Some (n, rest).
Proof.
  intros Hn Hr. pose proof Hn as Hc. unfold LLONG_MIN, LLONG_MAX in Hn.
  unfold scan_lld, print_lld. destruct (Z.ltb_spec n 0).
  - destruct (print_dec_scan (- n) rest) as (H1 & H2 & _); [lia|done|].
    cbn [app skip_space]. change (isspace 45) with false. cbn [take_sign].
    change (45 =? 45) with true. cbv iota. rewrite H1, H2, Z.opp_involutive.
    by rewrite clamp_ll_small.
  - destruct (print_dec_scan n rest) as (H1 & H2 & -> & ->); [lia|done|].
    rewrite H1, H2. by rewrite clamp_ll_small.
Qed.

(** A target's name that the scanner reads back. *)
Definition plain_name (name : list Z) : Prop :=
  name <> [] /\ zlen name <= 1000 /\
  Forall (fun c => 1 <= c < 256 /\ isspace c = false /\ c <> 124) name.

Lemma scan_nonspace_all n name :
  (length name <= n)%nat -> Forall (fun c => isspace c = false) name -> scan_nonspace n name = name.
Proof.
  revert n. induction name as [|c name IH]; intros [|n] Hl Hs; cbn in *; try done; [lia|].
  apply list.Forall_cons in Hs as [-> Hs]. by rewrite IH by (done || lia).
Qed.

Lemma sscanf_point_text a name :
  LLONG_MIN <= mp_image_offset a <= LLONG_MAX -> LLONG_MIN <= mp_target_offset a <= LLONG_MAX ->
  plain_name name ->
  sscanf_point (point_text a name []) = Some (mp_image_offset a, mp_target_offset a, name).
Proof.
  intros Hi Ht (Hne & Hl & Hn). unfold sscanf_point, point_text.
  rewrite scan_print_lld by done. mred. cbn [app scan_char]. change (44 =? 44) with true. mred.
  rewrite scan_print_lld by done. mred. cbn [app scan_char]. change (44 =? 44) with true. mred.
  rewrite app_nil_r. unfold scan_word.
  assert (Forall (fun c => isspace c = false) name) as Hs
    by (eapply Forall_impl; [exact Hn|]; cbn; tauto).
  assert (skip_space name = name) as ->.
  { destruct Hs as [|c name Hc _]; [done|]. cbn. by rewrite Hc. }
  rewrite scan_nonspace_all by (done || (unfold zlen in *; lia)). mred. by destruct name.
Qed.

(** ** Adding the points in order *)

Section Decode.

Variables (size ip tp : Z) (nm : map_point_node -> list Z).
Hypothesis Hip : u64 ip <> 0.

(** What a point needs to be written and read back. *)
Definition plain_point (a : map_point_node) : Prop :=
  0 <= io a < LLONG_MAX /\ io a < u64 ip /\ LLONG_MIN <= mp_target_offset a <= LLONG_MAX /\
  plain_name (nm a) /\ urn_value <$> RDFURN_set RDFURN_Con (Some (nm a)) = Some (nm a).

Definition named (r : option (RDFURN * Z)) : option (list Z * Z) :=
  (fun r => (urn_value r.1, r.2)) <$> r.

(** The translation by points that know the names of their targets. *)
Definition named_translate (l : list map_point_node) (off : Z) : option (list Z * Z) :=
  a ← follow l off; Some (nm a, interp (u64 ip) tp a off).

Record decoded (m : MapValue) (l : list map_point_node) : Prop := {
  dc_wf : map_wf m;
  dc_size : mv_size m = size;
  dc_image_period : mv_image_period m = ip;
  dc_target_period : mv_target_period m = tp;
  dc_urns : mv_number_of_urns m <= zlen l;
  dc_keys : forall k, Forall (fun b => io b < k) l -> Forall (fun b => io b < k) (pts m);
  dc_empty : pts m = [] -> l = [];
  dc_translate : forall off, 0 <= off < LLONG_MAX -> named (translate m off) = named_translate l off
}.

Lemma follow_snoc l a off :
  StronglySorted (klt io) l -> Forall (fun b => io b < io a) l ->
  follow (l ++ [a]) off =
    if decide (off < io a /\ l <> []) then follow l off else Some a.
Proof.
  intros Hs Hl. destruct (Z.lt_ge_cases off (io a)) as [Ho|Ho].
  - destruct (sorted_split l off Hs) as (b & c & -> & Hb & Hc).
    rewrite <- app_assoc, !follow_split;
      [|done|done|done|apply list.Forall_app; split; [done|by constructor]].
    case_decide as Hd.
    + destruct (last b) eqn:E; [done|]. apply last_None in E as ->. destruct c; [|done].
      by destruct Hd.
    + by destruct b as [|? b]; [destruct c|]; try done; exfalso; apply Hd.
  - rewrite decide_False by lia. rewrite <- (app_nil_r (l ++ [a])), follow_split;
      [by rewrite last_snoc| |constructor].
    apply list.Forall_app. split; [|by constructor].
    eapply Forall_impl; [exact Hl|]. cbn. intros. lia.
Qed.

Lemma points_translate_snoc targets l a off :
  StronglySorted (klt io) l -> Forall (fun b => io b < io a) l ->
  points_translate targets (u64 ip) tp (l ++ [a]) off =
  if decide (off < io a /\ l <> []) then points_translate targets (u64 ip) tp l off
  else t ← targets !! Z.to_nat (mp_target_idx a); Some (t, interp (u64 ip) tp a off).
Proof.
  intros Hs Hl. unfold points_translate. rewrite follow_snoc by done. by case_decide.
Qed.

(** More targets do not change what a map's points mean. *)
Lemma points_translate_prefix m targets' off :
  map_wf m -> mv_targets m `prefix_of` targets' ->
  points_translate targets' (u64 ip) tp (pts m) off
  = points_translate (mv_targets m) (u64 ip) tp (pts m) off.
Proof.
  intros Hw [ext ->]. unfold points_translate.
  destruct (follow (pts m) off) as [a|] eqn:Hf; mred; [|done].
  apply follow_in in Hf. destruct (point_target m a Hw Hf) as [t Ht].
  by rewrite (lookup_app_l_Some _ _ _ _ Ht), Ht.
Qed.

Lemma add_line_decoded m l a :
  decoded m l -> zlen l < INT_MAX -> StronglySorted (klt io) l ->
  Forall (fun b => io b < io a) l -> plain_point a ->
  exists m', add_line m (point_text a (nm a) []) = Some m' /\ decoded m' (l ++ [a]).
Proof.
  intros [Hw Hszm Hipm Htpm Hun Hk Hem Htr] Hl Hsl Hla (Hio & Hper & Hto & Hnm & Hset).
  pose proof Hnm as (Hne & Hnl & Hnc). unfold add_line.
  rewrite sscanf_point_text by (done || (unfold LLONG_MIN, LLONG_MAX in *; lia)).
  rewrite (u64_small (mp_image_offset a)) by (unfold LLONG_MAX in *; lia).
  pose proof (u64_range (mp_target_offset a)) as Hu.
  destruct (add_point_spec m (io a) (u64 (mp_target_offset a)) (nm a))
    as (av & i & urn & m' & E & Hw' & Hurn & Hti & Hpre & Hsz' & Hip' & Htp' & Hun' & Hidx & Hpts & Htr');
    rewrite ?Hipm; try done; try lia.
  { eapply Forall_impl; [exact Hnc|]. cbn. tauto. }
  { unfold BUFF_SIZE. lia. }
  rewrite E. mred. exists m'. split; [done|].
  set (a' := new_point (io a) (u64 (mp_target_offset a)) i) in *.
  assert (io a' = io a) as Ha by (apply i64_small; unfold LLONG_MAX in *; lia).
  assert (forall off, interp (u64 ip) tp a' off = interp (u64 ip) tp a off) as Hint.
  { intros off. unfold interp. rewrite Ha. unfold a', new_point. cbn [mp_target_offset].
    set (c := off mod u64 ip - io a + off / u64 ip * tp).
    pose proof (u64_shift (i64 (u64 (mp_target_offset a))) (mp_target_offset a) c) as Hsh.
    etrans; [|etrans; [apply Hsh|]]; [f_equal; unfold c; lia| |f_equal; unfold c; lia].
    rewrite u64_i64. by rewrite u64_small by done. }
  assert (Forall (fun b => io b < io a') (pts m)) as Hbel by (rewrite Ha; by apply Hk).
  rewrite <- Ha, drop_key_below, put_end in Hpts, Htr' by done.
  assert (l = [] -> pts m = []) as Hem'.
  { intros ->. destruct (pts m) as [|b r]; [done|]. exfalso.
    specialize (Hk (io b) ltac:(constructor)). apply list.Forall_cons in Hk as [? _]. lia. }
  split; try done; try congruence.
  - rewrite zlen_app. change (zlen [a]) with 1. lia.
  - intros k [Hk1 Hk2]%list.Forall_app. specialize (Hk k Hk1).
    destruct Hpts as [->|[-> _]]; [|done]. apply list.Forall_app. split; [done|].
    apply list.Forall_cons in Hk2 as [? _]. constructor; [lia|constructor].
  - destruct Hpts as [->|[-> Hne']]; [by intros []%app_nil|done].
  - intros off Ho. rewrite Htr', Hipm, Htpm by done.
    rewrite points_translate_snoc; [|apply (mw_tree _ Hw)|done]. unfold named_translate.
    rewrite follow_snoc, Ha by done. rewrite Hurn in Hset. injection Hset as Hset.
    destruct (decide (off < io a /\ pts m <> [])) as [[H1 H2]|H1].
    + rewrite decide_True by (split; [done|]; intros ->; by apply H2, Hem').
      rewrite points_translate_prefix by done. rewrite <- Htpm, <- Hipm at 1.
      rewrite <- translate_points by (done || by rewrite Hipm). by apply Htr.
    + rewrite decide_False by (intros [? ?]; apply H1; split; [done|]; intros ?; auto).
      rewrite Hidx, Hti. mred. cbn. by rewrite Hint, Hset.
Qed.

(** A line of the text. *)
Lemma decode_line (sep : Z -> bool) m pre line c rest :
  Forall (fun x => sep x = false) line -> sep c = true ->
  decode_lines sep m pre (line ++ c :: rest)
  = m ← add_line m (pre ++ line); decode_lines sep m [] rest.
Proof.
  intros Hl Hc. revert pre. induction Hl as [|x line Hx _ IH]; intros pre; cbn.
  - by rewrite Hc, app_nil_r.
  - by rewrite Hx, IH, <- app_assoc.
Qed.

Definition text_char (c : Z) : Prop := 1 <= c < 256 /\ c <> 10 /\ c <> 13 /\ c <> 124.

Lemma print_lld_chars n : Forall text_char (print_lld n).
Proof.
  assert (forall k, 0 <= k -> Forall text_char (print_dec k)) as Hd.
  { intros k Hk. unfold print_dec. apply List.Forall_map.
    eapply Forall_impl; [apply (digits_range 64 10 k); lia|]. cbn. intros d Hd.
    unfold text_char, digit_upper. destruct (Z.ltb_spec d 10); lia. }
  unfold print_lld. destruct (Z.ltb_spec n 0); [|apply Hd; lia].
  constructor; [unfold text_char; lia|]. apply Hd. lia.
Qed.

Lemma point_text_chars a name : plain_name name -> Forall text_char (point_text a name []).
Proof.
  intros (_ & _ & Hn). unfold point_text.
  repeat (apply list.Forall_app; split); try apply print_lld_chars;
    try (constructor; [unfold text_char; lia|constructor]); [|constructor].
  eapply Forall_impl; [exact Hn|]. cbn. unfold text_char, isspace. intros. lia.
Qed.

Lemma point_text_sep a name c : point_text a name [c] = point_text a name [] ++ [c].
Proof. unfold point_text. by rewrite app_nil_r, <- !app_assoc. Qed.

(** The lines of sorted points, decoded. *)
Definition points_text (c : Z) (l : list map_point_node) : list Z :=
  mjoin ((fun a => point_text a (nm a) [c]) <$> l).

Lemma decode_points (sep : Z -> bool) c m done l :
  (forall x, text_char x -> sep x = false) -> sep c = true ->
  decoded m done -> zlen done + zlen l <= INT_MAX -> StronglySorted (klt io) (done ++ l) ->
  Forall plain_point l ->
  exists m', decode_lines sep m [] (points_text c l) = Some m' /\ decoded m' (done ++ l).
Proof.
  intros Hsep Hc. revert m done. induction l as [|a l IH]; intros m done Hm Hlen Hs Hp.
  { exists m. by rewrite app_nil_r. }
  apply list.Forall_cons in Hp as [Ha Hl]. rewrite zlen_cons in Hlen. zlen_facts.
  pose proof Hs as (Hsd & _ & Hda & _)%sorted_node.
  destruct (add_line_decoded m done a Hm) as (m1 & E1 & Hm1); try done; [lia|].
  destruct (IH m1 (done ++ [a]) Hm1) as (m' & E' & Hm').
  { rewrite zlen_app. change (zlen [a]) with 1. lia. }
  { by rewrite <- app_assoc. }
  { done. }
  exists m'. rewrite <- app_assoc in Hm'. split; [|done].
  change (points_text c (a :: l)) with (point_text a (nm a) [c] ++ points_text c l).
  rewrite point_text_sep, <- app_assoc. cbn [app]. rewrite decode_line; [cbn [app]; by rewrite E1| |done].
  eapply Forall_impl; [apply point_text_chars, Ha|]. done.
Qed.

End Decode.

(** ** Round trips *)

(** The name of a point's target. *)
Definition target_name (self : MapValue) (a : map_point_node) : list Z :=
  match mv_targets self !! Z.to_nat (mp_target_idx a) with Some t => urn_value t | None => [] end.

(** The same translation, up to the numbering of the targets. *)
Definition same_translation (self self' : MapValue) : Prop :=
  map_wf self' /\ mv_size self' = mv_size self /\
  forall off, 0 <= off < LLONG_MAX -> named (translate self' off) = named (translate self off).

Lemma named_translate_self self off :
  map_wf self -> u64 (mv_image_period self) <> 0 -> 0 <= off < LLONG_MAX ->
  named (translate self off) =
    named_translate (mv_image_period self) (mv_target_period self) (target_name self) (pts self) off.
Proof.
  intros Hw Hp Ho. rewrite translate_points by done. unfold points_translate, named_translate.
  destruct (follow (pts self) off) as [a|] eqn:Hf; mred; [|done].
  destruct (point_target self a Hw (follow_in _ _ _ Hf)) as [t Ht].
  unfold target_name. by rewrite Ht.
Qed.

(** The parameters that are not stored do not matter. *)
Lemma loaded_translate self nm l off :
  let m := load_parameters MapValue_Con (Some (mv_size self)) (stored_periods self) in
  0 <= off < LLONG_MAX ->
  named_translate (mv_image_period m) (mv_target_period m) nm l off =
  named_translate (mv_image_period self) (mv_target_period self) nm l off.
Proof.
  intros m Ho. unfold m, stored_periods. destruct (Z.eqb_spec (mv_image_period self) (-1)) as [E|E];
    cbn; [|done].
  unfold named_translate. destruct (follow l off) as [a|]; mred; [|done]. do 2 f_equal.
  rewrite E. unfold interp. change (u64 (-1)) with 18446744073709551615.
  rewrite Z.div_small by (unfold LLONG_MAX in *; lia). done.
Qed.

Lemma loaded_decoded self nm :
  let m := load_parameters MapValue_Con (Some (mv_size self)) (stored_periods self) in
  u64 (mv_image_period self) <> 0 ->
  mv_image_period m = mv_image_period self /\ mv_size m = mv_size self /\
  decoded (mv_size m) (mv_image_period m) (mv_target_period m) nm m [].
Proof.
  intros m Hp. assert (mv_image_period m = mv_image_period self) as Hi.
  { unfold m, stored_periods. by destruct (Z.eqb_spec (mv_image_period self) (-1)). }
  assert (map_wf m) as Hw by (destruct MapValue_Con_wf; by split).
  split_and!; [done..|]. split; try done.
  intros off Ho. rewrite translate_points by (done || by rewrite Hi). done.
Qed.

Lemma digits_bound fuel base n : (length (digits fuel base n) <= S fuel)%nat.
Proof.
  revert n. induction fuel as [|fuel IH]; intros n; cbn [digits]; [done|].
  destruct (n <? base); [cbn; lia|]. rewrite length_app. specialize (IH (n / base)). cbn. lia.
Qed.

Lemma point_text_fits a name c : zlen name <= 1000 -> zlen (point_text a name [c]) < BUFF_SIZE.
Proof.
  intros Hn. assert (forall n, zlen (print_lld n) <= 66) as Hp.
  { intros n. unfold print_lld, print_dec, zlen. pose proof (digits_bound 64 10 n).
    pose proof (digits_bound 64 10 (- n)).
    destruct (n <? 0); cbn [length]; rewrite length_map; lia. }
  pose proof (Hp (mp_image_offset a)). pose proof (Hp (mp_target_offset a)).
  unfold point_text, BUFF_SIZE. rewrite !zlen_app. change (zlen [44]) with 1.
  change (zlen [c]) with 1. lia.
Qed.

(** The whole map can be written and read back as text. *)
Record plain_map (self : MapValue) : Prop := {
  pm_wf : map_wf self;
  pm_period : u64 (mv_image_period self) <> 0;
  pm_count : zlen (pts self) <= INT_MAX;
  pm_points : Forall (plain_point (mv_image_period self) (target_name self)) (pts self)
}.

Lemma text_iter self l out :
  Forall (fun a => a ∈ pts self) l -> map_wf self ->
  Forall (fun a => plain_name (target_name self a)) l ->
  iter_list (text_map_iterate_cb self) l (Some out)
  = (Some (out ++ points_text (target_name self) 10 l), false).
Proof.
  intros Hin Hw. revert out. induction Hin as [|a l Ha _ IH]; intros out Hp.
  { cbn. by rewrite app_nil_r. }
  apply list.Forall_cons in Hp as [Hpa Hp].
  change (points_text (target_name self) 10 (a :: l))
    with (point_text a (target_name self a) [10] ++ points_text (target_name self) 10 l).
  cbn [iter_list]. unfold text_map_iterate_cb at 1. mred.
  destruct (point_target self a Hw Ha) as [t Ht]. rewrite Ht. mred.
  assert (target_name self a = urn_value t) as <- by (unfold target_name; by rewrite Ht).
  rewrite (proj2 (Z.ltb_lt _ _)) by apply point_text_fits, Hpa.
  rewrite IH by done. by rewrite app_assoc.
Qed.

Lemma points_text_cstring nm c l :
  1 <= c < 256 -> Forall (fun a => plain_name (nm a)) l -> cstring (points_text nm c l).
Proof.
  intros Hc Hp. apply list.Forall_join, list.Forall_fmap. eapply Forall_impl; [exact Hp|].
  intros a Ha. cbn. rewrite point_text_sep. apply list.Forall_app.
  split; [|constructor; [done|apply List.Forall_nil]]. eapply Forall_impl; [by apply point_text_chars|].
  by intros x [? _].
Qed.

Lemma map_text_spec self :
  plain_map self ->
  MapValue_text self = Some (points_text (target_name self) 10 (pts self)) /\
  Forall (fun a => plain_name (target_name self a)) (pts self).
Proof.
  intros [Hw Hp Hn Hpt].
  assert (Forall (fun a => plain_name (target_name self a)) (pts self)) as Hnm.
  { eapply Forall_impl; [exact Hpt|]. by intros a (_ & _ & _ & ? & _). }
  split; [|done]. unfold MapValue_text. rewrite iter_spec, text_iter; [done| |done|done].
  by apply list.Forall_forall.
Qed.

(** The text with either separator decodes to a map with the same translation. *)
Lemma decode_plain self (sep : Z -> bool) c :
  plain_map self -> (forall x, text_char x -> sep x = false) -> sep c = true ->
  exists m, decode_lines sep
      (load_parameters MapValue_Con (Some (mv_size self)) (stored_periods self)) []
      (points_text (target_name self) c (pts self)) = Some m /\ same_translation self m.
Proof.
  intros [Hw Hp Hn Hpt] Hsep Hc.
  destruct (loaded_decoded self (target_name self) Hp) as (Hip & Hsz & Hd).
  set (m0 := load_parameters _ _ _) in *. rewrite <- Hip in Hpt, Hp.
  destruct (decode_points (mv_size m0) (mv_image_period m0) (mv_target_period m0)
    (target_name self) Hp sep c m0 [] (pts self)) as (m & E & [Hwm Hszm _ _ _ _ _ Htr]);
    try done; [apply (mw_tree _ Hw)|].
  exists m. split; [done|]. split_and!; [done|congruence|].
  intros off Ho. rewrite Htr by done. cbn [app]. unfold m0. rewrite loaded_translate by done.
  rewrite named_translate_self; [done|done| |done]. by rewrite <- Hip.
Qed.

(** What the inline form needs besides: there are no periods, which are not stored with
    it; its callback looks a target up under no index above the number of points; and the
    text fits the buffer. *)
Definition inline_fits (self : MapValue) : Prop :=
  mv_image_period self = -1 /\ 0 <= mv_number_of_points self < 4294967296 /\
  Forall (fun a => mp_target_idx a <= mv_number_of_points self) (pts self) /\
  zlen (points_text (target_name self) 124 (pts self)) <= BUFF_SIZE - 2.

Definition inline_state (out : list Z) : list Z * Z :=
  (out ++ replicate (Z.to_nat (BUFF_SIZE - zlen out)) 0, zlen out).

Lemma inline_put out text :
  zlen out + zlen text <= BUFF_SIZE - 2 ->
  bput (inline_state out).1 (zlen out) (ztake (BUFF_SIZE - zlen out - 1 - 1) text ++ [0])
  = Some (inline_state (out ++ text)).1.
Proof.
  intros Hl. pose proof (zlen_nonneg out). pose proof (zlen_nonneg text). unfold BUFF_SIZE in *.
  rewrite ztake_all by lia. unfold inline_state, BUFF_SIZE. cbn [fst].
  rewrite bput_ok; [|lia|].
  2: { rewrite !zlen_app, zlen_replicate. change (zlen [0]) with 1. lia. }
  f_equal. replace (zlen out) with (zlen out + 0) at 1 by lia.
  assert (Z.to_nat (40960 - zlen out) =
    (length (text ++ [0%Z]) + Z.to_nat (40960 - zlen out - zlen text - 1))%nat) as ->.
  { rewrite length_app. cbn [length]. unfold zlen in *. lia. }
  rewrite replicate_add, Z.add_0_r.
  rewrite zover_mid by (unfold zlen; by rewrite ?length_replicate).
  rewrite <- !app_assoc. do 2 f_equal. rewrite zlen_app.
  replace (Z.to_nat (40960 - (zlen out + zlen text)))
    with (S (Z.to_nat (40960 - zlen out - zlen text - 1))) by lia. done.
Qed.

Lemma inline_iter self l out :
  map_wf self -> Forall (fun a => a ∈ pts self) l -> 0 <= mv_number_of_points self < 4294967296 ->
  Forall (fun a => mp_target_idx a <= mv_number_of_points self) l ->
  zlen out + zlen (points_text (target_name self) 124 l) <= BUFF_SIZE - 2 ->
  iter_list (inline_map_iterate_cb self) l (Some (inline_state out))
  = (Some (inline_state (out ++ points_text (target_name self) 124 l)), false).
Proof.
  intros Hw Hin Hnp. revert out. induction Hin as [|a l Ha _ IH]; intros out Hi Hl.
  { cbn [iter_list]. change (points_text (target_name self) 124 []) with (@nil Z).
    by rewrite app_nil_r. }
  apply list.Forall_cons in Hi as [Hia Hi].
  change (points_text (target_name self) 124 (a :: l))
    with (point_text a (target_name self a) [124] ++ points_text (target_name self) 124 l) in *.
  rewrite zlen_app in Hl.
  pose proof (zlen_nonneg out). pose proof (zlen_nonneg (point_text a (target_name self a) [124])).
  pose proof (zlen_nonneg (points_text (target_name self) 124 l)).
  destruct (point_target self a Hw Ha) as [t Ht].
  assert (target_name self a = urn_value t) as Hn by (unfold target_name; by rewrite Ht).
  assert (inline_map_iterate_cb self (Some (inline_state out)) a
    = (Some (inline_state (out ++ point_text a (target_name self a) [124])), false)) as E.
  { unfold inline_map_iterate_cb. rewrite Hn in *. cbn [inline_state mbind option_bind].
    rewrite u32_small, Z.min_r, Ht by done. mred.
    rewrite (proj2 (Z.ltb_ge _ _)), (proj2 (Z.eqb_neq _ _)) by lia.
    rewrite (inline_put out) by lia. mred. unfold inline_state. cbn [fst].
    rewrite Z.min_l, zlen_app by (unfold BUFF_SIZE in *; lia). done. }
  cbn [iter_list]. rewrite E, IH, app_assoc; [done|done|]. rewrite zlen_app. lia.
Qed.

(** C11: maps survive being written as text.  The segment that holds a map's points decodes,
    with the parameters stored beside it, to a well-formed map of the same size that
    translates every offset to the same name and offset of a target, and so does the
    inline form of a map without periods when it fits its buffer, although targets are numbered anew and points
    that the earlier ones predict are dropped.  Names may be up to 1000 characters
    without white space or bars; points are in the first period. *)
Theorem map_text_roundtrip self :
  plain_map self ->
  (exists text m, MapValue_text self = Some text /\
     MapValue_decode MapValue_Con (Some (mv_size self)) (stored_periods self) (Some text)
       = Some (1, m) /\ same_translation self m) /\
  (inline_fits self ->
   exists text m, MapValueInline_serialise self = Some text /\
     MapValueInline_decode MapValue_Con (Some (mv_size self)) (None, None) text
       = Some (1, m) /\ same_translation self m).
Proof.
  intros Hp. destruct (map_text_spec self Hp) as [Ht Hnm]. split.
  - destruct (decode_plain self (fun c => (c =? 13) || (c =? 10)) 10 Hp) as (m & E & Hm);
      [unfold text_char; intros; lia|done|].
    do 2 eexists. split; [exact Ht|]. split; [|exact Hm]. unfold MapValue_decode.
    rewrite cstr_id by by apply points_text_cstring. by rewrite E.
  - intros (Hper & Hnp & Hidx & Hfit).
    destruct (decode_plain self (fun c => c =? 124) 124 Hp) as (m & E & Hm);
      [unfold text_char; intros; lia|done|].
    assert (cstring (points_text (target_name self) 124 (pts self))) as Hc
      by by apply points_text_cstring.
    exists (points_text (target_name self) 124 (pts self)), m. split_and!; [|..|done].
    + unfold MapValueInline_serialise. rewrite iter_spec.
      change (Some (replicate _ 0, 0)) with (Some (inline_state [])).
      fold (pts self). rewrite inline_iter; [|apply Hp|by apply list.Forall_forall|done|done|done].
      cbn [fst inline_state mbind option_bind app]. f_equal.
      replace (Z.to_nat (BUFF_SIZE - zlen (points_text (target_name self) 124 (pts self))))
        with (S (Z.to_nat (BUFF_SIZE - zlen (points_text (target_name self) 124 (pts self)) - 1)))
        by lia.
      by apply cstr_app_nul.
    + unfold MapValueInline_decode. rewrite cstr_id by done.
      unfold stored_periods in E. rewrite Hper in E. cbn [Z.eqb Pos.eqb] in E. by rewrite E.
Qed.

#[export] Instance plain_name_dec name : Decision (plain_name name).
Proof. unfold plain_name. apply _. Defined.

#[export] Instance plain_point_dec ip nm a : Decision (plain_point ip nm a).
Proof. unfold plain_point. apply _. Defined.

(** A map with two targets. *)
Definition added (m : MapValue) (image_offset target_offset : Z) (name : list Z) : MapValue :=
  match MapValue_add_point m image_offset target_offset name with Some (_, m) => m | None => m end.

Definition map_example : MapValue :=
  added (added MapValue_Con 0 7 map_name) 100 5 (lit "aff4://target/b").

Lemma added_wf m image_offset target_offset name :
  map_wf m -> mv_number_of_urns m < INT_MAX -> cstring name -> zlen name < BUFF_SIZE ->
  0 <= image_offset < LLONG_MAX -> image_offset < u64 (mv_image_period m) ->
  0 <= target_offset < 18446744073709551616 -> map_wf (added m image_offset target_offset name).
Proof.
  intros Hw Hn Hc Hl Ho Hp Ht.
  destruct (add_point_spec m image_offset target_offset name Hw Hn Hc Hl Ho Hp Ht)
    as (av & i & urn & m' & E & Hw' & _). unfold added. by rewrite E.
Qed.

Lemma map_example_plain : plain_map map_example.
Proof.
  split.
  - unfold map_example. repeat apply added_wf; try apply MapValue_Con_wf; try (vm_compute; reflexivity);
      try (apply (bool_decide_unpack _); vm_compute; exact I); unfold LLONG_MAX; lia.
  - vm_compute. discriminate.
  - vm_compute. discriminate.
  - apply (bool_decide_unpack _). vm_compute. exact I.
Qed.

Lemma map_text_roundtrip_witness :
  (exists text m, MapValue_text map_example = Some text /\
     MapValue_decode MapValue_Con (Some (mv_size map_example)) (stored_periods map_example)
       (Some text) = Some (1, m) /\ same_translation map_example m) /\
  (inline_fits map_example ->
   exists text m, MapValueInline_serialise map_example = Some text /\
     MapValueInline_decode MapValue_Con (Some (mv_size map_example)) (None, None) text = Some (1, m) /\ same_translation map_example m).
Proof. apply (map_text_roundtrip map_example). apply map_example_plain. Defined.

Lemma map_example_inline :
  inline_fits map_example /\
  MapValueInline_serialise map_example
  = Some (lit "0,7,aff4://target/a|100,5,aff4://target/b|").
Proof.
  split; [|vm_compute; reflexivity]. split_and!.
  - vm_compute. reflexivity.
  - vm_compute. discriminate.
  - vm_compute. reflexivity.
  - vm_compute. repeat (apply List.Forall_cons; [discriminate|]). apply List.Forall_nil.
  - vm_compute. discriminate.
Qed.
