(* ===== verification/MapBinary.v ===== *)
(** The binary form of maps and the end of a map's life (lib/map.c): the two segments that
    [MapValueBinary_serialise] writes, [MapValueBinary_decode], and how [MapDriver_close]
    chooses the form a map is stored in.

    The segments are members of a volume, kept by their URNs.  [junk] is what malloc left in
    the last byte of the block of the index, and [slack] the memory behind the block; an
    access outside of both is [None]. *)

From stdpp Require Import sorting.
From S2P Require Import Prelude Talloc Cache DataStore CText Misc Url Rdf File Treap Map MapText.

(** ** Records *)

Definition MAP_POINT_SIZE : Z := 20.

(** [struct map_point] as [binary_map_iterate_cb] fills it, in memory. *)
Definition point_record (node : map_point_node) : list Z :=
  le 8 (htonll (u64 (mp_image_offset node))) ++ le 8 (htonll (u64 (mp_target_offset node)))
  ++ le 4 (htonl (mp_target_idx node)).

(** The state is what was written. *)
Definition binary_map_iterate_cb (fd : list Z) (node : map_point_node) : list Z * bool :=
  (fd ++ point_record node, false).

(** [ntohll] and [ntohl] are the same functions. *)
Definition record_point (r : list Z) : map_point_node :=
  {| mp_image_offset := i64 (htonll (unle (zread 0 8 r)));
     mp_target_offset := i64 (htonll (unle (zread 8 8 r)));
     mp_target_idx := htonl (unle (zread 16 4 r)) |}.

(** ** Serialising *)

(** The members of a volume. *)
Abbreviation members := (gmap (list Z) (list Z)).

(** How the volume the map is stored in answers. *)
Inductive storage := NoStorage | CannotOpen | NotVolume | Volume.

(** The index: the targets' names, each with its NUL. *)
Fixpoint write_index (n : nat) (targets : list RDFURN) : option (list Z) :=
  match n with
  | O => Some []
  | S n =>
      match targets with
      | [] => None
      | t :: targets => rest ← write_index n targets; Some (urn_value t ++ [0] ++ rest)
      end
  end.

(** The text stored for the map ([None] is NULL), the error raised, the members, and the
    parameters handed to the resolver: the size and the periods. *)
Definition MapValueBinary_serialise (self : MapValue) (urn : RDFURN) (st : storage) (vol : members)
  : option (option (list Z) * option aff4_error * members * option (Z * (option Z * option Z))) :=
  if mv_number_of_points self =? 0 then Some (Some (lit "/map"), None, vol, None)
  else
    segment ← RDFURN_add urn (lit "map");
    index_segment ← RDFURN_add urn (lit "idx");
    match vol !! urn_value segment with
    | Some _ => Some (Some (lit "/map"), None, vol, None)
    | None =>
        match st with
        | NoStorage => Some (None, Some ERuntimeError, vol, None)
        | CannotOpen => Some (None, None, vol, None)
        | NotVolume => Some (None, Some ERuntimeError, vol, None)
        | Volume =>
            idx ← write_index (Z.to_nat (mv_number_of_urns self)) (mv_targets self);
            let points := (iter_recurse binary_map_iterate_cb (trp_root (mv_tree self)) []).1 in
            Some (Some (lit "/map"), None,
                  <[urn_value segment := points]> (<[urn_value index_segment := idx]> vol),
                  Some (mv_size self, stored_periods self))
        end
    end.

(** ** Decoding *)

(** The first NUL from [x] on. *)
Fixpoint find_nul (fuel : nat) (map : list Z) (x : Z) : option Z :=
  match fuel with
  | O => None
  | S fuel' => c ← bget map x; if c =? 0 then Some x else find_nul fuel' map (x + 1)
  end.

(** The scan of the index: whether it got to the end, which it does not at an empty name,
    and the targets found. *)
Fixpoint scan_targets (fuel : nat) (map : list Z) (size x : Z) (targets : list RDFURN)
  : option (bool * list RDFURN) :=
  if x <? size then
    match fuel with
    | O => None
    | S fuel' =>
        x' ← find_nul (S (length map)) map x;
        if x' >? x then
          urn ← RDFURN_set RDFURN_Con (Some (zread x (x' - x) map));
          scan_targets fuel' map size (x' + 1) (targets ++ [urn])
        else Some (false, targets)
    end
  else Some (true, targets).

(** The block has [size + 1] bytes: what was read, and the last one as malloc left it
    ([junk]).  The zero goes behind it. *)
Definition load_index (junk : Z) (slack : list Z) (idx : list Z) : option (bool * list RDFURN) :=
  let size := zlen idx in
  map ← bput (idx ++ [junk] ++ slack) (size + 1) [0];
  scan_targets (length idx) map size 0 [].

(** The points of a buffer of [n] records. *)
Fixpoint insert_records (n : nat) (buff : list Z) (t : trp map_point_node)
  : option (trp map_point_node) :=
  match n with
  | O => Some t
  | S n =>
      t ← tree_insert mp_image_offset t (record_point (ztake MAP_POINT_SIZE buff));
      insert_records n (zdrop MAP_POINT_SIZE buff) t
  end.

(** The loop over the segment: every read counts its records, and one more. *)
Fixpoint points_loop (fuel : nat) (i pos : Z) (data : list Z) (t : trp map_point_node)
  : option (trp map_point_node) :=
  if i >? 0 then
    match fuel with
    | O => None
    | S fuel' =>
        let buff := zread pos (BUFF_SIZE * MAP_POINT_SIZE) data in
        let res := zlen buff / MAP_POINT_SIZE in
        t ← insert_records (Z.to_nat res) buff t;
        points_loop fuel' (i - res - 1) (pos + zlen buff) data t
    end
  else Some t.

Definition with_targets (self : MapValue) (targets : list RDFURN) : MapValue :=
  {| mv_size := mv_size self; mv_number_of_points := mv_number_of_points self;
     mv_number_of_urns := mv_number_of_urns self + zlen targets; mv_tree := mv_tree self;
     mv_targets := mv_targets self ++ targets; mv_cache := mv_cache self;
     mv_target_period := mv_target_period self; mv_image_period := mv_image_period self |}.

(** A segment that cannot be opened ends the decoding with success. *)
Definition MapValueBinary_decode (junk : Z) (slack : list Z) (self : MapValue) (urn : RDFURN)
    (size : option Z) (periods : option Z * option Z) (vol : members)
  : option (Z * option aff4_error * MapValue) :=
  let self := load_parameters self size periods in
  idx_segment ← RDFURN_add urn (lit "idx");
  match vol !! urn_value idx_segment with
  | None => Some (1, None, self)
  | Some idx =>
      '(complete, targets) ← load_index junk slack idx;
      let self := with_targets self targets in
      if negb complete then Some (0, Some ERuntimeError, self)
      else
        map_segment ← RDFURN_add urn (lit "map");
        match vol !! urn_value map_segment with
        | None => Some (1, None, self)
        | Some data =>
            let n := i32 (zlen data / MAP_POINT_SIZE) in
            t ← points_loop (Z.to_nat n) n 0 data (mv_tree self);
            Some (1, None, with_tree self t n)
        end
  end.

(** ** Closing a map *)

Inductive map_form := FormInline | FormText | FormBinary.

Definition map_form_of (number_of_points : Z) : map_form :=
  if number_of_points <? 2 then FormInline
  else if number_of_points >? 10 then FormBinary
  else FormText.

(** [dirty] is what the resolver knows of the volume's state; [need_to_close] the value
    DIRTY_STATE_NEED_TO_CLOSE.  The result, the error raised, and the form the map is
    stored in ([None] for a map that is not stored, or keeps the caller's own). *)
Definition MapDriver_close (writing complete custom_map : bool) (dirty : option Z)
    (need_to_close : Z) (number_of_points : Z) : Z * option aff4_error * option map_form :=
  if negb writing then (1, None, None)
  else if negb complete then (0, Some EProgrammingError, None)
  else if match dirty with Some d => negb (d =? need_to_close) | None => false end
  then (0, Some ERuntimeError, None)
  else (1, None, if custom_map then None else Some (map_form_of number_of_points)).

(** ** Records *)

(** Reversing the bytes twice gives them back. *)
Lemma htonll_twice z : u64 (htonll (unle (le 8 (htonll (u64 z))))) = u64 z.
Proof.
  rewrite htonll_reverses by apply u64_range.
  assert (bytes_ok (reverse (le 8 (u64 z)))) as Hb by (apply Forall_reverse, le_bytes_ok).
  pose proof (unle_bound _ Hb) as Hr. change (256 ^ zlen (reverse (le 8 (u64 z)))) with 18446744073709551616 in Hr.
  pose proof (htonll_reverses _ Hr) as Hl.
  pose proof (le_unle _ Hb) as Hu. change (length (reverse (le 8 (u64 z)))) with 8%nat in Hu.
  rewrite Hu, reverse_involutive in Hl. apply (f_equal unle) in Hl. rewrite !unle_le8 in Hl.
  rewrite Hl. unfold u64. by rewrite Z.mod_mod.
Qed.

Lemma htonl_twice z : 0 <= z < 4294967296 -> htonl (unle (le 4 (htonl z))) = z.
Proof.
  intros Hz. rewrite le_htonl. unfold htonl.
  assert (bytes_ok (reverse (le 4 z))) as Hb by (apply Forall_reverse, le_bytes_ok).
  pose proof (le_unle _ Hb) as Hu. change (length (reverse (le 4 z))) with 4%nat in Hu.
  rewrite Hu, reverse_involutive, unle_le4. by apply u32_small.
Qed.

Definition record_ok (a : map_point_node) : Prop :=
  LLONG_MIN <= mp_image_offset a <= LLONG_MAX /\ LLONG_MIN <= mp_target_offset a <= LLONG_MAX /\
  0 <= mp_target_idx a < 4294967296.

Lemma record_roundtrip a : record_ok a -> record_point (point_record a) = a.
Proof.
  intros (Hi & Ht & Hx). unfold record_point, point_record, LLONG_MIN, LLONG_MAX in *.
  set (b1 := le 8 (htonll (u64 (mp_image_offset a)))).
  set (b2 := le 8 (htonll (u64 (mp_target_offset a)))). set (b3 := le 4 (htonl _)).
  assert (zread 0 8 (b1 ++ b2 ++ b3) = b1) as -> by by apply (zread_app_mid 0 8 []).
  assert (zread 8 8 (b1 ++ b2 ++ b3) = b2) as -> by by apply (zread_app_mid 8 8 b1).
  assert (zread 16 4 (b1 ++ b2 ++ b3) = b3) as ->.
  { pose proof (zread_app_mid 16 4 (b1 ++ b2) b3 []) as E. rewrite app_nil_r, <- app_assoc in E.
    by apply E. }
  rewrite <- (i64_u64 (htonll (unle b1))), <- (i64_u64 (htonll (unle b2))). unfold b1, b2, b3.
  rewrite !htonll_twice, htonl_twice, !i64_u64, !i64_small by lia. by destruct a.
Qed.

Lemma zlen_point_record a : zlen (point_record a) = MAP_POINT_SIZE.
Proof. unfold point_record. by rewrite !zlen_app, !zlen_le. Qed.

(** The data of a segment of points. *)
Definition points_data (l : list map_point_node) : list Z := mjoin (point_record <$> l).

Lemma zlen_points_data l : zlen (points_data l) = MAP_POINT_SIZE * zlen l.
Proof.
  induction l as [|a l IH]; [done|]. change (points_data (a :: l)) with (point_record a ++ points_data l).
  rewrite zlen_app, zlen_point_record, zlen_cons, IH. lia.
Qed.

Lemma points_data_app l k : points_data (l ++ k) = points_data l ++ points_data k.
Proof. unfold points_data. by rewrite fmap_app, join_app. Qed.

Lemma binary_iter l out : iter_list binary_map_iterate_cb l out = (out ++ points_data l, false).
Proof.
  revert out. induction l as [|a l IH]; intros out; [by rewrite app_nil_r|]. cbn [iter_list binary_map_iterate_cb].
  rewrite IH. by rewrite <- app_assoc.
Qed.

(** ** Points *)

Lemma insert_end t a :
  trp_ok io t -> Forall (fun b => io b < io a) (tree_elements (trp_root t)) ->
  exists t', tree_insert io t a = Some t' /\ trp_ok io t' /\
    tree_elements (trp_root t') = tree_elements (trp_root t) ++ [a].
Proof.
  intros Ht Hl. pose proof (tree_insert_spec io t a Ht) as Hs.
  destruct (tree_insert io t a) as [t'|].
  - destruct Hs as (Ht' & _ & He). exists t'. by rewrite He, put_end.
  - exfalso. unfold list_get in Hs. rewrite filter_none in Hs; [by destruct Hs|].
    eapply Forall_impl; [exact Hl|]. cbn. intros. lia.
Qed.

Lemma insert_records_spec l k t :
  trp_ok io t -> StronglySorted (klt io) (tree_elements (trp_root t) ++ l) -> Forall record_ok l ->
  exists t', insert_records (length l) (points_data (l ++ k)) t = Some t' /\ trp_ok io t' /\
    tree_elements (trp_root t') = tree_elements (trp_root t) ++ l.
Proof.
  revert t. induction l as [|a l IH]; intros t Ht Hs Hr.
  { exists t. by rewrite app_nil_r. }
  apply list.Forall_cons in Hr as [Ha Hr]. pose proof Hs as (_ & _ & Hb & _)%sorted_node.
  destruct (insert_end t a Ht Hb) as (t1 & E & Ht1 & He1).
  destruct (IH t1 Ht1) as (t2 & E2 & Ht2 & He2); [by rewrite He1, <- app_assoc|done|].
  exists t2. rewrite He2, He1, <- app_assoc. split; [|done]. cbn [length insert_records].
  change (points_data ((a :: l) ++ k)) with (point_record a ++ points_data (l ++ k)).
  rewrite ztake_app_eq, zdrop_app_eq by by rewrite zlen_point_record.
  rewrite record_roundtrip by done. rewrite E. mred. exact E2.
Qed.

(** The loop reads [BUFF_SIZE] points at a time; of one more it never reads the last. *)
Lemma points_loop_spec l t :
  trp_ok io t -> tree_elements (trp_root t) = [] -> StronglySorted (klt io) l ->
  Forall record_ok l -> zlen l <= BUFF_SIZE + 1 ->
  exists t', points_loop (Z.to_nat (zlen l)) (zlen l) 0 (points_data l) t = Some t' /\
    trp_ok io t' /\ tree_elements (trp_root t') = ztake BUFF_SIZE l.
Proof.
  intros Ht He Hs Hr Hl. destruct (Z.gtb_spec (zlen l) 0) as [Hp|Hz]; cycle 1.
  { pose proof (zlen_nonneg l). assert (l = []) as -> by (apply zlen_0_nil; lia).
    exists t. by rewrite He. }
  destruct (Z.to_nat (zlen l)) as [|fu] eqn:E; [lia|]. cbn [points_loop].
  destruct (Z.gtb_spec (zlen l) 0); [|lia]. set (n := Z.min BUFF_SIZE (zlen l)).
  assert (zread 0 (BUFF_SIZE * MAP_POINT_SIZE) (points_data l) = points_data (ztake BUFF_SIZE l)) as ->.
  { rewrite <- (ztake_zdrop BUFF_SIZE l) at 1. rewrite points_data_app. unfold zread.
    rewrite zdrop_0 by lia. destruct (Z.le_gt_cases (zlen l) BUFF_SIZE).
    - rewrite (zdrop_all BUFF_SIZE) by lia. rewrite app_nil_r. apply ztake_all.
      rewrite zlen_points_data, zlen_ztake. unfold MAP_POINT_SIZE. lia.
    - apply ztake_app_eq. rewrite zlen_points_data, zlen_ztake. unfold MAP_POINT_SIZE, BUFF_SIZE in *. lia. }
  rewrite zlen_points_data. assert (zlen (ztake BUFF_SIZE l) = n) as Hn
    by (rewrite zlen_ztake; unfold BUFF_SIZE in *; lia).
  rewrite Hn, Z.mul_comm, Z.div_mul by done.
  destruct (insert_records_spec (ztake BUFF_SIZE l) [] t Ht) as (t' & E' & Ht' & He').
  { rewrite He. cbn [app]. apply (StronglySorted_app_1_l _ (ztake BUFF_SIZE l) (zdrop BUFF_SIZE l)).
    by rewrite ztake_zdrop. }
  { by apply Forall_ztake. }
  rewrite app_nil_r in E'.
  assert (Z.to_nat n = length (ztake BUFF_SIZE l)) as -> by (unfold zlen in Hn; lia).
  rewrite E'. mred. exists t'. rewrite He in He'. split; [|done].
  assert (zlen l - n - 1 <= 0) by (unfold n; lia).
  destruct fu; cbn [points_loop]; destruct (Z.gtb_spec (zlen l - n - 1) 0); done || lia.
Qed.

(** ** The index *)

Definition index_data (targets : list RDFURN) : list Z :=
  mjoin ((fun t => urn_value t ++ [0]) <$> targets).

Lemma write_index_all targets : write_index (length targets) targets = Some (index_data targets).
Proof.
  induction targets as [|t targets IH]; [done|]. cbn [write_index length]. rewrite IH. mred.
  change (index_data (t :: targets)) with ((urn_value t ++ [0]) ++ index_data targets).
  by rewrite <- app_assoc.
Qed.

Lemma bget_at (pre : list Z) c post : bget (pre ++ c :: post) (zlen pre) = Some c.
Proof.
  replace (zlen pre) with (zlen pre + 0) by lia. by rewrite bget_app_r.
Qed.

Lemma find_nul_spec fuel pre name post :
  cstring name -> (length name < fuel)%nat ->
  find_nul fuel (pre ++ name ++ 0 :: post) (zlen pre) = Some (zlen pre + zlen name).
Proof.
  revert fuel pre. induction name as [|c name IH]; intros [|fuel] pre Hc Hf; cbn [length] in Hf; try lia.
  - cbn [find_nul app]. rewrite (bget_at pre). mred. cbn. f_equal.
    change (zlen (@nil Z)) with 0. lia.
  - apply list.Forall_cons in Hc as [Hc Hcs]. cbn [find_nul app].
    rewrite (bget_at pre). mred.
    destruct (Z.eqb_spec c 0); [lia|].
    specialize (IH fuel (pre ++ [c]) Hcs ltac:(lia)). rewrite <- app_assoc, zlen_app in IH.
    change (zlen [c]) with 1 in IH. cbn [app] in IH. rewrite IH. rewrite zlen_cons. f_equal. lia.
Qed.

(** A target whose name is stored and read back. *)
Definition index_bytes_ok (t : RDFURN) : Prop :=
  urn_value t <> [] /\ cstring (urn_value t) /\ RDFURN_set RDFURN_Con (Some (urn_value t)) = Some t.

Lemma scan_targets_spec fuel pre targets post acc :
  Forall index_bytes_ok targets -> (length (index_data targets) <= fuel)%nat ->
  scan_targets fuel (pre ++ index_data targets ++ post) (zlen (pre ++ index_data targets)) (zlen pre) acc
  = Some (true, acc ++ targets).
Proof.
  revert fuel pre acc. induction targets as [|t targets IH]; intros fuel pre acc Ht Hf.
  { rewrite app_nil_r. cbn [index_data fmap list_fmap mjoin list_join]. rewrite app_nil_r.
    destruct fuel; cbn [scan_targets]; by rewrite Z.ltb_irrefl. }
  apply list.Forall_cons in Ht as [(Hne & Hc & Hset) Ht].
  change (index_data (t :: targets)) with ((urn_value t ++ [0]) ++ index_data targets) in *.
  assert (0 < zlen (urn_value t)) as Hp.
  { destruct (urn_value t); [done|]. rewrite zlen_cons. pose proof (zlen_nonneg l). lia. }
  destruct fuel as [|fuel]; [rewrite !length_app in Hf; cbn in Hf; lia|].
  cbn [scan_targets]. pose proof (zlen_nonneg (index_data targets)).
  destruct (Z.ltb_spec (zlen pre) (zlen (pre ++ (urn_value t ++ [0]) ++ index_data targets)));
    [|rewrite !zlen_app in *; change (zlen [0]) with 1 in *; lia].
  assert (pre ++ ((urn_value t ++ [0]) ++ index_data targets) ++ post
    = pre ++ urn_value t ++ 0 :: (index_data targets ++ post)) as E by by rewrite <- !app_assoc.
  rewrite E. rewrite find_nul_spec; [|done|rewrite !length_app; lia]. mred.
  destruct (Z.gtb_spec (zlen pre + zlen (urn_value t)) (zlen pre)); [|lia].
  rewrite zread_app_mid by lia. rewrite Hset. mred.
  specialize (IH fuel (pre ++ urn_value t ++ [0]) (acc ++ [t]) Ht).
  rewrite <- !app_assoc in IH. cbn [app] in IH. rewrite !zlen_app in *. change (zlen [0]) with 1 in *.
  replace (zlen pre + zlen (urn_value t) + 1) with (zlen pre + (zlen (urn_value t) + 1)) by lia.
  rewrite zlen_cons in IH.
  replace (zlen pre + (zlen (urn_value t) + 1 + zlen (index_data targets)))
    with (zlen pre + (zlen (urn_value t) + (1 + zlen (index_data targets)))) by lia.
  apply IH. rewrite !length_app in Hf. cbn in Hf. lia.
Qed.

(** ** Maps *)

(** A map the binary form can hold. *)
Record binary_map (self : MapValue) : Prop := {
  bm_wf : map_wf self;
  bm_period : u64 (mv_image_period self) <> 0;
  bm_nonempty : mv_number_of_points self <> 0;
  bm_points : Forall record_ok (pts self);
  bm_targets : Forall index_bytes_ok (mv_targets self)
}.

Lemma load_index_spec junk slack targets :
  Forall index_bytes_ok targets -> slack <> [] ->
  load_index junk slack (index_data targets) = Some (true, targets).
Proof.
  intros Ht Hs. unfold load_index. destruct slack as [|x slack]; [done|].
  rewrite bput_ok; [|pose proof (zlen_nonneg (index_data targets)); lia|].
  2: { rewrite !zlen_app, !zlen_cons. pose proof (zlen_nonneg slack).
    change (zlen (@nil Z)) with 0. lia. }
  mred. rewrite (app_assoc _ [junk] (x :: slack)). change (x :: slack) with ([x] ++ slack).
  rewrite (zover_mid _ _ [0] [x] slack) by (rewrite ?zlen_app; done).
  rewrite <- app_assoc.
  pose proof (scan_targets_spec (length (index_data targets)) [] targets ([junk] ++ [0] ++ slack) [] Ht) as H.
  by apply H.
Qed.

Lemma index_ok_urns self : map_wf self ->
  write_index (Z.to_nat (mv_number_of_urns self)) (mv_targets self) = Some (index_data (mv_targets self)).
Proof. intros Hw. rewrite (mw_urns _ Hw). unfold zlen. rewrite Nat2Z.id. apply write_index_all. Qed.

(** What the two segments are called. *)
Lemma segment_names n urn : urn_plain n urn ->
  exists m i, RDFURN_add urn (lit "map") = Some m /\ RDFURN_add urn (lit "idx") = Some i /\
    urn_value m <> urn_value i.
Proof.
  intros Hu.
  destruct (RDFURN_add_simple n urn (lit "map") Hu) as (m & Hm & Hmv & _);
    [apply (bool_decide_unpack _); vm_compute; exact I|done|
     apply (bool_decide_unpack _); vm_compute; exact I|].
  destruct (RDFURN_add_simple n urn (lit "idx") Hu) as (i & Hi & Hiv & _);
    [apply (bool_decide_unpack _); vm_compute; exact I|done|
     apply (bool_decide_unpack _); vm_compute; exact I|].
  exists m, i. split_and!; [done|done|]. rewrite Hmv, Hiv. intros E%(inj (app _))%(inj (app _)). done.
Qed.

(** Writing a map and decoding what was written into a new value, up to one point more
    than a read holds. *)
Lemma binary_decode_spec junk slack self n urn vol :
  binary_map self -> urn_plain n urn -> slack <> [] -> zlen (pts self) <= BUFF_SIZE + 1 ->
  (forall m, RDFURN_add urn (lit "map") = Some m -> vol !! urn_value m = None) ->
  exists vol' m, MapValueBinary_serialise self urn Volume vol =
      Some (Some (lit "/map"), None, vol', Some (mv_size self, stored_periods self)) /\
    MapValueBinary_decode junk slack MapValue_Con urn (Some (mv_size self)) (stored_periods self) vol'
      = Some (1, None, m) /\
    map_wf m /\ pts m = ztake BUFF_SIZE (pts self) /\ mv_targets m = mv_targets self /\
    mv_size m = mv_size self /\ mv_number_of_points m = zlen (pts self) /\
    mv_image_period m = mv_image_period (load_parameters MapValue_Con None (stored_periods self)) /\
    mv_target_period m = mv_target_period (load_parameters MapValue_Con None (stored_periods self)).
Proof.
  intros [Hw Hper Hne Hpts Htg] Hu Hsl Hlen Hnew.
  destruct (segment_names n urn Hu) as (ms & ix & Hm & Hi & Hmi).
  unfold MapValueBinary_serialise. destruct (Z.eqb_spec (mv_number_of_points self) 0); [done|].
  rewrite Hm, Hi. mred. rewrite (Hnew ms Hm), index_ok_urns by done. mred.
  eexists. unfold MapValueBinary_decode. rewrite Hi. mred.
  rewrite lookup_insert_ne, lookup_insert_eq by done. rewrite load_index_spec by done. mred.
  cbn [negb]. rewrite Hm. mred. rewrite lookup_insert_eq, iter_spec, binary_iter. cbn [fst app].
  change (tree_elements (trp_root (mv_tree self))) with (pts self).
  rewrite zlen_points_data, Z.mul_comm, Z.div_mul by done.
  pose proof (zlen_nonneg (pts self)). rewrite (i32_small (zlen (pts self))) by (unfold BUFF_SIZE in *; lia).
  destruct (points_loop_spec (pts self) (mv_tree MapValue_Con)) as (t & E & Ht & He); try done.
  { apply MapValue_Con_wf. }
  { apply (mw_tree _ Hw). }
  change (mv_tree (with_targets (load_parameters MapValue_Con (Some (mv_size self)) (stored_periods self))
    (mv_targets self))) with (mv_tree MapValue_Con). rewrite E. mred.
  eexists. split; [reflexivity|]. split; [reflexivity|]. split_and!; try done.
  destruct Hw as [_ Hp _ _ _ _ _]. split; cbn; try done.
  - change (Forall (fun a => 0 <= io a <= LLONG_MAX /\ 0 <= mp_target_idx a < zlen (mv_targets self))
      (tree_elements (trp_root t))). rewrite He. by apply Forall_ztake.
  - by apply Cache_Con_wf.
  - left. unfold entries, entry_ids. cbn. done.
Qed.

(** C25: maps survive the binary form, where the allocator leaves room.  A map with at most
    40960 points whose target names have no NUL is written as two members of its volume;
    decoding them into a new value gives the same points and the same list of targets, and
    the map translates every offset as before.  A second serialisation changes nothing,
    since the member exists.  Every decoding writes a zero one byte behind the block of the
    index: this holds when a byte is there to be overwritten ([slack]), whatever the block's
    last byte was; without one the decoding leaves its memory, as
    [MapValueBinary_decode_overflows] says. *)
Theorem map_binary_roundtrip junk slack self n urn vol :
  binary_map self -> urn_plain n urn -> slack <> [] -> zlen (pts self) <= BUFF_SIZE ->
  (forall m, RDFURN_add urn (lit "map") = Some m -> vol !! urn_value m = None) ->
  exists vol' m, MapValueBinary_serialise self urn Volume vol =
      Some (Some (lit "/map"), None, vol', Some (mv_size self, stored_periods self)) /\
    MapValueBinary_decode junk slack MapValue_Con urn (Some (mv_size self)) (stored_periods self) vol'
      = Some (1, None, m) /\
    pts m = pts self /\ mv_targets m = mv_targets self /\ same_translation self m /\
    MapValueBinary_serialise self urn Volume vol' = Some (Some (lit "/map"), None, vol', None).
Proof.
  intros Hb Hu Hs Hl Hnew.
  destruct (binary_decode_spec junk slack self n urn vol Hb Hu Hs) as
    (vol' & m & Hser & Hdec & Hw & Hp & Ht & Hsz & _ & Hip & Htp); [lia|done|].
  pose proof Hb as [Hws Hper Hne _ _]. rewrite ztake_all in Hp by lia.
  exists vol', m. split_and!; try done.
  - split_and!; [done|done|]. intros off Ho. pose proof (loaded_translate self (target_name self) (pts self) off Ho) as Hld.
    assert (target_name m = target_name self) as Hnm by (unfold target_name; by rewrite Ht).
    cbn zeta in Hld. change (mv_image_period (load_parameters MapValue_Con (Some (mv_size self)) (stored_periods self)))
      with (mv_image_period (load_parameters MapValue_Con None (stored_periods self))) in Hld.
    change (mv_target_period (load_parameters MapValue_Con (Some (mv_size self)) (stored_periods self)))
      with (mv_target_period (load_parameters MapValue_Con None (stored_periods self))) in Hld.
    destruct (loaded_decoded self (target_name self) Hper) as (Hi & _ & _).
    change (mv_image_period (load_parameters MapValue_Con (Some (mv_size self)) (stored_periods self)))
      with (mv_image_period (load_parameters MapValue_Con None (stored_periods self))) in Hi.
    rewrite !named_translate_self by (done || by rewrite Hip, Hi).
    by rewrite Hnm, Hp, Hip, Htp.
  - unfold MapValueBinary_serialise in *. destruct (_ =? 0); [done|].
    destruct (segment_names n urn Hu) as (ms & ix & Hm & Hi & _).
    pose proof (Hnew ms Hm) as Hv. rewrite Hm, Hi in Hser |- *.
    cbn [mbind option_bind] in Hser |- *. rewrite Hv in Hser.
    rewrite index_ok_urns in Hser by done. cbn [mbind option_bind] in Hser. injection Hser as <-.
    by rewrite lookup_insert_eq.
Qed.

(** Decoding loses a point.  The loop counts a point too many for every read, so of a
    map with 40961 points, one more than a read holds, the last is not read; the value
    still counts it. *)
Theorem MapValueBinary_decode_drops_point junk slack self n urn vol :
  binary_map self -> urn_plain n urn -> slack <> [] -> zlen (pts self) = BUFF_SIZE + 1 ->
  (forall m, RDFURN_add urn (lit "map") = Some m -> vol !! urn_value m = None) ->
  exists vol' m, MapValueBinary_serialise self urn Volume vol =
      Some (Some (lit "/map"), None, vol', Some (mv_size self, stored_periods self)) /\
    MapValueBinary_decode junk slack MapValue_Con urn (Some (mv_size self)) (stored_periods self) vol'
      = Some (1, None, m) /\
    pts m = ztake BUFF_SIZE (pts self) /\ zlen (pts m) < mv_number_of_points m.
Proof.
  intros Hb Hu Hs Hl Hnew.
  destruct (binary_decode_spec junk slack self n urn vol Hb Hu Hs) as
    (vol' & m & Hser & Hdec & _ & Hp & _ & _ & Hn & _); [lia|done|].
  exists vol', m. split_and!; try done. rewrite Hp, Hn, zlen_ztake. unfold BUFF_SIZE in *. lia.
Qed.

(** Decoding the index writes past its block.  The terminating zero goes to the byte
    after the one allocated for it: where nothing follows the block, decoding any stored
    map leaves it. *)
Theorem MapValueBinary_decode_overflows junk self urn size periods vol i idx :
  RDFURN_add urn (lit "idx") = Some i -> vol !! urn_value i = Some idx ->
  MapValueBinary_decode junk [] self urn size periods vol = None.
Proof.
  intros Hi Hv. unfold MapValueBinary_decode. rewrite Hi. mred. rewrite Hv. unfold load_index, bput.
  change (zlen [0]) with 1. rewrite !zlen_app. change (zlen [junk]) with 1. change (zlen (@nil Z)) with 0.
  destruct (Z.leb_spec (zlen idx + 1 + 1) (zlen idx + (1 + 0))); [lia|]. by rewrite andb_false_r.
Qed.

#[export] Instance record_ok_dec a : Decision (record_ok a).
Proof. unfold record_ok. apply _. Defined.

#[export] Instance index_ok_dec t : Decision (index_bytes_ok t).
Proof. unfold index_bytes_ok. apply _. Defined.

Definition binary_urn : RDFURN := default RDFURN_Con (RDFURN_set RDFURN_Con (Some (lit "aff4://v/map"))).

Lemma binary_urn_plain : urn_plain 12 binary_urn.
Proof.
  destruct (RDFURN_set_plain RDFURN_Con (lit "aff4://v/map")) as (r & Hr & Hp);
    [apply (bool_decide_unpack _); vm_compute; exact I|by vm_compute|by vm_compute|].
  unfold binary_urn. rewrite Hr. exact Hp.
Qed.

Lemma map_example_binary : binary_map map_example.
Proof.
  split; [apply map_example_plain|by vm_compute|by vm_compute| |];
    apply (bool_decide_unpack _); vm_compute; exact I.
Qed.

Lemma map_binary_roundtrip_witness :
  exists vol' m, MapValueBinary_serialise map_example binary_urn Volume ∅ =
      Some (Some (lit "/map"), None, vol', Some (mv_size map_example, stored_periods map_example)) /\
    MapValueBinary_decode 9 [7] MapValue_Con binary_urn (Some (mv_size map_example))
      (stored_periods map_example) vol' = Some (1, None, m) /\
    pts m = pts map_example /\ mv_targets m = mv_targets map_example /\
    same_translation map_example m /\
    MapValueBinary_serialise map_example binary_urn Volume vol' =
      Some (Some (lit "/map"), None, vol', None).
Proof.
  apply (map_binary_roundtrip 9 [7] map_example 12 binary_urn ∅).
  - apply map_example_binary.
  - apply binary_urn_plain.
  - done.
  - by vm_compute.
  - intros m _. apply lookup_empty.
Defined.

(** A map of [n] points in one target, as a treap without left branches. *)
Definition spine (l : list map_point_node) : treap map_point_node :=
  foldr (fun a t => Node Leaf a 0 t) Leaf l.

Definition step_point (k : nat) : map_point_node :=
  {| mp_image_offset := Z.of_nat k; mp_target_offset := 0; mp_target_idx := 0 |}.

Definition step_map (n : nat) : MapValue :=
  {| mv_size := Z.of_nat n; mv_number_of_points := Z.of_nat n; mv_number_of_urns := 1;
     mv_tree := {| trp_root := spine (map step_point (seq 0 n)); trp_prn_state := 0 |};
     mv_targets := [map_urn map_name]; mv_cache := Cache_Con 100 0; mv_target_period := -1;
     mv_image_period := -1 |}.

Lemma spine_elements l : tree_elements (spine l) = l.
Proof.
  induction l as [|a l IH]; [done|]. change (a :: tree_elements (spine l) = a :: l). by rewrite IH.
Qed.

Lemma spine_heap l : tree_heap (spine l).
Proof.
  induction l as [|a l IH]; [done|]. split; [done|]. split; [exact IH|]. split; [done|].
  by destruct l.
Qed.

Lemma step_points_sorted k n : StronglySorted (klt io) (map step_point (seq k n)).
Proof.
  revert k. induction n as [|n IH]; intros k; cbn [seq map]; constructor; [apply IH|].
  apply List.Forall_map, list.Forall_forall. intros j Hj%elem_of_seq. unfold klt. cbn. lia.
Qed.

Lemma step_map_binary n : (0 < n)%nat -> Z.of_nat n < INT_MAX -> binary_map (step_map n).
Proof.
  intros Hn Hm. unfold INT_MAX in Hm.
  assert (pts (step_map n) = map step_point (seq 0 n)) as Hp by apply spine_elements.
  split.
  - split; rewrite ?Hp; try done.
    + split; [|apply spine_heap]. unfold tree_sorted. cbn. rewrite spine_elements.
      apply step_points_sorted.
    + apply List.Forall_map, list.Forall_forall. intros j Hj%elem_of_seq. cbn [step_point mp_image_offset mp_target_idx step_map mv_targets]. unfold LLONG_MAX.
      change (zlen [map_urn map_name]) with 1. lia.
    + by apply Cache_Con_wf.
    + by left.
  - by vm_compute.
  - cbn. lia.
  - rewrite Hp. apply List.Forall_map, list.Forall_forall. intros j Hj%elem_of_seq.
    unfold record_ok, LLONG_MIN, LLONG_MAX. cbn. lia.
  - apply (bool_decide_unpack _). vm_compute. exact I.
Qed.

Definition big_map : MapValue := step_map (Z.to_nat (BUFF_SIZE + 1)).

Lemma MapValueBinary_decode_drops_point_witness :
  exists vol' m, MapValueBinary_serialise big_map binary_urn Volume ∅ =
      Some (Some (lit "/map"), None, vol', Some (mv_size big_map, stored_periods big_map)) /\
    MapValueBinary_decode 9 [7] MapValue_Con binary_urn (Some (mv_size big_map))
      (stored_periods big_map) vol' = Some (1, None, m) /\
    pts m = ztake BUFF_SIZE (pts big_map) /\ zlen (pts m) < mv_number_of_points m.
Proof.
  apply (MapValueBinary_decode_drops_point 9 [7] big_map 12 binary_urn ∅).
  - apply step_map_binary; unfold BUFF_SIZE, INT_MAX; lia.
  - apply binary_urn_plain.
  - done.
  - unfold pts, big_map, step_map. cbn [mv_tree trp_root]. rewrite spine_elements. unfold zlen.
    rewrite length_map, length_seq. unfold BUFF_SIZE. lia.
  - intros m _. apply lookup_empty.
Defined.

Lemma MapValueBinary_decode_overflows_witness :
  MapValueBinary_decode 9 [] MapValue_Con binary_urn None (None, None)
    {[ lit "aff4://v/map/idx" := lit "aff4://t" ++ [0] ]} = None.
Proof.
  apply (MapValueBinary_decode_overflows 9 MapValue_Con binary_urn None (None, None)
    {[ lit "aff4://v/map/idx" := lit "aff4://t" ++ [0] ]}
    (default RDFURN_Con (RDFURN_add binary_urn (lit "idx"))) (lit "aff4://t" ++ [0]));
    vm_compute; reflexivity.
Defined.
