(* ===== verification/Resolver.v ===== *)
(** The resolver (lib/resolver.c): metadata over a data store, the dispatcher of object
    types, and the two caches that hand objects out.

    The resolver is a client of the data store's interface: its theorems hold for any
    store that keeps the laws of [DataStoreLaws].  Objects are numbered in the order
    they are made; the caches hold their numbers.  Which object belongs to a cache, and
    which one a flush freed, is part of the state: using a freed object is [None]. *)

From S2P Require Import Prelude Cache DataStore Misc Url Rdf File.

(** ** Object classes *)

(** The classes that register themselves (lib/file.c, lib/aff4_zip.c,
    lib/aff4_image.c). *)
Inductive aff_class := KFile | KZip | KImage.

#[export] Instance aff_class_eq_dec : EqDecision aff_class.
Proof. solve_decision. Defined.

Definition AFF4_FILE : list Z := lit "file".
Definition AFF4_ZIP_VOLUME : list Z := lit "http://afflib.org/2009/aff4#zip_volume".
Definition AFF4_IMAGE : list Z := lit "http://afflib.org/2009/aff4#BevyStream".
Definition AFF4_TYPE : list Z := lit "http://www.w3.org/1999/02/22-rdf-syntax-ns#type".

(** [register_type_dispatcher]: the first class registered for a type stays. *)
Definition register_type_dispatcher (types : option (Cache aff_class)) (type : list Z)
    (c : aff_class) : option (Cache aff_class) :=
  let t := default (Cache_Con 100 0) types in
  if Cache_present t (type ++ [0]) then Some t else Cache_put t (type ++ [0]) (Some c).

(** The modules' initialisers. *)
Definition type_dispatcher : option (Cache aff_class) :=
  t ← register_type_dispatcher None AFF4_FILE KFile;
  t ← register_type_dispatcher (Some t) AFF4_ZIP_VOLUME KZip;
  register_type_dispatcher (Some t) AFF4_IMAGE KImage.

(** The part of an object the resolver looks at; [ao_mode] is a character. *)
Record AFFObject := {
  ao_class : aff_class;
  ao_urn : RDFURN;
  ao_mode : Z
}.

(** ** The chain of values *)

(** The values [resolve] returns, linked by their [list] members: numbers of other
    values, [None] for NULL. *)
Record RDFItem := { it_value : RDFValue; it_prev : option nat; it_next : option nat }.

(** The constructor of the base class makes a list head of the value; the
    constructors of URNs and dates do not call it. *)
Definition inits_list (c : rdf_class) : bool :=
  match c with CInteger | CString => true | CURN | CDatetime => false end.

Definition new_item (c : rdf_class) (v : RDFValue) (i : nat) : RDFItem :=
  let self := if inits_list c then Some i else None in
  {| it_value := v; it_prev := self; it_next := self |}.

Definition set_prev (i : nat) (p : option nat) (items : list RDFItem) : option (list RDFItem) :=
  x ← items !! i;
  Some (<[i := {| it_value := it_value x; it_prev := p; it_next := it_next x |}]> items).

Definition set_next (i : nat) (n : option nat) (items : list RDFItem) : option (list RDFItem) :=
  x ← items !! i;
  Some (<[i := {| it_value := it_value x; it_prev := it_prev x; it_next := n |}]> items).

(** [list_add_tail(new, head)]; [None] is a NULL pointer followed. *)
Definition list_add_tail (new head : nat) (items : list RDFItem) : option (list RDFItem) :=
  h ← items !! head;
  items ← set_prev head (Some new) items;
  items ← set_next new (Some head) items;
  items ← set_prev new (it_prev h) items;
  prev ← it_prev h;
  set_next prev (Some new) items.

(** The values a client sees that starts at [head] and follows [next] until it is
    back. *)
Fixpoint chain_from (fuel : nat) (head i : nat) (items : list RDFItem) : option (list RDFValue) :=
  match fuel with
  | O => None
  | S fuel' =>
      x ← items !! i;
      n ← it_next x;
      if (n =? head)%nat then Some [it_value x]
      else rest ← chain_from fuel' head n items; Some (it_value x :: rest)
  end.

Definition chain (head : nat) (items : list RDFItem) : option (list RDFValue) :=
  chain_from (length items) head head items.

(** ** The resolver *)

Section Resolver.

Context `{DS : DataStore St}.

Record Resolver := {
  rs_store : St;
  rs_read_cache : Cache nat;
  rs_write_cache : Cache nat;
  rs_objects : list AFFObject;
  (** the objects whose talloc parent is a node of one of the caches, and those that
      were freed *)
  rs_cached : gset nat;
  rs_freed : gset nat
}.

Definition with_rs_store (self : Resolver) (s : St) : Resolver :=
  {| rs_store := s; rs_read_cache := rs_read_cache self;
     rs_write_cache := rs_write_cache self; rs_objects := rs_objects self;
     rs_cached := rs_cached self; rs_freed := rs_freed self |}.

Definition with_cached (self : Resolver) (c : gset nat) : Resolver :=
  {| rs_store := rs_store self; rs_read_cache := rs_read_cache self;
     rs_write_cache := rs_write_cache self; rs_objects := rs_objects self;
     rs_cached := c; rs_freed := rs_freed self |}.

(** Freeing the caches frees their nodes, and with them the objects the nodes own. *)
Definition Resolver_flush (self : Resolver) : Resolver :=
  {| rs_store := rs_store self; rs_read_cache := Cache_Con 256 0;
     rs_write_cache := Cache_Con 256 0; rs_objects := rs_objects self;
     rs_cached := ∅; rs_freed := rs_freed self ∪ rs_cached self |}.

Definition Resolver_Con (store : St) : Resolver :=
  Resolver_flush {| rs_store := store; rs_read_cache := Cache_Con 256 0;
                    rs_write_cache := Cache_Con 256 0; rs_objects := [];
                    rs_cached := ∅; rs_freed := ∅ |}.

(** *** Metadata *)

Definition Resolver_set (self : Resolver) (urn : RDFURN) (attribute : list Z) (value : RDFValue)
  : option Resolver :=
  s ← ds_set (rs_store self) (urn_value urn) attribute (Some (RDFValue_encode value));
  Some (with_rs_store self s).

Definition Resolver_del (self : Resolver) (urn : RDFURN) (attribute : list Z)
  : option Resolver :=
  s ← ds_del (rs_store self) (urn_value urn) attribute; Some (with_rs_store self s).

Definition Resolver_add (self : Resolver) (urn : RDFURN) (attribute : list Z) (value : RDFValue)
  : option Resolver :=
  s ← ds_add (rs_store self) (urn_value urn) attribute (Some (RDFValue_encode value));
  Some (with_rs_store self s).

(** One object of the store; an unknown type leaves a NULL pointer to decode into. *)
Definition decode_object (registry : Cache rdf_class) (obj : option DataStoreObject)
  : option (rdf_class * RDFValue) :=
  obj ← obj;
  c ← Cache_borrow registry (dso_rdf_type obj ++ [0]);
  v ← RDFValue_decode c obj;
  Some (c, v).

(** The loop over the store's objects; the values made so far are numbered from 0,
    which is the result. *)
Fixpoint resolve_loop (registry : Cache rdf_class) (objs : list (option DataStoreObject))
    (items : list RDFItem) : option (list RDFItem) :=
  match objs with
  | [] => Some items
  | obj :: objs =>
      '(c, v) ← decode_object registry obj;
      let item := length items in
      let items' := items ++ [new_item c v item] in
      items' ← (if (item =? 0)%nat then Some items' else list_add_tail 0 item items');
      resolve_loop registry objs items'
  end.

(** The result is the first of the values, NULL without any. *)
Definition Resolver_resolve (registry : Cache rdf_class) (self : Resolver) (urn : RDFURN)
    (attribute : list Z) : option (list RDFItem * Resolver) :=
  '(objs, s) ← ds_iterate (rs_store self) (urn_value urn) attribute;
  items ← resolve_loop registry objs [];
  Some (items, with_rs_store self s).

(** *** Objects *)

Definition mode_cache (self : Resolver) (mode : Z) : Cache nat :=
  if mode =? c2z "w" then rs_write_cache self else rs_read_cache self.

Definition with_mode_cache (self : Resolver) (mode : Z) (c : Cache nat) : Resolver :=
  if mode =? c2z "w"
  then {| rs_store := rs_store self; rs_read_cache := rs_read_cache self;
          rs_write_cache := c; rs_objects := rs_objects self;
          rs_cached := rs_cached self; rs_freed := rs_freed self |}
  else {| rs_store := rs_store self; rs_read_cache := c;
          rs_write_cache := rs_write_cache self; rs_objects := rs_objects self;
          rs_cached := rs_cached self; rs_freed := rs_freed self |}.

(** The scheme [create_new_object] asks for first. *)
Definition dispatch_scheme (urn : RDFURN) : list Z :=
  match urn_parser urn with
  | Some p => if zlen (scheme p) =? 0 then lit "file" else scheme p
  | None => lit "file"
  end.

(** The result of an operation that may raise an error. *)
Definition create_new_object (types : Cache aff_class) (self : Resolver)
    (urn : option RDFURN) (type : list Z) (mode : Z)
  : option ((aff4_error + nat) * Resolver) :=
  let classref := (u ← urn; Cache_borrow types (dispatch_scheme u ++ [0])) in
  let classref := match classref with
                  | Some c => Some c
                  | None => Cache_borrow types (type ++ [0])
                  end in
  match classref with
  | None => Some (inl ERuntimeError, self)
  | Some c =>
      u ← AFFObject_Con urn;
      Some (inr (length (rs_objects self)),
            {| rs_store := rs_store self; rs_read_cache := rs_read_cache self;
               rs_write_cache := rs_write_cache self;
               rs_objects := rs_objects self ++ [{| ao_class := c; ao_urn := u;
                                                   ao_mode := mode |}];
               rs_cached := rs_cached self; rs_freed := rs_freed self |})
  end.

Definition Resolver_create := create_new_object.

(** A C string in the bytes of an object of the store. *)
Definition stored_string (data : list Z) : option (list Z) :=
  if bool_decide (0 ∈ data) then Some (cstr data) else None.

(** [None] in the sum's place is NULL without an error. *)
Definition Resolver_open (types : Cache aff_class) (self : Resolver) (urn : option RDFURN)
    (mode : Z) : option (option (aff4_error + nat) * Resolver) :=
  match urn with
  | None => Some (Some (inl ERuntimeError), self)
  | Some u =>
      '(type_obj, s) ← ds_get (rs_store self) (urn_value u) AFF4_TYPE;
      let self := with_rs_store self s in
      match type_obj with
      | None => Some (Some (inl ERuntimeError), self)
      | Some obj =>
          if mode =? c2z "r" then
            type ← stored_string (dso_data obj);
            '(r, self) ← create_new_object types self (Some u) type mode;
            Some (Some r, self)
          else if mode =? c2z "w" then
            match Cache_borrow (rs_write_cache self) (urn_value u ++ [0]) with
            | Some o => Some (Some (inr o), self)
            | None =>
                type ← stored_string (dso_data obj);
                '(r, self) ← create_new_object types self (Some u) type mode;
                Some (Some r, self)
            end
          else Some (None, self)
      end
  end.

(** What a pointer to an object points to; a freed object is not used. *)
Definition live_object (self : Resolver) (obj : nat) : option AFFObject :=
  if decide (obj ∈ rs_freed self) then None else rs_objects self !! obj.

(** [put] of an object in the cache of its mode, which then owns it. *)
Definition put_object (self : Resolver) (obj : nat) : option Resolver :=
  o ← live_object self obj;
  c ← Cache_put (mode_cache self (ao_mode o)) (urn_value (ao_urn o) ++ [0]) (Some obj);
  Some (with_cached (with_mode_cache self (ao_mode o) c) ({[ obj ]} ∪ rs_cached self)).

Definition Resolver_cache_return := put_object.
Definition Resolver_manage := put_object.

Definition Resolver_own (self : Resolver) (urn : RDFURN) (mode : Z) : option nat :=
  Cache_borrow (mode_cache self mode) (urn_value urn ++ [0]).

(** [AFFObject_close], and the destructor [remove_object_from_cache]: the object that
    [get] takes out of the cache, which need not be this one, is stolen to NULL. *)
Definition AFFObject_close (self : Resolver) (obj : nat) : option Resolver :=
  o ← live_object self obj;
  let '(e, _, c) := Cache_get (mode_cache self (ao_mode o)) (urn_value (ao_urn o) ++ [0]) in
  Some (with_cached (with_mode_cache self (ao_mode o) c)
          (rs_cached self ∖ from_option singleton ∅ e)).

Definition AFFObject_set (self : Resolver) (obj : nat) (attribute : list Z) (value : RDFValue)
  : option Resolver :=
  o ← live_object self obj; Resolver_set self (ao_urn o) attribute value.

Definition AFFObject_add (self : Resolver) (obj : nat) (attribute : list Z) (value : RDFValue)
  : option Resolver :=
  o ← live_object self obj; Resolver_add self (ao_urn o) attribute value.

End Resolver.

Arguments Resolver St : clear implicits.

(** * Metadata *)

(** ** The chain *)

(** Linking a new value to the first one. *)
Lemma list_add_tail_new x items c v :
  let k := S (length items) in
  list_add_tail 0 k (x :: items ++ [new_item c v k]) =
    if inits_list c
    then Some ({| it_value := it_value x; it_prev := Some k; it_next := Some k |} :: items ++
               [{| it_value := v; it_prev := Some 0%nat; it_next := Some 0%nat |}])
    else None.
Proof.
  intros k. assert (forall z y, (z :: items ++ [y]) !! k = Some y) as Hl.
  { intros z y. change ((items ++ [y]) !! length items = Some y).
    by rewrite lookup_app_r, Nat.sub_diag by lia. }
  assert (forall z y y' : RDFItem, <[k := y']> (z :: items ++ [y]) = z :: items ++ [y']) as Hi.
  { intros z y y'. change (z :: <[length items := y']> (items ++ [y]) = z :: items ++ [y']).
    by rewrite insert_app_r_alt, Nat.sub_diag by lia. }
  assert (forall (z : RDFItem) l, (z :: l) !! 0%nat = Some z) as H0 by done.
  assert (forall (z z' : RDFItem) l, <[0%nat := z']> (z :: l) = z' :: l) as Hi0 by done.
  unfold list_add_tail, set_prev, set_next, new_item.
  repeat first [rewrite Hl | rewrite H0 | progress mred | rewrite Hi | rewrite Hi0
    | progress cbn [it_prev it_next it_value]].
  destruct (inits_list c); mred; [|done]. rewrite Hl. mred. by rewrite Hi.
Qed.

(** The values as they are linked in the end: the first and the last one. *)
Definition linked (cvs : list (rdf_class * RDFValue)) (items : list RDFItem) : Prop :=
  it_value <$> items = snd <$> cvs /\
  match cvs with
  | [] => True
  | [cv] => items = [new_item cv.1 cv.2 0]
  | _ =>
      let k := pred (length cvs) in
      (exists x, items !! 0%nat = Some x /\ it_next x = Some k) /\
      (exists y, items !! k = Some y /\ it_next y = Some 0%nat)
  end.

Lemma linked_snoc cvs items c v :
  linked cvs items -> cvs <> [] ->
  match list_add_tail 0 (length items) (items ++ [new_item c v (length items)]) with
  | Some items' => inits_list c = true /\ linked (cvs ++ [(c, v)]) items'
  | None => inits_list c = false
  end.
Proof.
  intros [Hv _] Hne. destruct items as [|x items]; [by destruct cvs|].
  change (length (x :: items)) with (S (length items)).
  change ((x :: items) ++ [new_item c v (S (length items))])
    with (x :: items ++ [new_item c v (S (length items))]).
  rewrite list_add_tail_new. destruct (inits_list c); [|done]. split; [done|].
  assert (length cvs = S (length items)) as Hlen
    by (apply (f_equal length) in Hv; rewrite !length_fmap in Hv; cbn in Hv; lia).
  split.
  - rewrite fmap_cons, !fmap_app, <- Hv. done.
  - destruct cvs as [|cv [|cv' cvs]]; [done| |];
      rewrite ?length_app; cbn [app length pred Nat.add] in *.
    + destruct items; [|done]. cbn. split; eexists; done.
    + replace (length cvs + 1)%nat with (length items) by lia.
      split; [by eexists|]. exists {| it_value := v; it_prev := Some 0%nat; it_next := Some 0%nat |}.
      split; [|done].
      match goal with |- (?x :: ?l) !! S ?n = Some ?y => change (l !! n = Some y) end.
      by rewrite lookup_app_r, Nat.sub_diag by lia.
Qed.

(** What a client sees. *)
Definition first_and_last (cvs : list (rdf_class * RDFValue)) : option (list RDFValue) :=
  match cvs with
  | [] => None
  | [cv] => if inits_list cv.1 then Some [cv.2] else None
  | cv :: _ => cv' ← last cvs; Some [cv.2; cv'.2]
  end.

Lemma linked_chain cvs items :
  linked cvs items -> cvs <> [] -> chain 0 items = first_and_last cvs.
Proof.
  intros [Hv Hl] Hne. destruct cvs as [|[c v] [|cv cvs]]; [done| |].
  - subst items. unfold chain, new_item. cbn. by destruct (inits_list c).
  - set (all := (c, v) :: cv :: cvs) in *.
    destruct Hl as [(x & Hx & Hxn) (y & Hy & Hyn)].
    assert (length items = length all) as Hlen
      by (apply (f_equal length) in Hv; by rewrite !length_fmap in Hv).
    assert (it_value x = v) as Hxv.
    { apply (f_equal (.!! 0%nat)) in Hv. rewrite !list_lookup_fmap, Hx in Hv. cbn in Hv. congruence. }
    assert (snd <$> last all = Some (it_value y)) as Hyv.
    { rewrite last_lookup, <- list_lookup_fmap, <- Hv, list_lookup_fmap, Hy. done. }
    change (Init.Nat.pred (length all)) with (S (length cvs)) in Hy, Hxn.
    unfold chain. rewrite Hlen. cbn [length all chain_from]. rewrite Hx. mred. rewrite Hxn. mred.
    cbn [Nat.eqb]. rewrite Hy. mred. rewrite Hyn. mred. cbn [Nat.eqb].
    unfold first_and_last. fold all. destruct (last all); [|done]. cbn in Hyv |- *. congruence.
Qed.

(** ** Resolving *)

Lemma resolve_loop_spec registry objs cvs0 items cvs :
  mapM (decode_object registry) objs = Some cvs -> linked cvs0 items -> cvs0 <> [] ->
  match resolve_loop registry objs items with
  | Some items' => forallb (fun cv => inits_list cv.1) cvs = true /\ linked (cvs0 ++ cvs) items'
  | None => forallb (fun cv => inits_list cv.1) cvs = false
  end.
Proof.
  revert cvs0 items cvs. induction objs as [|o objs IH]; intros cvs0 items cvs Hm Hl Hne.
  { injection Hm as <-. cbn. by rewrite app_nil_r. }
  cbn [mapM resolve_loop] in *. destruct (decode_object registry o) as [[c v]|]; [|done].
  cbn [mbind option_bind] in Hm.
  destruct (mapM (decode_object registry) objs) as [cvs'|] eqn:Hm'; [|done].
  cbn in Hm. injection Hm as <-. mred.
  destruct items as [|x items]; [destruct Hl as [Hl _]; by destruct cvs0|].
  cbn [length Nat.eqb]. change (S (length items)) with (length (x :: items)).
  pose proof (linked_snoc cvs0 (x :: items) c v Hl Hne) as Hs.
  destruct (list_add_tail 0 _ _) as [items'|]; cbn [forallb fst].
  - destruct Hs as [Hc Hs]. mred. rewrite Hc. cbn [andb].
    specialize (IH _ items' cvs' eq_refl Hs). rewrite <- app_assoc in IH. apply IH. by destruct cvs0.
  - by rewrite Hs.
Qed.

Lemma resolve_loop_all registry objs cvs :
  mapM (decode_object registry) objs = Some cvs -> cvs <> [] ->
  match resolve_loop registry objs [] with
  | Some items => forallb (fun cv => inits_list cv.1) (tail cvs) = true /\ linked cvs items
  | None => forallb (fun cv => inits_list cv.1) (tail cvs) = false
  end.
Proof.
  destruct objs as [|o objs]; cbn [mapM resolve_loop]; [by intros [= <-]|].
  destruct (decode_object registry o) as [[c v]|]; [|done]. cbn [mbind option_bind].
  destruct (mapM (decode_object registry) objs) as [cvs'|] eqn:Hm; [|done].
  cbn. intros [= <-] _. mred. cbn [tail].
  apply (resolve_loop_spec registry objs [(c, v)] [new_item c v 0] cvs' Hm); [|done].
  by split.
Qed.

Section Metadata.

Context `{DSL : DataStoreLaws St}.
Variable registry : Cache rdf_class.

Lemma Resolver_resolve_spec (self : Resolver St) urn attr cvs :
  ds_ok (rs_store self) -> 2 <= ds_room (rs_store self) ->
  mapM (decode_object registry) (Some <$> ds_values (rs_store self) (urn_value urn) attr)
    = Some cvs ->
  match Resolver_resolve registry self urn attr with
  | Some (items, self') =>
      forallb (fun cv => inits_list cv.1) (tail cvs) = true /\ linked cvs items /\
      ds_update (rs_store self) (rs_store self') (urn_value urn) attr
        (ds_values (rs_store self) (urn_value urn) attr)
  | None => forallb (fun cv => inits_list cv.1) (tail cvs) = false
  end.
Proof.
  intros Hok Hroom Hm. unfold Resolver_resolve.
  destruct (ds_iterate_law (rs_store self) (urn_value urn) attr Hok Hroom) as (s & -> & Hu). mred.
  destruct cvs as [|cv cvs].
  { destruct (ds_values (rs_store self) (urn_value urn) attr) as [|o os]; [by split_and!|].
    exfalso. cbn [fmap list_fmap mapM] in Hm. destruct (decode_object registry (Some o)); [|done].
    cbn [mbind option_bind] in Hm. by destruct (mapM _ _). }
  pose proof (resolve_loop_all registry _ _ Hm ltac:(done)) as Hr.
  destruct (resolve_loop registry _ []); mred; [|done]. by destruct Hr.
Qed.

End Metadata.

(** [resolve] chains only the first and the last value of an attribute.  It
    decodes every value the store holds, but links them with the arguments of
    [list_add_tail] swapped, so that a client that follows the chain from the result
    gets the first and the last one, however many there are; and when a value after
    the first is a URN or a date, whose constructors do not initialise the list, it
    follows a NULL pointer. *)
Theorem Resolver_resolve_first_and_last `{DataStoreLaws St} registry (self : Resolver St)
    urn attr cvs :
  ds_ok (rs_store self) -> 2 <= ds_room (rs_store self) -> cvs <> [] ->
  mapM (decode_object registry) (Some <$> ds_values (rs_store self) (urn_value urn) attr)
    = Some cvs ->
  if forallb (fun cv => inits_list cv.1) (tail cvs) then
    exists items self', Resolver_resolve registry self urn attr = Some (items, self') /\
      it_value <$> items = snd <$> cvs /\ chain 0 items = first_and_last cvs
  else Resolver_resolve registry self urn attr = None.
Proof.
  intros Hok Hroom Hne Hm. pose proof (Resolver_resolve_spec registry self urn attr cvs Hok Hroom Hm) as Hr.
  destruct (Resolver_resolve registry self urn attr) as [[items self']|].
  - destruct Hr as (-> & Hl & _). exists items, self'. split_and!; [done|apply Hl|].
    by apply linked_chain.
  - by rewrite Hr.
Qed.

(** ** The registry of the library *)

Definition rdf_registry : Cache rdf_class := default (Cache_Con 100 0) A000_rdf.

Lemma rdf_registry_borrow c : Cache_borrow rdf_registry (registry_key c) = Some c.
Proof. destruct c; vm_compute; reflexivity. Qed.

(** Values the data store can keep. *)
Definition value_ok (v : RDFValue) : Prop :=
  match v with
  | VInteger i | VDatetime i => LLONG_MIN <= i <= LLONG_MAX
  | VString s => exists t, s = string_of t
  | VURN u => exists n, urn_ok n u /\ n + 9 < BUFF_SIZE
  end.

(** URNs are the same when their texts are. *)
Definition same_value (v w : RDFValue) : Prop :=
  match v, w with
  | VURN u, VURN u' => urn_value u = urn_value u'
  | _, _ => v = w
  end.

Lemma decode_encode v :
  value_ok v -> exists w, decode_object rdf_registry (Some (RDFValue_encode v)) =
    Some (class_of v, w) /\ same_value v w.
Proof.
  intros Hv. unfold decode_object. mred.
  assert (dso_rdf_type (RDFValue_encode v) ++ [0] = registry_key (class_of v)) as ->
    by (by destruct v). rewrite rdf_registry_borrow. mred.
  destruct v as [i|i|s|u]; cbn [class_of RDFValue_decode RDFValue_encode value_ok] in *; mred.
  - rewrite XSDInteger_encode_decode by done. by eexists.
  - eexists. split; [done|]. cbn. f_equal. symmetry.
    change (XSDInteger_decode {| dso_data := dso_data (XSDInteger_encode i);
      dso_rdf_type := DATATYPE_XSD_DATETIME |}) with (XSDInteger_decode (XSDInteger_encode i)).
    by apply XSDInteger_encode_decode.
  - destruct Hv as [t ->]. rewrite XSDString_encode_decode. by eexists.
  - destruct Hv as (n & Hok & Hn). destruct (RDFURN_encode_decode n u Hok Hn) as (u' & -> & Hu').
    cbn. by eexists.
Qed.

Section Values.

Context `{DSL : DataStoreLaws St}.

Lemma Resolver_set_spec (self : Resolver St) urn attr v :
  ds_ok (rs_store self) -> 2 <= ds_room (rs_store self) ->
  exists self', Resolver_set self urn attr v = Some self' /\
    ds_update (rs_store self) (rs_store self') (urn_value urn) attr [RDFValue_encode v].
Proof.
  intros Hok Hr. unfold Resolver_set.
  destruct (ds_set_law (rs_store self) (urn_value urn) attr (RDFValue_encode v) Hok Hr)
    as (s & -> & Hu). mred. by eexists.
Qed.

Lemma Resolver_add_spec (self : Resolver St) urn attr v :
  ds_ok (rs_store self) -> 2 <= ds_room (rs_store self) ->
  exists self', Resolver_add self urn attr v = Some self' /\
    ds_update (rs_store self) (rs_store self') (urn_value urn) attr
      (ds_values (rs_store self) (urn_value urn) attr ++ [RDFValue_encode v]).
Proof.
  intros Hok Hr. unfold Resolver_add.
  destruct (ds_add_law (rs_store self) (urn_value urn) attr (RDFValue_encode v) Hok Hr)
    as (s & -> & Hu). mred. by eexists.
Qed.

Lemma ds_update_at (s s' : St) u a vs : ds_update s s' u a vs -> ds_values s' u a = vs.
Proof. intros (_ & _ & ->). by rewrite decide_True. Qed.

(** Resolving an attribute with one value. *)
Lemma resolve_single (self : Resolver St) urn attr v :
  ds_ok (rs_store self) -> 2 <= ds_room (rs_store self) -> value_ok v ->
  ds_values (rs_store self) (urn_value urn) attr = [RDFValue_encode v] ->
  exists x self', Resolver_resolve rdf_registry self urn attr = Some ([x], self') /\
    same_value v (it_value x).
Proof.
  intros Hok Hr Hv Hvs. destruct (decode_encode v Hv) as (w & Hd & Hs).
  pose proof (Resolver_resolve_spec rdf_registry self urn attr [(class_of v, w)] Hok Hr) as Hres.
  rewrite Hvs in Hres. cbn [fmap list_fmap mapM] in Hres. rewrite Hd in Hres.
  specialize (Hres eq_refl).
  destruct (Resolver_resolve rdf_registry self urn attr) as [[items self']|]; [|done].
  destruct Hres as (_ & [_ ->] & _). eexists _, _. split; [done|]. done.
Qed.

End Values.

(** Metadata round trip.  After [set] of an attribute, on any data store, [resolve]
    returns that value and nothing else, for integers, dates, strings and URNs; the
    values of every other subject and attribute are untouched; and after [del] there
    is none. *)
Theorem Resolver_set_resolve `{DataStoreLaws St} (self : Resolver St) urn attr v :
  ds_ok (rs_store self) -> 6 <= ds_room (rs_store self) -> value_ok v ->
  exists self1, Resolver_set self urn attr v = Some self1 /\
    (exists x self2, Resolver_resolve rdf_registry self1 urn attr = Some ([x], self2) /\
       same_value v (it_value x)) /\
    (forall u a, ~ (u = urn_value urn /\ a = attr) ->
       ds_values (rs_store self1) u a = ds_values (rs_store self) u a) /\
    exists self2 self3, Resolver_del self1 urn attr = Some self2 /\
      Resolver_resolve rdf_registry self2 urn attr = Some ([], self3).
Proof.
  intros Hok Hr Hv. destruct (Resolver_set_spec self urn attr v Hok) as (self1 & Hs & Hu); [lia|].
  exists self1. split; [done|]. pose proof (ds_update_at _ _ _ _ _ Hu) as Hat.
  destruct Hu as (Hok1 & Hr1 & Hvs). split_and!.
  - apply resolve_single; try done. lia.
  - intros u a Hne. rewrite Hvs. by rewrite decide_False.
  - unfold Resolver_del.
    destruct (ds_del_law (rs_store self1) (urn_value urn) attr Hok1) as (s2 & -> & Hu2); [lia|].
    mred. eexists. pose proof (ds_update_at _ _ _ _ _ Hu2) as Hat2. destruct Hu2 as (Hok2 & Hr2 & _).
    pose proof (Resolver_resolve_spec rdf_registry (with_rs_store self1 s2) urn attr [] Hok2)
      as Hres. cbn [rs_store with_rs_store] in Hres. rewrite Hat2 in Hres.
    specialize (Hres ltac:(lia) eq_refl).
    destruct (Resolver_resolve _ (with_rs_store self1 s2) urn attr) as [[items self3]|] eqn:E; [|done].
    destruct Hres as (_ & [Hl%fmap_nil_inv _] & _). exists self3. split; [done|].
    by rewrite E, Hl.
Qed.

(** ** An instance *)

Definition res_new : Resolver MemoryDataStore := Resolver_Con DataStore_Con.

Definition res_urn : RDFURN := default RDFURN_Con (RDFURN_Con2 (Some (lit "aff4://vol/x"))).

Lemma res_new_ok : ds_ok (rs_store res_new) /\ 1000 <= ds_room (rs_store res_new).
Proof. split; [apply MemoryDataStore_empty|vm_compute; congruence]. Qed.

Lemma Resolver_set_resolve_witness :
  exists self1, Resolver_set res_new res_urn (lit "size") (VInteger 42) = Some self1 /\
    (exists x self2, Resolver_resolve rdf_registry self1 res_urn (lit "size") = Some ([x], self2) /\
       same_value (VInteger 42) (it_value x)) /\
    (forall u a, ~ (u = urn_value res_urn /\ a = lit "size") ->
       ds_values (rs_store self1) u a = ds_values (rs_store res_new) u a) /\
    exists self2 self3, Resolver_del self1 res_urn (lit "size") = Some self2 /\
      Resolver_resolve rdf_registry self2 res_urn (lit "size") = Some ([], self3).
Proof.
  destruct res_new_ok as [Hok Hr].
  apply (Resolver_set_resolve res_new res_urn (lit "size") (VInteger 42) Hok).
  - lia.
  - vm_compute. split; congruence.
Defined.

Lemma Resolver_resolve_first_and_last_witness :
  exists s1 s2 s3 items s4,
    Resolver_add res_new res_urn (lit "a") (VInteger 1) = Some s1 /\
    Resolver_add s1 res_urn (lit "a") (VInteger 2) = Some s2 /\
    Resolver_add s2 res_urn (lit "a") (VInteger 3) = Some s3 /\
    Resolver_resolve rdf_registry s3 res_urn (lit "a") = Some (items, s4) /\
    it_value <$> items = [VInteger 1; VInteger 2; VInteger 3] /\
    chain 0 items = Some [VInteger 1; VInteger 3].
Proof.
  destruct res_new_ok as [Hok Hr].
  destruct (Resolver_add_spec res_new res_urn (lit "a") (VInteger 1) Hok) as (s1 & H1 & U1); [lia|].
  pose proof (ds_update_at _ _ _ _ _ U1) as V1. destruct U1 as (O1 & R1 & _).
  destruct (Resolver_add_spec s1 res_urn (lit "a") (VInteger 2) O1) as (s2 & H2 & U2); [lia|].
  pose proof (ds_update_at _ _ _ _ _ U2) as V2. rewrite V1 in V2. destruct U2 as (O2 & R2 & _).
  destruct (Resolver_add_spec s2 res_urn (lit "a") (VInteger 3) O2) as (s3 & H3 & U3); [lia|].
  pose proof (ds_update_at _ _ _ _ _ U3) as V3. rewrite V2 in V3. destruct U3 as (O3 & R3 & _).
  destruct (Resolver_resolve_first_and_last rdf_registry s3 res_urn (lit "a")
    [(CInteger, VInteger 1); (CInteger, VInteger 2); (CInteger, VInteger 3)] O3)
    as (items & s4 & H4 & Hi & Hc); [lia|done|rewrite V3; vm_compute; reflexivity|].
  by exists s1, s2, s3, items, s4.
Defined.

(** * Objects *)

(** ** Making objects *)

(** What is found for a URN and a type: the class of the scheme first. *)
Definition dispatch (types : Cache aff_class) (urn : option RDFURN) (type : list Z)
  : option aff_class :=
  match (u ← urn; Cache_borrow types (dispatch_scheme u ++ [0])) with
  | Some c => Some c
  | None => Cache_borrow types (type ++ [0])
  end.

(** What the resolver made, or the error. *)
Definition opened (types : Cache aff_class) `{DataStore St} (self self' : Resolver St)
    (u : RDFURN) (type : list Z) (mode : Z) (r : aff4_error + nat) : Prop :=
  match r with
  | inr i => exists o c, rs_objects self' = rs_objects self ++ [o] /\
      i = length (rs_objects self) /\ dispatch types (Some u) type = Some c /\
      ao_class o = c /\ ao_mode o = mode /\ urn_value (ao_urn o) = urn_value u /\
      rs_write_cache self' = rs_write_cache self
  | inl e => e = ERuntimeError /\ dispatch types (Some u) type = None /\
      rs_objects self' = rs_objects self
  end.

Lemma create_opened `{DataStore St} types (self : Resolver St) u type mode :
  urn_value <$> RDFURN_copy u = Some (urn_value u) ->
  exists self' r, create_new_object types self (Some u) type mode = Some (r, self') /\
    opened types self self' u type mode r.
Proof.
  intros Hu. unfold create_new_object, opened. fold (dispatch types (Some u) type).
  destruct (dispatch types (Some u) type) as [c|].
  - cbn [AFFObject_Con]. destruct (RDFURN_copy u) as [u'|]; [|done]. injection Hu as Hu. mred.
    eexists _, (inr _). split; [reflexivity|]. eexists _, c. by split_and!.
  - by eexists _, (inl _).
Qed.

(** A type that is stored with its NUL. *)
Lemma stored_type type : cstring type ->
  stored_string (dso_data (RDFValue_encode (VString (string_of (type ++ [0]))))) = Some type.
Proof.
  intros Ht.
  assert (dso_data (RDFValue_encode (VString (string_of (type ++ [0])))) = type ++ [0]) as ->
    by (cbn; unfold string_of; cbn; by rewrite ztake_app_eq).
  unfold stored_string. rewrite bool_decide_true; [by rewrite cstr_app_nul|].
  apply elem_of_app. right. by left.
Qed.

Lemma Resolver_set_objects `{DataStore St} (self self' : Resolver St) u a v :
  Resolver_set self u a v = Some self' ->
  rs_objects self' = rs_objects self /\ rs_write_cache self' = rs_write_cache self.
Proof.
  unfold Resolver_set. destruct (ds_set _ _ _ _); [|done]. cbn. by intros [= <-].
Qed.

(** C30: the resolver opens objects by their type.  [open] of a subject without a type is
    an error.  Once its type attribute is set, to a string stored with its NUL, [open] for
    reading makes a new object each time, of the class registered for the URN's scheme or
    else for that type, with the URN and the mode asked for; without a class it is an error
    that makes nothing.  [open] for writing returns the object the write cache holds for the
    URN, if [manage] or [cache_return] put one there; otherwise it makes a new object too,
    and does not enter it: a second [open] before then makes another one, although the
    comment in the code promises a single instance, locked to its writer. *)
Theorem Resolver_open_typed `{DataStoreLaws St} types (self : Resolver St) u type mode :
  ds_ok (rs_store self) -> 6 <= ds_room (rs_store self) -> cstring type ->
  mode = c2z "r" \/ mode = c2z "w" ->
  urn_value <$> RDFURN_copy u = Some (urn_value u) ->
  (ds_values (rs_store self) (urn_value u) AFF4_TYPE = [] ->
     exists self', Resolver_open types self (Some u) mode = Some (Some (inl ERuntimeError), self') /\
       rs_objects self' = rs_objects self) /\
  exists self1 self2 r,
    Resolver_set self u AFF4_TYPE (VString (string_of (type ++ [0]))) = Some self1 /\
    Resolver_open types self1 (Some u) mode = Some (Some r, self2) /\
    match (if mode =? c2z "w" then Resolver_own self u mode else None) with
    | Some i => r = inr i /\ rs_objects self2 = rs_objects self
    | None => opened types self self2 u type mode r
    end.
Proof.
  intros Hok Hr Ht Hm Hu. split.
  - intros Hnone. unfold Resolver_open.
    destruct (ds_get_law (rs_store self) (urn_value u) AFF4_TYPE Hok) as (s & -> & _); [lia|].
    rewrite Hnone. mred. by eexists.
  - destruct (Resolver_set_spec self u AFF4_TYPE (VString (string_of (type ++ [0]))) Hok)
      as (self1 & Hset & Hup); [lia|].
    destruct (Resolver_set_objects _ _ _ _ _ Hset) as [Hob Hwc].
    pose proof (ds_update_at _ _ _ _ _ Hup) as Hat. destruct Hup as (Hok1 & Hr1 & _).
    exists self1. unfold Resolver_open.
    destruct (ds_get_law (rs_store self1) (urn_value u) AFF4_TYPE Hok1) as (s & -> & _); [lia|].
    rewrite Hat. mred. cbn [head]. rewrite stored_type by done. mred.
    destruct (create_opened types (with_rs_store self1 s) u type mode Hu) as (self2 & r & -> & Ho).
    unfold opened in Ho. cbn [rs_objects with_rs_store] in Ho. rewrite Hob in Ho.
    cbn [rs_write_cache with_rs_store] in Ho. rewrite Hwc in Ho. mred.
    destruct Hm as [-> | ->].
    + change (c2z "r" =? c2z "w") with false. change (c2z "r" =? c2z "r") with true. cbv iota.
      by exists self2, r.
    + change (c2z "w" =? c2z "r") with false. change (c2z "w" =? c2z "w") with true. cbv iota.
      cbn [rs_write_cache with_rs_store]. rewrite Hwc.
      change (Resolver_own self u (c2z "w"))
        with (Cache_borrow (rs_write_cache self) (urn_value u ++ [0])).
      destruct (Cache_borrow (rs_write_cache self) (urn_value u ++ [0])) as [o|].
      * by exists (with_rs_store self1 s), (inr o).
      * by exists self2, r.
Qed.

Definition res_types : Cache aff_class := default (Cache_Con 100 0) type_dispatcher.

Lemma Resolver_open_typed_witness :
  (exists self', Resolver_open res_types res_new (Some res_urn) (c2z "r") =
     Some (Some (inl ERuntimeError), self')) /\
  exists self1 self2 o,
    Resolver_set res_new res_urn AFF4_TYPE (VString (string_of (AFF4_ZIP_VOLUME ++ [0])))
      = Some self1 /\
    Resolver_open res_types self1 (Some res_urn) (c2z "r") = Some (Some (inr 0%nat), self2) /\
    rs_objects self2 = [o] /\ ao_class o = KZip.
Proof.
  destruct res_new_ok as [Hok Hr].
  destruct (Resolver_open_typed res_types res_new res_urn AFF4_ZIP_VOLUME (c2z "r") Hok)
    as [(s & Hs & _) (s1 & s2 & r & H1 & H2 & Ho)].
  - lia.
  - apply (bool_decide_unpack _). vm_compute. exact I.
  - by left.
  - vm_compute. reflexivity.
  - vm_compute. reflexivity.
  - split; [by exists s|].
    change (match (None : option nat) with Some i => r = inr i /\ rs_objects s2 = rs_objects res_new
      | None => opened res_types res_new s2 res_urn AFF4_ZIP_VOLUME (c2z "r") r end) in Ho.
    assert (dispatch res_types (Some res_urn) AFF4_ZIP_VOLUME = Some KZip) as Hd
      by (vm_compute; reflexivity).
    destruct r as [e|i]; unfold opened in Ho; rewrite Hd in Ho; [destruct Ho as (_ & Hx & _); discriminate Hx|].
    destruct Ho as (o & c & Hob & Hi & Hk & Hc & _). exists s1, s2, o.
    apply (inj Some) in Hk. rewrite Hi in H2.
    split; [exact H1|]. split; [exact H2|]. split; [exact Hob|]. rewrite Hc. exact (eq_sym Hk).
Defined.

(** ** Handing objects out *)

Inductive own_op :=
| OpManage (obj : nat)
| OpReturn (obj : nat)
| OpOwn (urn : RDFURN) (mode : Z)
| OpClose (obj : nat)
| OpFlush.

(** The abstract caches: for a mode and a URN a queue of objects.  [own] looks at its
    head and leaves it there.  An object is held by the client, owned by a cache or freed. *)
Inductive life := Held | InCache | Freed.

#[export] Instance life_eq_dec : EqDecision life.
Proof. solve_decision. Defined.

Record own_spec := {
  sp_queues : gmap (bool * list Z) (list nat);
  sp_life : nat -> life
}.

Definition queue_at (q : own_spec) (w : bool) (u : list Z) : list nat :=
  default [] (sp_queues q !! (w, u)).

Definition set_life (f : nat -> life) (i : nat) (l : life) : nat -> life :=
  fun j => if decide (i = j) then l else f j.

Definition is_writer (mode : Z) : bool := mode =? c2z "w".

(** The object a call names, if it exists and was not freed. *)
Definition spec_object (objs : list AFFObject) (q : own_spec) (i : nat) : option AFFObject :=
  if decide (sp_life q i = Freed) then None else objs !! i.

Definition queue_step (objs : list AFFObject) (q : own_spec) (op : own_op)
  : option (option nat * own_spec) :=
  match op with
  | OpManage i | OpReturn i =>
      o ← spec_object objs q i;
      let w := is_writer (ao_mode o) in let u := urn_value (ao_urn o) in
      Some (None, {| sp_queues := <[(w, u) := queue_at q w u ++ [i]]> (sp_queues q);
                     sp_life := set_life (sp_life q) i InCache |})
  | OpOwn urn mode => Some (head (queue_at q (is_writer mode) (urn_value urn)), q)
  | OpClose i =>
      o ← spec_object objs q i;
      let w := is_writer (ao_mode o) in let u := urn_value (ao_urn o) in
      let life := match head (queue_at q w u) with
                  | Some j => set_life (sp_life q) j Held
                  | None => sp_life q
                  end in
      Some (None, {| sp_queues := <[(w, u) := tail (queue_at q w u)]> (sp_queues q);
                     sp_life := life |})
  | OpFlush =>
      Some (None, {| sp_queues := ∅;
                     sp_life := fun i => match sp_life q i with InCache => Freed | l => l end |})
  end.

Fixpoint queue_run (objs : list AFFObject) (q : own_spec) (ops : list own_op)
  : option (list (option nat)) :=
  match ops with
  | [] => Some []
  | op :: ops => '(o, q) ← queue_step objs q op; os ← queue_run objs q ops; Some (o :: os)
  end.

Definition own_step {St} (self : Resolver St) (op : own_op) : option (option nat * Resolver St) :=
  match op with
  | OpManage i => self ← Resolver_manage self i; Some (None, self)
  | OpReturn i => self ← Resolver_cache_return self i; Some (None, self)
  | OpOwn urn mode => Some (Resolver_own self urn mode, self)
  | OpClose i => self ← AFFObject_close self i; Some (None, self)
  | OpFlush => Some (None, Resolver_flush self)
  end.

Fixpoint own_run {St} (self : Resolver St) (ops : list own_op)
  : option (list (option nat) * Resolver St) :=
  match ops with
  | [] => Some ([], self)
  | op :: ops =>
      '(o, self) ← own_step self op; '(os, self) ← own_run self ops; Some (o :: os, self)
  end.

(** The state after a flush: empty queues, and what the caches owned is freed. *)
Definition flushed {St} (self : Resolver St) : own_spec :=
  {| sp_queues := ∅;
     sp_life := fun i => if decide (i ∈ rs_freed self ∪ rs_cached self) then Freed else Held |}.

Section Ownership.

Context {St : Type}.

Record owns (self : Resolver St) (q : own_spec) : Prop := {
  ow_read_wf : cache_wf (rs_read_cache self);
  ow_write_wf : cache_wf (rs_write_cache self);
  ow_read_max : max_cache_size (rs_read_cache self) = 0;
  ow_write_max : max_cache_size (rs_write_cache self) = 0;
  ow_entries mode u : entries (mode_cache self mode) (u ++ [0]) =
    Some <$> queue_at q (is_writer mode) u;
  ow_freed i : i ∈ rs_freed self <-> sp_life q i = Freed;
  ow_cached i : sp_life q i = InCache <-> i ∈ rs_cached self;
  ow_live w u i : i ∈ queue_at q w u -> sp_life q i <> Freed
}.

Lemma key_inj (u v : list Z) : u ++ [0] = v ++ [0] <-> u = v.
Proof. split; [apply app_inv_tail|congruence]. Qed.

Lemma owns_flush (self : Resolver St) : owns (Resolver_flush self) (flushed self).
Proof.
  split; try done; try (by apply Cache_Con_wf); cbn [sp_life flushed rs_freed rs_cached Resolver_flush].
  - intros mode u. unfold mode_cache. by destruct (mode =? c2z "w").
  - intros i. by destruct (decide _).
  - intros i. destruct (decide _); split; [done|set_solver|done|set_solver].
  - intros w u i Hi. by apply not_elem_of_nil in Hi.
Qed.

Lemma mode_cache_with (self : Resolver St) mode mode' c :
  mode_cache (with_mode_cache self mode c) mode' =
    if Bool.eqb (is_writer mode) (is_writer mode') then c else mode_cache self mode'.
Proof.
  unfold mode_cache, with_mode_cache, is_writer.
  by destruct (mode =? c2z "w"), (mode' =? c2z "w").
Qed.

Lemma queue_at_insert q w u l life w' u' :
  queue_at {| sp_queues := <[(w, u) := l]> (sp_queues q); sp_life := life |} w' u' =
    if decide ((w, u) = (w', u')) then l else queue_at q w' u'.
Proof.
  unfold queue_at. cbn [sp_queues]. case_decide as E.
  - by rewrite E, lookup_insert_eq.
  - by rewrite lookup_insert_ne.
Qed.

(** Replacing the cache of a mode by one in which the queue of one URN changed, and with it
    what the caches own. *)
Lemma owns_update (self : Resolver St) q mode u c l cached life :
  owns self q -> cache_wf c -> max_cache_size c = 0 ->
  (forall v, entries c (v ++ [0]) =
     if decide (u = v) then Some <$> l else entries (mode_cache self mode) (v ++ [0])) ->
  (forall i, life i = Freed <-> sp_life q i = Freed) ->
  (forall i, life i = InCache <-> i ∈ cached) ->
  (forall i, i ∈ l -> sp_life q i <> Freed) ->
  owns (with_cached (with_mode_cache self mode c) cached)
    {| sp_queues := <[(is_writer mode, u) := l]> (sp_queues q); sp_life := life |}.
Proof.
  intros [H1 H2 H3 H4 He Hf Hk Hv] Hw Hm Hc Hlf Hlc Hl.
  split; try (unfold with_mode_cache; destruct (mode =? c2z "w"); done).
  - intros mode' v. change (mode_cache (with_cached ?r cached) mode') with (mode_cache r mode').
    rewrite mode_cache_with, queue_at_insert.
    destruct (Bool.eqb (is_writer mode) (is_writer mode')) eqn:E.
    + apply Bool.eqb_prop in E. rewrite Hc. destruct (decide (u = v)) as [->|Hne].
      * by rewrite decide_True by congruence.
      * rewrite decide_False by congruence. rewrite <- E. apply He.
    + apply Bool.eqb_false_iff in E. rewrite decide_False by congruence. apply He.
  - intros i. cbn [sp_life]. rewrite Hlf, <- Hf. unfold with_mode_cache.
    by destruct (mode =? c2z "w").
  - intros w v i. rewrite queue_at_insert. cbn [sp_life]. rewrite Hlf.
    case_decide; [apply Hl|apply Hv].
Qed.

Lemma owns_wf (self : Resolver St) q mode :
  owns self q -> cache_wf (mode_cache self mode) /\ max_cache_size (mode_cache self mode) = 0.
Proof. intros []. unfold mode_cache. by destruct (mode =? c2z "w"). Qed.

(** The resolver and the specification agree on the objects that can be used. *)
Lemma live_object_spec (self : Resolver St) q i :
  owns self q -> live_object self i = spec_object (rs_objects self) q i.
Proof.
  intros Ho. unfold live_object, spec_object. pose proof (ow_freed self q Ho i) as E.
  destruct (decide (i ∈ rs_freed self)), (decide (sp_life q i = Freed)); tauto.
Qed.

Lemma spec_object_live objs q i o :
  spec_object objs q i = Some o -> sp_life q i <> Freed.
Proof. unfold spec_object. by case_decide. Qed.

Lemma put_object_owns (self : Resolver St) q i :
  owns self q ->
  match queue_step (rs_objects self) q (OpManage i) with
  | Some (_, q') => exists self', put_object self i = Some self' /\
      rs_objects self' = rs_objects self /\ owns self' q'
  | None => put_object self i = None
  end.
Proof.
  intros Ho. unfold put_object. rewrite (live_object_spec self q i Ho). cbn [queue_step].
  destruct (spec_object (rs_objects self) q i) as [o|] eqn:Hi; mred; [|done].
  apply spec_object_live in Hi. destruct (owns_wf self q (ao_mode o) Ho) as [Hw Hm].
  rewrite cache_put_unbounded by done. mred.
  eexists. split; [reflexivity|]. split.
  { unfold with_mode_cache. by destruct (ao_mode o =? c2z "w"). }
  apply owns_update; try done; [by apply wf_link| | | |].
  - intros v. rewrite entries_link by done.
    destruct (decide (urn_value (ao_urn o) = v)) as [->|Hne].
    + rewrite decide_True by done. by rewrite (ow_entries _ _ Ho), fmap_app.
    + rewrite decide_False by (by rewrite key_inj). by rewrite app_nil_r.
  - intros j. unfold set_life. case_decide; [subst j; split; congruence|done].
  - intros j. unfold set_life. pose proof (ow_cached _ _ Ho j).
    case_decide; [subst j; set_solver|set_solver].
  - intros j [Hj| ->%list_elem_of_singleton]%elem_of_app; [by eapply ow_live|done].
Qed.

Lemma close_owns (self : Resolver St) q i :
  owns self q ->
  match queue_step (rs_objects self) q (OpClose i) with
  | Some (_, q') => exists self', AFFObject_close self i = Some self' /\
      rs_objects self' = rs_objects self /\ owns self' q'
  | None => AFFObject_close self i = None
  end.
Proof.
  intros Ho. unfold AFFObject_close. rewrite (live_object_spec self q i Ho). cbn [queue_step].
  destruct (spec_object (rs_objects self) q i) as [o|] eqn:Hi; mred; [|done].
  destruct (owns_wf self q (ao_mode o) Ho) as [Hw Hm].
  set (w := is_writer (ao_mode o)). set (u := urn_value (ao_urn o)).
  destruct (Cache_get_pops (mode_cache self (ao_mode o)) (u ++ [0]) Hw)
    as (e & c & -> & Hwc & Hmc & _ & _ & He).
  rewrite (ow_entries _ _ Ho). fold w.
  pose proof (ow_live _ _ Ho w u) as Hv.
  eexists. split; [reflexivity|]. split.
  { unfold with_mode_cache. by destruct (ao_mode o =? c2z "w"). }
  apply owns_update; try done; [congruence| | | |].
  - intros v. rewrite He. fold u.
    destruct (decide (u = v)) as [<-|Hne].
    + rewrite decide_True by done. rewrite (ow_entries _ _ Ho). fold w. by destruct (queue_at q w u).
    + by rewrite decide_False by (by rewrite key_inj).
  - intros j. destruct (queue_at q w u) as [|x l]; [done|]. cbn [head].
    specialize (Hv x ltac:(left)). unfold set_life. case_decide; [subst j; split; done|done].
  - intros j. pose proof (ow_cached _ _ Ho j) as Hc.
    destruct (queue_at q w u) as [|x l]; cbn; [set_solver|].
    unfold set_life. case_decide; [subst j; set_solver|set_solver].
  - intros j Hj. apply Hv. destruct (queue_at q w u); [done|]. by right.
Qed.

Lemma own_step_refines (self : Resolver St) q op :
  owns self q ->
  match queue_step (rs_objects self) q op with
  | Some (o, q') => exists self', own_step self op = Some (o, self') /\
      rs_objects self' = rs_objects self /\ owns self' q'
  | None => own_step self op = None
  end.
Proof.
  intros Ho. destruct op as [i|i|u mode|i|].
  1, 2: pose proof (put_object_owns self q i Ho) as Hp; cbn [queue_step] in Hp |- *;
    cbn [own_step]; unfold Resolver_manage, Resolver_cache_return;
    destruct (spec_object (rs_objects self) q i) as [o|]; mred; cbn in Hp |- *;
    [destruct Hp as (self' & -> & Hp); by exists self'|by rewrite Hp].
  - exists self. split; [|done]. cbn [own_step]. do 2 f_equal. unfold Resolver_own.
    rewrite Cache_borrow_entries, (ow_entries _ _ Ho).
    by destruct (queue_at q (is_writer mode) (urn_value u)).
  - pose proof (close_owns self q i Ho) as Hp. cbn [queue_step] in Hp |- *. cbn [own_step].
    destruct (spec_object (rs_objects self) q i) as [o|]; mred; cbn in Hp |- *;
      [destruct Hp as (self' & -> & Hp); by exists self'|by rewrite Hp].
  - eexists. split; [reflexivity|]. split; [done|].
    pose proof (owns_flush self) as [H1 H2 H3 H4 He Hf Hc Hv].
    cbn [queue_step]. split; try done.
    1, 2: intros i; pose proof (ow_freed _ _ Ho i); pose proof (ow_cached _ _ Ho i);
      cbn [sp_life rs_freed rs_cached Resolver_flush].
    + rewrite elem_of_union. destruct (sp_life q i); intuition congruence.
    + destruct (sp_life q i); set_solver.
    + intros w u i Hi. by apply not_elem_of_nil in Hi.
Qed.

Lemma own_run_refines (self : Resolver St) q ops :
  owns self q ->
  match queue_run (rs_objects self) q ops with
  | Some os => exists self' q', own_run self ops = Some (os, self') /\ owns self' q'
  | None => own_run self ops = None
  end.
Proof.
  revert self q. induction ops as [|op ops IH]; intros self q Ho; [by exists self, q|].
  cbn [queue_run own_run]. pose proof (own_step_refines self q op Ho) as Hs.
  destruct (queue_step (rs_objects self) q op) as [[o q1]|]; mred; [|by rewrite Hs].
  destruct Hs as (self1 & -> & Hob & Ho1). mred. specialize (IH self1 q1 Ho1). rewrite Hob in IH.
  destruct (queue_run (rs_objects self) q1 ops) as [os|]; mred; [|by rewrite IH].
  destruct IH as (self2 & q2 & -> & Ho2). mred. by exists self2, q2.
Qed.

(** No queue holds an object that was freed. *)
Lemma owns_own_live (self : Resolver St) q urn mode i :
  owns self q -> Resolver_own self urn mode = Some i -> i ∉ rs_freed self.
Proof.
  intros Ho. unfold Resolver_own. rewrite Cache_borrow_entries, (ow_entries _ _ Ho).
  rewrite (ow_freed _ _ Ho).
  pose proof (ow_live _ _ Ho (is_writer mode) (urn_value urn)) as Hv.
  destruct (queue_at q (is_writer mode) (urn_value urn)) as [|x l]; [done|].
  intros [= ->]. apply Hv. left.
Qed.

End Ownership.

(** C8: the resolver's caches are queues that own what is in them.  From a flushed
    resolver, any sequence of [manage], [own], [cache_return], [close] and [flush] gives
    what the queues give: [own] returns the oldest object that was put under the URN and
    the mode and not yet taken out by a [close], and leaves it there, unlocked.  A flush
    frees every object that was put since it was last taken out, and the sequence fails
    exactly when it names such an object afterwards (or one that does not exist), which in
    the code is a use after free.  What [own] returns has never been freed. *)
Theorem Resolver_owns_queues {St} (self : Resolver St) ops :
  match queue_run (rs_objects self) (flushed self) ops with
  | Some os => exists self', own_run (Resolver_flush self) ops = Some (os, self') /\
      forall urn mode i, Resolver_own self' urn mode = Some i -> i ∉ rs_freed self'
  | None => own_run (Resolver_flush self) ops = None
  end.
Proof.
  pose proof (own_run_refines (Resolver_flush self) (flushed self) ops (owns_flush self)) as H.
  cbn [rs_objects Resolver_flush] in H.
  destruct (queue_run (rs_objects self) (flushed self) ops) as [os|]; [|done].
  destruct H as (self' & q & Hr & Ho). exists self'. split; [exact Hr|].
  intros urn mode i. by apply (owns_own_live self' q).
Qed.

Definition res_objects (n : nat) : Resolver MemoryDataStore :=
  {| rs_store := DataStore_Con; rs_read_cache := Cache_Con 256 0;
     rs_write_cache := Cache_Con 256 0;
     rs_objects := replicate n {| ao_class := KZip; ao_urn := res_urn; ao_mode := c2z "w" |};
     rs_cached := ∅; rs_freed := ∅ |}.

(** Queues in order, and the object that is returned after a flush. *)
Lemma Resolver_owns_queues_witness :
  (exists self', own_run (Resolver_flush (res_objects 2))
      [OpManage 0; OpManage 1; OpOwn res_urn (c2z "w"); OpClose 0; OpOwn res_urn (c2z "w");
       OpOwn res_urn (c2z "r"); OpFlush; OpReturn 0; OpOwn res_urn (c2z "w")]
    = Some ([None; None; Some 0%nat; None; Some 1%nat; None; None; None; Some 0%nat], self')) /\
  own_run (Resolver_flush (res_objects 1)) [OpManage 0; OpFlush; OpReturn 0] = None.
Proof.
  split.
  - pose proof (Resolver_owns_queues (res_objects 2)
      [OpManage 0; OpManage 1; OpOwn res_urn (c2z "w"); OpClose 0; OpOwn res_urn (c2z "w");
       OpOwn res_urn (c2z "r"); OpFlush; OpReturn 0; OpOwn res_urn (c2z "w")]) as H.
    match type of H with match ?r with _ => _ end =>
      let v := eval vm_compute in r in change r with v in H end.
    cbv iota in H. destruct H as (self' & Hr & _). exists self'. exact Hr.
  - pose proof (Resolver_owns_queues (res_objects 1) [OpManage 0; OpFlush; OpReturn 0]) as H.
    match type of H with match ?r with _ => _ end =>
      let v := eval vm_compute in r in change r with v in H end.
    exact H.
Defined.

(** The use the volumes make of the resolver: each segment that is closed owns the
    volume and returns it. *)
Definition segment_closes (n : nat) (obj : nat) (urn : RDFURN) (mode : Z) : list own_op :=
  concat (replicate n [OpOwn urn mode; OpReturn obj]).

Lemma segment_closes_queue objs i o n m q :
  objs !! i = Some o -> let u := ao_urn o in let mode := ao_mode o in
  queue_at q (is_writer mode) (urn_value u) = replicate m i -> sp_life q i <> Freed ->
  exists os, queue_run objs q (segment_closes n i u mode ++ [OpClose i; OpOwn u mode]) = Some os /\
    last os = Some (head (tail (replicate (n + m) i))).
Proof.
  intros Hi u mode. unfold segment_closes. revert m q.
  induction n as [|n IH]; intros m q Hq Hl; cbn [replicate concat app queue_run queue_step].
  - unfold spec_object at 1. rewrite decide_False, Hi by done. mred. fold u mode.
    eexists. split; [reflexivity|]. cbn [last Nat.add]. f_equal.
    rewrite queue_at_insert, decide_True by done. by rewrite Hq.
  - mred. unfold spec_object at 1. rewrite decide_False, Hi by done. mred. fold u mode.
    set (q' := {| sp_queues := _; sp_life := _ |}).
    assert (queue_at q' (is_writer mode) (urn_value u) = replicate (S m) i) as Hq'.
    { unfold q'. rewrite queue_at_insert, decide_True by done. by rewrite Hq, <- replicate_cons_app. }
    destruct (IH (S m) q' Hq') as (os & -> & Hos).
    { unfold q', set_life. cbn [sp_life]. by rewrite decide_True. }
    mred. eexists. split; [reflexivity|]. rewrite Nat.add_succ_r in Hos.
    destruct os as [|x os]; [done|]. exact Hos.
Qed.

(** An object that was owned and returned stays in the cache after it is closed.
    [own] does not take the object out but [cache_return] puts it in again; after
    [manage] and [n] times [own] and [cache_return], [close] takes one of [n + 1]
    entries out, and unless [n] is zero the next [own] returns the closed object. *)
Theorem Resolver_close_keeps_returned {St} (self : Resolver St) i o n :
  rs_objects self !! i = Some o -> i ∉ rs_freed self -> i ∉ rs_cached self ->
  let u := ao_urn o in let mode := ao_mode o in
  exists os self',
    own_run (Resolver_flush self)
      (OpManage i :: segment_closes n i u mode ++ [OpClose i; OpOwn u mode]) = Some (os, self') /\
    last os = Some (if (n =? 0)%nat then None else Some i).
Proof.
  intros Hi Hf Hc u mode.
  assert (sp_life (flushed self) i = Held) as Hl
    by (cbn [flushed sp_life]; rewrite decide_False; [done|set_solver]).
  set (ops := OpManage i :: _).
  pose proof (own_run_refines (Resolver_flush self) (flushed self) ops (owns_flush self)) as Hr.
  cbn [rs_objects Resolver_flush] in Hr. subst ops. cbn [queue_run queue_step] in Hr.
  unfold spec_object at 1 in Hr. rewrite decide_False, Hi in Hr by congruence.
  cbn [mbind option_bind] in Hr. fold u mode in Hr.
  set (q' := {| sp_queues := _; sp_life := _ |}) in Hr.
  destruct (segment_closes_queue (rs_objects self) i o n 1%nat q' Hi) as (os & Eq & Hos).
  { unfold q'. fold u mode. by rewrite queue_at_insert, decide_True. }
  { unfold q', set_life. cbn [sp_life]. by rewrite decide_True. }
  fold u mode in Eq. rewrite Eq in Hr. cbn [mbind option_bind] in Hr.
  destruct Hr as (self' & _ & Hr & _). eexists _, self'. split; [exact Hr|].
  destruct os as [|x os]; [done|]. change (last (None :: x :: os)) with (last (x :: os)).
  rewrite Hos. f_equal. rewrite Nat.add_comm. by destruct n.
Qed.

Lemma Resolver_close_keeps_returned_witness :
  exists os self', own_run (Resolver_flush (res_objects 1))
      (OpManage 0 :: segment_closes 2 0 res_urn (c2z "w") ++ [OpClose 0; OpOwn res_urn (c2z "w")])
      = Some (os, self') /\ last os = Some (Some 0%nat).
Proof.
  exact (Resolver_close_keeps_returned (res_objects 1) 0
    {| ao_class := KZip; ao_urn := res_urn; ao_mode := c2z "w" |} 2 eq_refl
    (not_elem_of_empty _) (not_elem_of_empty _)).
Defined.
