(* ===== verification/ZipFormat.v ===== *)
(** The on-disk format of ZIP volumes: the packed structures of
    include/aff4_zip.h, the DOS time stamps of lib/aff4_zip.c, and the interface of
    the foreign functions the volume code calls (zlib and the C library's
    [mktime]).

    A packed structure is a record of integers with a list of field widths; [pack_fields]
    lays the fields out in little-endian order and [unpack_fields] reads them back. *)

From S2P Require Import Prelude.

(** ** Packed structures *)

Fixpoint pack_fields (ws : list nat) (vs : list Z) : list Z :=
  match ws, vs with
  | w :: ws', v :: vs' => le w v ++ pack_fields ws' vs'
  | _, _ => []
  end.

Fixpoint unpack_fields (ws : list nat) (bytes : list Z) : list Z :=
  match ws with
  | [] => []
  | w :: ws' => unle (take w bytes) :: unpack_fields ws' (drop w bytes)
  end.

(** [sizeof] of the structure. *)
Definition pack_size (ws : list nat) : Z := Z.of_nat (sum_list ws).

Record EndCentralDirectory := {
  ecd_magic : Z;
  number_of_this_disk : Z;
  disk_with_cd : Z;
  total_entries_in_cd_on_disk : Z;
  total_entries_in_cd : Z;
  size_of_cd : Z;
  offset_of_cd : Z;
  comment_len : Z
}.

Definition ecd_widths : list nat := [4; 2; 2; 2; 2; 4; 4; 2]%nat.

Definition ecd_fields (e : EndCentralDirectory) : list Z :=
  [ecd_magic e; number_of_this_disk e; disk_with_cd e; total_entries_in_cd_on_disk e;
   total_entries_in_cd e; size_of_cd e; offset_of_cd e; comment_len e].

Definition ecd_of (l : list Z) : EndCentralDirectory :=
  {| ecd_magic := nth 0 l 0; number_of_this_disk := nth 1 l 0; disk_with_cd := nth 2 l 0;
     total_entries_in_cd_on_disk := nth 3 l 0; total_entries_in_cd := nth 4 l 0;
     size_of_cd := nth 5 l 0; offset_of_cd := nth 6 l 0; comment_len := nth 7 l 0 |}.

Record CDFileHeader := {
  cd_magic : Z;
  version_made_by : Z;
  version_needed : Z;
  cd_flags : Z;
  cd_compression_method : Z;
  dostime : Z;
  dosdate : Z;
  cd_crc32 : Z;
  compress_size : Z;
  file_size : Z;
  file_name_length : Z;
  extra_field_len : Z;
  file_comment_length : Z;
  disk_number_start : Z;
  internal_file_attr : Z;
  external_file_attr : Z;
  relative_offset_local_header : Z
}.

Definition cd_widths : list nat :=
  [4; 2; 2; 2; 2; 2; 2; 4; 4; 4; 2; 2; 2; 2; 2; 4; 4]%nat.

Definition cd_fields (c : CDFileHeader) : list Z :=
  [cd_magic c; version_made_by c; version_needed c; cd_flags c; cd_compression_method c;
   dostime c; dosdate c; cd_crc32 c; compress_size c; file_size c; file_name_length c;
   extra_field_len c; file_comment_length c; disk_number_start c; internal_file_attr c;
   external_file_attr c; relative_offset_local_header c].

Definition cd_of (l : list Z) : CDFileHeader :=
  {| cd_magic := nth 0 l 0; version_made_by := nth 1 l 0; version_needed := nth 2 l 0;
     cd_flags := nth 3 l 0; cd_compression_method := nth 4 l 0; dostime := nth 5 l 0;
     dosdate := nth 6 l 0; cd_crc32 := nth 7 l 0; compress_size := nth 8 l 0;
     file_size := nth 9 l 0; file_name_length := nth 10 l 0; extra_field_len := nth 11 l 0;
     file_comment_length := nth 12 l 0; disk_number_start := nth 13 l 0;
     internal_file_attr := nth 14 l 0; external_file_attr := nth 15 l 0;
     relative_offset_local_header := nth 16 l 0 |}.

Record ZipFileHeader := {
  fh_magic : Z;
  fh_version : Z;
  fh_flags : Z;
  fh_compression_method : Z;
  lastmodtime : Z;
  lastmoddate : Z;
  fh_crc32 : Z;
  fh_compress_size : Z;
  fh_file_size : Z;
  fh_file_name_length : Z;
  fh_extra_field_len : Z
}.

Definition fh_widths : list nat := [4; 2; 2; 2; 2; 2; 4; 4; 4; 2; 2]%nat.

Definition fh_fields (h : ZipFileHeader) : list Z :=
  [fh_magic h; fh_version h; fh_flags h; fh_compression_method h; lastmodtime h;
   lastmoddate h; fh_crc32 h; fh_compress_size h; fh_file_size h; fh_file_name_length h;
   fh_extra_field_len h].

Definition fh_of (l : list Z) : ZipFileHeader :=
  {| fh_magic := nth 0 l 0; fh_version := nth 1 l 0; fh_flags := nth 2 l 0;
     fh_compression_method := nth 3 l 0; lastmodtime := nth 4 l 0; lastmoddate := nth 5 l 0;
     fh_crc32 := nth 6 l 0; fh_compress_size := nth 7 l 0; fh_file_size := nth 8 l 0;
     fh_file_name_length := nth 9 l 0; fh_extra_field_len := nth 10 l 0 |}.

Record Zip64EndCD := {
  end64_magic : Z;
  size_of_header : Z;
  end64_version_made_by : Z;
  end64_version_needed : Z;
  number_of_disk : Z;
  number_of_disk_with_cd : Z;
  number_of_entries_in_volume : Z;
  number_of_entries_in_total : Z;
  end64_size_of_cd : Z;
  end64_offset_of_cd : Z
}.

Definition end64_widths : list nat := [4; 8; 2; 2; 4; 4; 8; 8; 8; 8]%nat.

Definition end64_fields (e : Zip64EndCD) : list Z :=
  [end64_magic e; size_of_header e; end64_version_made_by e; end64_version_needed e;
   number_of_disk e; number_of_disk_with_cd e; number_of_entries_in_volume e;
   number_of_entries_in_total e; end64_size_of_cd e; end64_offset_of_cd e].

Definition end64_of (l : list Z) : Zip64EndCD :=
  {| end64_magic := nth 0 l 0; size_of_header := nth 1 l 0;
     end64_version_made_by := nth 2 l 0; end64_version_needed := nth 3 l 0;
     number_of_disk := nth 4 l 0; number_of_disk_with_cd := nth 5 l 0;
     number_of_entries_in_volume := nth 6 l 0; number_of_entries_in_total := nth 7 l 0;
     end64_size_of_cd := nth 8 l 0; end64_offset_of_cd := nth 9 l 0 |}.

Record Zip64CDLocator := {
  loc_magic : Z;
  loc_disk_with_cd : Z;
  offset_of_end_cd : Z;
  number_of_disks : Z
}.

Definition loc_widths : list nat := [4; 4; 8; 4]%nat.

Definition loc_fields (l : Zip64CDLocator) : list Z :=
  [loc_magic l; loc_disk_with_cd l; offset_of_end_cd l; number_of_disks l].

Definition loc_of (l : list Z) : Zip64CDLocator :=
  {| loc_magic := nth 0 l 0; loc_disk_with_cd := nth 1 l 0; offset_of_end_cd := nth 2 l 0;
     number_of_disks := nth 3 l 0 |}.

Definition ZIP64_LIMIT : Z := 2147483647.
Definition ZIP_STORED : Z := 0.
Definition ZIP_DEFLATE : Z := 8.
Definition CD_MAGIC : Z := 33639248.
Definition FILE_MAGIC : Z := 67324752.
Definition END_MAGIC : Z := 101010256.
Definition DESCRIPTOR_MAGIC : Z := 134695760.
Definition LOCATOR_MAGIC : Z := 117853008.
Definition END64_MAGIC : Z := 101075792.

(** ** DOS time stamps *)

(** The fields of [struct tm] the code uses. *)
Record tm := {
  tm_year : Z;
  tm_mon : Z;
  tm_mday : Z;
  tm_hour : Z;
  tm_min : Z;
  tm_sec : Z
}.

Definition dosdate_of (t : tm) : Z :=
  u16 (Z.lor (Z.lor (Z.shiftl (tm_year t + 1900 - 1980) 9) (Z.shiftl (tm_mon t + 1) 5))
         (tm_mday t)).

Definition dostime_of (t : tm) : Z :=
  u16 (Z.lor (Z.lor (Z.shiftl (tm_hour t) 11) (Z.shiftl (tm_min t) 5)) (tm_sec t ÷ 2)).

Definition tm_of_dos (date time : Z) : tm :=
  {| tm_year := Z.shiftr date 9 + 1980 - 1900;
     tm_mon := Z.land (Z.shiftr date 5) 15 - 1;
     tm_mday := Z.land date 31;
     tm_hour := Z.shiftr time 11;
     tm_min := Z.land (Z.shiftr time 5) 63;
     tm_sec := Z.land time 31 * 2 |}.

(** ** Foreign functions *)

(** zlib's [deflateInit2], [deflate], [inflate] and [crc32], and the C library's
    [mktime], which depends on the time zone.  [deflate strm input avail_out finish]
    returns the stream, the input left and the output; [inflate input avail_out] is
    [inflateInit2] and one call of [inflate] with [Z_FINISH]: whether the result is
    [Z_STREAM_END], and the bytes written to the output buffer.
    [deflate_pending] bounds the output that is still to come for an input
    ([deflateBound]). *)
Class Foreign := {
  z_stream : Type;
  deflateInit2 : option z_stream;
  deflate : z_stream -> list Z -> Z -> bool -> z_stream * list Z * list Z;
  deflate_pending : z_stream -> list Z -> nat;
  inflate : list Z -> Z -> bool * list Z;
  crc32 : Z -> list Z -> Z;
  mktime : tm -> Z
}.

(** What zlib documents.  [z_history s i o]: the stream has consumed [i] and
    produced [o]. *)
Class ForeignLaws `{Foreign} := {
  z_history : z_stream -> list Z -> list Z -> Prop;
  deflateInit2_law : exists s, deflateInit2 = Some s /\ z_history s [] [];
  deflate_law s i o input n finish s' rest out :
    z_history s i o -> 0 < n -> deflate s input n finish = (s', rest, out) ->
    exists used, input = used ++ rest /\ z_history s' (i ++ used) (o ++ out) /\
      zlen out <= n /\
      (deflate_pending s' rest + length out <= deflate_pending s input)%nat /\
      (zlen out < n -> rest = [] /\
         (finish = true -> forall m, zlen (i ++ used) <= m ->
            inflate (o ++ out) m = (true, i ++ used)))
}.

(** ** Lemmas *)

Fixpoint fits (ws : list nat) (vs : list Z) : Prop :=
  match ws, vs with
  | w :: ws', v :: vs' => 0 <= v < 256 ^ Z.of_nat w /\ fits ws' vs'
  | [], [] => True
  | _, _ => False
  end.

Lemma length_le w v : length (le w v) = w.
Proof. pose proof (zlen_le w v). unfold zlen in *. lia. Qed.

Lemma zlen_pack ws vs : length ws = length vs -> zlen (pack_fields ws vs) = pack_size ws.
Proof.
  revert vs. induction ws as [|w ws IH]; intros [|v vs]; try done.
  intros [= E]. simpl. rewrite zlen_app, zlen_le, IH by done. unfold pack_size. simpl. lia.
Qed.

Lemma unpack_pack ws vs post : fits ws vs -> unpack_fields ws (pack_fields ws vs ++ post) = vs.
Proof.
  revert vs. induction ws as [|w ws IH]; intros [|v vs]; try done.
  intros [Hv Hf]. simpl. rewrite <- (app_assoc (le w v)).
  rewrite (take_app_length' (le w v)), (drop_app_length' (le w v)) by by rewrite length_le.
  by rewrite unle_le, Z.mod_small, IH.
Qed.

Lemma fits_length ws vs : fits ws vs -> length ws = length vs.
Proof.
  revert vs. induction ws as [|w ws IH]; intros [|v vs]; try done.
  intros [_ Hf]. simpl. f_equal. by apply IH.
Qed.

Lemma cd_of_fields c : cd_of (cd_fields c) = c.
Proof. by destruct c. Qed.
Lemma ecd_of_fields e : ecd_of (ecd_fields e) = e.
Proof. by destruct e. Qed.
Lemma fh_of_fields h : fh_of (fh_fields h) = h.
Proof. by destruct h. Qed.
Lemma end64_of_fields e : end64_of (end64_fields e) = e.
Proof. by destruct e. Qed.
Lemma loc_of_fields l : loc_of (loc_fields l) = l.
Proof. by destruct l. Qed.

(** The times a DOS stamp can hold. *)
Definition tm_ok (t : tm) : Prop :=
  80 <= tm_year t < 208 /\ 0 <= tm_mon t < 12 /\ 1 <= tm_mday t < 32 /\
  0 <= tm_hour t < 24 /\ 0 <= tm_min t < 60 /\ 0 <= tm_sec t < 61.

#[export] Instance tm_ok_dec t : Decision (tm_ok t).
Proof. unfold tm_ok. apply _. Defined.

Lemma lor_fields a b c k m : 0 <= m -> 0 <= k -> 0 <= a -> 0 <= b < 2 ^ k -> 0 <= c < 2 ^ m ->
  Z.lor (Z.lor (Z.shiftl a (k + m)) (Z.shiftl b m)) c = (a * 2 ^ k + b) * 2 ^ m + c.
Proof.
  intros Hm Hk Ha Hb Hc. rewrite <- Z.shiftl_shiftl, <- Z.shiftl_lor by lia.
  by rewrite (lor_shiftl_add a b), lor_shiftl_add.
Qed.

(** Time stamps.  For every time from 1980 to 2107 the date and time fields of a
    directory entry give the time back, with the seconds rounded down to even ones. *)
Theorem dos_time_roundtrip t : tm_ok t ->
  tm_of_dos (dosdate_of t) (dostime_of t) =
  {| tm_year := tm_year t; tm_mon := tm_mon t; tm_mday := tm_mday t; tm_hour := tm_hour t;
     tm_min := tm_min t; tm_sec := 2 * (tm_sec t / 2) |}.
Proof.
  intros (Hy & Hmo & Hd & Hh & Hmi & Hs). unfold dosdate_of, dostime_of.
  rewrite Z.quot_div_nonneg by lia.
  pose proof (lor_fields (tm_year t + 1900 - 1980) (tm_mon t + 1) (tm_mday t) 4 5) as E1.
  pose proof (lor_fields (tm_hour t) (tm_min t) (tm_sec t / 2) 6 5) as E2.
  change (4 + 5) with 9 in E1. change (6 + 5) with 11 in E2.
  rewrite E1, E2 by (lia || dlia). unfold tm_of_dos. rewrite !Z.shiftr_div_pow2 by lia.
  change 15 with (Z.ones 4). change 31 with (Z.ones 5). change 63 with (Z.ones 6).
  rewrite !Z.land_ones by lia. unfold u16. f_equal; dlia.
Qed.

Lemma dos_time_roundtrip_witness :
  tm_of_dos (dosdate_of {| tm_year := 110; tm_mon := 2; tm_mday := 15; tm_hour := 20;
                           tm_min := 45; tm_sec := 9 |})
            (dostime_of {| tm_year := 110; tm_mon := 2; tm_mday := 15; tm_hour := 20;
                           tm_min := 45; tm_sec := 9 |}) =
  {| tm_year := 110; tm_mon := 2; tm_mday := 15; tm_hour := 20; tm_min := 45; tm_sec := 8 |}.
Proof.
  apply (dos_time_roundtrip {| tm_year := 110; tm_mon := 2; tm_mday := 15; tm_hour := 20;
                               tm_min := 45; tm_sec := 9 |}).
  apply (bool_decide_unpack _). vm_compute. exact I.
Defined.
