(* ===== verification/Dates.v ===== *)
(** * Dates: calendar time and the text form of XSDDatetime (lib/rdf.c, libreplace/timegm.c)

    The C library's [gmtime], [strftime] and [strptime] at the one format lib/rdf.c uses,
    [rep_timegm], which inverts [gmtime], and the conversions of a date to and from text.
    [mktime] depends on the time zone and is a parameter. *)
From S2P Require Import Prelude CText Rdf ZipFormat.

(** ** The calendar *)

(** Leap years, counted from 1900; [is_leap] counts in an [unsigned]. *)
Definition leap_year (y : Z) : bool :=
  let y := y + 1900 in (y mod 4 =? 0) && (negb (y mod 100 =? 0) || (y mod 400 =? 0)).

Definition is_leap (y : Z) : bool :=
  let y := u32 (y + 1900) in (y mod 4 =? 0) && (negb (y mod 100 =? 0) || (y mod 400 =? 0)).

Definition ndays (leap : bool) : list Z :=
  [31; if leap then 29 else 28; 31; 30; 31; 30; 31; 31; 30; 31; 30; 31].

Definition year_days (y : Z) : Z := if leap_year y then 366 else 365.

(** The days of [n] years from [i] on. *)
Fixpoint year_loop (n : nat) (i res : Z) : Z :=
  match n with
  | O => res
  | S n => year_loop n (i + 1) (res + year_days i)
  end.

(** The first loop of [rep_timegm]. *)
Fixpoint timegm_loop (n : nat) (i res : Z) : Z :=
  match n with
  | O => res
  | S n => timegm_loop n (i + 1) (res + if is_leap i then 366 else 365)
  end.

(** The second loop; a thirteenth month is read behind the table. *)
Fixpoint month_loop (n : nat) (days : list Z) (res : Z) : option Z :=
  match n with
  | O => Some res
  | S n => match days with [] => None | d :: days => month_loop n days (res + d) end
  end.

Definition rep_timegm (t : tm) : option Z :=
  if (tm_mon t >? 12) || (tm_mon t <? 0) || (tm_mday t >? 31) || (tm_min t >? 60)
     || (tm_sec t >? 60) || (tm_hour t >? 24) then Some 0
  else
    let res := timegm_loop (Z.to_nat (u32 (tm_year t) - 70)) 70 0 in
    res ← month_loop (Z.to_nat (tm_mon t)) (ndays (is_leap (tm_year t))) res;
    let res := res + tm_mday t - 1 in
    Some (i64 (((res * 24 + tm_hour t) * 60 + tm_min t) * 60 + tm_sec t)).

(** [gmtime]: the year a day is in, counted from 1970, then the month. *)
Fixpoint split_years (n : nat) (y d : Z) : Z * Z :=
  match n with
  | O => (y, d)
  | S n => if d <? year_days y then (y, d) else split_years n (y + 1) (d - year_days y)
  end.

Fixpoint split_months (days : list Z) (m d : Z) : Z * Z :=
  match days with
  | [] => (m, d)
  | n :: days => if d <? n then (m, d) else split_months days (m + 1) (d - n)
  end.

(** The calendar repeats every 400 years, 146097 days. *)
Definition gmtime (time : Z) : tm :=
  let days := time / 86400 in
  let s := time mod 86400 in
  let '(y, d) := split_years 400 70 (days mod 146097) in
  let '(m, d) := split_months (ndays (leap_year y)) 0 d in
  {| tm_year := y + 400 * (days / 146097); tm_mon := m; tm_mday := d + 1;
     tm_hour := s / 3600; tm_min := s / 60 mod 60; tm_sec := s mod 60 |}.

(** ** Text *)

(** [%02u] *)
Definition print_02u (n : Z) : list Z := zero_pad 2 (print_dec n).

(** [strftime] at DATETIME_FORMAT_STR, "%Y-%m-%dT%H:%M:%S". *)
Definition strftime_datetime (t : tm) : list Z :=
  let year := tm_year t + 1900 in
  (if year <? 0 then 45 :: print_dec (- year) else print_dec year) ++ [45]
  ++ print_02u (tm_mon t + 1) ++ [45] ++ print_02u (tm_mday t) ++ [84]
  ++ print_02u (tm_hour t) ++ [58] ++ print_02u (tm_min t) ++ [58] ++ print_02u (tm_sec t).

Fixpoint skip_blanks (rp : list Z) : list Z :=
  match rp with c :: rp' => if c =? 32 then skip_blanks rp' else rp | [] => [] end.

Definition is_digit (c : Z) : bool := (48 <=? c) && (c <=? 57).

(** The loop of the macro [get_number]: [n] more digits may follow. *)
Fixpoint number_loop (n : nat) (to val : Z) (rp : list Z) : Z * list Z :=
  match n with
  | O => (val, rp)
  | S n =>
      match rp with
      | c :: rp' => if (val * 10 <=? to) && is_digit c
                    then number_loop n to (val * 10 + (c - 48)) rp' else (val, rp)
      | [] => (val, rp)
      end
  end.

Definition get_number (from to : Z) (n : nat) (rp : list Z) : option (Z * list Z) :=
  match skip_blanks rp with
  | c :: rp' =>
      if is_digit c then
        let '(val, rest) := number_loop (pred n) to (c - 48) rp' in
        if (val <? from) || (val >? to) then None else Some (val, rest)
      else None
  | [] => None
  end.

(** An element of a format: a character to match, or a number to store. *)
Inductive conversion :=
| Match (c : Z)
| Number (from to : Z) (n : nat) (store : Z -> tm -> tm).

(** What is stored before a mismatch stays. *)
Fixpoint strptime (fmt : list conversion) (rp : list Z) (t : tm) : tm :=
  match fmt with
  | [] => t
  | Match c :: fmt =>
      match rp with x :: rp => if x =? c then strptime fmt rp t else t | [] => t end
  | Number from to n store :: fmt =>
      match get_number from to n rp with
      | Some (val, rp) => strptime fmt rp (store val t)
      | None => t
      end
  end.

Definition set_year (v : Z) (t : tm) : tm :=
  {| tm_year := v - 1900; tm_mon := tm_mon t; tm_mday := tm_mday t;
     tm_hour := tm_hour t; tm_min := tm_min t; tm_sec := tm_sec t |}.
Definition set_mon (v : Z) (t : tm) : tm :=
  {| tm_year := tm_year t; tm_mon := v - 1; tm_mday := tm_mday t;
     tm_hour := tm_hour t; tm_min := tm_min t; tm_sec := tm_sec t |}.
Definition set_mday (v : Z) (t : tm) : tm :=
  {| tm_year := tm_year t; tm_mon := tm_mon t; tm_mday := v;
     tm_hour := tm_hour t; tm_min := tm_min t; tm_sec := tm_sec t |}.
Definition set_hour (v : Z) (t : tm) : tm :=
  {| tm_year := tm_year t; tm_mon := tm_mon t; tm_mday := tm_mday t;
     tm_hour := v; tm_min := tm_min t; tm_sec := tm_sec t |}.
Definition set_min (v : Z) (t : tm) : tm :=
  {| tm_year := tm_year t; tm_mon := tm_mon t; tm_mday := tm_mday t;
     tm_hour := tm_hour t; tm_min := v; tm_sec := tm_sec t |}.
Definition set_sec (v : Z) (t : tm) : tm :=
  {| tm_year := tm_year t; tm_mon := tm_mon t; tm_mday := tm_mday t;
     tm_hour := tm_hour t; tm_min := tm_min t; tm_sec := v |}.

Definition DATETIME_FORMAT : list conversion :=
  [Number 0 9999 4 set_year; Match 45; Number 1 12 2 set_mon; Match 45;
   Number 1 31 2 set_mday; Match 84; Number 0 23 2 set_hour; Match 58;
   Number 0 59 2 set_min; Match 58; Number 0 61 2 set_sec].

Definition tm_zero : tm :=
  {| tm_year := 0; tm_mon := 0; tm_mday := 0; tm_hour := 0; tm_min := 0; tm_sec := 0 |}.

(** ** XSDDatetime *)

(** The microseconds are printed as zero; [gm_offset] is a number of seconds. *)
Definition XSDDatetime_serialise (value gm_offset : Z) : list Z :=
  strftime_datetime (gmtime (value ÷ 1000000)) ++ lit ".000000+"
  ++ print_02u (u32 gm_offset / 3600) ++ [58] ++ print_02u (u32 gm_offset mod 3600).

Definition XSDDatetime_parse (mktime : tm -> Z) (serialised : list Z) : Z :=
  i64 (mktime (strptime DATETIME_FORMAT serialised tm_zero) * 1000000).

Example serialise_example :
  XSDDatetime_serialise 1300000000000000 0 = lit "2011-03-13T07:06:40.000000+00:00" /\
  XSDDatetime_serialise (-1000000) 0 = lit "1969-12-31T23:59:59.000000+00:00" /\
  rep_timegm (gmtime 1300000000) = Some 1300000000 /\
  XSDDatetime_parse (fun t => default 0 (rep_timegm t)) (lit "2011-03-13T07:06:40.000000+00:00")
    = 1300000000000000.
Proof. vm_compute. done. Qed.

(** ** The calendar and its inverse *)

Lemma year_loop_res n i res : year_loop n i res = res + year_loop n i 0.
Proof.
  revert i res. induction n as [|n IH]; intros i res; cbn [year_loop]; [lia|].
  rewrite IH, (IH _ (0 + _)). lia.
Qed.

Lemma is_leap_year y : 0 <= y + 1900 < 4294967296 -> is_leap y = leap_year y.
Proof. intros Hy. unfold is_leap, leap_year. by rewrite u32_small. Qed.

Lemma timegm_loop_years n i res :
  0 <= i -> i + Z.of_nat n + 1900 <= 4294967296 -> timegm_loop n i res = year_loop n i res.
Proof.
  revert i res. induction n as [|n IH]; intros i res Hi Hn; [done|]. cbn [timegm_loop year_loop].
  rewrite is_leap_year by lia. unfold year_days. apply IH; lia.
Qed.

Lemma year_loop_app n m i :
  year_loop (n + m) i 0 = year_loop n i 0 + year_loop m (i + Z.of_nat n) 0.
Proof.
  revert i. induction n as [|n IH]; intros i; cbn [year_loop Nat.add].
  - by rewrite Z.add_0_r.
  - rewrite year_loop_res, (year_loop_res n), IH.
    replace (i + 1 + Z.of_nat n) with (i + Z.of_nat (S n)) by lia. lia.
Qed.

Lemma is_leap_period y q : leap_year (y + 400 * q) = leap_year y.
Proof.
  unfold leap_year.
  assert (forall m, (m | 400) -> (y + 400 * q + 1900) mod m = (y + 1900) mod m) as H.
  { intros m [k Hk]. replace (y + 400 * q + 1900) with (y + 1900 + q * k * m)
      by (rewrite Hk; ring). apply Z_mod_plus_full. }
  rewrite !H by (apply Z.mod_divide; [lia|reflexivity]). done.
Qed.

Lemma year_loop_period n i q : year_loop n (i + 400 * q) 0 = year_loop n i 0.
Proof.
  revert i. induction n as [|n IH]; intros i; [done|]. cbn [year_loop].
  rewrite year_loop_res, (year_loop_res n (i + 1)).
  replace (i + 400 * q + 1) with (i + 1 + 400 * q) by lia. rewrite IH.
  unfold year_days. by rewrite is_leap_period.
Qed.

Lemma year_loop_cycles q : year_loop (400 * q) 70 0 = 146097 * Z.of_nat q.
Proof.
  induction q as [|q IH]; [done|]. replace (400 * S q)%nat with (400 * q + 400)%nat by lia.
  rewrite year_loop_app, IH.
  replace (70 + Z.of_nat (400 * q)) with (70 + 400 * Z.of_nat q) by lia.
  rewrite year_loop_period. replace (year_loop 400 70 0) with 146097 by (vm_compute; done). lia.
Qed.

Lemma year_loop_mono n m i : (n <= m)%nat -> year_loop n i 0 <= year_loop m i 0.
Proof.
  intros H. replace m with (n + (m - n))%nat by lia. rewrite year_loop_app.
  enough (forall k j, 0 <= year_loop k j 0) by (specialize (H0 (m - n)%nat (i + Z.of_nat n)); lia).
  induction k as [|k IH]; intros j; cbn [year_loop]; [lia|]. rewrite year_loop_res.
  specialize (IH (j + 1)). unfold year_days. destruct (leap_year j); lia.
Qed.

Lemma split_years_spec n y d :
  0 <= d ->
  exists k, (k <= n)%nat /\ (split_years n y d).1 = y + Z.of_nat k /\
    year_loop k y 0 + (split_years n y d).2 = d /\ 0 <= (split_years n y d).2 /\
    ((k < n)%nat -> (split_years n y d).2 < year_days (y + Z.of_nat k)).
Proof.
  revert y d. induction n as [|n IH]; intros y d Hd; cbn [split_years].
  - exists 0%nat. cbn. split_and!; lia.
  - destruct (Z.ltb_spec d (year_days y)) as [H|H].
    + exists 0%nat. cbn [fst snd year_loop]. split_and!; [lia|lia|lia|lia|].
      intros _. by rewrite Z.add_0_r.
    + destruct (IH (y + 1) (d - year_days y) ltac:(lia)) as (k & Hk & Hy & Hs & H0 & Hlt).
      exists (S k). rewrite Hy. cbn [year_loop]. rewrite year_loop_res.
      split_and!; [lia|lia|lia|done|]. intros Hkn.
      replace (y + Z.of_nat (S k)) with (y + 1 + Z.of_nat k) by lia. apply Hlt. lia.
Qed.

Lemma month_loop_res n days res :
  month_loop n days res = (fun s => res + s) <$> month_loop n days 0.
Proof.
  revert days res. induction n as [|n IH]; intros days res; cbn [month_loop].
  - cbn. f_equal. lia.
  - destruct days as [|d days]; [done|]. rewrite IH, (IH days (0 + d)).
    destruct (month_loop n days 0); [|done]. cbn. f_equal. lia.
Qed.

Lemma split_months_spec days m d :
  0 <= d < foldr Z.add 0 days ->
  exists k s n, (split_months days m d).1 = m + Z.of_nat k /\ (k < length days)%nat /\
    month_loop k days 0 = Some s /\ s + (split_months days m d).2 = d /\
    days !! k = Some n /\ 0 <= (split_months days m d).2 < n.
Proof.
  revert m d. induction days as [|n days IH]; intros m d Hd; cbn [split_months foldr] in *; [lia|].
  destruct (Z.ltb_spec d n) as [H|H].
  - exists 0%nat, 0, n. cbn. split_and!; (done || lia).
  - destruct (IH (m + 1) (d - n) ltac:(lia)) as (k & s & n' & Hm & Hk & Hl & Hs & Hn & Hb).
    exists (S k), (n + s), n'. rewrite Hm. cbn [length month_loop lookup].
    rewrite month_loop_res, Hl. cbn. split_and!; (done || lia).
Qed.

(** What [gmtime] gives: a date of the calendar that [rep_timegm] maps back. *)
Lemma gmtime_spec time :
  0 <= time ->
  exists k m s n, let t := gmtime time in
    tm_year t = 70 + Z.of_nat k /\ tm_mon t = Z.of_nat m /\ (m < 12)%nat /\
    month_loop m (ndays (leap_year (tm_year t))) 0 = Some s /\
    ndays (leap_year (tm_year t)) !! m = Some n /\ 1 <= tm_mday t <= n /\
    0 <= tm_hour t < 24 /\ 0 <= tm_min t < 60 /\ 0 <= tm_sec t < 60 /\
    time = (((year_loop k 70 0 + s + tm_mday t - 1) * 24 + tm_hour t) * 60 + tm_min t) * 60
           + tm_sec t.
Proof.
  intros Ht. unfold gmtime.
  set (days := time / 86400). set (r := time mod 86400).
  assert (Hr : 0 <= r < 86400) by (apply Z.mod_pos_bound; lia).
  assert (Hdays : 0 <= days) by (apply Z.div_pos; lia).
  assert (Htime : time = days * 86400 + r) by (unfold days, r; dlia).
  pose proof (Z.mod_pos_bound days 146097 ltac:(lia)) as Hd.
  destruct (split_years_spec 400 70 (days mod 146097) ltac:(lia)) as (k & Hk & Hy & Hs & H0 & Hlt).
  destruct (split_years 400 70 (days mod 146097)) as [y d]. cbn [fst snd] in *.
  assert (Hk' : (k < 400)%nat).
  { destruct (decide (k = 400)%nat) as [->|]; [|lia]. exfalso.
    replace (year_loop 400 70 0) with 146097 in Hs by (vm_compute; done). lia. }
  specialize (Hlt Hk'). rewrite <- Hy in Hlt.
  destruct (split_months_spec (ndays (leap_year y)) 0 d) as (m & s & n & Hm & Hml & Hms & Hsd & Hn & Hb).
  { unfold year_days in Hlt. destruct (leap_year y); cbn; lia. }
  destruct (split_months (ndays (leap_year y)) 0 d) as [m' d']. cbn [fst snd] in *.
  set (q := Z.to_nat (days / 146097)).
  assert (Hq : days / 146097 = Z.of_nat q) by (unfold q; rewrite Z2Nat.id; [done|apply Z.div_pos; lia]).
  exists (400 * q + k)%nat, m, s, n. cbn [tm_year tm_mon tm_mday tm_hour tm_min tm_sec].
  rewrite is_leap_period, year_loop_app, year_loop_cycles.
  replace (70 + Z.of_nat (400 * q)) with (70 + 400 * Z.of_nat q) by lia. rewrite year_loop_period.
  split_and!; try done; try lia; try dlia.
Qed.

Lemma ndays_le leap m n : ndays leap !! m = Some n -> n <= 31.
Proof.
  intros H. assert (Forall (fun d => d <= 31) (ndays leap)) as Hf.
  { unfold ndays. repeat constructor; destruct leap; lia. }
  eapply Forall_lookup_1 in Hf; [|done]. exact Hf.
Qed.

Lemma month_loop_nonneg m leap s : month_loop m (ndays leap) 0 = Some s -> 0 <= s.
Proof.
  unfold ndays. do 13 (destruct m as [|m]; [cbn; intros [= <-]; destruct leap; lia|]). done.
Qed.

Lemma timegm_inverts time : 0 <= time < 2 ^ 55 -> rep_timegm (gmtime time) = Some time.
Proof.
  intros Ht. destruct (gmtime_spec time ltac:(lia)) as
    (k & m & s & n & Hy & Hm & Hm12 & Hs & Hn & Hd & Hh & Hmi & Hse & E).
  pose proof (ndays_le _ _ _ Hn). unfold rep_timegm.
  replace (_ || _) with false by lia.
  assert (Hk : 365 * Z.of_nat k <= year_loop k 70 0).
  { clear. generalize 70. induction k as [|k IH]; intros i; cbn [year_loop]; [lia|].
    rewrite year_loop_res. specialize (IH (i + 1)). unfold year_days. destruct (leap_year i); lia. }
  pose proof (month_loop_nonneg _ _ _ Hs).
  rewrite is_leap_year by lia. rewrite Hy, (u32_small (70 + Z.of_nat k)) by lia.
  replace (Z.to_nat (70 + Z.of_nat k - 70)) with k by lia.
  rewrite timegm_loop_years by lia. rewrite <- Hy, Hm, Nat2Z.id.
  rewrite month_loop_res, Hs. cbn [fmap option_fmap option_map mbind option_bind]. f_equal.
  rewrite i64_small; lia.
Qed.

(** C38: [rep_timegm] inverts [gmtime]: for every time from 1970 on (within the years an
    [unsigned] can count), converting it to a date of the calendar and the date back to
    seconds gives the time. *)
Theorem timegm_gmtime time : 0 <= time < 2 ^ 55 -> rep_timegm (gmtime time) = Some time.
Proof. apply timegm_inverts. Qed.

Lemma timegm_gmtime_witness : 0 <= 1300000000 < 2 ^ 55 /\ rep_timegm (gmtime 1300000000) = Some 1300000000.
Proof. split; [lia|]. apply (timegm_gmtime 1300000000). lia. Defined.

(** ** Text and back *)

Lemma print_02u_digits n : 0 <= n < 100 -> print_02u n = [48 + n / 10; 48 + n mod 10].
Proof.
  intros Hn.
  pose proof (forall_below (fun n => bool_decide (print_02u n = [48 + n / 10; 48 + n mod 10]))
    100 ltac:(vm_compute; done) n ltac:(lia)) as H.
  by apply bool_decide_eq_true in H.
Qed.

Lemma digits_step fuel n :
  digits (S fuel) 10 n = if n <? 10 then [n] else digits fuel 10 (n / 10) ++ [n mod 10].
Proof. done. Qed.

Lemma print_dec_year y : 1000 <= y < 10000 ->
  print_dec y = [48 + y / 1000; 48 + y / 100 mod 10; 48 + y / 10 mod 10; 48 + y mod 10].
Proof.
  intros Hy. unfold print_dec. rewrite digits_step, (proj2 (Z.ltb_ge y 10)) by lia.
  rewrite digits_step, (proj2 (Z.ltb_ge (y / 10) 10)) by dlia.
  rewrite digits_step, (proj2 (Z.ltb_ge (y / 10 / 10) 10)) by dlia.
  rewrite digits_step, (proj2 (Z.ltb_lt (y / 10 / 10 / 10) 10)) by dlia.
  cbn [app map]. unfold digit_upper. rewrite !Z.div_div by lia.
  rewrite !(proj2 (Z.ltb_lt _ 10)) by dlia. done.
Qed.

Lemma is_digit_48 d : 0 <= d < 10 -> is_digit (48 + d) = true.
Proof. intros. unfold is_digit. lia. Qed.

Lemma skip_blanks_digit d l : 0 <= d < 10 -> skip_blanks (48 + d :: l) = 48 + d :: l.
Proof. intros. cbn [skip_blanks]. by destruct (Z.eqb_spec (48 + d) 32); [lia|]. Qed.

Lemma get_number_2 from to n rest :
  0 <= n < 100 -> from <= n <= to -> get_number from to 2 (print_02u n ++ rest) = Some (n, rest).
Proof.
  intros Hn Hb. rewrite print_02u_digits by done. cbn [app]. unfold get_number.
  assert (0 <= n / 10 < 10 /\ 0 <= n mod 10 < 10 /\ n = n / 10 * 10 + n mod 10) as (? & ? & ?) by dlia.
  rewrite skip_blanks_digit, is_digit_48 by done. cbn [pred number_loop].
  rewrite is_digit_48 by done. rewrite (proj2 (Z.leb_le _ to)) by lia. cbn [andb].
  replace ((48 + n / 10 - 48) * 10 + (48 + n mod 10 - 48)) with n by lia.
  by replace ((n <? from) || (n >? to)) with false by lia.
Qed.

Lemma get_number_year y rest :
  1000 <= y < 10000 -> get_number 0 9999 4 (print_dec y ++ rest) = Some (y, rest).
Proof.
  intros Hy. rewrite print_dec_year by done. cbn [app]. unfold get_number.
  assert (0 <= y / 1000 < 10 /\ 0 <= y / 100 mod 10 < 10 /\ 0 <= y / 10 mod 10 < 10 /\
    0 <= y mod 10 < 10 /\
    y = ((y / 1000 * 10 + y / 100 mod 10) * 10 + y / 10 mod 10) * 10 + y mod 10)
    as (? & ? & ? & ? & ?) by dlia.
  rewrite skip_blanks_digit, is_digit_48 by done. cbn [pred number_loop].
  rewrite !is_digit_48 by done. cbn [andb].
  do 3 (rewrite (proj2 (Z.leb_le _ 9999)) by lia; cbn [andb]).
  replace (_ * 10 + (48 + y mod 10 - 48)) with y by lia.
  by replace ((y <? 0) || (y >? 9999)) with false by lia.
Qed.

(** A date of the years strptime reads. *)
Record tm_plain (t : tm) : Prop := {
  tp_year : 1000 <= tm_year t + 1900 < 10000;
  tp_mon : 0 <= tm_mon t < 12;
  tp_mday : 1 <= tm_mday t <= 31;
  tp_hour : 0 <= tm_hour t < 24;
  tp_min : 0 <= tm_min t < 60;
  tp_sec : 0 <= tm_sec t < 60
}.

Lemma strptime_strftime t rest t0 :
  tm_plain t -> strptime DATETIME_FORMAT (strftime_datetime t ++ rest) t0 = t.
Proof.
  intros [Hy Hm Hd Hh Hi Hs]. unfold strftime_datetime. rewrite (proj2 (Z.ltb_ge _ 0)) by lia.
  rewrite <- !app_assoc. unfold DATETIME_FORMAT. cbn [strptime].
  rewrite get_number_year by lia. cbn [app]. rewrite Z.eqb_refl. cbn [strptime].
  rewrite get_number_2 by lia. cbn [app]. rewrite Z.eqb_refl. cbn [strptime].
  rewrite get_number_2 by lia. cbn [app]. rewrite Z.eqb_refl. cbn [strptime].
  rewrite get_number_2 by lia. cbn [app]. rewrite Z.eqb_refl. cbn [strptime].
  rewrite get_number_2 by lia. cbn [app]. rewrite Z.eqb_refl. cbn [strptime].
  rewrite get_number_2 by lia.
  unfold set_year, set_mon, set_mday, set_hour, set_min, set_sec. cbn.
  destruct t. cbn. f_equal; lia.
Qed.

(** 253402300800 is the first second of the year 10000. *)
Lemma gmtime_plain time : 0 <= time < 253402300800 -> tm_plain (gmtime time).
Proof.
  intros Ht. destruct (gmtime_spec time ltac:(lia)) as
    (k & m & s & n & Hy & Hm & Hm12 & Hs & Hn & Hd & Hh & Hmi & Hse & E).
  pose proof (ndays_le _ _ _ Hn).
  split; try lia. enough (Z.of_nat k < 8030) by lia.
  destruct (Z.lt_ge_cases (Z.of_nat k) 8030) as [|Hk]; [done|exfalso].
  pose proof (year_loop_mono (Z.to_nat 8030) k 70 ltac:(lia)) as Hl.
  replace (year_loop (Z.to_nat 8030) 70 0) with 2932897 in Hl by (vm_compute; done).
  apply month_loop_nonneg in Hs. lia.
Qed.

Lemma serialise_parse mktime zone v :
  (forall s, 0 <= s < 253402300800 -> mktime (gmtime s) = s - zone) -> -86400 <= zone <= 86400 ->
  0 <= v < 253402300800000000 ->
  XSDDatetime_parse mktime (XSDDatetime_serialise v 0) = (v / 1000000 - zone) * 1000000.
Proof.
  intros Hmk Hz Hv. unfold XSDDatetime_parse, XSDDatetime_serialise.
  rewrite Z.quot_div_nonneg by lia.
  assert (0 <= v / 1000000 < 253402300800) by dlia.
  rewrite strptime_strftime by (by apply gmtime_plain). rewrite Hmk by lia. apply i64_small. lia.
Qed.

(** Dates in text.  For a time from 1970 up to the year 9999, and a local clock that is
    [zone] seconds ahead of UTC all the year, reading back the printed date loses the
    microseconds, and is off by the zone: the text is in UTC and is read as local time. *)
Theorem XSDDatetime_text mktime zone v :
  (forall s, 0 <= s < 253402300800 -> mktime (gmtime s) = s - zone) -> -86400 <= zone <= 86400 ->
  0 <= v < 253402300800000000 ->
  XSDDatetime_parse mktime (XSDDatetime_serialise v 0) = (v / 1000000 - zone) * 1000000.
Proof. apply serialise_parse. Qed.

Lemma XSDDatetime_text_witness :
  XSDDatetime_parse (fun t => default 0 (rep_timegm t) - 3600)
    (XSDDatetime_serialise 1300000000123456 0) = (1300000000123456 / 1000000 - 3600) * 1000000.
Proof.
  apply XSDDatetime_text; [|lia|lia]. intros s Hs. rewrite timegm_inverts by lia. reflexivity.
Defined.
