(* ===== verification/RdfIO.v ===== *)
(** * RdfIO: reading and writing RDF (lib/rdf.c, include/aff4_rdf_serialise.h)

    The text forms of values, the handlers that load the statements of a document into the
    resolver ([RDFParser]), and the statements [RDFSerializer] writes about a URN.  The
    vendored RDF library (libraptor), which turns the bytes of a document into statements
    and back, is behind the interface [Raptor]. *)
From S2P Require Import Prelude Cache DataStore CText Misc Url Rdf File Resolver ZipFormat Dates.

Definition AFF4_VOLATILE_CONTAINS : list Z := lit "aff4volatile:contains".

(** ** Statements *)

(** The nodes of a statement, with the text of each; a literal may have a data type. *)
Inductive term :=
| Resource (uri : list Z)
| Literal (text : list Z) (datatype : option (list Z))
| Anonymous (id : list Z).

Record statement := { st_subject : term; st_predicate : term; st_object : term }.

(** What the RDF library reports while it parses. *)
Inductive event :=
| Triple (triple : statement)
| Message (message : list Z)
| Fatal (message : list Z).

Definition fatal_free (evs : list event) : bool :=
  forallb (fun ev => match ev with Fatal _ => false | _ => true end) evs.

Class Raptor (P : Type) := {
  raptor_new_parser : list Z -> option P;
  raptor_start_parse : P -> option (list Z) -> P;
  raptor_parse_chunk : P -> list Z -> bool -> list event * P
}.

(** How a document is cut into chunks does not matter; nothing follows a fatal error. *)
Class RaptorLaws (P : Type) `{Raptor P} := {
  raptor_chunks p a b is_end :
    (raptor_parse_chunk p (a ++ b) is_end).1 =
    let '(evs, p') := raptor_parse_chunk p a false in
    evs ++ if fatal_free evs then (raptor_parse_chunk p' b is_end).1 else []
}.

(** ** The text of a value *)

(** [serialise] of each class; nothing sets the offset of a date. *)
Definition RDFValue_serialise (self : RDFValue) : option (list Z) :=
  match self with
  | VInteger v => Some (XSDInteger_serialise v)
  | VDatetime v => Some (XSDDatetime_serialise v 0)
  | VString s => XSDString_serialise s
  | VURN u => Some (RDFURN_serialise u)
  end.

Definition RDFValue_parse (mktime : tm -> Z) (self : RDFValue) (serialised : list Z)
  : option RDFValue :=
  match self with
  | VInteger _ => Some (VInteger (XSDInteger_parse serialised))
  | VDatetime _ => Some (VDatetime (XSDDatetime_parse mktime serialised))
  | VString _ => VString <$> XSDString_parse (serialised ++ [0])
  | VURN u => VURN <$> RDFURN_parse u serialised
  end.

(** ** RDFParser *)

Section Parser.

Context `{DS : DataStore St} `{FL : FileLike F} `{RP : Raptor P}.

(** The zone of the local clock, the time, and the registry of classes. *)
Variable mktime : tm -> Z.
Variable now : Z.
Variable RDF_Registry : Cache rdf_class.

Record RDFParser := {
  rp_message : list Z;
  rp_urn : RDFURN;
  rp_volume_urn : RDFURN;
  rp_member_cache : Cache unit;
  rp_resolver : Resolver St
}.

Definition RDFParser_Con (resolver : Resolver St) : RDFParser :=
  {| rp_message := replicate (Z.to_nat BUFF_SIZE) 0; rp_urn := RDFURN_Con;
     rp_volume_urn := RDFURN_Con; rp_member_cache := Cache_Con 100 0;
     rp_resolver := resolver |}.

Definition with_rp_urn (self : RDFParser) (u : RDFURN) : RDFParser :=
  {| rp_message := rp_message self; rp_urn := u; rp_volume_urn := rp_volume_urn self;
     rp_member_cache := rp_member_cache self; rp_resolver := rp_resolver self |}.
Definition with_rp_volume_urn (self : RDFParser) (u : RDFURN) : RDFParser :=
  {| rp_message := rp_message self; rp_urn := rp_urn self; rp_volume_urn := u;
     rp_member_cache := rp_member_cache self; rp_resolver := rp_resolver self |}.
Definition with_rp_resolver (self : RDFParser) (r : Resolver St) : RDFParser :=
  {| rp_message := rp_message self; rp_urn := rp_urn self; rp_volume_urn := rp_volume_urn self;
     rp_member_cache := rp_member_cache self; rp_resolver := r |}.
Definition with_rp_member_cache (self : RDFParser) (c : Cache unit) : RDFParser :=
  {| rp_message := rp_message self; rp_urn := rp_urn self; rp_volume_urn := rp_volume_urn self;
     rp_member_cache := c; rp_resolver := rp_resolver self |}.
Definition with_rp_message (self : RDFParser) (m : list Z) : RDFParser :=
  {| rp_message := m; rp_urn := rp_urn self; rp_volume_urn := rp_volume_urn self;
     rp_member_cache := rp_member_cache self; rp_resolver := rp_resolver self |}.

(** The class an object is parsed with; [None] is the NULL pointer that [borrow] gives for
    a data type that is not registered. *)
Definition object_class (object : term) : option rdf_class :=
  match object with
  | Resource _ => Some CURN
  | Literal _ (Some type_str) => Cache_borrow RDF_Registry (type_str ++ [0])
  | _ => Some CString
  end.

Definition object_text (object : term) : list Z :=
  match object with Resource s => s | Literal s _ => s | Anonymous s => s end.

(** The volume contains the subject, which is noted once. *)
Definition add_to_volume (self : RDFParser) (urn_str : list Z) : option RDFParser :=
  if bool_decide (urn_value (rp_volume_urn self) = urn_str) then Some self
  else if Cache_present (rp_member_cache self) (urn_str ++ [0]) then Some self
  else
    r ← Resolver_add (rp_resolver self) (rp_volume_urn self) AFF4_VOLATILE_CONTAINS
          (VURN (rp_urn self));
    c ← Cache_put (rp_member_cache self) (urn_str ++ [0]) None;
    Some (with_rp_member_cache (with_rp_resolver self r) c).

Definition triples_handler (self : RDFParser) (triple : statement) : option RDFParser :=
  match st_subject triple, st_predicate triple with
  | Resource urn_str, Resource attribute =>
      u ← RDFURN_set (rp_urn self) (Some urn_str);
      self ← add_to_volume (with_rp_urn self u) urn_str;
      class_ref ← object_class (st_object triple);
      result ← RDFValue_parse mktime (construct class_ref now) (object_text (st_object triple));
      r ← Resolver_add (rp_resolver self) (rp_urn self) attribute result;
      Some (with_rp_resolver self r)
  | _, _ => Some self
  end.

(** [strncpy] fills all of [message]; the NUL goes behind it, into the [jmp_buf]. *)
Definition fatal_error_handler (self : RDFParser) (message : list Z) : option RDFParser :=
  m ← bput (rp_message self) 0 (ztake BUFF_SIZE (message ++ replicate (Z.to_nat BUFF_SIZE) 0));
  m ← bput m BUFF_SIZE [0];
  Some (with_rp_message self m).

(** The handlers the library calls; [true] is the [longjmp] of a fatal error. *)
Fixpoint handle_events (self : RDFParser) (evs : list event) : option (bool * RDFParser) :=
  match evs with
  | [] => Some (false, self)
  | Triple triple :: evs => self ← triples_handler self triple; handle_events self evs
  | Message _ :: evs => handle_events self evs
  | Fatal message :: _ => self ← fatal_error_handler self message; Some (true, self)
  end.

(** The loop over the file, and the flush after it. *)
Fixpoint read_loop (fuel : nat) (self : RDFParser) (rdf_parser : P) (fd : F)
  : option (bool * RDFParser * F) :=
  match fuel with
  | O => None
  | S fuel =>
      let '(buff, fd) := fl_read fd BUFF_SIZE in
      if zlen buff <=? 0 then
        '(jmp, self) ← handle_events self (raptor_parse_chunk rdf_parser [] true).1;
        Some (jmp, self, fd)
      else
        let '(evs, rdf_parser) := raptor_parse_chunk rdf_parser buff false in
        '(jmp, self) ← handle_events self evs;
        if (jmp : bool) then Some (true, self, fd) else read_loop fuel self rdf_parser fd
  end.

(** The result, the error raised, and the states of the parser and the file. *)
Definition RDFParser_parse (fuel : nat) (self : RDFParser) (fd : F) (format base : option (list Z))
  : option (Z * option aff4_error * RDFParser * F) :=
  match raptor_new_parser (default (lit "turtle") format) with
  | None => Some (0, Some ERuntimeError, self, fd)
  | Some rdf_parser =>
      u ← RDFURN_set (rp_volume_urn self) base;
      '(jmp, self, fd) ← read_loop fuel (with_rp_volume_urn self u)
                           (raptor_start_parse rdf_parser base) fd;
      Some (if (jmp : bool) then 0 else 1, None, self, fd)
  end.

End Parser.

Arguments RDFParser : clear implicits.

(** ** RDFSerializer *)

Section Serializer.

Context `{DS : DataStore St}.
Variable RDF_Registry : Cache rdf_class.

(** The object of a statement: an empty data type is left out. *)
Definition object_term (value : RDFValue) : option term :=
  text ← RDFValue_serialise value;
  let type := dataType (class_of value) in
  Some (match value with
        | VURN _ => Resource text
        | _ => Literal text (if bool_decide (type = []) then None else Some type)
        end).

(** The loop over the list of a value: one statement for every other value that is linked
    to it, each with the first value as object. *)
Definition serialize_values (urn : RDFURN) (attribute : list Z) (items : list RDFItem)
  : option (list statement) :=
  match items with
  | [] => Some []
  | value :: _ =>
      linked_values ← chain 0 items;
      mapM (fun _ => object ← object_term (it_value value);
                     Some {| st_subject := Resource (urn_value urn);
                             st_predicate := Resource attribute; st_object := object |})
           (tail linked_values)
  end.

(** The loop over the registry: the data types are taken for attributes. *)
Fixpoint serialize_loop (classes : list rdf_class) (resolver : Resolver St) (urn : RDFURN)
  : option (list statement * Resolver St) :=
  match classes with
  | [] => Some ([], resolver)
  | classref :: classes =>
      let attribute := dataType classref in
      '(items, resolver) ← Resolver_resolve RDF_Registry resolver urn attribute;
      sts ← serialize_values urn attribute items;
      '(sts', resolver) ← serialize_loop classes resolver urn;
      Some (sts ++ sts', resolver)
  end.

(** The classes of the registry's list, oldest first. *)
Definition registered_classes : option (list rdf_class) :=
  mapM (fun i => n ← nodes RDF_Registry !! i; node_data n) (cache_list RDF_Registry).

(** The statements given to the RDF library. *)
Definition RDFSerializer_serialize_urn (resolver : Resolver St) (urn : RDFURN)
  : option (list statement * Resolver St) :=
  classes ← registered_classes; serialize_loop classes resolver urn.

End Serializer.

(** ** Loading a document *)

(** The value an object stands for. *)
Definition object_value (mktime : tm -> Z) (now : Z) (object : term) : option RDFValue :=
  class_ref ← object_class rdf_registry object;
  RDFValue_parse mktime (construct class_ref now) (object_text object).

(** The text of a URN that is set to [s]. *)
Definition urn_text (s : list Z) : list Z := URLParse_string (split_url s).

Definition link_to (s : list Z) : DataStoreObject :=
  RDFValue_encode (VURN {| urn_value := urn_text s; urn_parser := None |}).

(** What a document adds to the store of triples: the values of its statements in order,
    and before the first statement about a subject other than the volume the link from
    the volume to it; [seen] are the subjects before. *)
Fixpoint document_triples (mktime : tm -> Z) (now : Z) (vol : list Z) (seen : list (list Z))
    (evs : list event) : list (list Z * list Z * DataStoreObject) :=
  match evs with
  | Triple {| st_subject := Resource s; st_predicate := Resource p; st_object := o |} :: evs =>
      (if decide (vol = s \/ s ∈ seen) then [] else [(vol, AFF4_VOLATILE_CONTAINS, link_to s)])
      ++ match object_value mktime now o with
         | Some v => [(urn_text s, p, RDFValue_encode v)]
         | None => []
         end
      ++ document_triples mktime now vol
           (if decide (vol = s \/ s ∈ seen) then seen else s :: seen) evs
  | _ :: evs => document_triples mktime now vol seen evs
  | [] => []
  end.

(** The objects of a subject and attribute. *)
Definition objects_of (ts : list (list Z * list Z * DataStoreObject)) (u a : list Z)
  : list DataStoreObject :=
  map snd (filter (fun t => t.1 = (u, a)) ts).

(** Statements the handler can follow: the subject fits a URN, the object has a value. *)
Definition statement_ok (mktime : tm -> Z) (now : Z) (ev : event) : Prop :=
  match ev with
  | Triple {| st_subject := Resource s; st_predicate := Resource _; st_object := o |} =>
      cstring s /\ zlen s < BUFF_SIZE /\ is_Some (object_value mktime now o)
  | Fatal _ => False
  | _ => True
  end.

Lemma objects_of_app ts ts' u a : objects_of (ts ++ ts') u a = objects_of ts u a ++ objects_of ts' u a.
Proof. unfold objects_of. by rewrite filter_app, map_app. Qed.

Lemma objects_of_one u' a' o u a :
  objects_of [(u', a', o)] u a = if decide (u = u' /\ a = a') then [o] else [].
Proof.
  unfold objects_of. destruct (decide (u = u' /\ a = a')) as [[-> ->]|Hne].
  - by rewrite filter_cons_True.
  - rewrite filter_cons_False; [done|]. intros [= -> ->]. by apply Hne.
Qed.

Section Loading.

Context `{DSL : DataStoreLaws St} `{FLL : FileLikeLaws F} `{RPL : RaptorLaws P}.
Variable mktime : tm -> Z.
Variable now : Z.

(** The member cache holds the subjects seen. *)
Record parser_ok (self : RDFParser St) (vol : list Z) (seen : list (list Z)) : Prop := {
  po_store : ds_ok (rs_store (rp_resolver self));
  po_vol : urn_value (rp_volume_urn self) = vol;
  po_wf : cache_wf (rp_member_cache self);
  po_max : max_cache_size (rp_member_cache self) = 0;
  po_seen s : entries (rp_member_cache self) (s ++ [0]) <> [] <-> s ∈ seen
}.

(** [ts] was added, and no more than [n] new names. *)
Definition grown (self self' : RDFParser St) (n : Z)
    (ts : list (list Z * list Z * DataStoreObject)) : Prop :=
  ds_room (rs_store (rp_resolver self)) - n <= ds_room (rs_store (rp_resolver self')) /\
  forall u a, ds_values (rs_store (rp_resolver self')) u a =
    ds_values (rs_store (rp_resolver self)) u a ++ objects_of ts u a.

Lemma grown_refl self n : 0 <= n -> grown self self n [].
Proof. intros Hn. split; [lia|]. intros u a. by rewrite app_nil_r. Qed.

Lemma grown_trans self1 self2 self3 n m ts ts' :
  grown self1 self2 n ts -> grown self2 self3 m ts' -> grown self1 self3 (n + m) (ts ++ ts').
Proof.
  intros [Hr Hv] [Hr2 Hv2]. split; [lia|]. intros u a. by rewrite Hv2, Hv, <- app_assoc, objects_of_app.
Qed.

Lemma grown_add self r u a o :
  ds_update (rs_store (rp_resolver self)) (rs_store r) u a
    (ds_values (rs_store (rp_resolver self)) u a ++ [o]) ->
  grown self (with_rp_resolver self r) 2 [(u, a, o)].
Proof.
  intros (Hok & Hr & Hv). split; [cbn; lia|]. intros u' a'.
  cbn [with_rp_resolver rp_resolver]. rewrite Hv, objects_of_one.
  destruct (decide (u' = u /\ a' = a)) as [[-> ->]|]; [done|]. by rewrite app_nil_r.
Qed.

Lemma add_to_volume_spec self vol seen s :
  parser_ok self vol seen -> 2 <= ds_room (rs_store (rp_resolver self)) ->
  urn_value (rp_urn self) = urn_text s ->
  exists self', add_to_volume self s = Some self' /\
    parser_ok self' vol (if decide (vol = s \/ s ∈ seen) then seen else s :: seen) /\
    rp_urn self' = rp_urn self /\
    grown self self' 2
      (if decide (vol = s \/ s ∈ seen) then [] else [(vol, AFF4_VOLATILE_CONTAINS, link_to s)]).
Proof.
  intros [Hok Hvol Hwf Hmax Hseen] Hroom Hu. unfold add_to_volume.
  destruct (decide (vol = s)) as [E|Hne].
  - rewrite bool_decide_true by (by rewrite Hvol). rewrite !decide_True by by left.
    exists self. split_and!; [done|by split|done|by apply grown_refl].
  - rewrite bool_decide_false by (by rewrite Hvol).
    rewrite Cache_present_entries. specialize (Hseen s) as Hs.
    destruct (decide (s ∈ seen)) as [Hin|Hout].
    + rewrite bool_decide_false by tauto. rewrite !decide_True by by right.
      exists self. split_and!; [done|by split|done|by apply grown_refl].
    + assert (entries (rp_member_cache self) (s ++ [0]) = []) as He.
      { destruct (entries (rp_member_cache self) (s ++ [0])); [done|]. exfalso. by apply Hout, Hs. }
      rewrite bool_decide_true by done. rewrite !decide_False by tauto. cbn [negb].
      destruct (Resolver_add_spec (rp_resolver self) (rp_volume_urn self) AFF4_VOLATILE_CONTAINS
        (VURN (rp_urn self)) Hok Hroom) as (r & -> & Hup). mred.
      rewrite cache_put_unbounded by done. mred. eexists. split; [done|].
      assert (RDFValue_encode (VURN (rp_urn self)) = link_to s) as Hl.
      { unfold link_to. cbn. unfold RDFURN_encode. cbn [urn_value]. by rewrite Hu. }
      rewrite Hl, Hvol in Hup. split_and!.
      * split; cbn [rp_resolver rp_volume_urn rp_member_cache with_rp_member_cache with_rp_resolver];
          [apply Hup|done|by apply wf_link|done|]. intros s'.
        rewrite entries_link by done. rewrite elem_of_cons.
        destruct (decide (s ++ [0] = s' ++ [0])) as [E|Hd].
        -- apply (proj1 (key_inj _ _)) in E. subst s'. split; [by left|]. intros _ E. by apply app_nil in E as [_ ?].
        -- rewrite app_nil_r, Hseen. split; [by right|]. intros [->|]; done.
      * done.
      * apply (grown_add self r _ _ _ Hup).
Qed.

Lemma triples_handler_spec self vol seen ev st :
  ev = Triple st -> parser_ok self vol seen -> 4 <= ds_room (rs_store (rp_resolver self)) ->
  statement_ok mktime now ev ->
  exists self' seen', triples_handler mktime now rdf_registry self st = Some self' /\
    parser_ok self' vol seen' /\ grown self self' 4 (document_triples mktime now vol seen [ev]) /\
    forall evs, document_triples mktime now vol seen (ev :: evs) =
      document_triples mktime now vol seen [ev] ++ document_triples mktime now vol seen' evs.
Proof.
  intros -> Hok Hroom Hst. unfold triples_handler.
  assert (exists self' seen', Some self = Some self' /\ parser_ok self' vol seen' /\
    grown self self' 4 [] /\ forall evs, document_triples mktime now vol seen evs =
      [] ++ document_triples mktime now vol seen' evs) as Hskip
    by (exists self, seen; split_and!; [done|done|by apply grown_refl|done]).
  destruct st as [[s| |] [p| |] o]; cbn [st_subject st_predicate st_object]; try exact Hskip.
  destruct Hst as (Hc & Hl & v & Hv). clear Hskip.
  destruct (RDFURN_set_ok (rp_urn self) s Hc Hl) as (u & -> & _ & Hu). mred.
  destruct (add_to_volume_spec (with_rp_urn self u) vol seen s) as (self1 & -> & Hok1 & Hu1 & Hg);
    [by destruct Hok; split|cbn; lia|done|]. mred.
  unfold object_value in Hv. destruct (object_class rdf_registry o) as [c|] eqn:Hcl; [|done].
  cbn [mbind option_bind] in Hv. mred. rewrite Hv. mred.
  destruct (Resolver_add_spec (rp_resolver self1) (rp_urn self1) p v) as (r & -> & Hup);
    [apply Hok1|destruct Hg; cbn in *; lia|]. mred.
  rewrite Hu1 in Hup. cbn [rp_urn with_rp_urn] in Hup. rewrite Hu in Hup.
  apply grown_add in Hup as Hg2.
  exists (with_rp_resolver self1 r), (if decide (vol = s \/ s ∈ seen) then seen else s :: seen).
  split_and!; [done| | |].
  - destruct Hok1. split; try done. cbn. apply Hup.
  - pose proof (grown_trans self self1 _ 2 2 _ _ Hg Hg2) as Hg3.
    cbn [document_triples]. unfold object_value. rewrite Hcl. mred. rewrite Hv, app_nil_r. exact Hg3.
  - intros evs. cbn [document_triples]. by rewrite app_nil_r, <- !app_assoc.
Qed.

Lemma handle_events_spec self vol seen evs :
  parser_ok self vol seen -> 4 * zlen evs <= ds_room (rs_store (rp_resolver self)) ->
  Forall (statement_ok mktime now) evs ->
  exists self' seen', handle_events mktime now rdf_registry self evs = Some (false, self') /\
    parser_ok self' vol seen' /\
    grown self self' (4 * zlen evs) (document_triples mktime now vol seen evs).
Proof.
  revert self seen. induction evs as [|ev evs IH]; intros self seen Hok Hroom Hev.
  - exists self, seen. split_and!; [done|done|by apply grown_refl].
  - apply Forall_cons in Hev as [Hst Hev]. rewrite zlen_cons in *. pose proof (zlen_nonneg evs).
    destruct ev as [st|m|m]; [| |done]; cbn [handle_events].
    + destruct (triples_handler_spec self vol seen _ st eq_refl Hok ltac:(lia) Hst)
        as (self1 & seen1 & -> & Hok1 & Hg1 & Heq). mred.
      destruct (IH self1 seen1 Hok1) as (self2 & seen2 & -> & Hok2 & Hg2);
        [destruct Hg1; lia|done|].
      exists self2, seen2. split_and!; [done|done|]. rewrite Heq.
      replace (4 * (1 + zlen evs)) with (4 + 4 * zlen evs) by lia. by eapply grown_trans.
    + destruct (IH self seen Hok) as (self2 & seen2 & -> & Hok2 & Hg2); [lia|done|].
      exists self2, seen2. split_and!; [done|done|]. destruct Hg2. split; [lia|done].
Qed.

Lemma ztake_rest {A} n (l : list A) : 0 <= n -> ztake n l ++ zdrop (zlen (ztake n l)) l = l.
Proof.
  intros Hn. destruct (Z.le_gt_cases n (zlen l)).
  - rewrite zlen_ztake. replace (Z.min (Z.max n 0) (zlen l)) with n by lia. apply ztake_zdrop.
  - rewrite ztake_all, zdrop_all by lia. apply app_nil_r.
Qed.

Lemma handle_events_app (self : RDFParser St) evs evs' :
  handle_events mktime now rdf_registry self (evs ++ evs') =
  '(jmp, self') ← handle_events mktime now rdf_registry self evs;
  if (jmp : bool) then Some (true, self') else handle_events mktime now rdf_registry self' evs'.
Proof.
  revert self. induction evs as [|[st|m|m] evs IH]; intros self; cbn [app handle_events]; [done| |done|].
  - destruct (triples_handler _ _ _ self st); mred; [apply IH|done].
  - destruct (fatal_error_handler self m); by mred.
Qed.

Lemma handle_events_jmp (self self' : RDFParser St) evs jmp :
  handle_events mktime now rdf_registry self evs = Some (jmp, self') -> jmp = negb (fatal_free evs).
Proof.
  revert self. induction evs as [|[st|m|m] evs IH]; intros self; cbn [handle_events].
  - by intros [= <- _].
  - destruct (triples_handler _ _ _ self st); mred; [apply IH|done].
  - apply IH.
  - destruct (fatal_error_handler self m); mred; [by intros [= <- _]|done].
Qed.

(** Reading in chunks has the effect of handling the whole rest of the file at once. *)
Lemma read_loop_spec fuel (self : RDFParser St) (p : P) (fd : F) :
  fl_ok fd -> (length (zdrop (fl_pos fd) (fl_contents fd)) < fuel)%nat ->
  let evs := (raptor_parse_chunk p (zdrop (fl_pos fd) (fl_contents fd)) true).1 in
  match handle_events mktime now rdf_registry self evs with
  | Some (jmp, self') => exists fd', read_loop mktime now rdf_registry fuel self p fd =
                                       Some (jmp, self', fd')
  | None => read_loop mktime now rdf_registry fuel self p fd = None
  end.
Proof.
  revert self p fd. induction fuel as [|fuel IH]; intros self p fd Hok Hfuel; [lia|].
  cbn zeta. cbn [read_loop].
  destruct (fl_read_law fd BUFF_SIZE Hok ltac:(unfold BUFF_SIZE; lia)) as (fd' & -> & Hok' & Hc & Hp).
  unfold zread in *. specialize (IH) with (fd := fd').
  rewrite Hc, Hp, <- zdrop_zdrop in IH by (pose proof (fl_pos_nonneg fd Hok); zlen_facts; lia).
  set (rest := zdrop (fl_pos fd) (fl_contents fd)) in *.
  pose proof (zlen_ztake BUFF_SIZE rest) as Hlen. pose proof (zlen_nonneg rest).
  assert (HB : 0 < BUFF_SIZE) by (unfold BUFF_SIZE; lia).
  destruct (Z.leb_spec (zlen (ztake BUFF_SIZE rest)) 0) as [Hz|Hz].
  - rewrite (zlen_0_nil rest) by lia.
    destruct (handle_events _ _ _ self _) as [[jmp self']|]; mred; [by eexists|done].
  - assert (Hrest : rest = ztake BUFF_SIZE rest ++ zdrop (zlen (ztake BUFF_SIZE rest)) rest).
    { symmetry. apply ztake_rest. lia. }
    assert (Hl : (length (zdrop (zlen (ztake BUFF_SIZE rest)) rest) < fuel)%nat).
    { pose proof (zlen_zdrop (zlen (ztake BUFF_SIZE rest)) rest). unfold zlen in *. lia. }
    set (buff := ztake BUFF_SIZE rest) in *. set (rest' := zdrop (zlen buff) rest) in *.
    rewrite Hrest, raptor_chunks. destruct (raptor_parse_chunk p buff false) as [evs p'].
    rewrite handle_events_app.
    destruct (handle_events _ _ _ self evs) as [[jmp self']|] eqn:E; mred; [|done].
    apply handle_events_jmp in E. destruct (fatal_free evs); subst jmp; cbn [negb]; [|by eexists].
    by apply IH.
Qed.

End Loading.

(** Events the parser does not survive: a fatal error, and a literal whose data type is
    not registered. *)
Definition crashes (ev : event) : Prop :=
  match ev with
  | Fatal _ => True
  | Triple {| st_subject := Resource _; st_predicate := Resource _; st_object := o |} =>
      object_class rdf_registry o = None
  | _ => False
  end.

Section Crashes.

Context `{DS : DataStore St}.
Variable mktime : tm -> Z.
Variable now : Z.

Lemma triples_handler_message (self self' : RDFParser St) st :
  triples_handler mktime now rdf_registry self st = Some self' -> rp_message self' = rp_message self.
Proof.
  unfold triples_handler.
  destruct (st_subject st), (st_predicate st); try (by intros [= <-]).
  destruct (RDFURN_set _ _) as [u|]; mred; [|done].
  destruct (add_to_volume _ _) as [self1|] eqn:E; mred; [|done].
  assert (rp_message self1 = rp_message self) as Hm.
  { unfold add_to_volume in E. case_bool_decide; [by simplify_eq|].
    destruct (Cache_present _ _); [by simplify_eq|].
    destruct (Resolver_add _ _ _ _); [|done]. cbn [mbind option_bind] in E.
    destruct (Cache_put _ _ _); [|done]. by injection E as <-. }
  destruct (object_class _ _); mred; [|done]. destruct (RDFValue_parse _ _ _); mred; [|done].
  destruct (Resolver_add _ _ _ _); mred; [|done]. by intros [= <-].
Qed.

Lemma fatal_error_handler_overruns (self : RDFParser St) m :
  zlen (rp_message self) = BUFF_SIZE -> fatal_error_handler self m = None.
Proof.
  intros Hl. unfold fatal_error_handler.
  destruct (bput (rp_message self) 0 _) as [b|] eqn:E; [|done]. mred.
  assert (zlen b = BUFF_SIZE) as Hb.
  { by rewrite (bput_zlen _ _ _ _ E). }
  unfold bput. rewrite Hb. change (zlen [0]) with 1. by rewrite (proj2 (Z.leb_gt (BUFF_SIZE + 1) _)), andb_false_r by lia.
Qed.

Lemma handle_events_crash (self : RDFParser St) evs :
  zlen (rp_message self) = BUFF_SIZE -> Exists crashes evs ->
  handle_events mktime now rdf_registry self evs = None.
Proof.
  intros Hl He. revert self Hl. induction He as [ev evs Hc|ev evs _ IH]; intros self Hl.
  - destruct ev as [[[s| |] [p| |] o]|m|m]; try done; cbn [handle_events].
    + unfold triples_handler. cbn [st_subject st_predicate st_object crashes] in *.
      destruct (RDFURN_set _ _) as [u|]; mred; [|done].
      destruct (add_to_volume _ _) as [self1|]; mred; [|done]. by rewrite Hc.
    + by rewrite fatal_error_handler_overruns.
  - destruct ev as [st|m|m]; cbn [handle_events].
    + destruct (triples_handler _ _ _ self st) as [self1|] eqn:E; mred; [|done].
      apply IH. by rewrite (triples_handler_message _ _ _ E).
    + by apply IH.
    + by rewrite fatal_error_handler_overruns.
Qed.

End Crashes.

(** C26: loading a document.  For any document whose statements the handler can follow, on
    any data store and file and any RDF library that does not care how a document is cut
    into chunks, parsing succeeds and adds exactly the statements of the document to the
    store, in their order, and a link from the volume to every other subject, once; all
    that was there stays. *)
Theorem RDFParser_parse_loads `{DataStoreLaws St} `{FileLikeLaws F} `{RaptorLaws P}
    mktime now (resolver : Resolver St) (fd : F) format base (p : P) evs fuel :
  raptor_new_parser (default (lit "turtle") format) = Some p ->
  cstring base -> zlen base < BUFF_SIZE -> fl_ok fd ->
  let data := zdrop (fl_pos fd) (fl_contents fd) in
  (length data < fuel)%nat ->
  evs = (raptor_parse_chunk (raptor_start_parse p (Some base)) data true).1 ->
  Forall (statement_ok mktime now) evs ->
  ds_ok (rs_store resolver) -> 4 * zlen evs <= ds_room (rs_store resolver) ->
  exists self fd',
    RDFParser_parse mktime now rdf_registry fuel (RDFParser_Con resolver) fd format (Some base) =
      Some (1, None, self, fd') /\
    ds_ok (rs_store (rp_resolver self)) /\
    forall u a, ds_values (rs_store (rp_resolver self)) u a =
      ds_values (rs_store resolver) u a ++
      objects_of (document_triples mktime now (urn_text base) [] evs) u a.
Proof.
  intros Hp Hb Hbl Hfd data Hfuel Hevs Hall Hok Hroom. unfold RDFParser_parse. rewrite Hp.
  destruct (RDFURN_set_ok (rp_volume_urn (RDFParser_Con resolver)) base Hb Hbl) as (v & -> & _ & Hv).
  mred. set (self := with_rp_volume_urn (RDFParser_Con resolver) v).
  pose proof (read_loop_spec mktime now fuel self (raptor_start_parse p (Some base)) fd Hfd Hfuel)
    as Hl.
  cbn zeta in Hl. fold data in Hl. rewrite <- Hevs in Hl.
  destruct (handle_events_spec mktime now self (urn_text base) [] evs) as (self' & seen & E & Hok' & Hg).
  - split; cbn; [done|done|by apply Cache_Con_wf|done|]. intros s. by split; [|intros ?%elem_of_nil].
  - done.
  - done.
  - rewrite E in Hl. destruct Hl as [fd' ->]. mred. exists self', fd'.
    split_and!; [done|apply Hok'|apply Hg].
Qed.

(** The errors of the parser.  An unknown format is an error, with the parser as it was;
    after a fatal error of the RDF library, and for a literal of a data type that is not
    registered, the parser does not return: it writes behind its message, or follows a NULL
    pointer. *)
Theorem RDFParser_parse_errors `{DataStoreLaws St} `{FileLikeLaws F} `{RaptorLaws P}
    mktime now (self : RDFParser St) (fd : F) format base fuel :
  fl_ok fd -> (length (zdrop (fl_pos fd) (fl_contents fd)) < fuel)%nat ->
  zlen (rp_message self) = BUFF_SIZE ->
  (raptor_new_parser (default (lit "turtle") format) = None ->
     RDFParser_parse mktime now rdf_registry fuel self fd format base =
       Some (0, Some ERuntimeError, self, fd)) /\
  forall p, raptor_new_parser (default (lit "turtle") format) = Some p ->
    Exists crashes (raptor_parse_chunk (raptor_start_parse p base)
                      (zdrop (fl_pos fd) (fl_contents fd)) true).1 ->
    RDFParser_parse mktime now rdf_registry fuel self fd format base = None.
Proof.
  intros Hfd Hfuel Hm. unfold RDFParser_parse. split; [by intros ->|]. intros p -> Hc.
  destruct (RDFURN_set (rp_volume_urn self) base) as [v|]; [|done]. mred.
  pose proof (read_loop_spec mktime now fuel (with_rp_volume_urn self v)
    (raptor_start_parse p base) fd Hfd Hfuel) as Hl. cbn zeta in Hl.
  rewrite handle_events_crash in Hl by done. by rewrite Hl.
Qed.

(** ** An RDF library *)

(** Documents of words: the subject, the predicate, how to take the object, the object. *)
Fixpoint split_words (word : list Z) (l : list Z) : list (list Z) :=
  match l with
  | [] => [word]
  | c :: l => if c =? 32 then word :: split_words [] l else split_words (word ++ [c]) l
  end.

Fixpoint word_events (ws : list (list Z)) : list event :=
  match ws with
  | s :: p :: k :: o :: ws =>
      if bool_decide (k = lit "!") then [Fatal o] else
      Triple {| st_subject := Resource s; st_predicate := Resource p;
                st_object := if bool_decide (k = lit "u") then Resource o
                             else if bool_decide (k = lit "i")
                                  then Literal o (Some DATATYPE_XSD_INTEGER)
                             else if bool_decide (k = lit "?") then Literal o (Some k)
                             else Literal o None |} :: word_events ws
  | _ => []
  end.

(** The library keeps a document until its end. *)
#[export] Instance words_raptor : Raptor (list Z) := {
  raptor_new_parser format := if bool_decide (format = lit "turtle") then Some [] else None;
  raptor_start_parse p _ := p;
  raptor_parse_chunk p chunk is_end :=
    if (is_end : bool) then (word_events (split_words [] (p ++ chunk)), []) else ([], p ++ chunk)
}.

#[export] Instance words_raptor_laws : RaptorLaws (list Z).
Proof. split. intros p a b []; cbn; by rewrite ?app_assoc. Qed.

Definition words_file (text : list Z) : FileBackedObject :=
  {| fb_readptr := 0; fb_file := {| pf_data := text; pf_off := 0; pf_writable := true |} |}.

Definition words_document : list Z :=
  lit "aff4://vol/x size i 12 aff4://vol/x name s a aff4://vol stored u aff4://vol/x".

Lemma RDFParser_parse_loads_witness :
  exists self fd',
    RDFParser_parse (fun _ => 0) 0 rdf_registry 200 (RDFParser_Con res_new)
      (words_file words_document) None (Some (lit "aff4://vol")) = Some (1, None, self, fd') /\
    ds_ok (rs_store (rp_resolver self)) /\
    forall u a, ds_values (rs_store (rp_resolver self)) u a =
      ds_values (rs_store res_new) u a ++
      objects_of (document_triples (fun _ => 0) 0 (urn_text (lit "aff4://vol")) []
        (word_events (split_words [] words_document))) u a.
Proof.
  destruct res_new_ok as [Hok Hr].
  apply (RDFParser_parse_loads (fun _ => 0) 0 res_new (words_file words_document) None
    (lit "aff4://vol") ([] : list Z) (word_events (split_words [] words_document)) 200).
  - vm_compute. reflexivity.
  - apply (bool_decide_unpack _). vm_compute. exact I.
  - apply (bool_decide_unpack _). vm_compute. exact I.
  - split; vm_compute; congruence.
  - apply (bool_decide_unpack _). vm_compute. exact I.
  - vm_compute. reflexivity.
  - let l := eval vm_compute in (word_events (split_words [] words_document)) in
      change (word_events (split_words [] words_document)) with l.
    repeat (apply Forall_cons; split); [| | |apply Forall_nil; exact I]; cbn [statement_ok];
      (split; [apply (bool_decide_unpack _); vm_compute; exact I|]);
      (split; [vm_compute; reflexivity|]); eexists; vm_compute; reflexivity.
  - exact Hok.
  - change (zlen _) with 3. lia.
Defined.

Lemma RDFParser_parse_errors_witness :
  let parse format text := RDFParser_parse (fun _ => 0) 0 rdf_registry 200
    (RDFParser_Con res_new) (words_file text) format None in
  parse (Some (lit "n3")) [] =
    Some (0, Some ERuntimeError, RDFParser_Con res_new, words_file []) /\
  parse None (lit "a b s c a b ! oops") = None /\ parse None (lit "a b ? c") = None.
Proof.
  assert (zlen (rp_message (RDFParser_Con res_new)) = BUFF_SIZE) as Hl by (vm_compute; reflexivity).
  split_and!.
  - apply (RDFParser_parse_errors (fun _ => 0) 0 (RDFParser_Con res_new) (words_file [])
      (Some (lit "n3")) None 200); [split; vm_compute; congruence|apply Nat.ltb_lt; vm_compute; reflexivity|exact Hl|].
    vm_compute. reflexivity.
  - apply (RDFParser_parse_errors (fun _ => 0) 0 (RDFParser_Con res_new)
      (words_file (lit "a b s c a b ! oops")) None None 200) with (p := [] : list Z);
      [split; vm_compute; congruence|apply Nat.ltb_lt; vm_compute; reflexivity|exact Hl|vm_compute; reflexivity|].
    apply Exists_cons_tl, Exists_cons_hd. exact I.
  - apply (RDFParser_parse_errors (fun _ => 0) 0 (RDFParser_Con res_new)
      (words_file (lit "a b ? c")) None None 200) with (p := [] : list Z);
      [split; vm_compute; congruence|apply Nat.ltb_lt; vm_compute; reflexivity|exact Hl|vm_compute; reflexivity|].
    apply Exists_cons_hd. vm_compute. reflexivity.
Defined.

(** ** Text and values *)

(** Values with a text that stands for them: no negative integers, no bytes beyond ASCII in
    strings, whole seconds. *)
Definition text_ok (v : RDFValue) : Prop :=
  match v with
  | VInteger i => 0 <= i <= LLONG_MAX
  | VDatetime i => 0 <= i < 253402300800000000 /\ i mod 1000000 = 0
  | VString s => exists t, s = string_of t /\ ascii_string t /\ 3 * zlen t <= BUFF_SIZE - 10
  | VURN u => exists n, urn_ok n u /\ n + 9 < BUFF_SIZE
  end.

(** C31: values with a faithful text survive RDF.  On a machine whose clock is UTC, for an
    integer that is not negative, a date between 1970 and 9999 in whole seconds, a string of
    ASCII characters that fits its buffer with every character escaped, or a URN in normal
    form that fits its buffer ([text_ok]), the object the value is written as is read back as
    the value: the class is found from the data type, and the text gives the same number,
    date, string or URN.  Negative integers and the microseconds of dates are not kept. *)
Theorem object_roundtrip mktime now v :
  (forall s, 0 <= s < 253402300800 -> mktime (gmtime s) = s) -> text_ok v ->
  exists o w, object_term v = Some o /\ object_value mktime now o = Some w /\ same_value v w.
Proof.
  intros Hmk Hv. unfold object_value.
  pose proof (fun c => rdf_registry_borrow c : Cache_borrow rdf_registry (dataType c ++ [0]) = _) as Hc.
  destruct v as [i|i|s|u]; cbn [text_ok] in Hv.
  - eexists _, _. split; [done|]. cbn [object_class object_text].
    rewrite bool_decide_false by done. rewrite Hc. mred. split; [done|].
    cbn [RDFValue_parse construct same_value]. f_equal. symmetry.
    rewrite XSDInteger_text by (unfold LLONG_MIN; lia). by rewrite (proj2 (Z.ltb_ge i 0)) by lia.
  - eexists _, _. split; [done|]. cbn [object_class object_text].
    rewrite bool_decide_false by done. rewrite Hc. mred. split; [done|].
    cbn [RDFValue_parse construct same_value]. f_equal.
    rewrite (serialise_parse _ 0); [|intros; rewrite Hmk; lia|lia|lia]. dlia.
  - destruct Hv as (t & -> & Ha & Hl). destruct (XSDString_text t Ha Hl) as (e & He & Hp).
    unfold object_term. cbn [RDFValue_serialise]. rewrite He. mred.
    eexists _, _. split; [done|]. cbn [object_class object_text RDFValue_parse construct].
    rewrite bool_decide_true by done. mred. cbn [RDFValue_parse construct]. rewrite Hp. by split.
  - destruct Hv as (n & Hok & Hn).
    destruct (RDFURN_set_value n u RDFURN_Con Hok Hn) as (u' & Hs & Hu & _).
    eexists _, _. split; [done|]. cbn [object_class object_text RDFValue_parse construct].
    mred. cbn [RDFValue_parse construct]. unfold RDFURN_parse, RDFURN_serialise. rewrite Hs. by split.
Qed.

Lemma object_roundtrip_witness :
  exists o w, object_term (VDatetime 1300000000000000) = Some o /\
    object_value (fun t => default 0 (rep_timegm t)) 0 o = Some w /\
    same_value (VDatetime 1300000000000000) w.
Proof.
  apply object_roundtrip; [|split; [lia|vm_compute; reflexivity]].
  intros s Hs. rewrite timegm_inverts by lia. reflexivity.
Defined.

(** ** Writing the statements about a URN *)

Section Writing.

Context `{DSL : DataStoreLaws St}.

(** The values kept under an attribute, with their classes. *)
Definition stored_values (self : Resolver St) (urn : RDFURN) (attribute : list Z)
  : option (list (rdf_class * RDFValue)) :=
  mapM (decode_object rdf_registry) (Some <$> ds_values (rs_store self) (urn_value urn) attribute).

(** One statement, with the first value, when an attribute has more than one. *)
Definition written (urn : RDFURN) (attribute : list Z) (cvs : list (rdf_class * RDFValue))
  : option (list statement) :=
  match cvs with
  | (_, v) :: _ :: _ =>
      o ← object_term v;
      Some [{| st_subject := Resource (urn_value urn); st_predicate := Resource attribute;
               st_object := o |}]
  | _ => Some []
  end.

Lemma serialize_values_linked urn attribute cvs items :
  Forall (fun cv => inits_list cv.1 = true) cvs -> linked cvs items ->
  serialize_values urn attribute items = written urn attribute cvs.
Proof.
  intros Hi Hl. destruct cvs as [|cv cvs].
  - destruct Hl as [Hl _]. destruct items; [done|discriminate Hl].
  - pose proof (linked_chain _ _ Hl ltac:(done)) as Hc.
    apply Forall_cons in Hi as [Hi _]. destruct Hl as [Hl _].
    destruct items as [|x items]; [discriminate Hl|].
    injection Hl as Hx _. unfold serialize_values. rewrite Hc.
    destruct cvs as [|cv' cvs]; cbn [first_and_last].
    + rewrite Hi. mred. by destruct cv.
    + destruct (last (cv :: cv' :: cvs)) eqn:E; [|by apply last_None in E].
      cbn [mbind option_bind tail mapM]. unfold written. rewrite Hx.
      destruct cv as [c v]. cbn [snd]. by destruct (object_term v).
Qed.

Lemma serialize_loop_spec classes (self : Resolver St) urn stss :
  ds_ok (rs_store self) -> 2 * zlen classes <= ds_room (rs_store self) ->
  Forall2 (fun c sts => exists cvs, stored_values self urn (dataType c) = Some cvs /\
    Forall (fun cv => inits_list cv.1 = true) cvs /\ written urn (dataType c) cvs = Some sts)
    classes stss ->
  exists self', serialize_loop rdf_registry classes self urn = Some (mjoin stss, self') /\
    ds_ok (rs_store self') /\
    forall u a, ds_values (rs_store self') u a = ds_values (rs_store self) u a.
Proof.
  intros Hok Hroom Hall. revert self Hok Hroom Hall. revert stss.
  induction classes as [|c classes IH]; intros stss self Hok Hroom Hall.
  - apply Forall2_nil_inv_l in Hall as ->. by exists self.
  - apply Forall2_cons_inv_l in Hall as (sts & stss' & (cvs & Hcvs & Hi & Hw) & Hall & ->).
    rewrite zlen_cons in Hroom. pose proof (zlen_nonneg classes). cbn [serialize_loop].
    pose proof (Resolver_resolve_spec rdf_registry self urn (dataType c) cvs Hok ltac:(lia) Hcvs) as Hr.
    destruct (Resolver_resolve rdf_registry self urn (dataType c)) as [[items self1]|].
    2:{ exfalso. destruct cvs as [|cv cvs]; [done|]. apply Forall_cons in Hi as [_ Hi].
        cbn [tail] in Hr. apply (Forall_impl _ (fun cv => Is_true (inits_list cv.1))) in Hi;
          [|intros cv' ->; exact I].
        apply forallb_True in Hi. by rewrite Hr in Hi. }
    destruct Hr as (_ & Hl & Hok1 & Hr1 & Hv1). mred.
    rewrite (serialize_values_linked _ _ _ _ Hi Hl), Hw. mred.
    assert (forall u a, ds_values (rs_store self1) u a = ds_values (rs_store self) u a) as Hsame.
    { intros u a. rewrite Hv1. by destruct (decide _) as [[-> ->]|]. }
    destruct (IH stss' self1 Hok1) as (self2 & -> & Hok2 & Hv2); [lia| |].
    { eapply Forall2_impl; [exact Hall|]. intros c' sts' (cvs' & Hc & Hrest).
      exists cvs'. split; [|done]. unfold stored_values. by rewrite Hsame. }
    mred. exists self2. split_and!; [done|done|]. intros u a. by rewrite Hv2, Hsame.
Qed.

End Writing.

(** Writing a URN loses nearly everything.  The serialiser takes the names of the data
    types for the attributes to write, so what the store holds under any other attribute is
    not written; and of the values under a data type it writes nothing when there is one,
    and the first of them once when there are more.  The store is unchanged. *)
Theorem RDFSerializer_serialize_urn_written `{DataStoreLaws St} (self : Resolver St) urn
    (cvs : rdf_class -> list (rdf_class * RDFValue)) (sts : rdf_class -> list statement) :
  ds_ok (rs_store self) -> 8 <= ds_room (rs_store self) ->
  (forall c, stored_values self urn (dataType c) = Some (cvs c) /\
     Forall (fun cv => inits_list cv.1 = true) (cvs c) /\
     written urn (dataType c) (cvs c) = Some (sts c)) ->
  exists self', RDFSerializer_serialize_urn rdf_registry self urn =
      Some (sts CInteger ++ sts CString ++ sts CURN ++ sts CDatetime, self') /\
    forall u a, ds_values (rs_store self') u a = ds_values (rs_store self) u a.
Proof.
  intros Hok Hroom Hall. unfold RDFSerializer_serialize_urn.
  assert (registered_classes rdf_registry = Some [CInteger; CString; CURN; CDatetime]) as ->
    by (vm_compute; reflexivity). mred.
  destruct (serialize_loop_spec [CInteger; CString; CURN; CDatetime] self urn
    (sts <$> [CInteger; CString; CURN; CDatetime]) Hok) as (self' & E & _ & Hv).
  - change (zlen _) with 4. lia.
  - repeat (apply Forall2_cons; split); try apply Forall2_nil; try done;
      match goal with |- exists cvs0, stored_values _ _ (dataType ?c) = _ /\ _ => by exists (cvs c) end.
  - exists self'. split; [|done]. rewrite E. cbn [fmap list_fmap mjoin list_join].
    by rewrite app_nil_r.
Qed.

(** A store with three values, two of them under a data type. *)
Lemma RDFSerializer_serialize_urn_written_witness :
  exists s1 s2 s3 s4,
    Resolver_add res_new res_urn DATATYPE_XSD_INTEGER (VInteger 1) = Some s1 /\
    Resolver_add s1 res_urn DATATYPE_XSD_INTEGER (VInteger 2) = Some s2 /\
    Resolver_add s2 res_urn (lit "size") (VInteger 3) = Some s3 /\
    RDFSerializer_serialize_urn rdf_registry s3 res_urn =
      Some ([{| st_subject := Resource (urn_value res_urn);
                st_predicate := Resource DATATYPE_XSD_INTEGER;
                st_object := Literal (lit "1") (Some DATATYPE_XSD_INTEGER) |}], s4).
Proof.
  destruct res_new_ok as [Hok Hr].
  destruct (Resolver_add_spec res_new res_urn DATATYPE_XSD_INTEGER (VInteger 1) Hok)
    as (s1 & H1 & O1 & R1 & V1); [lia|].
  destruct (Resolver_add_spec s1 res_urn DATATYPE_XSD_INTEGER (VInteger 2) O1)
    as (s2 & H2 & O2 & R2 & V2); [lia|].
  destruct (Resolver_add_spec s2 res_urn (lit "size") (VInteger 3) O2)
    as (s3 & H3 & O3 & R3 & V3); [lia|].
  destruct (RDFSerializer_serialize_urn_written s3 res_urn
    (fun c => if decide (c = CInteger) then [(CInteger, VInteger 1); (CInteger, VInteger 2)] else [])
    (fun c => if decide (c = CInteger) then
       [{| st_subject := Resource (urn_value res_urn);
           st_predicate := Resource DATATYPE_XSD_INTEGER;
           st_object := Literal (lit "1") (Some DATATYPE_XSD_INTEGER) |}] else []) O3)
    as (s4 & H4 & _); [lia| |].
  - intros c. assert (ds_values (rs_store s3) (urn_value res_urn) (dataType c) =
      if decide (c = CInteger) then [RDFValue_encode (VInteger 1); RDFValue_encode (VInteger 2)]
      else []) as Hv.
    { rewrite V3, decide_False, V2 by (destruct c; intros [_ [=]]).
      destruct c; [rewrite !decide_True, V1, decide_True by done; done|..];
        (rewrite !decide_False, V1, decide_False by (done || intros [_ [=]])); done. }
    unfold stored_values. rewrite Hv.
    destruct c; (split; [timeout 10 vm_compute; reflexivity|]);
      (split; [repeat constructor|timeout 10 vm_compute; reflexivity]).
  - by exists s1, s2, s3, s4.
Defined.
