(* ===== verification/ZipSegment.v ===== *)
(** Segments of a ZIP volume (lib/aff4_zip.c, class [ZipSegment]): a segment opened
    for writing compresses what it is given into a memory buffer and appends a
    local header, its name, the buffer and a data descriptor to the volume's backing
    store when it is closed; a segment opened for reading is decompressed as a whole
    on the first read.

    The backing store is any file-like object; the container the resolver hands out
    is given as [Some] backing store, or [None] when it cannot be had.  [None] as the
    result of an operation means that the code would access memory out of bounds. *)

From S2P Require Import Prelude Talloc StringIO Misc Url Rdf File ZipFormat.

(** [relative_name] of the URN, escaped: the block of memory that holds the name, of
    which the C string is a prefix. *)
Definition segment_name_from_URN (urn container : RDFURN) : option (list Z) :=
  let name := RDFURN_relative_name urn container in
  e ← escape_filename (name ++ [0]) (zlen name);
  Some (e ++ [0] ++ replicate (Z.to_nat (3 * zlen name - zlen e)) 0).

Section ZipSegment.

Context `{FR : Foreign} `{FL : FileLike F}.

(** The bytes of uninitialised memory. *)
Variable junk : nat -> Z.

Record ZipSegment := {
  zs_cd : CDFileHeader;
  zs_urn : RDFURN;
  zs_write : bool;
  zs_compression_method : Z;
  zs_timestamp : Z;
  zs_strm : option z_stream;
  zs_next_in : list Z;
  zs_offset_of_file_header : Z;
  zs_filename : XSDString;
  zs_buffer : option StringIO;
  zs_readptr : Z
}.

(** Field updates. *)
Definition with_cd (s : ZipSegment) (cd : CDFileHeader) : ZipSegment :=
  {| zs_cd := cd; zs_urn := zs_urn s; zs_write := zs_write s;
     zs_compression_method := zs_compression_method s; zs_timestamp := zs_timestamp s;
     zs_strm := zs_strm s; zs_next_in := zs_next_in s;
     zs_offset_of_file_header := zs_offset_of_file_header s; zs_filename := zs_filename s;
     zs_buffer := zs_buffer s; zs_readptr := zs_readptr s |}.

Definition with_seg_buffer (s : ZipSegment) (b : option StringIO) : ZipSegment :=
  {| zs_cd := zs_cd s; zs_urn := zs_urn s; zs_write := zs_write s;
     zs_compression_method := zs_compression_method s; zs_timestamp := zs_timestamp s;
     zs_strm := zs_strm s; zs_next_in := zs_next_in s;
     zs_offset_of_file_header := zs_offset_of_file_header s; zs_filename := zs_filename s;
     zs_buffer := b; zs_readptr := zs_readptr s |}.

Definition with_strm (s : ZipSegment) (strm : option z_stream) (next_in : list Z)
  : ZipSegment :=
  {| zs_cd := zs_cd s; zs_urn := zs_urn s; zs_write := zs_write s;
     zs_compression_method := zs_compression_method s; zs_timestamp := zs_timestamp s;
     zs_strm := strm; zs_next_in := next_in;
     zs_offset_of_file_header := zs_offset_of_file_header s; zs_filename := zs_filename s;
     zs_buffer := zs_buffer s; zs_readptr := zs_readptr s |}.

Definition with_filename (s : ZipSegment) (name : XSDString) : ZipSegment :=
  {| zs_cd := zs_cd s; zs_urn := zs_urn s; zs_write := zs_write s;
     zs_compression_method := zs_compression_method s; zs_timestamp := zs_timestamp s;
     zs_strm := zs_strm s; zs_next_in := zs_next_in s;
     zs_offset_of_file_header := zs_offset_of_file_header s; zs_filename := name;
     zs_buffer := zs_buffer s; zs_readptr := zs_readptr s |}.

Definition with_offset (s : ZipSegment) (off : Z) : ZipSegment :=
  {| zs_cd := zs_cd s; zs_urn := zs_urn s; zs_write := zs_write s;
     zs_compression_method := zs_compression_method s; zs_timestamp := zs_timestamp s;
     zs_strm := zs_strm s; zs_next_in := zs_next_in s;
     zs_offset_of_file_header := off; zs_filename := zs_filename s;
     zs_buffer := zs_buffer s; zs_readptr := zs_readptr s |}.

Definition with_readptr (s : ZipSegment) (p : Z) : ZipSegment :=
  {| zs_cd := zs_cd s; zs_urn := zs_urn s; zs_write := zs_write s;
     zs_compression_method := zs_compression_method s; zs_timestamp := zs_timestamp s;
     zs_strm := zs_strm s; zs_next_in := zs_next_in s;
     zs_offset_of_file_header := zs_offset_of_file_header s; zs_filename := zs_filename s;
     zs_buffer := zs_buffer s; zs_readptr := p |}.

(** The counters of the central directory header. *)
Definition cd_count (c : CDFileHeader) (method crc csize fsize : Z) : CDFileHeader :=
  {| cd_magic := cd_magic c; version_made_by := version_made_by c;
     version_needed := version_needed c; cd_flags := cd_flags c;
     cd_compression_method := method; dostime := dostime c; dosdate := dosdate c;
     cd_crc32 := crc; compress_size := csize; file_size := fsize;
     file_name_length := file_name_length c; extra_field_len := extra_field_len c;
     file_comment_length := file_comment_length c; disk_number_start := disk_number_start c;
     internal_file_attr := internal_file_attr c; external_file_attr := external_file_attr c;
     relative_offset_local_header := relative_offset_local_header c |}.

(** [now] is the local time. *)
Definition ZipSegment_Con (now : tm) (uri : option RDFURN) (write : bool)
  : option ZipSegment :=
  urn ← AFFObject_Con uri;
  Some {| zs_cd :=
            {| cd_magic := CD_MAGIC; version_made_by := 791; version_needed := 20;
               cd_flags := 8; cd_compression_method := 0; dostime := dostime_of now;
               dosdate := dosdate_of now; cd_crc32 := 0; compress_size := 0;
               file_size := 0; file_name_length := 0; extra_field_len := 0;
               file_comment_length := 0; disk_number_start := 0; internal_file_attr := 0;
               external_file_attr := u32 (Z.shiftl 420 16);
               relative_offset_local_header := 0 |};
          zs_urn := urn; zs_write := write; zs_compression_method := 0;
          zs_timestamp := 0; zs_strm := None; zs_next_in := [];
          zs_offset_of_file_header := 0; zs_filename := new_XSDString;
          zs_buffer := None; zs_readptr := 0 |}.

(** [container]: whether it was set.  The error raised, if any. *)
Definition ZipSegment_finish (uuid : list Z) (container : bool) (self : ZipSegment)
  : option (option aff4_error * ZipSegment) :=
  urn ← AFFObject_finish uuid (zs_urn self);
  let self :=
    {| zs_cd := zs_cd self; zs_urn := urn; zs_write := zs_write self;
       zs_compression_method := zs_compression_method self;
       zs_timestamp := zs_timestamp self; zs_strm := zs_strm self;
       zs_next_in := zs_next_in self;
       zs_offset_of_file_header := zs_offset_of_file_header self;
       zs_filename := zs_filename self; zs_buffer := Some StringIO_constructor;
       zs_readptr := zs_readptr self |} in
  if negb container then Some (Some EProgrammingError, self)
  else
    let c := zs_cd self in
    let self := with_cd self (cd_count c (u16 (zs_compression_method self)) (cd_crc32 c)
                                (compress_size c) (file_size c)) in
    if zs_write self then
      if zs_compression_method self =? ZIP_DEFLATE then
        match deflateInit2 with
        | Some s => Some (None, with_strm self (Some s) [])
        | None => Some (Some ERuntimeError, with_strm self None [])
        end
      else if zs_compression_method self =? ZIP_STORED then Some (None, self)
      else Some (Some ERuntimeError, self)
    else Some (None, self).

(** [deflate] on a stream that was not initialised is an error that produces
    nothing. *)
Definition deflate_strm (strm : option z_stream) (input : list Z) (n : Z) (fin : bool)
  : option z_stream * list Z * list Z :=
  match strm with
  | Some s => let '(s', rest, out) := deflate s input n fin in (Some s', rest, out)
  | None => (None, input, [])
  end.

(** The loop that calls [deflate] until the output buffer is not filled.  [checked]:
    the result of the buffer's [write] is tested.  The first component says that the
    test failed; [result] is the number of bytes written. *)
Fixpoint deflate_loop (fuel : nat) (checked fin : bool) (strm : option z_stream)
    (next_in : list Z) (buffer : StringIO) (result : Z)
  : option (bool * option z_stream * list Z * StringIO * Z) :=
  match fuel with
  | O => None
  | S fuel' =>
      let '(strm, next_in, out) := deflate_strm strm next_in BUFF_SIZE fin in
      '(ret, buffer) ← StringIO_write junk buffer out;
      if checked && (ret <? 0) then Some (true, strm, next_in, buffer, result)
      else if zlen out =? BUFF_SIZE
           then deflate_loop fuel' checked fin strm next_in buffer (i32 (result + ret))
           else Some (false, strm, next_in, buffer, i32 (result + ret))
  end.

(** Every turn but the last produces [BUFF_SIZE] bytes of output. *)
Definition deflate_fuel (strm : option z_stream) (next_in : list Z) : nat :=
  match strm with Some s => S (deflate_pending s next_in) | None => 1%nat end.

(** The result, the error raised, the segment. *)
Definition ZipSegment_write (self : ZipSegment) (data : list Z)
  : option (Z * option aff4_error * ZipSegment) :=
  if zlen data =? 0 then Some (0, None, self)
  else match zs_buffer self with
  | None => Some (-1, Some EIOError, self)
  | Some buffer =>
      let c := zs_cd self in
      let crc := u32 (crc32 (cd_crc32 c) data) in
      let finish_write self buffer result :=
        Some (result, None,
              with_seg_buffer
                (with_cd self (cd_count c (cd_compression_method c) crc
                                 (u32 (compress_size c + result))
                                 (u32 (file_size c + zlen data))))
                (Some buffer)) in
      if cd_compression_method c =? ZIP_DEFLATE then
        '(failed, strm, next_in, buffer, result) ←
          deflate_loop (deflate_fuel (zs_strm self) data) true false (zs_strm self) data
            buffer 0;
        let self := with_strm self strm next_in in
        if failed : bool then
          Some (-1, Some EIOError,
                with_seg_buffer (with_cd self (cd_count c (cd_compression_method c) crc
                                             (compress_size c) (file_size c)))
                  (Some buffer))
        else finish_write self buffer result
      else
        '(result, buffer) ← StringIO_write junk buffer data;
        finish_write self buffer result
  end.

(** A call of [write] whose result is ignored. *)
Definition fl_put (f : F) (bytes : list Z) : F := (fl_write f bytes).2.

Definition local_header (c : CDFileHeader) (name_length : Z) : ZipFileHeader :=
  {| fh_magic := FILE_MAGIC; fh_version := 20; fh_flags := 8;
     fh_compression_method := cd_compression_method c; lastmodtime := dostime c;
     lastmoddate := dosdate c; fh_crc32 := 0; fh_compress_size := 0; fh_file_size := 0;
     fh_file_name_length := u16 name_length; fh_extra_field_len := 0 |}.

(** The finaliser of the compressor in [ZipSegment_close]. *)
Definition close_compressor (self : ZipSegment) (buffer : StringIO)
  : option (ZipSegment * StringIO) :=
  let c := zs_cd self in
  if cd_compression_method c =? ZIP_DEFLATE then
    '(_, strm, next_in, buffer, result) ←
      deflate_loop (deflate_fuel (zs_strm self) (zs_next_in self)) false true
        (zs_strm self) (zs_next_in self) buffer 0;
    Some (with_strm
            (with_cd self (cd_count c (cd_compression_method c) (cd_crc32 c)
                             (u32 (compress_size c + result)) (file_size c)))
            None next_in, buffer)
  else Some (self, buffer).

(** [container]: the URN of the volume; [zip]: the backing store of the volume the
    resolver returns. *)
Definition ZipSegment_close (self : ZipSegment) (container : RDFURN) (zip : option F)
  : option (option aff4_error * ZipSegment * option F) :=
  if negb (zs_write self) then Some (None, self, zip)
  else match zip with
  | None => Some (Some ERuntimeError, self, zip)
  | Some store =>
      let '(off, store) := fl_seek store 0 SEEK_END in
      let self := with_offset self off in
      buffer ← zs_buffer self;
      '(self, buffer) ← close_compressor self buffer;
      block ← segment_name_from_URN (zs_urn self) container;
      name ← (match XSDString_set (zs_filename self) block
                      (Z.of_nat (strlen_nat block) + 1) with
              | inr (Some n) => Some n
              | inr None => None
              | inl _ => Some (zs_filename self)
              end);
      let self := with_filename self name in
      let c := zs_cd self in
      let store := fl_put store (pack_fields fh_widths (fh_fields (local_header c (xs_length name)))) in
      value ← xs_value name;
      let store := fl_put store (ztake (xs_length name) value) in
      content ← mem_read (sio_data buffer) 0 (sio_size buffer);
      let store := fl_put store content in
      let store := fl_put store (le 4 DESCRIPTOR_MAGIC) in
      let store := fl_put store (le 4 (cd_crc32 c)) in
      let store := fl_put store (le 4 (compress_size c)) in
      let store := fl_put store (le 4 (file_size c)) in
      Some (None, with_seg_buffer self None, Some store)
  end.

(** The bytes of a local variable of [n] bytes into which [bytes] were read. *)
Definition read_local (n : Z) (bytes : list Z) : list Z :=
  zover 0 bytes (map junk (seq 0 (Z.to_nat n))).

(** The data part of [decompress_segment], with the backing store positioned at the
    data: whether it succeeded, the error, the buffer, the backing store. *)
Definition decompress_data (cd : CDFileHeader) (method : Z) (store : F)
  : option (bool * option aff4_error * StringIO * F) :=
  match StringIO_seek junk StringIO_constructor (file_size cd) SEEK_SET with
  | inl _ => None
  | inr (_, b) =>
      let filled mem n := {| sio_size := sio_size b; sio_alloc_size := sio_alloc_size b;
                             sio_readptr := n; sio_data := Some mem |} in
      if method =? ZIP_STORED then
        let '(bytes, store) := fl_read store (sio_size b) in
        mem ← mem_write (sio_data b) 0 bytes;
        Some (true, None, filled mem (zlen bytes), store)
      else if method =? ZIP_DEFLATE then
        _ ← talloc_size (compress_size cd);
        let '(bytes, store) := fl_read store (compress_size cd) in
        let '(stream_end, out) := inflate bytes (sio_size b) in
        mem ← mem_write (sio_data b) 0 out;
        if stream_end && (zlen out =? file_size cd)
        then Some (true, None, filled mem (sio_readptr b), store)
        else Some (false, Some ERuntimeError, filled mem (sio_readptr b), store)
      else Some (false, Some ERuntimeError, b, store)
  end.

(** Whether it succeeded, the error raised, the segment and the backing store. *)
Definition decompress_segment (self : ZipSegment) (zip : option F)
  : option (bool * option aff4_error * ZipSegment * option F) :=
  match zip with
  | None => Some (false, Some EIOError, self, zip)
  | Some store =>
      let '(_, store) := fl_seek store (zs_offset_of_file_header self) SEEK_SET in
      let '(bytes, store) := fl_read store (pack_size fh_widths) in
      let h := fh_of (unpack_fields fh_widths (read_local (pack_size fh_widths) bytes)) in
      if negb (fh_file_name_length h =? file_name_length (zs_cd self))
      then Some (false, Some EIOError, self, Some store)
      else
        let '(filename, store) := fl_read store (Z.min BUFF_SIZE (fh_file_name_length h)) in
        if negb (zlen filename =? fh_file_name_length h)
        then Some (false, None, self, Some store)
        else
          let n := xs_length (zs_filename self) in
          let value := default [] (xs_value (zs_filename self)) in
          if (BUFF_SIZE <? n) || (zlen value <? n) then None
          else if negb (bool_decide (ztake n value =
                                     ztake n (read_local BUFF_SIZE filename)))
          then Some (false, Some EIOError, self, Some store)
          else
            '(ok, err, b, store) ←
              decompress_data (zs_cd self) (fh_compression_method h) store;
            Some (ok, err, with_seg_buffer self (Some b), Some store)
  end.

(** [None] as the first component is the result -1. *)
Definition ZipSegment_read (self : ZipSegment) (zip : option F) (length : Z)
  : option (option (list Z) * ZipSegment * option F) :=
  '(ok, self, zip) ←
    match zs_buffer self with
    | Some _ => Some (true, self, zip)
    | None => '(ok, _, self, zip) ← decompress_segment self zip; Some (ok, self, zip)
    end;
  if negb ok then Some (None, self, zip)
  else
    b ← zs_buffer self;
    match StringIO_seek junk b (zs_readptr self) SEEK_SET with
    | inl _ => None
    | inr (_, b) =>
        '(bytes, b) ← StringIO_read b length;
        Some (Some bytes, with_seg_buffer self (Some b), zip)
    end.

End ZipSegment.

Arguments ZipSegment {FR}.

(** * Lemmas *)

(** ** Buffers and files positioned at their end *)

Definition sio_end (s : StringIO) (bytes : list Z) : Prop :=
  sio_wf s /\ sio_bytes s = bytes /\ sio_readptr s = zlen bytes.

Lemma sio_end_new : sio_end StringIO_constructor [].
Proof. split_and!; [apply sio_constructor_wf|apply sio_constructor_bytes|done]. Qed.

Lemma sio_end_write junk s bytes d :
  sio_end s bytes -> 2 * (zlen bytes + zlen d) < MAX_TALLOC_SIZE ->
  exists s', StringIO_write junk s d = Some (zlen d, s') /\ sio_end s' (bytes ++ d).
Proof.
  intros (Hwf & Hb & Hr) Hm.
  destruct (sio_write_spec junk s d Hwf) as (s' & Hw & Hwf' & Habs); [by rewrite Hr|].
  exists s'. split; [done|]. unfold sio_abs, bs_write in Habs. simpl in Habs.
  injection Habs as Hb' Hr'. rewrite Hb, Hr, zover_end in Hb' by done.
  split_and!; [done|done|]. by rewrite Hr', Hr, zlen_app.
Qed.

Lemma sio_end_read s bytes :
  sio_end s bytes -> sio_size s = zlen bytes /\
  mem_read (sio_data s) 0 (zlen bytes) = Some bytes.
Proof.
  intros (Hwf & Hb & Hr). pose proof (sio_wf_bytes_len s Hwf) as Hl. rewrite Hb in Hl.
  split; [done|]. destruct Hwf as (tc & Hd & Hok & H). rewrite Hd.
  unfold sio_bytes in Hb. rewrite Hd in Hb. pose proof (zlen_nonneg bytes).
  assert (zlen bytes <= zlen (tc_mem tc)) by (rewrite <- Hb; zlen_lia).
  rewrite mem_read_ok by lia. f_equal. unfold zread. rewrite zdrop_0 by lia. by rewrite Hl.
Qed.

Lemma sio_end_bound s bytes : sio_end s bytes -> zlen bytes < MAX_TALLOC_SIZE.
Proof.
  intros He. destruct (sio_end_read s bytes He) as [Hs _].
  destruct He as ((tc & _ & _ & _ & H) & _). lia.
Qed.

Section FileEnd.

Context `{FLL : FileLikeLaws F}.

Definition fl_end (f : F) (c : list Z) : Prop := fl_at f c (zlen c).

Lemma fl_put_end f c b : fl_end f c -> fl_end (fl_put f b) (c ++ b).
Proof.
  intros (Hok & Hc & Hp). unfold fl_put.
  destruct (fl_write_law f b Hok) as (f' & -> & Hok' & Hc' & Hp'); [rewrite Hp, Hc; lia|].
  simpl. split_and!; [done| |].
  - by rewrite Hc', Hc, zover_end.
  - by rewrite Hp', Hp, zlen_app.
Qed.

Lemma fl_seek_end f : fl_ok f ->
  exists f', fl_seek f 0 SEEK_END = (zlen (fl_contents f), f') /\ fl_end f' (fl_contents f).
Proof.
  intros Hok. destruct (fl_seek_end_law f 0 Hok) as (f' & Hs & Hat). exists f'.
  pose proof (zlen_nonneg (fl_contents f)).
  rewrite Z.max_r, Z.add_0_r in Hs, Hat by lia. done.
Qed.

(** Reading [x] at the place where it is. *)
Lemma fl_read_at f n (pre x post : list Z) :
  fl_at f (pre ++ x ++ post) (zlen pre) -> n = zlen x ->
  exists f', fl_read f n = (x, f') /\ fl_at f' (pre ++ x ++ post) (zlen (pre ++ x)).
Proof.
  intros (Hok & Hc & Hp) ->. pose proof (zlen_nonneg x).
  destruct (fl_read_law f (zlen x) Hok) as (f' & Hr & Hat); [done|].
  rewrite Hp, Hc, zread_app_mid in Hr, Hat by done. exists f'. split; [done|].
  by rewrite zlen_app.
Qed.

End FileEnd.

(** ** Names *)

(** A name the volume stores as it is. *)
Definition name_ok (name : list Z) : Prop :=
  0 < zlen name /\ 3 * zlen name <= BUFF_SIZE - 10 /\
  Forall (fun b => b < 128 /\ legal_char b = true) name.

#[export] Instance name_ok_dec name : Decision (name_ok name).
Proof. unfold name_ok. apply _. Defined.

Lemma name_ok_ascii name : name_ok name -> ascii_string name.
Proof.
  intros (_ & _ & H). eapply Forall_impl; [exact H|]. intros b [Hb Hl].
  unfold legal_char in Hl. destruct (Z.leb_spec 32 b); [simpl; lia|done].
Qed.

Lemma name_ok_cstring name : name_ok name -> cstring name.
Proof.
  intros H%name_ok_ascii. eapply Forall_impl; [exact H|]. simpl. lia.
Qed.

Lemma escape_legal name : name_ok name -> flat_map escape_char name = name.
Proof.
  intros (_ & _ & H). induction H as [|b name [Hb Hl] H IH]; [done|].
  change (flat_map escape_char (b :: name)) with (escape_char b ++ flat_map escape_char name).
  unfold escape_char at 1. by rewrite Hl, IH.
Qed.

Lemma segment_name_legal urn container :
  name_ok (RDFURN_relative_name urn container) ->
  segment_name_from_URN urn container =
    Some (RDFURN_relative_name urn container ++ 0 ::
          replicate (Z.to_nat (2 * zlen (RDFURN_relative_name urn container))) 0).
Proof.
  set (name := RDFURN_relative_name urn container). intros Hn.
  unfold segment_name_from_URN. fold name.
  rewrite escape_filename_text; [|by apply name_ok_ascii|apply Hn|by right].
  mred. rewrite escape_legal by done. by replace (3 * zlen name - zlen name) with
    (2 * zlen name) by lia.
Qed.

(** The string a segment's name is set to: its length counts the NUL. *)
Definition name_string (name : list Z) : XSDString :=
  {| xs_value := Some (name ++ [0; 0]); xs_length := zlen name + 1 |}.

Lemma XSDString_set_name old name :
  name_ok name ->
  XSDString_set old (name ++ 0 :: replicate (Z.to_nat (2 * zlen name)) 0) (zlen name + 1)
  = inr (Some (name_string name)).
Proof.
  intros (Hp & _). unfold XSDString_set. destruct (Z.ltb_spec (zlen name + 1) 0); [lia|].
  destruct (Z.leb_spec (zlen name + 1 + 1)
    (zlen (name ++ 0 :: replicate (Z.to_nat (2 * zlen name)) 0))) as [_|H'].
  - do 2 f_equal. unfold name_string. f_equal. f_equal.
    rewrite (cons_middle 0 name), app_assoc.
    rewrite ztake_app_eq, <- app_assoc; [done|]. by rewrite zlen_app.
  - rewrite zlen_app, zlen_cons, zlen_replicate in H'. lia.
Qed.

Lemma cstr_name name post : name_ok name -> cstr (name ++ 0 :: post) = name.
Proof. intros H. apply cstr_app_nul. by apply name_ok_cstring. Qed.

Lemma strlen_name name post : name_ok name -> Z.of_nat (strlen_nat (name ++ 0 :: post)) = zlen name.
Proof. intros H. by rewrite strlen_cstring by by apply name_ok_cstring. Qed.

(** ** The compressor's loop *)

Section Laws.

Context `{FRL : ForeignLaws} `{FLL : FileLikeLaws F}.
Variable junk : nat -> Z.

(** What a complete stream decompresses to. *)
Definition inflates (comp data : list Z) : Prop :=
  forall m, zlen data <= m -> inflate comp m = (true, data).

Lemma deflate_loop_spec checked fin fuel s i o input buffer bytes result :
  z_history s i o -> sio_end buffer bytes ->
  2 * (zlen bytes + Z.of_nat (deflate_pending s input)) < MAX_TALLOC_SIZE ->
  0 <= result -> result + Z.of_nat (deflate_pending s input) <= INT_MAX ->
  (deflate_pending s input < fuel)%nat ->
  exists s' out buffer',
    deflate_loop junk fuel checked fin (Some s) input buffer result =
      Some (false, Some s', [], buffer', result + zlen out) /\
    z_history s' (i ++ input) (o ++ out) /\ sio_end buffer' (bytes ++ out) /\
    zlen out <= Z.of_nat (deflate_pending s input) /\
    (fin = true -> inflates (o ++ out) (i ++ input)).
Proof.
  revert s i o input buffer bytes result.
  induction fuel as [|fuel IH]; intros s i o input buffer bytes result Hh Hb Hm Hr Hi Hf; [lia|].
  simpl. destruct (deflate s input BUFF_SIZE fin) as [[s1 rest] out] eqn:Hd.
  destruct (deflate_law s i o input BUFF_SIZE fin s1 rest out Hh)
    as (used & -> & Hh1 & Hn & Hp & Hend); [done|done|].
  assert (zlen out <= Z.of_nat (deflate_pending s (used ++ rest))) as Hout
    by (unfold zlen; lia).
  destruct (sio_end_write junk buffer bytes out Hb) as (b1 & Hw & Hb1); [lia|].
  rewrite Hw. mred. pose proof (zlen_nonneg out).
  destruct (Z.ltb_spec (zlen out) 0); [lia|]. rewrite andb_false_r.
  unfold INT_MAX in *. rewrite i32_small by lia. destruct (Z.eqb_spec (zlen out) BUFF_SIZE).
  - assert (Z.of_nat (deflate_pending s1 rest) + zlen out <=
            Z.of_nat (deflate_pending s (used ++ rest))) by (unfold zlen in *; lia).
    assert (0 < BUFF_SIZE) by done.
    destruct (IH s1 (i ++ used) (o ++ out) rest b1 (bytes ++ out) (result + zlen out))
      as (s' & out' & b' & -> & Hh' & Hb' & Ho & Hfin); try done; try (rewrite ?zlen_app; lia).
    exists s', (out ++ out'), b'. rewrite zlen_app, !app_assoc, Z.add_assoc.
    split_and!; try done; lia.
  - destruct Hend as [-> Hfin]; [lia|]. exists s1, out, b1. rewrite app_nil_r in *.
    split_and!; done.
Qed.

(** ** Segments being written *)

(** A directory header the code can write: every field in its range, no extra
    field. *)
Record cd_ok (c : CDFileHeader) (method fsize csize : Z) : Prop := {
  cdo_fits : fits cd_widths (cd_fields c);
  cdo_magic : cd_magic c = CD_MAGIC;
  cdo_extra : extra_field_len c = 0;
  cdo_method : cd_compression_method c = method;
  cdo_fsize : file_size c = fsize;
  cdo_csize : compress_size c = csize
}.

Lemma cd_ok_count c m crc csize fsize f0 c0 :
  cd_ok c m f0 c0 -> 0 <= crc < 4294967296 -> 0 <= csize < 4294967296 ->
  0 <= fsize < 4294967296 -> cd_ok (cd_count c m crc csize fsize) m fsize csize.
Proof.
  intros [Hf Hm He <- _ _] H1 H2 H3. split; try done. cbn in *. tauto.
Qed.

(** How the bytes of the buffer encode the data. *)
Definition encodes (method : Z) (comp data : list Z) : Prop :=
  (method = ZIP_STORED /\ comp = data) \/ (method = ZIP_DEFLATE /\ inflates comp data).

(** The segment [name] of the volume [vol], open for writing: [data] was written,
    the buffer holds [bytes]. *)
Record seg_open (vol : RDFURN) (s : ZipSegment) (name : list Z) (method : Z)
    (data bytes : list Z) : Prop := {
  so_write : zs_write s = true;
  so_name : RDFURN_relative_name (zs_urn s) vol = name;
  so_filename : zs_filename s = name_string name;
  so_cd : cd_ok (zs_cd s) method (zlen data) (zlen bytes);
  so_buffer : exists b, zs_buffer s = Some b /\ sio_end b bytes;
  so_strm : (method = ZIP_STORED /\ bytes = data /\ zs_strm s = None) \/
            (method = ZIP_DEFLATE /\ zs_next_in s = [] /\
             exists st, zs_strm s = Some st /\ z_history st data bytes)
}.

(** Segments are kept in memory: room for what is written next. *)
Definition seg_need (s : ZipSegment) (d : list Z) : Z :=
  match zs_strm s with
  | Some st => Z.of_nat (deflate_pending st d)
  | None => zlen d
  end.

Definition seg_room (s : ZipSegment) (d : list Z) : bool :=
  match zs_buffer s with
  | Some b => (2 * (file_size (zs_cd s) + zlen d) <? MAX_TALLOC_SIZE) &&
              (2 * (sio_size b + Z.max (zlen d) (seg_need s d)) <? MAX_TALLOC_SIZE)
  | None => false
  end.

Lemma seg_room_spec vol s name method data bytes d :
  seg_open vol s name method data bytes -> seg_room s d = true ->
  2 * (zlen data + zlen d) < MAX_TALLOC_SIZE /\
  2 * (zlen bytes + zlen d) < MAX_TALLOC_SIZE /\
  2 * (zlen bytes + seg_need s d) < MAX_TALLOC_SIZE.
Proof.
  intros [_ _ _ Hcd (b & Hb & He) _] Hr. unfold seg_room in Hr. rewrite Hb in Hr.
  apply andb_prop in Hr as [H1 H2]. apply Z.ltb_lt in H1, H2.
  rewrite (cdo_fsize _ _ _ _ Hcd) in H1. destruct (sio_end_read b bytes He) as [Hs _].
  rewrite Hs in H2. lia.
Qed.

Lemma seg_room_stored vol s name data bytes d :
  seg_open vol s name ZIP_STORED data bytes -> 2 * (zlen data + zlen d) < MAX_TALLOC_SIZE ->
  seg_room s d = true.
Proof.
  intros [_ _ _ Hcd (b & Hb & He) [(_ & -> & Hns)|(? & _)]] Hm; [|done].
  unfold seg_room, seg_need. rewrite Hb, Hns, (cdo_fsize _ _ _ _ Hcd), Z.max_id.
  destruct (sio_end_read b data He) as [-> _]. apply andb_true_intro. split; by apply Z.ltb_lt.
Qed.

Lemma u32_range z : 0 <= u32 z < 4294967296.
Proof. apply Z.mod_pos_bound. lia. Qed.

Lemma ZipSegment_write_open vol s name method data bytes d :
  seg_open vol s name method data bytes -> seg_room s d = true ->
  exists r s' bytes', ZipSegment_write junk s d = Some (r, None, s') /\
    seg_open vol s' name method (data ++ d) bytes'.
Proof.
  intros Ho Hr. destruct (seg_room_spec _ _ _ _ _ _ _ Ho Hr) as (H1 & H2 & H3).
  destruct Ho as [Hw Hn Hfn Hcd (b & Hb & He) Hs]. pose proof (zlen_nonneg d).
  pose proof (zlen_nonneg data). pose proof (zlen_nonneg bytes).
  unfold ZipSegment_write, MAX_TALLOC_SIZE in *.
  destruct (Z.eqb_spec (zlen d) 0) as [E|_].
  { exists 0, s, bytes. split; [done|]. apply zlen_0_nil in E as ->. rewrite app_nil_r.
    split; eauto. }
  rewrite Hb, (cdo_method _ _ _ _ Hcd), (cdo_csize _ _ _ _ Hcd), (cdo_fsize _ _ _ _ Hcd).
  destruct Hs as [(-> & -> & Hns)|(-> & Hni & st & Hst & Hh)].
  - change (ZIP_STORED =? ZIP_DEFLATE) with false.
    destruct (sio_end_write junk b data d He) as (b' & -> & He'); [done|]. mred.
    rewrite (u32_small (zlen data + zlen d)) by lia.
    eexists _, _, (data ++ d). split; [reflexivity|].
    split; cbn; eauto. rewrite !zlen_app. apply cd_ok_count with (zlen data) (zlen data);
      try apply u32_range; done || lia.
  - change (ZIP_DEFLATE =? ZIP_DEFLATE) with true. unfold seg_need in H3. rewrite Hst in *.
    destruct (deflate_loop_spec true false (deflate_fuel (Some st) d) st data bytes d b bytes 0)
      as (st' & out & b' & -> & Hh' & He' & Hl & _); try done; simpl; unfold INT_MAX; try lia.
    mred. pose proof (zlen_nonneg out). rewrite Z.add_0_l.
    rewrite (u32_small (zlen data + zlen d)), (u32_small (zlen bytes + zlen out)) by lia.
    eexists _, _, (bytes ++ out). split; [reflexivity|].
    split; cbn; eauto 7. rewrite !zlen_app. apply cd_ok_count with (zlen data) (zlen bytes);
      try apply u32_range; done || lia.
Qed.

(** ** Closing a segment *)

Definition descriptor (c : CDFileHeader) : list Z :=
  le 4 DESCRIPTOR_MAGIC ++ le 4 (cd_crc32 c) ++ le 4 (compress_size c) ++ le 4 (file_size c).

(** What closing appends to the volume. *)
Definition entry_bytes (c : CDFileHeader) (name comp : list Z) : list Z :=
  pack_fields fh_widths (fh_fields (local_header c (zlen name + 1))) ++ (name ++ [0]) ++
  comp ++ descriptor c.

Lemma close_compressor_open vol s name method data bytes b :
  seg_open vol s name method data bytes -> seg_room s [] = true ->
  zs_buffer s = Some b ->
  exists s' b' comp, close_compressor junk s b = Some (s', b') /\
    zs_urn s' = zs_urn s /\ zs_filename s' = zs_filename s /\ zs_write s' = true /\
    zs_offset_of_file_header s' = zs_offset_of_file_header s /\
    cd_ok (zs_cd s') method (zlen data) (zlen comp) /\ sio_end b' comp /\
    encodes method comp data.
Proof.
  intros Ho Hr Hb. destruct (seg_room_spec _ _ _ _ _ _ _ Ho Hr) as (H1 & _ & H3).
  destruct Ho as [Hw Hn Hfn Hcd (b0 & Hb0 & He) Hs]. assert (b0 = b) as -> by congruence.
  unfold close_compressor. rewrite (cdo_method _ _ _ _ Hcd).
  destruct Hs as [(-> & -> & Hns)|(-> & Hni & st & Hst & Hh)].
  - exists s, b, data. split_and!; try done. by left.
  - change (ZIP_DEFLATE =? ZIP_DEFLATE) with true. unfold seg_need in H3.
    rewrite Hst, Hni in *. pose proof (zlen_nonneg data). pose proof (zlen_nonneg bytes).
    unfold MAX_TALLOC_SIZE in *. change (zlen (@nil Z)) with 0 in *.
    destruct (deflate_loop_spec false true (deflate_fuel (Some st) []) st data bytes [] b bytes 0)
      as (st' & out & b' & -> & Hh' & He' & Hl & Hfin); try done; simpl; unfold INT_MAX;
      try (unfold MAX_TALLOC_SIZE; lia).
    mred. pose proof (zlen_nonneg out). rewrite (cdo_csize _ _ _ _ Hcd), (cdo_fsize _ _ _ _ Hcd).
    rewrite u32_small by lia. eexists _, b', (bytes ++ out). split; [reflexivity|].
    split_and!; try done.
    + rewrite zlen_app. cbn. apply cd_ok_count with (zlen data) (zlen bytes); try lia.
      * done.
      * pose proof (cdo_fits _ _ _ _ Hcd) as Hf. cbn in Hf. tauto.
    + right. split; [done|]. rewrite app_nil_r in Hfin. by apply Hfin.
Qed.

Lemma ZipSegment_close_open vol s name method data bytes store :
  seg_open vol s name method data bytes -> seg_room s [] = true -> name_ok name ->
  fl_ok store ->
  exists s' store' comp,
    ZipSegment_close junk s vol (Some store) = Some (None, s', Some store') /\
    fl_end store' (fl_contents store ++ entry_bytes (zs_cd s') name comp) /\
    zs_buffer s' = None /\ zs_offset_of_file_header s' = zlen (fl_contents store) /\
    cd_ok (zs_cd s') method (zlen data) (zlen comp) /\
    zs_filename s' = name_string name /\ encodes method comp data /\
    2 * zlen data < MAX_TALLOC_SIZE /\ zlen comp < MAX_TALLOC_SIZE.
Proof.
  intros Ho Hr Hn Hok.
  destruct (seg_room_spec _ _ _ _ _ _ _ Ho Hr) as (Hroom & _). change (zlen (@nil Z)) with 0 in Hroom.
  rewrite Z.add_0_r in Hroom. unfold ZipSegment_close. rewrite (so_write _ _ _ _ _ _ Ho).
  destruct (fl_seek_end store Hok) as (f1 & -> & Hf1).
  destruct (so_buffer _ _ _ _ _ _ Ho) as (b & Hb & He). cbn [zs_buffer with_offset negb].
  set (s1 := with_offset s (zlen (fl_contents store))).
  assert (seg_open vol s1 name method data bytes) as Ho1 by (destruct Ho; split; done).
  rewrite Hb. mred.
  destruct (close_compressor_open vol s1 name method data bytes b Ho1 Hr Hb)
    as (s2 & b2 & comp & -> & Hu & Hfn & _ & Hoff & Hcd & He2 & Henc). mred.
  assert (RDFURN_relative_name (zs_urn s2) vol = name) as Hrel.
  { rewrite Hu. apply (so_name _ _ _ _ _ _ Ho). }
  rewrite segment_name_legal, Hrel by by rewrite Hrel. mred.
  rewrite strlen_name, XSDString_set_name by done. mred. cbn [with_filename zs_cd].
  pose proof (sio_end_bound b2 comp He2). destruct (sio_end_read b2 comp He2) as [-> ->]. mred.
  eexists _, _, comp. split; [reflexivity|].
  cbn [zs_cd zs_buffer zs_offset_of_file_header zs_filename with_seg_buffer with_filename].
  split_and!; try done.
  unfold entry_bytes, descriptor. cbn [name_string xs_length].
  assert (ztake (zlen name + 1) (name ++ [0; 0]) = name ++ [0]) as ->.
  { change [0; 0] with ([0] ++ [0]). rewrite app_assoc. by apply ztake_app_eq; rewrite zlen_app. }
  generalize (name ++ [0]). intros nul. rewrite !app_assoc. by repeat apply fl_put_end.
Qed.

(** ** Reading a segment back *)

Lemma read_into_full n bytes : zlen bytes = n -> read_local junk n bytes = bytes.
Proof.
  intros <-. unfold read_local. rewrite zover_0, zdrop_all, app_nil_r; [done|].
  unfold zlen. rewrite length_map, length_seq. lia.
Qed.

Lemma read_into_prefix n k bytes : k <= zlen bytes -> ztake k (read_local junk n bytes) = ztake k bytes.
Proof. intros. unfold read_local. by rewrite zover_0, ztake_app_le. Qed.

(** A buffer from which [data] can be read. *)
Definition sio_holds (b : StringIO) (data : list Z) : Prop :=
  exists tc, sio_data b = Some tc /\ sio_size b = zlen data /\
    zlen data <= zlen (tc_mem tc) /\ ztake (zlen data) (tc_mem tc) = data.

Lemma sio_new_seek n : 0 <= n < MAX_TALLOC_SIZE ->
  exists b tc, StringIO_seek junk StringIO_constructor n SEEK_SET = inr (n, b) /\
    sio_size b = n /\ sio_data b = Some tc /\ n <= zlen (tc_mem tc).
Proof.
  intros Hn. destruct (talloc_size_ok 1024) as (tc & Htc & Hok & Hlen & Hsz); [done|].
  unfold StringIO_seek, StringIO_constructor, MAX_TALLOC_SIZE in *. simpl.
  rewrite (u64_small n), (u64_small 0), Htc by lia. destruct (Z.gtb_spec n 0).
  - destruct (talloc_realloc_ok junk tc n Hok) as (tc' & -> & _ & Hl & _).
    { unfold MAX_TALLOC_SIZE. lia. }
    rewrite i32_small by lia. by eexists _, tc'.
  - eexists _, tc. split_and!; [done|simpl; lia|done|lia].
Qed.

Lemma decompress_data_spec cd method store pre comp data post :
  fl_at store (pre ++ comp ++ post) (zlen pre) -> encodes method comp data ->
  file_size cd = zlen data -> compress_size cd = zlen comp ->
  zlen data < MAX_TALLOC_SIZE -> zlen comp < MAX_TALLOC_SIZE ->
  exists b store', decompress_data junk cd method store = Some (true, None, b, store') /\
    sio_holds b data /\ fl_ok store' /\ fl_contents store' = pre ++ comp ++ post.
Proof.
  intros Hat Henc Hfs Hcs Hd Hc. unfold decompress_data. pose proof (zlen_nonneg data).
  destruct (sio_new_seek (file_size cd)) as (b & tc & -> & Hbs & Hbd & Htc); [lia|].
  rewrite Hbs, Hbd, Hfs, Hcs in *.
  assert (forall mem, Some mem = mem_write (Some tc) 0 data -> forall n, sio_holds
    {| sio_size := zlen data; sio_alloc_size := sio_alloc_size b; sio_readptr := n;
       sio_data := Some mem |} data) as Hholds.
  { intros mem Hmem n. rewrite mem_write_ok in Hmem by lia. injection Hmem as ->.
    eexists. split_and!; [done|done| |]; cbn [tc_mem].
    - rewrite zlen_zover; lia.
    - by rewrite zover_0, ztake_app_eq. }
  assert (exists mem, mem_write (Some tc) 0 data = Some mem) as [mem Hmem].
  { rewrite mem_write_ok by lia. eauto. }
  destruct Henc as [[-> ->]|[-> Hinf]].
  - change (ZIP_STORED =? ZIP_STORED) with true.
    destruct (fl_read_at store (zlen data) pre data post Hat) as (f' & -> & Hok' & Hc' & _);
      [done|]. rewrite Hmem. mred. eexists _, f'. split; [reflexivity|]. by split_and!; [apply Hholds| |].
  - change (ZIP_DEFLATE =? ZIP_STORED) with false.
    change (ZIP_DEFLATE =? ZIP_DEFLATE) with true.
    destruct (talloc_size_ok (zlen comp)) as (? & -> & _); [pose proof (zlen_nonneg comp); lia|].
    mred. destruct (fl_read_at store (zlen comp) pre comp post Hat) as (f' & -> & Hok' & Hc' & _);
      [done|]. rewrite Hinf, Hmem by lia. mred. rewrite Z.eqb_refl.
    eexists _, f'. split; [reflexivity|]. by split_and!; [apply Hholds| |].
Qed.

(** What the central directory says of the segment at [zlen pre]. *)
Record seg_loaded (s : ZipSegment) (name comp data pre : list Z) : Prop := {
  sl_offset : zs_offset_of_file_header s = zlen pre;
  sl_name_length : file_name_length (zs_cd s) = zlen name + 1;
  sl_fsize : file_size (zs_cd s) = zlen data;
  sl_csize : compress_size (zs_cd s) = zlen comp;
  sl_filename : zs_filename s = {| xs_value := Some (name ++ [0]); xs_length := zlen name |};
  sl_buffer : zs_buffer s = None
}.

Lemma local_header_fits c method fsize csize n :
  cd_ok c method fsize csize -> 0 <= n < 65536 ->
  fits fh_widths (fh_fields (local_header c n)).
Proof.
  intros [Hf _ _ _ _ _] Hn. cbn in *. rewrite u16_small by done.
  repeat match goal with |- _ /\ _ => split end; try tauto; try lia; done.
Qed.

Lemma decompress_segment_spec s c method name comp data pre post store :
  seg_loaded s name comp data pre -> fl_ok store ->
  fl_contents store = pre ++ entry_bytes c name comp ++ post ->
  cd_ok c method (zlen data) (zlen comp) -> encodes method comp data -> name_ok name ->
  zlen data < MAX_TALLOC_SIZE -> zlen comp < MAX_TALLOC_SIZE ->
  exists b store', decompress_segment junk s (Some store) =
      Some (true, None, with_seg_buffer s (Some b), Some store') /\
    sio_holds b data /\ fl_ok store' /\ fl_contents store' = fl_contents store.
Proof.
  intros [Hoff Hnl Hfs Hcs Hfn _] Hok Hc Hcd Henc Hn Hd Hco.
  assert (zlen name + 1 < 65536) as Hn16 by (destruct Hn as (? & Hn & _); unfold BUFF_SIZE in Hn; lia).
  pose proof (zlen_nonneg name) as Hn0. pose proof (zlen_nonneg pre) as Hp0.
  pose proof (local_header_fits c method _ _ (zlen name + 1) Hcd ltac:(lia)) as Hfit.
  unfold decompress_segment. rewrite Hoff.
  destruct (fl_seek_set_law store (zlen pre) Hok Hp0) as (f1 & -> & Hat1).
  unfold entry_bytes in Hc. rewrite <- !app_assoc in Hc.
  set (hdr := pack_fields fh_widths (fh_fields (local_header c (zlen name + 1)))) in *.
  assert (zlen hdr = pack_size fh_widths) as Hhl by by apply zlen_pack.
  rewrite Hc in Hat1 |- *.
  destruct (fl_read_at f1 (pack_size fh_widths) pre hdr _ Hat1) as (f2 & -> & Hat2); [done|].
  rewrite read_into_full by done.
  assert (unpack_fields fh_widths hdr = fh_fields (local_header c (zlen name + 1))) as ->.
  { rewrite <- (app_nil_r hdr). by apply unpack_pack. }
  rewrite fh_of_fields.
  cbn [fh_file_name_length fh_compression_method local_header].
  rewrite u16_small by lia. rewrite Hnl, Z.eqb_refl. cbn [negb].
  rewrite Z.min_r by (destruct Hn as (? & Hn & _); unfold BUFF_SIZE in *; lia).
  rewrite (app_assoc pre hdr), (app_assoc name) in Hat2 |- *.
  destruct (fl_read_at f2 (zlen name + 1) (pre ++ hdr) (name ++ [0]) _ Hat2)
    as (f3 & -> & Hat3); [by rewrite zlen_app|].
  rewrite zlen_app, Z.eqb_refl. cbn [negb]. rewrite Hfn. cbn [xs_length xs_value default id from_option]. unfold id.
  destruct (Z.ltb_spec BUFF_SIZE (zlen name));
    [destruct Hn as (? & Hn & _); unfold BUFF_SIZE in *; lia|].
  rewrite zlen_app. destruct (Z.ltb_spec (zlen name + zlen [0]) (zlen name)) as [E|_];
    [change (zlen [0]) with 1 in E; lia|]. cbn [orb].
  rewrite read_into_prefix by (rewrite zlen_app; change (zlen [0]) with 1; lia).
  rewrite bool_decide_true by done. cbn [negb].
  rewrite (cdo_method _ _ _ _ Hcd). rewrite app_assoc in Hat3 |- *.
  destruct (decompress_data_spec (zs_cd s) method f3 _ comp data (descriptor c ++ post) Hat3)
    as (b & f4 & -> & Hh & Hok4 & Hc4); try done.
  mred. exists b, f4. split; [done|]. split_and!; done.
Qed.

Lemma ZipSegment_read_holds s b data zip n :
  zs_buffer s = Some b -> sio_holds b data -> 0 <= zs_readptr s <= zlen data ->
  zlen data < MAX_TALLOC_SIZE -> 0 <= n < MAX_TALLOC_SIZE ->
  exists b', ZipSegment_read junk s zip n =
      Some (Some (zread (zs_readptr s) n data), with_seg_buffer s (Some b'), zip) /\
    sio_holds b' data.
Proof.
  intros Hb (tc & Hd & Hs & Hl & Ht) Hr Hdm Hn. unfold ZipSegment_read, MAX_TALLOC_SIZE in *.
  rewrite Hb. mred. cbn [negb]. rewrite Hb. mred. unfold StringIO_seek.
  rewrite (u64_small (zs_readptr s)), (u64_small (sio_size b)), Hs by lia.
  destruct (Z.gtb_spec (zs_readptr s) (zlen data)); [lia|].
  unfold StringIO_read. cbn [sio_size sio_readptr sio_data sio_alloc_size].
  set (len := if _ >? _ then _ else _).
  assert (len = Z.min n (zlen data - zs_readptr s)) as ->.
  { unfold len. rewrite !u64_small by lia. destruct (Z.gtb_spec (zs_readptr s + n) (zlen data)).
    - rewrite i32_small by lia. lia.
    - lia. }
  rewrite Hd, mem_read_ok by lia. mred. eexists. split.
  - do 3 f_equal. f_equal. rewrite <- Ht at 2. unfold zread. rewrite zdrop_ztake by lia.
    rewrite <- (Z.min_comm (zlen data - zs_readptr s)). symmetry. unfold ztake.
    rewrite take_take. f_equal. lia.
  - by exists tc.
Qed.

End Laws.
