(* ===== verification/ZipVolume.v ===== *)
(** ZIP volumes (lib/aff4_zip.c, class [ZipFile]): the central directory written
    when a volume is closed, its parser, and the segments of a volume.

    A volume is a list of segments over a backing store; a segment is named by its
    index in that list, as the code names it by a pointer.  The resolver's [own] of
    the container returns the volume itself. *)

From S2P Require Import Prelude Talloc StringIO Misc Url Rdf File ZipFormat ZipSegment.

Section ZipFile.

Context `{FR : Foreign} `{FL : FileLike F}.

Variable junk : nat -> Z.

Record ZipFile := {
  zf_urn : RDFURN;
  zf_write : bool;
  zf_backing_store : F;
  zf_members : list ZipSegment;
  zf_end : option EndCentralDirectory;
  zf_compression_method : Z
}.

Definition with_store (z : ZipFile) (store : F) : ZipFile :=
  {| zf_urn := zf_urn z; zf_write := zf_write z; zf_backing_store := store;
     zf_members := zf_members z; zf_end := zf_end z;
     zf_compression_method := zf_compression_method z |}.

Definition with_members (z : ZipFile) (members : list ZipSegment) : ZipFile :=
  {| zf_urn := zf_urn z; zf_write := zf_write z; zf_backing_store := zf_backing_store z;
     zf_members := members; zf_end := zf_end z;
     zf_compression_method := zf_compression_method z |}.

(** ** Writing the central directory *)

Definition write_zip64_CD (fd : StringIO) (offset_of_end_cd directory_offset : Z)
    (total_entries : Z) : option StringIO :=
  let locator := {| loc_magic := LOCATOR_MAGIC; loc_disk_with_cd := 0;
                    offset_of_end_cd := offset_of_end_cd; number_of_disks := 1 |} in
  let end_cd := {| end64_magic := END64_MAGIC; size_of_header := pack_size end64_widths - 12;
                   end64_version_made_by := 45; end64_version_needed := 45;
                   number_of_disk := 0; number_of_disk_with_cd := 0;
                   number_of_entries_in_volume := u64 total_entries;
                   number_of_entries_in_total := u64 total_entries;
                   end64_size_of_cd := u64 (offset_of_end_cd - directory_offset);
                   end64_offset_of_cd := directory_offset |} in
  '(_, fd) ← StringIO_write junk fd (pack_fields end64_widths (end64_fields end_cd));
  '(_, fd) ← StringIO_write junk fd (pack_fields loc_widths (loc_fields locator));
  Some fd.

(** The contents of [zip64_header] for a segment at [off]; its first four bytes are
    kept from one segment to the next. *)
Definition zip64_extra (hdr : list Z) (off : Z) : list Z :=
  let hdr := ztake 4 hdr in
  if off >? ZIP64_LIMIT then
    let hdr := hdr ++ le 8 off in zover 2 (le 2 (zlen hdr - 4)) hdr
  else hdr.

(** The directory entry of a segment. *)
Definition cd_entry (s : ZipSegment) (hdr : list Z) : CDFileHeader :=
  let c := zs_cd s in
  {| cd_magic := cd_magic c; version_made_by := version_made_by c;
     version_needed := version_needed c; cd_flags := cd_flags c;
     cd_compression_method := cd_compression_method c; dostime := dostime c;
     dosdate := dosdate c; cd_crc32 := cd_crc32 c; compress_size := compress_size c;
     file_size := file_size c;
     file_name_length := u16 (xs_length (zs_filename s));
     extra_field_len := if zlen hdr >? 4 then u16 (zlen hdr) else extra_field_len c;
     file_comment_length := file_comment_length c; disk_number_start := disk_number_start c;
     internal_file_attr := internal_file_attr c; external_file_attr := external_file_attr c;
     relative_offset_local_header :=
       if zs_offset_of_file_header s >? ZIP64_LIMIT then u32 (-1)
       else u32 (zs_offset_of_file_header s) |}.

(** The first [n] bytes of a buffer are written to the backing store. *)
Definition flush_buffer (buffer : StringIO) (store : F) : option F :=
  bytes ← mem_read (sio_data buffer) 0 (sio_readptr buffer);
  Some (fl_put store bytes).

(** One closed segment. *)
Definition cd_write_entry (s : ZipSegment) (store : F) (buffer : StringIO) (hdr : list Z)
  : option (ZipSegment * F * StringIO * list Z) :=
  '(store, buffer) ←
    (if sio_readptr buffer >? BUFF_SIZE * 10 then
       store ← flush_buffer buffer store; Some (store, StringIO_truncate buffer 0)
     else Some (store, buffer));
  let hdr := zip64_extra hdr (zs_offset_of_file_header s) in
  let s := with_cd s (cd_entry s hdr) in
  '(_, buffer) ← StringIO_write junk buffer (pack_fields cd_widths (cd_fields (zs_cd s)));
  let value := default [] (xs_value (zs_filename s)) in
  if zlen value <? xs_length (zs_filename s) then None
  else
    '(_, buffer) ← StringIO_write junk buffer (ztake (xs_length (zs_filename s)) value);
    '(_, buffer) ← (if zlen hdr >? 4 then StringIO_write junk buffer hdr
                    else Some (0, buffer));
    Some (s, store, buffer, hdr).

(** The loop over the members; those with a buffer are not closed and are skipped. *)
Fixpoint cd_loop (segs : list ZipSegment) (store : F) (buffer : StringIO) (hdr : list Z)
    (total : Z) : option (list ZipSegment * F * StringIO * Z) :=
  match segs with
  | [] => Some ([], store, buffer, total)
  | s :: segs =>
      match zs_buffer s with
      | Some _ =>
          '(segs, store, buffer, total) ← cd_loop segs store buffer hdr total;
          Some (s :: segs, store, buffer, total)
      | None =>
          '(s, store, buffer, hdr) ← cd_write_entry s store buffer hdr;
          '(segs, store, buffer, total) ← cd_loop segs store buffer hdr (i32 (total + 1));
          Some (s :: segs, store, buffer, total)
      end
  end.

Definition end_record (total size off : Z) (urn : RDFURN) : EndCentralDirectory :=
  {| ecd_magic := END_MAGIC; number_of_this_disk := 0; disk_with_cd := 0;
     total_entries_in_cd_on_disk := u16 total; total_entries_in_cd := u16 total;
     size_of_cd := u32 size; offset_of_cd := off;
     comment_len := u16 (zlen (urn_value urn) + 1) |}.

Definition ZipFile_close (self : ZipFile) : option (Z * ZipFile) :=
  if negb (zf_write self) then Some (0, self)
  else
    match StringIO_seek junk StringIO_constructor (10 * BUFF_SIZE) SEEK_SET with
    | inl _ => None
    | inr (_, buffer) =>
        let buffer := StringIO_truncate buffer 0 in
        let '(start_of_cd, store) := fl_seek (zf_backing_store self) 0 SEEK_END in
        '(segs, store, buffer, total) ←
          cd_loop (zf_members self) store buffer [1; 0; 0; 0] 0;
        let offset_of_end_cd := fl_pos store + sio_size buffer in
        buffer ← (if start_of_cd >? ZIP64_LIMIT
                  then write_zip64_CD buffer offset_of_end_cd start_of_cd total
                  else Some buffer);
        let off := if start_of_cd >? ZIP64_LIMIT then u32 (-1) else u32 start_of_cd in
        let e := end_record total (offset_of_end_cd - start_of_cd) off (zf_urn self) in
        '(_, buffer) ← StringIO_write junk buffer (pack_fields ecd_widths (ecd_fields e));
        '(_, buffer) ← StringIO_write junk buffer
                         (ztake (comment_len e) (urn_value (zf_urn self) ++ [0]));
        store ← flush_buffer buffer store;
        Some (1, with_members (with_store self store) segs)
    end.

(** ** Reading the central directory *)

(** [*(uint32_t * )(buffer + i)] *)
Definition u32_at (buffer : list Z) (i : nat) : Z := unle (take 4 (drop i buffer)).

(** The scan from the end; 0 when the magic is not found. *)
Fixpoint scan_back (buffer : list Z) (i : nat) : nat :=
  match i with
  | O => O
  | S i' => if u32_at buffer i =? END_MAGIC then i else scan_back buffer i'
  end.

(** The offset of the directory a Zip64 locator leads to, and the number of
    entries; the error, if any. *)
Definition find_zip64 (store : F) (directory_offset : Z)
  : sum aff4_error (Z * Z) * F :=
  let '(_, store) := fl_seek store (directory_offset - pack_size loc_widths) SEEK_SET in
  let '(bytes, store) := fl_read store (pack_size loc_widths) in
  let locator := loc_of (unpack_fields loc_widths (read_local junk (pack_size loc_widths) bytes)) in
  if negb (loc_magic locator =? LOCATOR_MAGIC) then (inl EIOError, store)
  else if negb (loc_disk_with_cd locator =? 0) || negb (number_of_disks locator =? 1)
  then (inl ERuntimeError, store)
  else
    let '(_, store) := fl_seek store (i64 (offset_of_end_cd locator)) SEEK_SET in
    let '(bytes, store) := fl_read store (pack_size end64_widths) in
    let e := end64_of (unpack_fields end64_widths (read_local junk (pack_size end64_widths) bytes)) in
    if negb (end64_magic e =? END64_MAGIC) then (inl EIOError, store)
    else if negb (number_of_disk e =? 0) || negb (number_of_disk_with_cd e =? 0) ||
            negb (number_of_entries_in_volume e =? number_of_entries_in_total e)
    then (inl ERuntimeError, store)
    else (inr (end64_offset_of_cd e, number_of_entries_in_total e), store).

(** The URN found in the comment of the end record. *)
Definition comment_urn (urn : RDFURN) (e : EndCentralDirectory) (comment : list Z)
  : option RDFURN :=
  if (comment_len e >? 4) && bool_decide (ztake 4 comment = lit "aff4") &&
     bool_decide (ztake (zlen FQN) comment = FQN)
  then RDFURN_set urn (Some (cstr comment))
  else Some urn.

(** The result 0 is the failure. *)
Definition find_EndCentralDirectory (self : ZipFile) : option (Z * ZipFile) :=
  let '(_, store) := fl_seek (zf_backing_store self) (- BUFF_SIZE) SEEK_END in
  let '(bytes, store) := fl_read store (BUFF_SIZE - 4) in
  let buffer := zover 0 bytes (replicate (Z.to_nat BUFF_SIZE) 0) in
  let i := scan_back buffer (length bytes) in
  if (Z.of_nat i =? 0) || (zlen bytes - Z.of_nat i <? pack_size ecd_widths)
  then Some (0, with_store self store)
  else
    let e := ecd_of (unpack_fields ecd_widths (drop i buffer)) in
    urn ← comment_urn (zf_urn self) e (zdrop (Z.of_nat i + pack_size ecd_widths) buffer);
    let self e store :=
      {| zf_urn := urn; zf_write := zf_write self; zf_backing_store := store;
         zf_members := zf_members self; zf_end := Some e;
         zf_compression_method := zf_compression_method self |} in
    if offset_of_cd e =? u32 (-1) then
      match find_zip64 store (offset_of_cd e) with
      | (inl _, store) => Some (0, self e store)
      | (inr (directory_offset, total), store) =>
          let e := {| ecd_magic := ecd_magic e; number_of_this_disk := number_of_this_disk e;
                      disk_with_cd := disk_with_cd e;
                      total_entries_in_cd_on_disk := total_entries_in_cd_on_disk e;
                      total_entries_in_cd := u16 total; size_of_cd := size_of_cd e;
                      offset_of_cd := offset_of_cd e; comment_len := comment_len e |} in
          let '(_, store) := fl_seek store (i64 directory_offset) SEEK_SET in
          Some (i32 directory_offset, self e store)
      end
    else
      let '(_, store) := fl_seek store (offset_of_cd e) SEEK_SET in
      Some (i32 (offset_of_cd e), self e store).

(** [None] as the first component: the entry could not be read. *)
Definition load_entry_from_CD (now : tm) (store : F)
  : option (option ZipSegment * F) :=
  result ← ZipSegment_Con now None false;
  let '(bytes, store) := fl_read store (pack_size cd_widths) in
  if negb (zlen bytes =? pack_size cd_widths) then Some (None, store)
  else
    let cd := cd_of (unpack_fields cd_widths bytes) in
    if negb (cd_magic cd =? CD_MAGIC) then Some (None, store)
    else
      let length := Z.min (file_name_length cd) (BUFF_SIZE - 1) in
      let '(name, store) := fl_read store length in
      if negb (zlen name =? length) then Some (None, store)
      else
        filename ← unescape_filename (read_local junk BUFF_SIZE (name ++ [0]));
        Some (Some {| zs_cd := cd; zs_urn := zs_urn result; zs_write := false;
                      zs_compression_method := zs_compression_method result;
                      zs_timestamp := mktime (tm_of_dos (dosdate cd) (dostime cd));
                      zs_strm := None; zs_next_in := [];
                      zs_offset_of_file_header := relative_offset_local_header cd;
                      zs_filename := {| xs_value := Some (filename ++ [0]);
                                        xs_length := zlen filename |};
                      zs_buffer := None; zs_readptr := 0 |}, store).

(** The loop over the entries of the directory. *)
Fixpoint load_entries (now : tm) (n : nat) (self : ZipFile) : option ZipFile :=
  match n with
  | O => Some self
  | S n' =>
      '(entry, store) ← load_entry_from_CD now (zf_backing_store self);
      let self := with_store self store in
      load_entries now n'
        (match entry with
         | None => self
         | Some s =>
             {| zf_urn := zf_urn self; zf_write := zf_write self;
                zf_backing_store := store; zf_members := zf_members self ++ [s];
                zf_end := zf_end self;
                zf_compression_method := cd_compression_method (zs_cd s) |}
         end)
  end.

Definition ZipFile_load_from_backing_store (now : tm) (self : ZipFile)
  : option (bool * ZipFile) :=
  '(directory_offset, self) ← find_EndCentralDirectory self;
  if directory_offset =? 0 then Some (false, self)
  else
    let '(_, store) := fl_seek (zf_backing_store self) directory_offset SEEK_SET in
    e ← zf_end self;
    self ← load_entries now (Z.to_nat (total_entries_in_cd e)) (with_store self store);
    Some (true, self).

(** [ZipFile_Con] and [ZipFile_finish], with the backing store the resolver creates;
    the result of the load is not looked at. *)
Definition ZipFile_Con (uri : option RDFURN) (write : bool) (store : F) : option ZipFile :=
  urn ← AFFObject_Con uri;
  Some {| zf_urn := urn; zf_write := write; zf_backing_store := store; zf_members := [];
          zf_end := None; zf_compression_method := 0 |}.

Definition ZipFile_finish (now : tm) (uuid : list Z) (self : ZipFile) : option ZipFile :=
  '(_, self) ← ZipFile_load_from_backing_store now self;
  urn ← AFFObject_finish uuid (zf_urn self);
  Some {| zf_urn := urn; zf_write := zf_write self;
          zf_backing_store := zf_backing_store self; zf_members := zf_members self;
          zf_end := zf_end self; zf_compression_method := zf_compression_method self |}.

(** ** Members *)

(** The index of the first member with this name; a member without a name is a NULL
    pointer. *)
Fixpoint find_member (name : list Z) (segs : list ZipSegment) (i : nat)
  : option (option nat) :=
  match segs with
  | [] => Some None
  | s :: segs =>
      value ← xs_value (zs_filename s);
      if bool_decide (cstr value = name) then Some (Some i) else find_member name segs (S i)
  end.

(** The member's index, [None] for NULL, and the volume. *)
Definition ZipFile_open_member (now : tm) (uuid : list Z) (self : ZipFile)
    (member : RDFURN) (write : bool) (method : Z) : option (option nat * ZipFile) :=
  block ← segment_name_from_URN member (zf_urn self);
  found ← find_member (cstr block) (zf_members self) 0;
  match found with
  | Some i => Some (Some i, self)
  | None =>
      if negb write then Some (None, self)
      else
        s ← ZipSegment_Con now (Some member) write;
        let s := {| zs_cd := zs_cd s; zs_urn := zs_urn s; zs_write := zs_write s;
                    zs_compression_method := method; zs_timestamp := zs_timestamp s;
                    zs_strm := zs_strm s; zs_next_in := zs_next_in s;
                    zs_offset_of_file_header := zs_offset_of_file_header s;
                    zs_filename := zs_filename s; zs_buffer := zs_buffer s;
                    zs_readptr := zs_readptr s |} in
        s ← (match XSDString_set (zs_filename s) block (zlen (cstr block) + 1) with
             | inr (Some n) => Some (with_filename s n)
             | inr None => None
             | inl _ => Some s
             end);
        '(err, s) ← ZipSegment_finish uuid true s;
        match err with
        | Some _ => Some (None, self)
        | None => Some (Some (length (zf_members self)),
                        with_members self (zf_members self ++ [s]))
        end
  end.

(** Operations on a member through its volume. *)
Definition member_write (self : ZipFile) (i : nat) (data : list Z)
  : option (Z * ZipFile) :=
  s ← zf_members self !! i;
  '(result, _, s) ← ZipSegment_write junk s data;
  Some (result, with_members self (<[i := s]> (zf_members self))).

Definition member_close (self : ZipFile) (i : nat) : option ZipFile :=
  s ← zf_members self !! i;
  '(_, s, store) ← ZipSegment_close junk s (zf_urn self) (Some (zf_backing_store self));
  store ← store;
  Some (with_members (with_store self store) (<[i := s]> (zf_members self))).

Definition member_read (self : ZipFile) (i : nat) (n : Z)
  : option (option (list Z) * ZipFile) :=
  s ← zf_members self !! i;
  '(bytes, s, store) ← ZipSegment_read junk s (Some (zf_backing_store self)) n;
  store ← store;
  Some (bytes, with_members (with_store self store) (<[i := s]> (zf_members self))).

(** [FileLikeObject_seek] to an absolute position. *)
Definition member_seek (self : ZipFile) (i : nat) (offset : Z) : option ZipFile :=
  s ← zf_members self !! i;
  Some (with_members self (<[i := with_readptr s
    (FileLikeObject_seek (zs_readptr s) 0 offset SEEK_SET)]> (zf_members self))).

End ZipFile.

Arguments ZipFile {FR} F.

(** * Writing the directory *)

(** The Zip64 extra field of a segment, with its header. *)
Definition cd_extra (off : Z) : list Z :=
  if off >? ZIP64_LIMIT then [1; 0; 8; 0] ++ le 8 off else [].

Section Directory.

Context `{FRL : ForeignLaws} `{FLL : FileLikeLaws F}.
Variable junk : nat -> Z.

(** The directory record of a segment. *)
Definition cd_header (s : ZipSegment) : CDFileHeader :=
  cd_entry s (zip64_extra [1; 0; 0; 0] (zs_offset_of_file_header s)).

Definition cd_record (s : ZipSegment) : list Z :=
  pack_fields cd_widths (cd_fields (cd_header s)) ++
  ztake (xs_length (zs_filename s)) (default [] (xs_value (zs_filename s))) ++
  cd_extra (zs_offset_of_file_header s).

(** The first four bytes of the [zip64_header] buffer. *)
Definition hdr_ok (hdr : list Z) : Prop := 4 <= zlen hdr /\ ztake 2 hdr = [1; 0].

Lemma zip64_extra_spec hdr off :
  hdr_ok hdr -> let hdr' := zip64_extra hdr off in
  hdr_ok hdr' /\ zlen hdr' = (if off >? ZIP64_LIMIT then 12 else 4) /\
  (off > ZIP64_LIMIT -> hdr' = cd_extra off).
Proof.
  intros [Hl H2]. unfold zip64_extra, cd_extra.
  assert (zlen (ztake 4 hdr) = 4) as H4 by (rewrite zlen_ztake; lia).
  assert (ztake 2 (ztake 4 hdr) = [1; 0]) as H24 by (rewrite ztake_ztake by lia; done).
  destruct (Z.gtb_spec off ZIP64_LIMIT) as [Hb|Hb].
  - rewrite zlen_app, zlen_le, H4. change (4 + Z.of_nat 8 - 4) with 8.
    assert (zover 2 (le 2 8) (ztake 4 hdr ++ le 8 off) = [1; 0; 8; 0] ++ le 8 off) as ->.
    { unfold zover. change (zlen (le 2 8)) with 2. rewrite ztake_app_le by lia.
      change (2 + 2) with 4. rewrite H24, zdrop_app_eq by done. done. }
    split_and!; [split; [rewrite zlen_app, zlen_le; done|done]| |done].
    by rewrite zlen_app, zlen_le.
  - split_and!; [by split; [lia|]|lia|]. intros ?. unfold ZIP64_LIMIT in *. lia.
Qed.

Lemma cd_entry_length s hdr hdr' : zlen hdr = zlen hdr' -> cd_entry s hdr = cd_entry s hdr'.
Proof. intros E. unfold cd_entry. by rewrite E. Qed.

(** A buffer that was written out and emptied. *)
Lemma sio_end_truncate b bytes : sio_end b bytes -> sio_end (StringIO_truncate b 0) [].
Proof.
  intros He. destruct (sio_end_read b bytes He) as [Hs _]. destruct He as (Hwf & Hb & Hr).
  pose proof (zlen_nonneg bytes).
  destruct (sio_truncate_spec b 0 Hwf) as [Hwf' Habs]; [lia|].
  pose proof (f_equal bs_contents Habs) as Hb'. pose proof (f_equal bs_pos Habs) as Hr'.
  cbn [sio_abs bs_contents bs_pos] in Hb', Hr'. split_and!; [done|by rewrite Hb', ztake_0|].
  rewrite Hr', Hr. change (zlen (@nil Z)) with 0. lia.
Qed.

Lemma flush_buffer_spec b bytes store c :
  sio_end b bytes -> fl_end store c ->
  exists store', flush_buffer b store = Some store' /\ fl_end store' (c ++ bytes).
Proof.
  intros He Hf. unfold flush_buffer. pose proof He as (_ & _ & ->).
  destruct (sio_end_read b bytes He) as [_ ->]. mred. eexists. split; [done|].
  by apply fl_put_end.
Qed.

Definition seg_named (s : ZipSegment) : Prop :=
  exists name, name_ok name /\ zs_filename s = name_string name.

Lemma zlen_cd_fields c : zlen (pack_fields cd_widths (cd_fields c)) = 46.
Proof. by rewrite zlen_pack. Qed.

Lemma cd_write_entry_spec s store c buffer bytes hdr :
  seg_named s -> fl_end store c -> sio_end buffer bytes -> zlen bytes <= 480000 ->
  hdr_ok hdr ->
  exists store' buffer' hdr' c' bytes',
    cd_write_entry junk s store buffer hdr =
      Some (with_cd s (cd_header s), store', buffer', hdr') /\
    fl_end store' c' /\ sio_end buffer' bytes' /\ zlen bytes' <= 480000 /\ hdr_ok hdr' /\
    c' ++ bytes' = (c ++ bytes) ++ cd_record s.
Proof.
  intros (name & Hn & Hfn) Hst Hb Hle Hh. unfold cd_write_entry.
  assert (exists store1 buffer1 c1 bytes1,
    (if sio_readptr buffer >? BUFF_SIZE * 10 then
       store ← flush_buffer buffer store; Some (store, StringIO_truncate buffer 0)
     else Some (store, buffer)) = Some (store1, buffer1) /\
    fl_end store1 c1 /\ sio_end buffer1 bytes1 /\ zlen bytes1 <= 409600 /\
    c1 ++ bytes1 = c ++ bytes) as (store1 & buffer1 & c1 & bytes1 & -> & Hst1 & Hb1 & Hle1 & <-).
  { pose proof Hb as (_ & _ & Hr). rewrite Hr. destruct (Z.gtb_spec (zlen bytes) (BUFF_SIZE * 10)).
    - destruct (flush_buffer_spec buffer bytes store c Hb Hst) as (st' & -> & Hst').
      exists st', (StringIO_truncate buffer 0), (c ++ bytes), []. rewrite app_nil_r.
      split_and!; try done. by apply sio_end_truncate with bytes.
    - exists store, buffer, c, bytes. split_and!; try done. }
  mred. set (off := zs_offset_of_file_header s).
  destruct (zip64_extra_spec hdr off Hh) as (Hh1 & Hz1 & Hx).
  destruct (zip64_extra_spec [1; 0; 0; 0] off) as (_ & Hz2 & _); [done|].
  set (hdr1 := zip64_extra hdr off) in *.
  assert (cd_entry s hdr1 = cd_header s) as ->.
  { apply cd_entry_length. exact (eq_trans Hz1 (eq_sym Hz2)). }
  cbn [with_cd zs_cd zs_filename]. rewrite Hfn. cbn [name_string xs_length xs_value default from_option].
  unfold id. pose proof (zlen_cd_fields (cd_header s)) as H46.
  assert (0 < zlen name <= 13650) as Hnl by (destruct Hn as (? & Hn & _); unfold BUFF_SIZE in Hn; lia).
  destruct (sio_end_write junk buffer1 bytes1 (pack_fields cd_widths (cd_fields (cd_header s))) Hb1)
    as (b2 & -> & Hb2); [unfold MAX_TALLOC_SIZE; lia|]. mred.
  destruct (Z.ltb_spec (zlen (name ++ [0; 0])) (zlen name + 1)) as [E|_].
  { rewrite zlen_app in E. change (zlen [0; 0]) with 2 in E. lia. }
  assert (zlen (ztake (zlen name + 1) (name ++ [0; 0])) <= 13651) as Hnl2
    by (rewrite zlen_ztake; lia).
  edestruct (sio_end_write junk b2) as (b3 & -> & Hb3);
    [exact Hb2|rewrite zlen_app; unfold MAX_TALLOC_SIZE; lia|]. mred.
  rewrite Hz1. set (nm := ztake (zlen name + 1) (name ++ [0; 0])) in *.
  assert (cd_record s = pack_fields cd_widths (cd_fields (cd_header s)) ++ nm ++ cd_extra off) as Hrec.
  { unfold cd_record. by rewrite Hfn. }
  rewrite Hrec. destruct (Z.gtb_spec off ZIP64_LIMIT) as [Hbig|Hsmall].
  - change (12 >? 4) with true. cbv iota. rewrite Hx by lia.
    assert (zlen (cd_extra off) = 12) as H12 by (rewrite <- Hx, Hz1 by lia; done).
    edestruct (sio_end_write junk b3) as (b4 & -> & Hb4);
      [exact Hb3|rewrite !zlen_app, H12; unfold MAX_TALLOC_SIZE; lia|]. mred.
    exists store1, b4. do 3 eexists. split; [reflexivity|].
    split_and!; [exact Hst1|exact Hb4|rewrite !zlen_app, H12; lia| |by rewrite <- !app_assoc].
    by rewrite <- Hx by lia.
  - change (4 >? 4) with false. cbv iota. mred. exists store1, b3. do 3 eexists.
    split; [reflexivity|].
    split_and!; [exact Hst1|exact Hb3|rewrite !zlen_app; lia|done|].
    unfold cd_extra. destruct (Z.gtb_spec off ZIP64_LIMIT); [lia|].
    by rewrite app_nil_r, <- !app_assoc.
Qed.

Definition seg_is_closed (s : ZipSegment) : bool :=
  match zs_buffer s with None => true | Some _ => false end.

Definition closed_members (segs : list ZipSegment) : list ZipSegment :=
  List.filter seg_is_closed segs.

(** The directory: the records of the closed members, in order. *)
Definition cd_bytes (segs : list ZipSegment) : list Z :=
  concat (map cd_record (closed_members segs)).

Lemma u16_i32_add a n : u16 (i32 a + n) = u16 (a + n).
Proof. unfold u16, i32. dlia. Qed.

Lemma cd_loop_spec segs store c buffer bytes hdr total :
  Forall seg_named (closed_members segs) -> fl_end store c -> sio_end buffer bytes ->
  zlen bytes <= 480000 -> hdr_ok hdr ->
  exists segs' store' buffer' total' c' bytes',
    cd_loop junk segs store buffer hdr total = Some (segs', store', buffer', total') /\
    fl_end store' c' /\ sio_end buffer' bytes' /\ zlen bytes' <= 480000 /\
    u16 total' = u16 (total + zlen (closed_members segs)) /\
    c' ++ bytes' = (c ++ bytes) ++ cd_bytes segs.
Proof.
  unfold cd_bytes. revert store c buffer bytes hdr total.
  induction segs as [|s segs IH]; intros store c buffer bytes hdr total Hn Hst Hb Hl Hh.
  { exists [], store, buffer, total, c, bytes. split_and!; try done; simpl.
    - by rewrite Z.add_0_r.
    - by rewrite app_nil_r. }
  simpl in *. unfold closed_members in *. simpl in *. unfold seg_is_closed in *.
  destruct (zs_buffer s) as [b0|].
  - destruct (IH store c buffer bytes hdr total Hn Hst Hb Hl Hh)
      as (segs' & st' & b' & t' & c' & bs' & -> & H'). mred.
    by exists (s :: segs'), st', b', t', c', bs'.
  - apply Forall_cons in Hn as [Hn1 Hn].
    destruct (cd_write_entry_spec s store c buffer bytes hdr Hn1 Hst Hb Hl Hh)
      as (st1 & b1 & h1 & c1 & bs1 & -> & Hst1 & Hb1 & Hl1 & Hh1 & Heq). mred.
    destruct (IH st1 c1 b1 bs1 h1 (i32 (total + 1)) Hn Hst1 Hb1 Hl1 Hh1)
      as (segs' & st' & b' & t' & c' & bs' & -> & Hst' & Hb' & Hl' & Ht' & Heq'). mred.
    eexists _, st', b', t', c', bs'. split; [reflexivity|]. split_and!; try done.
    + rewrite Ht', u16_i32_add, zlen_cons. f_equal. lia.
    + by rewrite Heq', Heq, <- !app_assoc.
Qed.

(** The end record of a volume that needs no Zip64 structures, with its comment. *)
Definition end_of (z : ZipFile F) : EndCentralDirectory :=
  end_record (zlen (closed_members (zf_members z))) (zlen (cd_bytes (zf_members z)))
    (u32 (zlen (fl_contents (zf_backing_store z)))) (zf_urn z).

Definition end_bytes (z : ZipFile F) : list Z :=
  pack_fields ecd_widths (ecd_fields (end_of z)) ++
  ztake (comment_len (end_of z)) (urn_value (zf_urn z) ++ [0]).

Lemma write_zip64_CD_spec b bytes off dir total :
  sio_end b bytes -> zlen bytes <= 480000 ->
  exists b' x, write_zip64_CD junk b off dir total = Some b' /\ sio_end b' (bytes ++ x) /\
    zlen x = 76.
Proof.
  intros Hb Hl. unfold write_zip64_CD.
  edestruct (sio_end_write junk b) as (b1 & -> & Hb1); [exact Hb| |].
  { rewrite zlen_pack by done. change (pack_size end64_widths) with 56.
    unfold MAX_TALLOC_SIZE. lia. }
  mred. edestruct (sio_end_write junk b1) as (b2 & -> & Hb2); [exact Hb1| |].
  { rewrite zlen_app, !zlen_pack by done. change (pack_size end64_widths) with 56.
    change (pack_size loc_widths) with 20. unfold MAX_TALLOC_SIZE. lia. }
  mred. eexists b2, _. split; [done|]. rewrite <- app_assoc in Hb2. split; [exact Hb2|].
  by rewrite zlen_app, !zlen_pack.
Qed.

Lemma ZipFile_close_spec z :
  zf_write z = true -> fl_ok (zf_backing_store z) ->
  Forall seg_named (closed_members (zf_members z)) ->
  exists z' post, ZipFile_close junk z = Some (1, z') /\
    fl_end (zf_backing_store z') (fl_contents (zf_backing_store z) ++ post) /\
    (zlen (fl_contents (zf_backing_store z)) <= ZIP64_LIMIT ->
     post = cd_bytes (zf_members z) ++ end_bytes z).
Proof.
  intros Hw Hok Hn. unfold ZipFile_close. rewrite Hw. cbn [negb].
  destruct (sio_preallocate junk (10 * BUFF_SIZE)) as (r & b0 & -> & Hwf & Hb & Hr & _); [done|].
  assert (sio_end (StringIO_truncate b0 0) []) as Hb0 by by split_and!.
  destruct (fl_seek_end _ Hok) as (st1 & -> & Hst1). set (c := fl_contents (zf_backing_store z)) in *.
  destruct (cd_loop_spec (zf_members z) st1 c _ [] [1; 0; 0; 0] 0 Hn Hst1 Hb0)
    as (segs' & st2 & b2 & t & c2 & bs2 & -> & Hst2 & Hb2 & Hl2 & Ht & Heq); [done|done|].
  mred. rewrite app_nil_r in Heq. pose proof Hst2 as (_ & _ & ->).
  destruct (sio_end_read b2 bs2 Hb2) as [-> _]. pose proof (f_equal zlen Heq) as Hlen.
  rewrite !zlen_app in Hlen.
  set (big := zlen c >? ZIP64_LIMIT).
  assert (exists b3 x, (if big then write_zip64_CD junk b2 (zlen c2 + zlen bs2) (zlen c) t
      else Some b2) = Some b3 /\ sio_end b3 (bs2 ++ x) /\ zlen x <= 76 /\
      (big = false -> x = [])) as (b3 & x & -> & Hb3 & Hx & Hx0).
  { destruct big.
    - destruct (write_zip64_CD_spec b2 bs2 (zlen c2 + zlen bs2) (zlen c) t Hb2 Hl2)
        as (b3 & x & -> & Hb3 & Hx). exists b3, x. by rewrite Hx.
    - exists b2, []. by rewrite app_nil_r. }
  mred. set (e := end_record t _ _ _).
  edestruct (sio_end_write junk b3) as (b4 & -> & Hb4); [exact Hb3| |].
  { rewrite zlen_app, zlen_pack by done. change (pack_size ecd_widths) with 22.
    unfold MAX_TALLOC_SIZE. lia. }
  mred. edestruct (sio_end_write junk b4) as (b5 & -> & Hb5); [exact Hb4| |].
  { rewrite !zlen_app, zlen_pack, zlen_ztake by done. change (pack_size ecd_widths) with 22.
    assert (comment_len e < 65536) by (apply Z.mod_pos_bound; lia).
    unfold MAX_TALLOC_SIZE. lia. }
  mred. destruct (flush_buffer_spec b5 _ st2 c2 Hb5 Hst2) as (st3 & -> & Hst3). mred.
  rewrite !app_assoc, Heq, <- !app_assoc in Hst3.
  eexists _, _. split; [reflexivity|]. split; [exact Hst3|].
  intros Hsmall. assert (big = false) as E by (unfold big; rewrite Z.gtb_ltb; by apply Z.ltb_ge).
  rewrite (Hx0 E) in *. unfold end_bytes, e, end_of, end_record. fold c. rewrite E.
  rewrite Ht, Z.add_0_l, Hlen. by replace (zlen c + zlen (cd_bytes (zf_members z)) - zlen c)
    with (zlen (cd_bytes (zf_members z))) by lia.
Qed.

End Directory.

(** * Finding the directory *)

Lemma scan_back_spec buffer i n :
  (0 < i <= n)%nat -> u32_at buffer i = END_MAGIC ->
  (forall j, (i < j <= n)%nat -> u32_at buffer j <> END_MAGIC) -> scan_back buffer n = i.
Proof.
  intros [Hi Hn] Hm Hno. induction n as [|n IH]; [lia|]. simpl.
  destruct (Z.eqb_spec (u32_at buffer (S n)) END_MAGIC) as [E|E].
  - destruct (decide (i = S n)) as [->|]; [done|]. by destruct (Hno (S n)); [lia|].
  - destruct (decide (i = S n)) as [->|]; [done|]. apply IH; [lia|].
    intros j Hj. apply Hno. lia.
Qed.

Lemma u32_at_lookup r k :
  bytes_ok r -> (k + 4 <= length r)%nat -> u32_at r k = END_MAGIC ->
  r !! k = Some 80 /\ r !! (k + 1)%nat = Some 75 /\ r !! (k + 2)%nat = Some 5 /\
  r !! (k + 3)%nat = Some 6.
Proof.
  intros Hb Hl Hm. unfold u32_at in Hm.
  assert (take 4 (drop k r) = [80; 75; 5; 6]) as E.
  { rewrite <- (le_unle (take 4 (drop k r))).
    - rewrite Hm. rewrite length_take, length_drop. by replace (4 `min` _)%nat with 4%nat by lia.
    - by apply Forall_take, Forall_drop. }
  assert (forall j, (j < 4)%nat -> r !! (k + j)%nat = [80; 75; 5; 6] !! j) as Hj.
  { intros j Hj. rewrite <- E, lookup_take by done. rewrite lookup_drop. case_decide; [done|lia]. }
  rewrite <- (Nat.add_0_r k) at 1. by rewrite !Hj by lia.
Qed.

(** The bytes that follow the end record hold no second magic. *)
Lemma end_no_magic n0 n1 s0 s1 o0 o1 c0 c1 u k :
  let r := [80; 75; 5; 6; 0; 0; 0; 0; n0; n1; n0; n1; s0; s1; 0; 0; o0; o1; 0; 0; c0; c1] ++ u in
  bytes_ok r -> n1 < 75 -> Forall (fun b => b = 0 \/ 32 <= b) u -> u !! 0%nat = Some 97 ->
  (0 < k)%nat -> (k + 4 <= length r)%nat -> u32_at r k <> END_MAGIC.
Proof.
  intros r Hb Hn Hu Hu0 Hk Hl Hm. unfold r in Hm, Hb, Hl.
  apply u32_at_lookup in Hm as (H1 & H2 & H3 & H4); [|done|done].
  destruct (decide (k < 20)%nat) as [Hlt|Hge].
  - do 20 (destruct k as [|k]; [cbn in H1, H2, H3, H4; simplify_eq; lia|]). lia.
  - destruct (decide (k = 21)%nat) as [->|Hne].
    { rewrite lookup_app_r in H2 by (simpl; lia). change (u !! 0%nat = Some 75) in H2. congruence. }
    rewrite lookup_app_r in H3 by (simpl; lia).
    rewrite Forall_lookup in Hu. specialize (Hu _ _ H3). lia.
Qed.

(** URNs that are written as the comment of a volume and read back. *)
Definition vol_ok (vol : RDFURN) : Prop :=
  RDFURN_copy vol = Some vol /\ ztake (zlen FQN) (urn_value vol) = FQN /\
  Forall (fun b => 32 <= b < 256) (urn_value vol) /\ zlen (urn_value vol) < BUFF_SIZE.

#[export] Instance vol_ok_dec vol : Decision (vol_ok vol).
Proof. unfold vol_ok. apply _. Defined.

Lemma vol_ok_cstring vol : vol_ok vol -> cstring (urn_value vol).
Proof. intros (_ & _ & Hv & _). eapply Forall_impl; [exact Hv|]. simpl. lia. Qed.

Lemma vol_ok_prefix vol : vol_ok vol -> exists u, urn_value vol = FQN ++ u.
Proof.
  intros (_ & Hv & _). exists (zdrop (zlen FQN) (urn_value vol)).
  rewrite <- Hv at 1. by rewrite ztake_zdrop.
Qed.

Lemma end_record_bytes n s o vol :
  0 <= n < 19200 -> 0 <= s < 65536 -> 0 <= o < 65536 -> zlen (urn_value vol) < 65535 ->
  exists n0 n1 s0 s1 o0 o1 c0 c1,
    pack_fields ecd_widths (ecd_fields (end_record n s o vol)) =
      [80; 75; 5; 6; 0; 0; 0; 0; n0; n1; n0; n1; s0; s1; 0; 0; o0; o1; 0; 0; c0; c1] /\
    n1 < 75.
Proof.
  intros Hn Hs Ho Hv. pose proof (zlen_nonneg (urn_value vol)).
  cbn [ecd_fields end_record ecd_magic number_of_this_disk disk_with_cd
    total_entries_in_cd_on_disk total_entries_in_cd size_of_cd offset_of_cd comment_len
    pack_fields ecd_widths]. rewrite !u16_small, (u32_small s) by lia.
  exists (n mod 256), (n / 256 mod 256), (s mod 256), (s / 256 mod 256), (o mod 256),
    (o / 256 mod 256), ((zlen (urn_value vol) + 1) mod 256), ((zlen (urn_value vol) + 1) / 256 mod 256).
  split; [|dlia]. cbn [le app].
  assert (s / 256 / 256 = 0) as -> by dlia. assert (o / 256 / 256 = 0) as -> by dlia. done.
Qed.

Lemma end_record_fits n s o vol :
  0 <= o < 4294967296 -> fits ecd_widths (ecd_fields (end_record n s o vol)).
Proof.
  intros Ho. cbn.
  repeat match goal with |- _ /\ _ => split | |- 0 <= _ /\ _ => idtac end;
    try (apply Z.mod_pos_bound; lia); try lia; done.
Qed.

Section Reading.

Context `{FRL : ForeignLaws} `{FLL : FileLikeLaws F}.
Variable junk : nat -> Z.

Lemma scan_back_volume pre n s o vol z :
  0 < zlen pre -> vol_ok vol -> 0 <= n < 19200 -> 0 <= s < 65536 -> 0 <= o < 65536 ->
  zlen (urn_value vol) < 65535 -> 4 <= zlen z -> Forall (fun b => b = 0) z ->
  let e := pack_fields ecd_widths (ecd_fields (end_record n s o vol)) in
  scan_back (pre ++ e ++ urn_value vol ++ 0 :: z) (length (pre ++ e ++ urn_value vol ++ [0])) =
  length pre.
Proof.
  intros Hp Hv Hn Hs Ho Hl Hz Hz0 e.
  destruct (end_record_bytes n s o vol Hn Hs Ho Hl)
    as (n0 & n1 & s0 & s1 & o0 & o1 & c0 & c1 & He & Hn1). fold e in He.
  assert (bytes_ok (e ++ urn_value vol ++ 0 :: z)) as Hb.
  { apply Forall_app; split.
    - unfold e. cbn [pack_fields ecd_widths ecd_fields]. rewrite !Forall_app. split_and!; try apply le_bytes_ok; constructor.
    - apply Forall_app; split; [by apply cstring_bytes_ok, vol_ok_cstring|].
      constructor; [done|]. eapply Forall_impl; [exact Hz0|]. by intros ? ->. }
  assert (forall k, u32_at (pre ++ e ++ urn_value vol ++ 0 :: z) (length pre + k) =
    u32_at (e ++ urn_value vol ++ 0 :: z) k) as Hat.
  { intros k. unfold u32_at. rewrite drop_app_ge by lia. do 3 f_equal. lia. }
  unfold zlen in Hp, Hz.
  apply scan_back_spec.
  - rewrite length_app. lia.
  - rewrite <- (Nat.add_0_r (length pre)), Hat, He. reflexivity.
  - intros j Hj. replace j with (length pre + (j - length pre))%nat by lia. rewrite Hat.
    revert Hb. rewrite He. intros Hb. rewrite He in Hj. apply end_no_magic; try done; try lia.
    + apply Forall_app; split.
      * destruct Hv as (_ & _ & Hv & _). eapply Forall_impl; [exact Hv|]. simpl. lia.
      * constructor; [by left|]. eapply Forall_impl; [exact Hz0|]. by left.
    + destruct (vol_ok_prefix vol Hv) as [u ->]. done.
    + revert Hj. rewrite !length_app. simpl. lia.
Qed.

Lemma find_EndCentralDirectory_spec z pre n s o vol :
  let e := end_record n s o vol in
  let c := pre ++ pack_fields ecd_widths (ecd_fields e) ++ urn_value vol ++ [0] in
  fl_ok (zf_backing_store z) -> fl_contents (zf_backing_store z) = c ->
  zlen c <= BUFF_SIZE - 4 -> 0 < zlen pre -> vol_ok vol -> 0 <= n < 19200 ->
  0 <= s < 65536 -> 0 <= o < 65536 ->
  exists store', find_EndCentralDirectory junk z =
      Some (o, {| zf_urn := vol; zf_write := zf_write z; zf_backing_store := store';
                  zf_members := zf_members z; zf_end := Some e;
                  zf_compression_method := zf_compression_method z |}) /\
    fl_at store' c o.
Proof.
  intros e c Hok Hc Hlen Hp Hv Hn Hs Ho. unfold find_EndCentralDirectory.
  destruct (fl_seek_end_law _ (- BUFF_SIZE) Hok) as (f1 & -> & Hok1 & Hc1 & Hp1).
  rewrite Z.max_l in Hp1 by (rewrite Hc; unfold BUFF_SIZE in *; lia).
  destruct (fl_read_law f1 (BUFF_SIZE - 4) Hok1) as (f2 & Hr2 & Hat2); [done|].
  rewrite Hp1, Hc1, Hc in Hr2, Hat2.
  assert (zread 0 (BUFF_SIZE - 4) c = c) as Ec by (unfold zread; rewrite zdrop_0, ztake_all by lia; done).
  rewrite Ec in Hr2, Hat2. rewrite Hr2. destruct Hat2 as (Hok2 & Hc2 & _).
  assert (zlen (urn_value vol) < 65535) as Hvl.
  { pose proof (zlen_nonneg (pack_fields ecd_widths (ecd_fields e))). unfold c in Hlen.
    rewrite !zlen_app in Hlen. change (zlen [0]) with 1 in Hlen. unfold BUFF_SIZE in *. lia. }
  set (zs := replicate (Z.to_nat (BUFF_SIZE - zlen c)) 0).
  assert (zover 0 c (replicate (Z.to_nat BUFF_SIZE) 0) =
    pre ++ pack_fields ecd_widths (ecd_fields e) ++ urn_value vol ++ 0 :: zs) as ->.
  { rewrite zover_0. unfold zdrop. rewrite drop_replicate. unfold c, zs.
    rewrite <- !app_assoc. cbn [app]. repeat f_equal. rewrite <- Z2Nat.inj_sub by apply zlen_nonneg. done. }
  pose proof (zlen_nonneg c).
  assert (scan_back (pre ++ pack_fields ecd_widths (ecd_fields e) ++ urn_value vol ++ 0 :: zs)
    (length c) = length pre) as ->.
  { apply scan_back_volume; try done; unfold zs.
    - rewrite zlen_replicate. lia.
    - by apply Forall_replicate. }
  change (Z.of_nat (length pre)) with (zlen pre).
  assert (zlen c = zlen pre + 22 + zlen (urn_value vol) + 1) as Hlc.
  { unfold c. rewrite !zlen_app, zlen_pack by done. change (zlen [0]) with 1.
    change (pack_size ecd_widths) with 22. lia. }
  change (pack_size ecd_widths) with 22. pose proof (zlen_nonneg (urn_value vol)).
  destruct (Z.eqb_spec (zlen pre) 0); [lia|].
  destruct (Z.ltb_spec (zlen c - zlen pre) 22); [lia|]. cbn [orb].
  rewrite drop_app_length, unpack_pack, ecd_of_fields by (apply end_record_fits; lia).
  rewrite app_assoc, zdrop_app_eq by (rewrite zlen_app, zlen_pack by done; reflexivity).
  assert (comment_urn (zf_urn z) e (urn_value vol ++ 0 :: zs) = Some vol) as ->.
  { unfold comment_urn. pose proof Hv as (Hcopy & Hpre & _).
    destruct (vol_ok_prefix vol Hv) as [u Hu].
    rewrite cstr_app_nul by by apply vol_ok_cstring.
    assert (zlen (urn_value vol) = 7 + zlen u) as Hul by (rewrite Hu, zlen_app; done).
    rewrite (bool_decide_true (ztake 4 _ = _)) by by rewrite Hu.
    rewrite bool_decide_true by by rewrite Hu.
    assert ((comment_len e >? 4) = true) as ->.
    { unfold e. cbn [comment_len end_record]. rewrite u16_small by lia.
      apply Z.gtb_gt. pose proof (zlen_nonneg u). lia. }
    done. }
  mred. cbn [offset_of_cd end_record]. fold e.
  assert (offset_of_cd e = o) as -> by done.
  destruct (Z.eqb_spec o (u32 (-1))) as [E|_]; [by vm_compute in E; lia|].
  destruct (fl_seek_set_law f2 o Hok2) as (f3 & -> & Hat3); [lia|].
  rewrite i32_small by lia. exists f3. split; [done|]. by rewrite <- Hc2.
Qed.

(** ** Loading the entries *)

(** A member whose directory record needs no Zip64 field. *)
Definition seg_plain (s : ZipSegment) : Prop :=
  seg_named s /\ 0 <= zs_offset_of_file_header s <= ZIP64_LIMIT /\
  exists method fsize csize, cd_ok (zs_cd s) method fsize csize.

(** The segment that is made of the record of [s]. *)
Definition loaded_from (s l : ZipSegment) : Prop :=
  exists name, name_ok name /\ zs_filename s = name_string name /\
    zs_filename l = {| xs_value := Some (name ++ [0]); xs_length := zlen name |} /\
    zs_cd l = cd_header s /\ file_name_length (zs_cd l) = zlen name + 1 /\
    zs_offset_of_file_header l = zs_offset_of_file_header s /\
    zs_buffer l = None /\ zs_readptr l = 0 /\
    zs_timestamp l = mktime (tm_of_dos (dosdate (zs_cd s)) (dostime (zs_cd s))).

Lemma seg_plain_record s name :
  zs_filename s = name_string name -> 0 <= zs_offset_of_file_header s <= ZIP64_LIMIT ->
  cd_record s = pack_fields cd_widths (cd_fields (cd_header s)) ++ name ++ [0].
Proof.
  intros Hfn Ho. unfold cd_record, cd_extra. rewrite Hfn.
  destruct (Z.gtb_spec (zs_offset_of_file_header s) ZIP64_LIMIT); [lia|].
  cbn [name_string xs_value xs_length default from_option]. unfold id.
  rewrite app_nil_r. do 2 f_equal. change [0; 0] with ([0] ++ [0]).
  by rewrite app_assoc, ztake_app_eq by by rewrite zlen_app.
Qed.

Lemma cd_header_plain s name method fsize csize :
  name_ok name -> zs_filename s = name_string name ->
  0 <= zs_offset_of_file_header s <= ZIP64_LIMIT -> cd_ok (zs_cd s) method fsize csize ->
  cd_ok (cd_header s) method fsize csize /\
  file_name_length (cd_header s) = zlen name + 1 /\
  relative_offset_local_header (cd_header s) = zs_offset_of_file_header s.
Proof.
  intros (Hn0 & Hn & _) Hfn Ho [Hf Hm He Hme Hfs Hcs]. unfold BUFF_SIZE, ZIP64_LIMIT in *.
  destruct (zip64_extra_spec [1; 0; 0; 0] (zs_offset_of_file_header s)) as (_ & Hz & _); [done|].
  unfold cd_header, cd_entry. revert Hz. unfold ZIP64_LIMIT.
  destruct (Z.gtb_spec (zs_offset_of_file_header s) 2147483647); [lia|]. intros ->.
  rewrite Hfn. cbn [name_string xs_length]. rewrite u16_small, u32_small by lia.
  split; [|done]. split; try done. cbn in *. change (4 >? 4) with false. cbv iota.
  repeat match goal with |- _ /\ _ => split end; try tauto; lia.
Qed.

Lemma load_entry_spec now s store pre post :
  seg_plain s -> fl_at store (pre ++ cd_record s ++ post) (zlen pre) ->
  exists l store', load_entry_from_CD junk now store = Some (Some l, store') /\
    loaded_from s l /\ fl_at store' (pre ++ cd_record s ++ post) (zlen (pre ++ cd_record s)).
Proof.
  intros ((name & Hn & Hfn) & Ho & method & fs & cs & Hcd) Hat.
  destruct (cd_header_plain s name method fs cs Hn Hfn Ho Hcd) as (Hcd' & Hnl & Hoff).
  assert (0 < zlen name <= 13650) as Hnb
    by (destruct Hn as (? & Hnb & _); unfold BUFF_SIZE in *; lia).
  unfold load_entry_from_CD. cbn [ZipSegment_Con AFFObject_Con]. mred.
  rewrite (seg_plain_record s name Hfn Ho), <- app_assoc in Hat |- *.
  destruct (fl_read_at store (pack_size cd_widths) pre _ _ Hat) as (f1 & -> & Hat1);
    [by rewrite zlen_pack|].
  rewrite zlen_pack, Z.eqb_refl by done. cbn [negb].
  assert (unpack_fields cd_widths (pack_fields cd_widths (cd_fields (cd_header s))) = cd_fields (cd_header s)) as ->.
  { rewrite <- (app_nil_r (pack_fields _ _)). apply unpack_pack, Hcd'. }
  rewrite cd_of_fields, (cdo_magic _ _ _ _ Hcd'), Z.eqb_refl, Hnl. cbn [negb].
  rewrite Z.min_l by (unfold BUFF_SIZE; lia). rewrite app_assoc in Hat1 |- *.
  destruct (fl_read_at f1 (zlen name + 1) _ (name ++ [0]) post Hat1) as (f2 & -> & Hat2);
    [by rewrite zlen_app|].
  rewrite zlen_app, Z.eqb_refl. cbn [negb].
  assert (unescape_filename (read_local junk BUFF_SIZE ((name ++ [0]) ++ [0])) = Some name) as ->.
  { unfold read_local. rewrite zover_0, <- !app_assoc. cbn [app].
    rewrite <- (escape_legal name Hn) at 1.
    apply unescape_filename_text; [by apply name_ok_ascii|apply Hn]. }
  mred. eexists _, f2. split; [reflexivity|]. split; [|by rewrite <- !app_assoc in *].
  exists name. by split_and!.
Qed.

Lemma load_entries_spec now segs z pre post :
  Forall seg_plain segs ->
  fl_at (zf_backing_store z) (pre ++ concat (map cd_record segs) ++ post) (zlen pre) ->
  exists z' ls, load_entries junk now (length segs) z = Some z' /\
    zf_members z' = zf_members z ++ ls /\ Forall2 loaded_from segs ls /\
    zf_urn z' = zf_urn z /\ zf_write z' = zf_write z /\ fl_ok (zf_backing_store z') /\
    fl_contents (zf_backing_store z') = pre ++ concat (map cd_record segs) ++ post.
Proof.
  intros Hs. revert z pre. induction Hs as [|s segs Hs1 Hs IH]; intros z pre Hat.
  { exists z, []. rewrite app_nil_r. destruct Hat as (? & ? & _). by split_and!. }
  cbn [map concat] in Hat |- *. rewrite <- app_assoc in Hat |- *.
  destruct (load_entry_spec now s _ pre _ Hs1 Hat) as (l & st & Hl & Hlf & Hat1).
  cbn [length load_entries]. rewrite Hl. mred. rewrite app_assoc in Hat1 |- *.
  edestruct IH as (z' & ls & -> & Hm & Hf2 & Hu & Hw & Hok & Hc);
    [|exists z', (l :: ls)]; [exact Hat1|].
  cbn [zf_members zf_urn zf_write with_store] in *. rewrite Hm, <- app_assoc.
  split_and!; try done. by constructor.
Qed.

End Reading.
