(* ===== verification/ZipArchive.v ===== *)
(** A ZIP volume as an archive: what a client that opens, writes and closes
    segments, and a client that reads the volume later, can rely on.

    The abstract archive is a list of named entries.  Any interleaving of operations
    on the segments of a volume keeps [zip_inv]: the closed members are on the
    backing store, the open ones in memory, with the data of their entries. *)

From S2P Require Import Prelude.
From S2P Require Import Talloc.
From S2P Require Import StringIO.
From S2P Require Import Misc.
From S2P Require Import Url.
From S2P Require Import Rdf.
From S2P Require Import File.
From S2P Require Import ZipFormat.
From S2P Require Import ZipSegment.
From S2P Require Import ZipVolume.

(** ** The abstract archive *)

Record entry := {
  e_name : list Z;
  e_method : Z;
  e_data : list Z;
  e_closed : bool
}.

Inductive zip_op :=
| ZOpen (member : RDFURN) (method : Z)
| ZWrite (i : nat) (data : list Z)
| ZClose (i : nat).

(** Opening a name that exists gives the existing entry; a closed entry takes no more
    data. *)
Definition arc_step (vol : RDFURN) (es : list entry) (op : zip_op) : list entry :=
  match op with
  | ZOpen m method =>
      let name := RDFURN_relative_name m vol in
      if bool_decide (name ∈ e_name <$> es) then es
      else es ++ [{| e_name := name; e_method := method; e_data := []; e_closed := false |}]
  | ZWrite i d =>
      match es !! i with
      | Some e => if e_closed e then es
                  else <[i := {| e_name := e_name e; e_method := e_method e;
                                 e_data := e_data e ++ d; e_closed := false |}]> es
      | None => es
      end
  | ZClose i =>
      match es !! i with
      | Some e => <[i := {| e_name := e_name e; e_method := e_method e;
                            e_data := e_data e; e_closed := true |}]> es
      | None => es
      end
  end.

Definition arc_run (vol : RDFURN) (es : list entry) (ops : list zip_op) : list entry :=
  foldl (arc_step vol) es ops.

Section Session.

Context `{FR : Foreign} `{FL : FileLike F}.
Variable junk : nat -> Z.
Variable now : tm.
Variable uuid : list Z.

Definition zip_step (z : ZipFile F) (op : zip_op) : option (ZipFile F) :=
  match op with
  | ZOpen m method =>
      '(_, z) ← ZipFile_open_member now uuid z m true method; Some z
  | ZWrite i d => '(_, z) ← member_write junk z i d; Some z
  | ZClose i => member_close junk z i
  end.

Fixpoint zip_run (z : ZipFile F) (ops : list zip_op) : option (ZipFile F) :=
  match ops with
  | [] => Some z
  | op :: ops => z ← zip_step z op; zip_run z ops
  end.

(** A URN whose text a copy of it keeps. *)
Definition urn_normal (m : RDFURN) : Prop :=
  urn_value <$> RDFURN_copy m = Some (urn_value m).

(** What a client must respect: URNs in normal form whose names need no escaping, the
    two compression methods, segments that exist, a segment closed once, and the
    memory a segment may take. *)
Definition zip_op_ok (z : ZipFile F) (op : zip_op) : bool :=
  match op with
  | ZOpen m method =>
      bool_decide (urn_value <$> RDFURN_copy m = Some (urn_value m)) &&
      bool_decide (name_ok (RDFURN_relative_name m (zf_urn z))) &&
      ((method =? ZIP_STORED) || (method =? ZIP_DEFLATE))
  | ZWrite i d =>
      match zf_members z !! i with
      | Some s => seg_is_closed s || seg_room s d
      | None => false
      end
  | ZClose i =>
      match zf_members z !! i with Some s => seg_room s [] | None => false end
  end.

Fixpoint zip_ops_ok (z : ZipFile F) (ops : list zip_op) : bool :=
  match ops with
  | [] => true
  | op :: ops =>
      zip_op_ok z op &&
      match zip_step z op with Some z => zip_ops_ok z ops | None => true end
  end.

End Session.

(** The entries a reader of the volume can see. *)
Definition closed_entries (es : list entry) : list entry := List.filter e_closed es.

(** Opening a volume for reading on its backing store. *)
Definition zip_open_volume `{Foreign} `{FileLike F} (junk : nat -> Z) (now : tm)
    (uuid : list Z) (store : F) : option (ZipFile F) :=
  z ← ZipFile_Con None false store; ZipFile_finish junk now uuid z.

(** ** The invariant *)

Section Invariant.

Context `{FRL : ForeignLaws} `{FLL : FileLikeLaws F}.
Variable junk : nat -> Z.
Variable now : tm.
Variable uuid : list Z.

(** A closed member: its entry is on the store whose contents are [c]. *)
Definition seg_closed (c : list Z) (s : ZipSegment) (e : entry) : Prop :=
  exists comp pre post,
    c = pre ++ entry_bytes (zs_cd s) (e_name e) comp ++ post /\
    zs_offset_of_file_header s = zlen pre /\ zs_buffer s = None /\
    zs_filename s = name_string (e_name e) /\
    cd_ok (zs_cd s) (e_method e) (zlen (e_data e)) (zlen comp) /\
    encodes (e_method e) comp (e_data e) /\
    2 * zlen (e_data e) < MAX_TALLOC_SIZE /\ zlen comp < MAX_TALLOC_SIZE.

Definition seg_inv (vol : RDFURN) (c : list Z) (s : ZipSegment) (e : entry) : Prop :=
  name_ok (e_name e) /\
  if e_closed e then seg_closed c s e
  else exists bytes, seg_open vol s (e_name e) (e_method e) (e_data e) bytes.

Record zip_inv (vol : RDFURN) (z : ZipFile F) (es : list entry) : Prop := {
  zi_urn : zf_urn z = vol;
  zi_write : zf_write z = true;
  zi_ok : fl_ok (zf_backing_store z);
  zi_members : Forall2 (seg_inv vol (fl_contents (zf_backing_store z))) (zf_members z) es;
  zi_nodup : NoDup (e_name <$> es)
}.

Lemma seg_inv_append vol c x s e : seg_inv vol c s e -> seg_inv vol (c ++ x) s e.
Proof.
  intros [Hn Hs]. split; [done|]. destruct (e_closed e); [|done].
  destruct Hs as (comp & pre & post & -> & Hs). exists comp, pre, (post ++ x).
  by rewrite <- !app_assoc.
Qed.

Lemma seg_inv_filename vol c s e :
  seg_inv vol c s e -> zs_filename s = name_string (e_name e).
Proof.
  intros [Hn Hs]. destruct (e_closed e).
  - destruct Hs as (? & ? & ? & ? & ? & ? & ? & _). done.
  - destruct Hs as (bytes & Hs). apply (so_filename _ _ _ _ _ _ Hs).
Qed.

Lemma seg_inv_is_closed vol c s e : seg_inv vol c s e -> seg_is_closed s = e_closed e.
Proof.
  intros [Hn Hs]. unfold seg_is_closed. destruct (e_closed e).
  - by destruct Hs as (? & ? & ? & ? & ? & -> & _).
  - destruct Hs as (bytes & Hs). by destruct (so_buffer _ _ _ _ _ _ Hs) as (b & -> & _).
Qed.

(** Looking a name up among segments that carry the names [ns]. *)
Definition carries (s : ZipSegment) (n : list Z) : Prop :=
  exists v, xs_value (zs_filename s) = Some v /\ cstr v = n.

Lemma find_member_spec name segs ns k :
  Forall2 carries segs ns -> exists r, find_member name segs k = Some r /\
  match r with
  | None => name ∉ ns
  | Some j => exists i, j = (k + i)%nat /\ ns !! i = Some name
  end.
Proof.
  intros Hf. revert k. induction Hf as [|s n segs ns (v & Hv & Hn) Hf IH]; intros k.
  { exists None. split; [done|]. apply not_elem_of_nil. }
  simpl. rewrite Hv. mred. rewrite Hn. case_bool_decide as Heq.
  - exists (Some k). split; [done|]. exists 0%nat. split; [lia|]. simpl. congruence.
  - destruct (IH (S k)) as (r & -> & Hr). exists r. split; [done|]. destruct r as [j|].
    + destruct Hr as (i & -> & Hi). exists (S i). split; [lia|done].
    + apply not_elem_of_cons. split; [congruence|done].
Qed.

Lemma zip_inv_carries vol z es :
  zip_inv vol z es -> Forall2 carries (zf_members z) (e_name <$> es).
Proof.
  intros [_ _ _ Hm _]. apply Forall2_fmap_r. eapply Forall2_impl; [exact Hm|].
  intros s e Hs. pose proof Hs as [Hn _]. unfold carries. cbn.
  rewrite (seg_inv_filename _ _ _ _ Hs). eexists. split; [done|]. by apply cstr_name.
Qed.

(** ** Every operation keeps the invariant *)

Lemma new_segment_cd_ok method :
  method = ZIP_STORED \/ method = ZIP_DEFLATE ->
  cd_ok {| cd_magic := CD_MAGIC; version_made_by := 791; version_needed := 20;
           cd_flags := 8; cd_compression_method := u16 method; dostime := dostime_of now;
           dosdate := dosdate_of now; cd_crc32 := 0; compress_size := 0; file_size := 0;
           file_name_length := 0; extra_field_len := 0; file_comment_length := 0;
           disk_number_start := 0; internal_file_attr := 0;
           external_file_attr := u32 (Z.shiftl 420 16); relative_offset_local_header := 0 |}
    method 0 0.
Proof.
  intros Hm. split; try done; [|by destruct Hm as [-> | ->]]. cbn.
  repeat match goal with |- _ /\ _ => split end;
    try (apply Z.mod_pos_bound; lia); try lia; try done.
Qed.

Lemma finish_normal m : RDFURN_copy m = Some m -> AFFObject_finish uuid m = Some m.
Proof.
  unfold AFFObject_finish, RDFURN_copy, RDFURN_set.
  destruct (URLParse_parse _) as [p|]; [|done]. cbn. by intros [= <-].
Qed.

Lemma copy_normal m : urn_normal m ->
  exists m', RDFURN_copy m = Some m' /\ AFFObject_finish uuid m' = Some m' /\
    forall vol, RDFURN_relative_name m' vol = RDFURN_relative_name m vol.
Proof.
  unfold urn_normal, AFFObject_finish, RDFURN_copy, RDFURN_set, RDFURN_relative_name.
  destruct (URLParse_parse _) as [p|]; [|done]. cbn. intros [= ->]. by eexists.
Qed.

(** What [ZipFile_open_member] creates. *)
Lemma open_new_member vol (z : ZipFile F) m method :
  zf_urn z = vol -> urn_normal m -> name_ok (RDFURN_relative_name m vol) ->
  method = ZIP_STORED \/ method = ZIP_DEFLATE ->
  find_member (RDFURN_relative_name m vol) (zf_members z) 0 = Some None ->
  exists s, ZipFile_open_member now uuid z m true method =
      Some (Some (length (zf_members z)), with_members z (zf_members z ++ [s])) /\
    seg_open vol s (RDFURN_relative_name m vol) method [] [].
Proof.
  intros Hu Hcopy Hn Hm Hfind. unfold ZipFile_open_member.
  rewrite Hu, segment_name_legal by done. mred. rewrite cstr_name, Hfind by done. mred.
  destruct (copy_normal m Hcopy) as (m' & Hm' & Hfin & Hrel).
  cbn [negb]. unfold ZipSegment_Con. cbn [AFFObject_Con]. rewrite Hm'. mred.
  cbn [zs_filename]. rewrite XSDString_set_name by done. mred.
  unfold ZipSegment_finish. cbn [zs_urn with_filename].
  rewrite Hfin. mred. cbn [negb zs_write with_cd zs_compression_method with_filename].
  destruct deflateInit2_law as (st & Hst & Hh).
  pose proof (new_segment_cd_ok method Hm) as Hcd.
  destruct Hm as [-> | ->].
  - change (ZIP_STORED =? ZIP_DEFLATE) with false. change (ZIP_STORED =? ZIP_STORED) with true.
    cbv iota. mred. eexists. split; [reflexivity|].
    split; cbn; eauto. exists StringIO_constructor. split; [done|]. apply sio_end_new.
  - change (ZIP_DEFLATE =? ZIP_DEFLATE) with true. cbv iota. rewrite Hst. mred.
    eexists. split; [reflexivity|]. split; cbn; eauto 7.
    exists StringIO_constructor. split; [done|]. apply sio_end_new.
Qed.

Lemma open_fresh vol z es m method :
  zip_inv vol z es -> urn_normal m -> name_ok (RDFURN_relative_name m vol) ->
  method = ZIP_STORED \/ method = ZIP_DEFLATE ->
  RDFURN_relative_name m vol ∉ e_name <$> es ->
  exists z', ZipFile_open_member now uuid z m true method = Some (Some (length es), z') /\
    zip_inv vol z' (es ++ [{| e_name := RDFURN_relative_name m vol; e_method := method;
                              e_data := []; e_closed := false |}]).
Proof.
  intros Hz Hcopy Hn Hme Hnew. pose proof (zip_inv_carries _ _ _ Hz) as Hcar.
  destruct Hz as [Hu Hw Hst Hm Hd].
  destruct (find_member_spec (RDFURN_relative_name m vol) _ _ 0 Hcar) as ([j|] & Hfind & Hr).
  { destruct Hr as (i & _ & Hi). destruct Hnew. by apply list_elem_of_lookup_2 with i. }
  destruct (open_new_member vol z m method Hu Hcopy Hn Hme Hfind) as (s & -> & Hs).
  rewrite (Forall2_length _ _ _ Hm). eexists. split; [reflexivity|]. split; try done; cbn.
  - apply Forall2_app; [done|]. constructor; [|done]. split; [done|]. by exists [].
  - rewrite fmap_app. apply NoDup_app. split_and!; [done| |apply NoDup_singleton].
    intros x Hx Hx'%list_elem_of_singleton. cbn in Hx'. congruence.
Qed.

Lemma open_step vol z es m method :
  zip_inv vol z es -> zip_op_ok z (ZOpen m method) = true ->
  exists z', zip_step junk now uuid z (ZOpen m method) = Some z' /\
    zip_inv vol z' (arc_step vol es (ZOpen m method)).
Proof.
  intros Hz Hok. pose proof (zip_inv_carries _ _ _ Hz) as Hcar.
  destruct Hz as [Hu Hw Hst Hm Hd]. cbn in Hok |- *. rewrite Hu in Hok.
  apply andb_prop in Hok as [[Hcopy%bool_decide_eq_true Hn%bool_decide_eq_true]%andb_prop Hme].
  destruct (find_member_spec (RDFURN_relative_name m vol) _ _ 0 Hcar) as ([j|] & Hfind & Hr).
  - destruct Hr as (i & -> & Hi). unfold ZipFile_open_member.
    rewrite Hu, segment_name_legal by done. mred. rewrite cstr_name, Hfind by done. mred.
    eexists. split; [reflexivity|]. rewrite bool_decide_true; [done|].
    by apply list_elem_of_lookup_2 with i.
  - destruct (open_fresh vol z es m method) as (z' & -> & Hz'); try done.
    { apply orb_prop in Hme as [?%Z.eqb_eq|?%Z.eqb_eq]; tauto. }
    mred. exists z'. split; [done|]. by rewrite bool_decide_false.
Qed.

Lemma fmap_name_insert (es : list entry) i e e' :
  es !! i = Some e -> e_name e' = e_name e -> e_name <$> <[i := e']> es = e_name <$> es.
Proof.
  intros Hi He. rewrite list_fmap_insert, He. apply list_insert_id.
  by rewrite list_lookup_fmap, Hi.
Qed.

Lemma write_step vol z es i d :
  zip_inv vol z es -> zip_op_ok z (ZWrite i d) = true ->
  exists z', zip_step junk now uuid z (ZWrite i d) = Some z' /\
    zip_inv vol z' (arc_step vol es (ZWrite i d)).
Proof.
  intros [Hu Hw Hst Hm Hd] Hok. cbn in Hok |- *. unfold member_write.
  destruct (zf_members z !! i) as [s|] eqn:Hs; [|done]. mred.
  destruct (Forall2_lookup_l _ _ _ _ _ Hm Hs) as (e & He & Hse). rewrite He.
  rewrite (seg_inv_is_closed _ _ _ _ Hse) in Hok. pose proof Hse as [Hn Hse'].
  destruct (e_closed e) eqn:Hc.
  - assert (exists r err, ZipSegment_write junk s d = Some (r, err, s)) as (r & err & ->).
    { destruct Hse' as (? & ? & ? & ? & ? & Hb & _). unfold ZipSegment_write.
      rewrite Hb. destruct (zlen d =? 0); eauto. }
    mred. eexists. split; [reflexivity|]. rewrite list_insert_id by done. by split.
  - destruct Hse' as (bytes & Hso).
    destruct (ZipSegment_write_open junk _ _ _ _ _ _ d Hso Hok) as (r & s' & bytes' & -> & Hso').
    mred. eexists. split; [reflexivity|]. split; try done; cbn.
    + apply Forall2_insert; [done|]. split; [done|]. by exists bytes'.
    + by rewrite (fmap_name_insert es i e) by done.
Qed.

Lemma close_step vol z es i :
  zip_inv vol z es -> zip_op_ok z (ZClose i) = true ->
  exists z', zip_step junk now uuid z (ZClose i) = Some z' /\
    zip_inv vol z' (arc_step vol es (ZClose i)).
Proof.
  intros [Hu Hw Hst Hm Hd] Hok. cbn in Hok |- *. unfold member_close.
  destruct (zf_members z !! i) as [s|] eqn:Hs; [|done]. mred.
  destruct (Forall2_lookup_l _ _ _ _ _ Hm Hs) as (e & He & Hn & Hse). rewrite He.
  destruct (e_closed e) eqn:Hc.
  { destruct Hse as (? & ? & ? & ? & ? & Hb & _). unfold seg_room in Hok. by rewrite Hb in Hok. }
  destruct Hse as (bytes & Hso). rewrite Hu.
  destruct (ZipSegment_close_open junk vol s _ _ _ _ (zf_backing_store z) Hso Hok Hn Hst)
    as (s' & st' & comp & -> & (Hok' & Hc' & _) & Hb & Hoff & Hcd & Hfn & Henc & Hd1 & Hd2).
  mred. eexists. split; [reflexivity|]. split; try done; cbn.
  - rewrite Hc'. apply Forall2_insert.
    + eapply Forall2_impl; [exact Hm|]. intros. by apply seg_inv_append.
    + split; [done|]. exists comp, (fl_contents (zf_backing_store z)), [].
      rewrite app_nil_r. by split_and!.
  - by rewrite (fmap_name_insert es i e) by done.
Qed.

(** The same for a stored entry whose size is known. *)
Lemma member_write_stored vol z es i e d :
  zip_inv vol z es -> es !! i = Some e -> e_closed e = false -> e_method e = ZIP_STORED ->
  2 * (zlen (e_data e) + zlen d) < MAX_TALLOC_SIZE ->
  exists r z', member_write junk z i d = Some (r, z') /\
    zip_inv vol z' (<[i := {| e_name := e_name e; e_method := e_method e;
                              e_data := e_data e ++ d; e_closed := false |}]> es).
Proof.
  intros Hz Hi Hc Hme Hm.
  destruct (Forall2_lookup_r _ _ _ _ _ (zi_members _ _ _ Hz) Hi) as (s & Hs & _ & Hso).
  rewrite Hc, Hme in Hso. destruct Hso as [bytes Hso].
  destruct (write_step vol z es i d Hz) as (z' & Hstep & Hz').
  { cbn. rewrite Hs, (seg_room_stored _ _ _ _ _ _ Hso Hm). by rewrite orb_true_r. }
  cbn in Hstep, Hz'. rewrite Hi, Hc in Hz'.
  destruct (member_write junk z i d) as [[r z1]|]; [|done]. cbn in Hstep.
  injection Hstep as <-. eauto.
Qed.

Lemma member_close_stored vol z es i e :
  zip_inv vol z es -> es !! i = Some e -> e_closed e = false -> e_method e = ZIP_STORED ->
  2 * zlen (e_data e) < MAX_TALLOC_SIZE ->
  exists z', member_close junk z i = Some z' /\
    zip_inv vol z' (<[i := {| e_name := e_name e; e_method := e_method e;
                              e_data := e_data e; e_closed := true |}]> es).
Proof.
  intros Hz Hi Hc Hme Hm.
  destruct (Forall2_lookup_r _ _ _ _ _ (zi_members _ _ _ Hz) Hi) as (s & Hs & _ & Hso).
  rewrite Hc, Hme in Hso. destruct Hso as [bytes Hso].
  destruct (close_step vol z es i Hz) as (z' & Hstep & Hz').
  { cbn. rewrite Hs. apply (seg_room_stored _ _ _ _ _ _ Hso). by rewrite Z.add_0_r. }
  cbn in Hstep, Hz'. rewrite Hi in Hz'. eauto.
Qed.

Lemma zip_step_inv vol z es op :
  zip_inv vol z es -> zip_op_ok z op = true ->
  exists z', zip_step junk now uuid z op = Some z' /\ zip_inv vol z' (arc_step vol es op).
Proof.
  destruct op; [apply open_step|apply write_step|apply close_step].
Qed.

Lemma zip_run_inv vol ops z es :
  zip_inv vol z es -> zip_ops_ok junk now uuid z ops = true ->
  exists z', zip_run junk now uuid z ops = Some z' /\ zip_inv vol z' (arc_run vol es ops).
Proof.
  revert z es. induction ops as [|op ops IH]; intros z es Hz Hok; [by exists z|].
  cbn in Hok |- *. apply andb_prop in Hok as [Hok1 Hok].
  destruct (zip_step_inv vol z es op Hz Hok1) as (z1 & Hstep & Hz1).
  rewrite Hstep in Hok |- *. mred. by apply IH.
Qed.

(** ** Closing the volume and reading it *)

Lemma closed_members_inv vol c segs es :
  Forall2 (seg_inv vol c) segs es ->
  Forall2 (fun s e => name_ok (e_name e) /\ seg_closed c s e) (closed_members segs)
    (closed_entries es).
Proof.
  intros Hf. unfold closed_members, closed_entries.
  induction Hf as [|s e segs es Hs Hf IH]; [constructor|]. simpl.
  rewrite (seg_inv_is_closed _ _ _ _ Hs). destruct Hs as [Hn Hs].
  destruct (e_closed e); [by constructor|done].
Qed.

Lemma seg_closed_plain c s e :
  name_ok (e_name e) -> seg_closed c s e -> zlen c <= ZIP64_LIMIT -> seg_plain s.
Proof.
  intros Hn (comp & pre & post & -> & Hoff & _ & Hfn & Hcd & _) Hl.
  rewrite zlen_app in Hl. pose proof (zlen_nonneg pre).
  pose proof (zlen_nonneg (entry_bytes (zs_cd s) (e_name e) comp ++ post)).
  split_and!; [by exists (e_name e)|lia|lia|]. eauto.
Qed.

Lemma closed_members_plain vol (z : ZipFile F) es :
  zip_inv vol z es -> zlen (fl_contents (zf_backing_store z)) <= ZIP64_LIMIT ->
  Forall seg_plain (closed_members (zf_members z)).
Proof.
  intros Hz Hl. apply Forall_forall. intros s [i Hi]%list_elem_of_lookup_1.
  pose proof (closed_members_inv _ _ _ _ (zi_members _ _ _ Hz)) as Hf.
  destruct (Forall2_lookup_l _ _ _ _ _ Hf Hi) as (e & _ & Hn & Hc).
  by apply seg_closed_plain with (fl_contents (zf_backing_store z)) e.
Qed.

Lemma zlen_cd_bytes segs :
  Forall seg_plain segs -> 46 * zlen segs <= zlen (concat (map cd_record segs)).
Proof.
  induction 1 as [|s segs ((name & Hn & Hfn) & Ho & _) Hs IH]; [done|].
  cbn [map concat]. rewrite zlen_cons, zlen_app, (seg_plain_record s name), zlen_app,
    zlen_cd_fields by done. pose proof (zlen_nonneg (name ++ [0])). lia.
Qed.

(** A closed entry takes room on the store. *)
Lemma seg_closed_nonempty c s e : seg_closed c s e -> 0 < zlen c.
Proof.
  intros (comp & pre & post & -> & _). unfold entry_bytes.
  rewrite !zlen_app, zlen_pack by done. change (pack_size fh_widths) with 30.
  zlen_facts. pose proof (zlen_nonneg pre). pose proof (zlen_nonneg (e_name e)).
  pose proof (zlen_nonneg comp). pose proof (zlen_nonneg post).
  pose proof (zlen_nonneg [0]). pose proof (zlen_nonneg (descriptor (zs_cd s))). lia.
Qed.

Lemma open_volume_spec vol (z : ZipFile F) es (f : F) :
  zip_inv vol z es -> vol_ok vol -> closed_entries es <> [] -> fl_ok f ->
  fl_contents f = fl_contents (zf_backing_store z) ++ cd_bytes (zf_members z) ++ end_bytes z ->
  zlen (fl_contents f) <= BUFF_SIZE - 4 ->
  exists zr, zip_open_volume junk now uuid f = Some zr /\ zf_urn zr = vol /\
    Forall2 loaded_from (closed_members (zf_members z)) (zf_members zr) /\
    fl_ok (zf_backing_store zr) /\ fl_contents (zf_backing_store zr) = fl_contents f.
Proof.
  intros Hz Hv Hne Hok Hc Hl.
  pose proof (closed_members_inv _ _ _ _ (zi_members _ _ _ Hz)) as Hf.
  set (c := fl_contents (zf_backing_store z)) in *. rewrite Hc in Hl |- *.
  set (segs := closed_members (zf_members z)) in *.
  assert (0 < zlen c) as Hc0.
  { destruct Hf as [|s e ? ? [_ Hs] _]; [done|]. by apply seg_closed_nonempty with s e. }
  assert (zlen (end_bytes z) >= 22) as He22.
  { unfold end_bytes. rewrite zlen_app, zlen_pack by done. change (pack_size ecd_widths) with 22.
    pose proof (zlen_nonneg (ztake (comment_len (end_of z)) (urn_value (zf_urn z) ++ [0]))). lia. }
  rewrite !zlen_app in Hl. pose proof (zlen_nonneg (cd_bytes (zf_members z))).
  unfold BUFF_SIZE in Hl.
  assert (Forall seg_plain segs) as Hp
    by (apply (closed_members_plain vol z es Hz); fold c; unfold ZIP64_LIMIT; lia).
  pose proof (zlen_cd_bytes segs Hp) as H46. 
  change (concat (map cd_record segs)) with (cd_bytes (zf_members z)) in H46.
  assert (end_bytes z = pack_fields ecd_widths (ecd_fields (end_record (zlen segs)
      (zlen (cd_bytes (zf_members z))) (zlen c) vol)) ++ urn_value vol ++ [0]) as Heb.
  { unfold end_bytes, end_of. fold c segs. rewrite (zi_urn _ _ _ Hz), (u32_small (zlen c)) by lia.
    f_equal. apply ztake_all. cbn [comment_len end_record]. rewrite zlen_app.
    destruct Hv as (_ & _ & _ & Hv). unfold BUFF_SIZE in Hv. pose proof (zlen_nonneg (urn_value vol)).
    rewrite u16_small by lia. done. }
  assert (zlen c + zlen (cd_bytes (zf_members z)) <= 40934) as Hsm by lia.
  rewrite Heb in Hc |- *. rewrite Heb, !zlen_app in Hl.
  unfold zip_open_volume, ZipFile_Con. cbn [AFFObject_Con]. mred.
  unfold ZipFile_finish, ZipFile_load_from_backing_store.
  edestruct (find_EndCentralDirectory_spec junk
    {| zf_urn := RDFURN_Con; zf_write := false; zf_backing_store := f; zf_members := [];
       zf_end := None; zf_compression_method := 0 |} (c ++ cd_bytes (zf_members z)) (zlen segs)
      (zlen (cd_bytes (zf_members z))) (zlen c) vol) as (f1 & -> & Hat1);
    cbn [zf_backing_store]; try done; try (rewrite ?zlen_app; unfold BUFF_SIZE; lia).
  { by rewrite <- app_assoc. }
  { pose proof (zlen_nonneg segs). lia. }
  mred. destruct (Z.eqb_spec (zlen c) 0); [lia|].
  cbn [zf_backing_store zf_end zf_write zf_members zf_compression_method].
  destruct Hat1 as (Hok1 & Hc1 & _).
  destruct (fl_seek_set_law f1 (zlen c) Hok1) as (f2 & -> & Hat2); [lia|]. mred.
  cbn [total_entries_in_cd end_record]. rewrite u16_small by (pose proof (zlen_nonneg segs); lia).
  replace (Z.to_nat (zlen segs)) with (length segs) by (unfold zlen; lia). rewrite Hc1, <- app_assoc in Hat2.
  edestruct (load_entries_spec junk now segs
    (with_store {| zf_urn := vol; zf_write := false; zf_backing_store := f1; zf_members := [];
       zf_end := Some (end_record (zlen segs) (zlen (cd_bytes (zf_members z))) (zlen c) vol);
       zf_compression_method := 0 |} f2) c) as (zr & ls & -> & Hm & Hf2 & Hu & _ & Hokr & Hcr);
    [done|exact Hat2|].
  mred. rewrite Hu. cbn [zf_urn with_store].
  assert (AFFObject_finish uuid vol = Some vol) as -> by by apply finish_normal, Hv.
  mred. eexists. split; [reflexivity|]. cbn. rewrite Hm, Hcr. by split_and!.
Qed.

Lemma loaded_is_loaded c s l e :
  loaded_from s l -> seg_closed c s e -> zlen c <= ZIP64_LIMIT ->
  exists comp pre post, c = pre ++ entry_bytes (zs_cd s) (e_name e) comp ++ post /\
    seg_loaded l (e_name e) comp (e_data e) pre /\
    cd_ok (zs_cd s) (e_method e) (zlen (e_data e)) (zlen comp) /\
    encodes (e_method e) comp (e_data e) /\
    2 * zlen (e_data e) < MAX_TALLOC_SIZE /\ zlen comp < MAX_TALLOC_SIZE.
Proof.
  intros (name & Hn & Hfn & Hlfn & Hlcd & Hlnl & Hloff & Hlb & Hlr & _)
    (comp & pre & post & Hc & Hoff & Hb & Hfn' & Hcd & Henc & Hd1 & Hd2) Hl.
  assert (e_name e = name) as <-.
  { rewrite Hfn in Hfn'. unfold name_string in Hfn'. injection Hfn' as Hv _.
    by apply app_inj_2 in Hv as [-> _]. }
  exists comp, pre, post. split_and!; try done.
  assert (0 <= zs_offset_of_file_header s <= ZIP64_LIMIT) as Hlim.
  { rewrite Hoff. pose proof (zlen_nonneg pre). split; [done|]. rewrite Hc, zlen_app in Hl.
    pose proof (zlen_nonneg (entry_bytes (zs_cd s) (e_name e) comp ++ post)). lia. }
  destruct (cd_header_plain s _ _ _ _ Hn Hfn Hlim Hcd) as ([_ _ _ _ Hfs Hcs] & _ & _).
  split; try done; rewrite ?Hlcd; try done. congruence.
Qed.

Lemma closed_entries_nodup es : NoDup (e_name <$> es) -> NoDup (e_name <$> closed_entries es).
Proof.
  unfold closed_entries. induction es as [|e es IH]; [done|].
  rewrite fmap_cons. intros [Hnot Hnd]%NoDup_cons. simpl.
  destruct (e_closed e); [|by apply IH]. rewrite fmap_cons. apply NoDup_cons.
  split; [|by apply IH]. intros (e' & He' & Hin)%list_elem_of_fmap. apply Hnot.
  apply list_elem_of_fmap. exists e'. split; [done|].
  apply list_elem_of_In, filter_In in Hin as [Hin _]. by apply list_elem_of_In.
Qed.

(** A new volume is an empty archive. *)
Lemma zip_inv_new (z : ZipFile F) :
  zf_write z = true -> fl_ok (zf_backing_store z) -> zf_members z = [] ->
  zip_inv (zf_urn z) z [].
Proof. intros Hw Hok Hm. split; try done; [by rewrite Hm|constructor]. Qed.

End Invariant.
