(* ===== verification/ZipReader.v ===== *)
(** Reading a ZIP volume back: the state of a reader, what its operations return, and
    the round trip of a volume from the session that wrote it to its readers. *)

From S2P Require Import Prelude.
From S2P Require Import Talloc.
From S2P Require Import StringIO.
From S2P Require Import Misc.
From S2P Require Import Url.
From S2P Require Import Rdf.
From S2P Require Import File.
From S2P Require Import ZipFormat.
From S2P Require Import ZipSegment.
From S2P Require Import ZipVolume.
From S2P Require Import ZipArchive.

(** ** A session of a reader *)

Inductive read_op :=
| ROpen (member : RDFURN)
| RSeek (i : nat) (offset : Z)
| RRead (i : nat) (n : Z).

Inductive read_out :=
| OIndex (i : option nat)
| ODone
| OBytes (bytes : option (list Z)).

(** The abstract reader: the entries do not change, each segment has a position.  A
    read does not move it. *)
Definition arc_read (vol : RDFURN) (es : list entry) (ps : list Z) (op : read_op)
  : list Z * read_out :=
  match op with
  | ROpen m =>
      (ps, OIndex (fst <$> list_find (fun e => e_name e = RDFURN_relative_name m vol) es))
  | RSeek i off => (<[i := Z.max 0 off]> ps, ODone)
  | RRead i n => (ps, OBytes (e ← es !! i; p ← ps !! i; Some (zread p n (e_data e))))
  end.

Fixpoint arc_read_run (vol : RDFURN) (es : list entry) (ps : list Z) (ops : list read_op)
  : list read_out :=
  match ops with
  | [] => []
  | op :: ops => let '(ps, o) := arc_read vol es ps op in o :: arc_read_run vol es ps ops
  end.

Section Session.

Context `{FR : Foreign} `{FL : FileLike F}.
Variable junk : nat -> Z.
Variable now : tm.
Variable uuid : list Z.

Definition read_step (z : ZipFile F) (op : read_op) : option (read_out * ZipFile F) :=
  match op with
  | ROpen m => '(i, z) ← ZipFile_open_member now uuid z m false 0; Some (OIndex i, z)
  | RSeek i off => z ← member_seek z i off; Some (ODone, z)
  | RRead i n => '(bytes, z) ← member_read junk z i n; Some (OBytes bytes, z)
  end.

Fixpoint read_run (z : ZipFile F) (ops : list read_op) : option (list read_out * ZipFile F) :=
  match ops with
  | [] => Some ([], z)
  | op :: ops =>
      '(o, z) ← read_step z op; '(os, z) ← read_run z ops; Some (o :: os, z)
  end.

End Session.

(** What a reader must respect: names that need no escaping, positions inside the
    segment. *)
Definition read_op_ok (vol : RDFURN) (es : list entry) (op : read_op) : bool :=
  match op with
  | ROpen m => bool_decide (name_ok (RDFURN_relative_name m vol))
  | RSeek i off => match es !! i with Some e => off <=? zlen (e_data e) | None => false end
  | RRead i n => (i <? length es)%nat && (0 <=? n) && (n <? MAX_TALLOC_SIZE)
  end.

(** ** The reader's invariant *)

Section Reader.

Context `{FRL : ForeignLaws} `{FLL : FileLikeLaws F}.
Variable junk : nat -> Z.
Variable now : tm.
Variable uuid : list Z.

(** A segment of a volume whose contents are [c]: its data is in memory, or can be
    loaded from [c]. *)
Definition seg_serves (c : list Z) (l : ZipSegment) (e : entry) : Prop :=
  name_ok (e_name e) /\ zlen (e_data e) < MAX_TALLOC_SIZE /\
  zs_filename l = {| xs_value := Some (e_name e ++ [0]); xs_length := zlen (e_name e) |} /\
  0 <= zs_readptr l <= zlen (e_data e) /\
  ((exists b, zs_buffer l = Some b /\ sio_holds b (e_data e)) \/
   exists cd comp pre post, c = pre ++ entry_bytes cd (e_name e) comp ++ post /\
     seg_loaded l (e_name e) comp (e_data e) pre /\
     cd_ok cd (e_method e) (zlen (e_data e)) (zlen comp) /\
     encodes (e_method e) comp (e_data e) /\ zlen comp < MAX_TALLOC_SIZE).

Record reader_inv (vol : RDFURN) (c : list Z) (z : ZipFile F) (es : list entry)
    (ps : list Z) : Prop := {
  ri_urn : zf_urn z = vol;
  ri_ok : fl_ok (zf_backing_store z);
  ri_contents : fl_contents (zf_backing_store z) = c;
  ri_members : Forall2 (seg_serves c) (zf_members z) es;
  ri_pos : zs_readptr <$> zf_members z = ps;
  ri_nodup : NoDup (e_name <$> es)
}.

Lemma loaded_serves c x s l e :
  loaded_from s l -> name_ok (e_name e) -> seg_closed c s e -> zlen c <= ZIP64_LIMIT ->
  seg_serves (c ++ x) l e /\ zs_readptr l = 0.
Proof.
  intros Hlf Hn Hs Hl. pose proof (zlen_nonneg (e_data e)).
  destruct (loaded_is_loaded c s l e Hlf Hs Hl)
    as (comp & pre & post & Hc & Hsl & Hcd & Henc & Hd1 & Hd2).
  destruct Hlf as (? & _ & _ & _ & _ & _ & _ & _ & Hp & _). split; [|done].
  unfold seg_serves. rewrite Hp. split_and!; try done; [lia|apply Hsl|].
  right. exists (zs_cd s), comp, pre, (post ++ x). split_and!; try done.
  by rewrite Hc, <- !app_assoc.
Qed.

(** The segment is decompressed by the first read. *)
Lemma serves_read c l e store n :
  seg_serves c l e -> fl_ok store -> fl_contents store = c -> 0 <= n < MAX_TALLOC_SIZE ->
  exists l' (store' : F), ZipSegment_read junk l (Some store) n =
      Some (Some (zread (zs_readptr l) n (e_data e)), l', Some store') /\
    seg_serves c l' e /\ zs_readptr l' = zs_readptr l /\
    fl_ok store' /\ fl_contents store' = c.
Proof.
  intros (Hn & Hd & Hfn & Hp & [(b & Hb & Hh)|(cd & comp & pre & post & Hc & Hsl & Hcd & Henc & Hco)])
    Hok Hcs Hr.
  - destruct (ZipSegment_read_holds junk l b (e_data e) (Some store) n Hb Hh Hp Hd Hr)
      as (b' & -> & Hh'). do 2 eexists. split; [reflexivity|]. split_and!; try done.
    unfold seg_serves. cbn. split_and!; try done; try lia. left. eauto.
  - destruct (decompress_segment_spec junk l cd (e_method e) (e_name e) comp (e_data e)
      pre post store) as (b & st & Hdec & Hh & Hok' & Hc'); try done; [by rewrite Hcs|].
    destruct (ZipSegment_read_holds junk (with_seg_buffer l (Some b)) b (e_data e) (Some st) n)
      as (b' & Hread & Hh'); try done.
    assert (ZipSegment_read junk l (Some store) n =
      ZipSegment_read junk (with_seg_buffer l (Some b)) (Some st) n) as ->.
    { unfold ZipSegment_read at 1. rewrite (sl_buffer _ _ _ _ _ Hsl), Hdec. done. }
    rewrite Hread. do 2 eexists. split; [reflexivity|]. split_and!; try done.
    + unfold seg_serves. cbn. split_and!; try done; try lia. left. eauto.
    + congruence.
Qed.

(** ** What the operations return *)

Lemma reader_carries vol c z es ps :
  reader_inv vol c z es ps -> Forall2 carries (zf_members z) (e_name <$> es).
Proof.
  intros Hz. apply Forall2_fmap_r. eapply Forall2_impl; [apply (ri_members _ _ _ _ _ Hz)|].
  intros l e (Hn & _ & Hfn & _). exists (e_name e ++ [0]). rewrite Hfn.
  split; [done|]. by apply cstr_name.
Qed.

Lemma reader_open vol c z es ps m method :
  reader_inv vol c z es ps -> name_ok (RDFURN_relative_name m vol) ->
  ZipFile_open_member now uuid z m false method =
    Some (fst <$> list_find (fun e => e_name e = RDFURN_relative_name m vol) es, z).
Proof.
  intros Hz Hn. unfold ZipFile_open_member.
  rewrite (ri_urn _ _ _ _ _ Hz), segment_name_legal by done. mred. rewrite cstr_name by done.
  destruct (find_member_spec (RDFURN_relative_name m vol) _ _ 0 (reader_carries _ _ _ _ _ Hz))
    as ([j|] & -> & Hr); mred.
  - destruct Hr as (i & -> & Hi). rewrite list_lookup_fmap in Hi.
    destruct (es !! i) as [e|] eqn:He; [|done]. injection Hi as Hi.
    rewrite (proj2 (list_find_Some _ es i e)); [done|]. split_and!; try done.
    intros j e' He' Hj Heq. pose proof (ri_nodup _ _ _ _ _ Hz) as Hnd.
    assert (i = j); [|lia]. apply (proj1 (NoDup_alt _) Hnd i j (e_name e));
      rewrite list_lookup_fmap; [by rewrite He|rewrite He'; cbn; congruence].
  - rewrite (proj2 (list_find_None _ es)); [done|]. apply Forall_forall. intros e He Heq.
    apply Hr. apply list_elem_of_fmap. by exists e.
Qed.

(** A segment may change as long as it still serves its entry. *)
Lemma reader_update vol c z es ps i l e (store : F) :
  reader_inv vol c z es ps -> es !! i = Some e -> seg_serves c l e ->
  fl_ok store -> fl_contents store = c ->
  reader_inv vol c (with_members (with_store z store) (<[i := l]> (zf_members z))) es
    (<[i := zs_readptr l]> ps).
Proof.
  intros [Hu Hok Hc Hm Hp Hd] He Hs Hok' Hc'. split; try done; cbn.
  - rewrite <- (list_insert_id es i e) by done. by apply Forall2_insert.
  - by rewrite list_fmap_insert, Hp.
Qed.

Lemma reader_read vol c z es ps i e p n :
  reader_inv vol c z es ps -> es !! i = Some e -> ps !! i = Some p ->
  0 <= n < MAX_TALLOC_SIZE ->
  exists z', member_read junk z i n = Some (Some (zread p n (e_data e)), z') /\
    reader_inv vol c z' es ps.
Proof.
  intros Hz He Hp Hn.
  destruct (Forall2_lookup_r _ _ _ _ _ (ri_members _ _ _ _ _ Hz) He) as (l & Hl & Hs).
  unfold member_read. rewrite Hl. mred.
  assert (zs_readptr l = p) as <-.
  { rewrite <- (ri_pos _ _ _ _ _ Hz), list_lookup_fmap, Hl in Hp. by injection Hp. }
  destruct (serves_read c l e (zf_backing_store z) n Hs) as (l' & st & -> & Hs' & Hp' & Hok & Hc);
    [apply (ri_ok _ _ _ _ _ Hz)|apply (ri_contents _ _ _ _ _ Hz)|done|].
  mred. eexists. split; [reflexivity|].
  rewrite <- (list_insert_id ps i (zs_readptr l)), <- Hp' by done. by apply reader_update with e.
Qed.

Lemma reader_seek vol c z es ps i e off :
  reader_inv vol c z es ps -> es !! i = Some e -> off <= zlen (e_data e) ->
  exists z', member_seek z i off = Some z' /\ reader_inv vol c z' es (<[i := Z.max 0 off]> ps).
Proof.
  intros Hz He Ho. pose proof (zlen_nonneg (e_data e)).
  destruct (Forall2_lookup_r _ _ _ _ _ (ri_members _ _ _ _ _ Hz) He) as (l & Hl & Hs).
  unfold member_seek. rewrite Hl. mred. eexists. split; [reflexivity|].
  assert (FileLikeObject_seek (zs_readptr l) 0 off SEEK_SET = Z.max 0 off) as ->.
  { unfold FileLikeObject_seek. case_bool; lia. }
  destruct Hs as (S1 & S2 & S3 & _ & S5).
  apply (reader_update vol c z es ps i (with_readptr l (Z.max 0 off)) e (zf_backing_store z));
    try done; [|apply (ri_ok _ _ _ _ _ Hz)|apply (ri_contents _ _ _ _ _ Hz)].
  split_and!; try done; cbn; try lia. destruct S5 as [S5|(cd & comp & pre & post & Hc & [] & S5)];
    [by left|]. right. exists cd, comp, pre, post. split; [done|]. split; [by split|done].
Qed.

Lemma reader_step vol c z es ps op :
  reader_inv vol c z es ps -> read_op_ok vol es op = true ->
  exists z', read_step junk now uuid z op = Some ((arc_read vol es ps op).2, z') /\
    reader_inv vol c z' es (arc_read vol es ps op).1.
Proof.
  intros Hz Hok. destruct op as [m|i off|i n]; cbn in Hok |- *.
  - apply bool_decide_eq_true in Hok. rewrite (reader_open vol c z es ps m 0 Hz Hok). mred.
    by exists z.
  - destruct (es !! i) as [e|] eqn:He; [|done]. apply Z.leb_le in Hok.
    destruct (reader_seek vol c z es ps i e off Hz He Hok) as (z' & -> & Hz'). by exists z'.
  - apply andb_prop in Hok as [[Hi%Nat.ltb_lt Hn0%Z.leb_le]%andb_prop Hm%Z.ltb_lt].
    destruct (lookup_lt_is_Some_2 es i Hi) as [e He].
    assert (length ps = length es) as Hlen.
    { rewrite <- (ri_pos _ _ _ _ _ Hz), length_fmap.
      apply (Forall2_length _ _ _ (ri_members _ _ _ _ _ Hz)). }
    destruct (lookup_lt_is_Some_2 ps i) as [p Hp]; [by rewrite Hlen|]. rewrite He, Hp.
    destruct (reader_read vol c z es ps i e p n Hz He Hp) as (z' & -> & Hz'); [done|]. by exists z'.
Qed.

Lemma reader_run vol c z es ps ops :
  reader_inv vol c z es ps -> forallb (read_op_ok vol es) ops = true ->
  exists z', read_run junk now uuid z ops = Some (arc_read_run vol es ps ops, z') /\
    exists ps', reader_inv vol c z' es ps'.
Proof.
  revert z ps. induction ops as [|op ops IH]; intros z ps Hz Hok; [exists z; eauto|].
  cbn in Hok |- *. apply andb_prop in Hok as [Hok1 Hok].
  destruct (reader_step vol c z es ps op Hz Hok1) as (z1 & -> & Hz1). mred.
  destruct (arc_read vol es ps op) as [ps1 o]. cbn [fst snd] in *.
  destruct (IH z1 ps1 Hz1 Hok) as (z' & -> & Hz'). mred. by exists z'.
Qed.

(** ** From the writer to a reader *)

Lemma zip_inv_readable vol (z : ZipFile F) es :
  vol_ok vol -> zip_inv vol z es ->
  exists z2, ZipFile_close junk z = Some (1, z2) /\
    forall f : F, fl_ok f -> fl_contents f = fl_contents (zf_backing_store z2) ->
      zlen (fl_contents f) <= BUFF_SIZE - 4 -> closed_entries es <> [] ->
      exists zr, zip_open_volume junk now uuid f = Some zr /\
        reader_inv vol (fl_contents f) zr (closed_entries es)
          (replicate (length (closed_entries es)) 0).
Proof.
  intros Hv Hz. pose proof (closed_members_inv _ _ _ _ (zi_members _ _ _ Hz)) as Hinv.
  destruct (ZipFile_close_spec junk z) as (z2 & post & Hclose & (Hok2 & Hc2 & _) & Hpost).
  { apply (zi_write _ _ _ Hz). }
  { apply (zi_ok _ _ _ Hz). }
  { apply Forall_forall. intros s [i Hi]%list_elem_of_lookup_1.
    destruct (Forall2_lookup_l _ _ _ _ _ Hinv Hi) as (e & _ & Hn & ? & ? & ? & ? & ? & ? & Hfn & _).
    by exists (e_name e). }
  exists z2. split; [done|]. intros f Hokf Hcf Hlf Hne.
  rewrite Hcf, Hc2, zlen_app in Hlf. pose proof (zlen_nonneg post).
  assert (zlen (fl_contents (zf_backing_store z)) <= ZIP64_LIMIT) as Hl1
    by (unfold ZIP64_LIMIT, BUFF_SIZE in *; lia).
  rewrite (Hpost Hl1) in Hc2, Hlf. rewrite Hc2 in Hcf.
  destruct (open_volume_spec junk now uuid _ z es f Hz Hv Hne Hokf Hcf)
    as (zr & Hopen & Hu & Hld & Hokr & Hcr); [by rewrite Hcf, zlen_app|].
  exists zr. split; [done|].
  assert (Forall2 (fun l e => seg_serves (fl_contents f) l e /\ zs_readptr l = 0)
    (zf_members zr) (closed_entries es)) as Hserve.
  { eapply Forall2_trans; [|apply Forall2_flip, Hld|exact Hinv].
    intros l s e Hlf' [Hn Hs]. rewrite Hcf. by apply (loaded_serves _ _ s). }
  split; try done.
  - eapply Forall2_impl; [exact Hserve|]. by intros l e [? _].
  - clear -Hserve. induction Hserve as [|l e ls es' [_ Hp] _ IH]; [done|]. cbn. by rewrite Hp, IH.
  - apply closed_entries_nodup, (zi_nodup _ _ _ Hz).
Qed.

End Reader.

(** C1: a ZIP volume gives back what was stored in it, under names that need no escaping.
    From a volume without members, any interleaving of opening, writing and closing segments
    succeeds and so does closing the volume, as long as it keeps to [zip_op_ok]: the URNs are
    in normal form and their names relative to the volume are of ASCII characters that the
    volume stores as they are (so the segments are inside the volume), the method is stored
    or deflate, a segment that is used exists, and its data fits in memory.  If then a
    segment was closed (an empty volume is not found, [zip_empty_volume_not_found]) and the
    file is at most BUFF_SIZE - 4 bytes long (of a longer one the scan loses the end of the
    volume's URN, [zip_large_volume_loses_urn]), a reader that opens the file finds the
    volume's URN, and whatever sequence of opening, seeking and reading segments it runs,
    again with such names and inside the segments, returns what the archive of the closed
    entries returns: exactly these are found, under their names, with the data written to
    them, whether stored or deflated. *)
Theorem zip_volume_roundtrip `{ForeignLaws} `{FileLikeLaws F} junk now uuid
    (z : ZipFile F) ops :
  vol_ok (zf_urn z) -> zf_write z = true -> fl_ok (zf_backing_store z) ->
  zf_members z = [] -> zip_ops_ok junk now uuid z ops = true ->
  let es := closed_entries (arc_run (zf_urn z) [] ops) in
  exists z1 z2,
    zip_run junk now uuid z ops = Some z1 /\ ZipFile_close junk z1 = Some (1, z2) /\
    forall f : F, fl_ok f -> fl_contents f = fl_contents (zf_backing_store z2) ->
      zlen (fl_contents f) <= BUFF_SIZE - 4 -> es <> [] ->
      exists zr, zip_open_volume junk now uuid f = Some zr /\ zf_urn zr = zf_urn z /\
        forall rops, forallb (read_op_ok (zf_urn z) es) rops = true ->
          exists zr', read_run junk now uuid zr rops =
            Some (arc_read_run (zf_urn z) es (replicate (length es) 0) rops, zr').
Proof.
  intros Hv Hw Hok Hm Hops es.
  destruct (zip_run_inv junk now uuid _ ops z [] (zip_inv_new z Hw Hok Hm) Hops)
    as (z1 & Hrun & Hz1).
  destruct (zip_inv_readable junk now uuid _ z1 _ Hv Hz1) as (z2 & Hclose & Hread).
  exists z1, z2. split_and!; try done. intros f Hokf Hcf Hlf Hne.
  destruct (Hread f Hokf Hcf Hlf Hne) as (zr & Hopen & Hzr). exists zr.
  split; [done|]. split; [apply (ri_urn _ _ _ _ _ Hzr)|]. intros rops Hr.
  destruct (reader_run junk now uuid _ _ zr _ _ rops Hzr Hr) as (zr' & Hrr & _). by exists zr'.
Qed.

(** ** An instance *)

(** A codec that keeps its input and emits it when the stream is finished, a buffer
    at a time; it satisfies what zlib documents. *)
Definition held_codec : Foreign := {|
  z_stream := list Z;
  deflateInit2 := Some [];
  deflate s input n fin :=
    if fin then (zdrop n (s ++ input), [], ztake n (s ++ input)) else (s ++ input, [], []);
  deflate_pending s input := length (s ++ input);
  inflate c n := (zlen c <=? n, ztake n c);
  crc32 c d := u32 (c + zlen d);
  mktime t := tm_sec t + 60 * (tm_min t + 60 * tm_hour t)
|}.

Definition held_codec_laws : @ForeignLaws held_codec.
Proof.
  refine (Build_ForeignLaws held_codec (fun s i o => i = o ++ s) _ _).
  - by exists [].
  - intros s i o input n fin s' rest out -> Hn. cbn. destruct fin; intros [= <- <- <-].
    + exists input. rewrite app_nil_r. split_and!; try done.
      * rewrite <- !app_assoc. f_equal. by rewrite ztake_zdrop.
      * rewrite zlen_ztake. lia.
      * rewrite <- length_app, app_nil_r, length_app, Nat.add_comm, <- length_app.
        by rewrite ztake_zdrop.
      * rewrite zlen_ztake. intros Hlt. split; [done|]. intros _ m Hm.
        pose proof (zlen_nonneg (s ++ input)).
        rewrite (ztake_all n) by lia. rewrite app_assoc.
        rewrite (ztake_all m) by done. by destruct (Z.leb_spec (zlen ((o ++ s) ++ input)) m); [|lia].
    + exists input. rewrite !app_nil_r. split_and!; try done.
      * by rewrite app_assoc.
      * change (zlen (@nil Z)) with 0. lia.
      * simpl. lia.
Defined.

Definition zip_now : tm :=
  {| tm_year := 110; tm_mon := 2; tm_mday := 15; tm_hour := 20; tm_min := 45; tm_sec := 8 |}.

Definition zip_vol : RDFURN := default RDFURN_Con (RDFURN_Con2 (Some (lit "aff4://vol"))).

Definition zip_urn (name : string) : RDFURN :=
  default RDFURN_Con (RDFURN_Con2 (Some (lit "aff4://vol/" ++ lit name))).

Definition empty_file : FileBackedObject :=
  {| fb_readptr := 0; fb_file := {| pf_data := []; pf_off := 0; pf_writable := true |} |}.

Definition zip_new : @ZipFile held_codec FileBackedObject :=
  {| zf_urn := zip_vol; zf_write := true; zf_backing_store := empty_file;
     zf_members := []; zf_end := None; zf_compression_method := 0 |}.

Definition zip_junk (n : nat) : Z := 170.

(** Two segments written in turns, one stored and one deflated. *)
Definition zip_example : list zip_op :=
  [ZOpen (zip_urn "info.txt") ZIP_STORED; ZOpen (zip_urn "data/0") ZIP_DEFLATE;
   ZWrite 0 (lit "hello"); ZWrite 1 (lit "wor"); ZClose 0; ZWrite 1 (lit "ld"); ZClose 1].

(** A reader that looks both segments up, reads the second in two pieces, and asks for
    one that is not there. *)
Definition read_example : list read_op :=
  [ROpen (zip_urn "data/0"); RRead 1 3; RSeek 1 3; RRead 1 100; ROpen (zip_urn "info.txt");
   RRead 0 5; ROpen (zip_urn "none")].

Lemma zip_volume_roundtrip_witness :
  exists z1 z2 zr zr',
    zip_run (FR := held_codec) zip_junk zip_now [] zip_new zip_example = Some z1 /\
    ZipFile_close (FR := held_codec) zip_junk z1 = Some (1, z2) /\
    zip_open_volume (H := held_codec) zip_junk zip_now [] (zf_backing_store z2) = Some zr /\
    read_run (FR := held_codec) zip_junk zip_now [] zr read_example =
      Some ([OIndex (Some 1%nat); OBytes (Some (lit "wor")); ODone; OBytes (Some (lit "ld"));
             OIndex (Some 0%nat); OBytes (Some (lit "hello")); OIndex None], zr').
Proof.
  destruct (@zip_volume_roundtrip held_codec held_codec_laws FileBackedObject _ _ zip_junk
    zip_now [] zip_new zip_example) as (z1 & z2 & Hrun & Hclose & Hread).
  - apply (bool_decide_unpack (vol_ok zip_vol)). vm_compute. exact I.
  - reflexivity.
  - cbn. split; [lia|reflexivity].
  - reflexivity.
  - vm_compute. reflexivity.
  - exists z1, z2.
    assert (match zip_run (FR := held_codec) zip_junk zip_now [] zip_new zip_example with
      | Some z1 => match ZipFile_close (FR := held_codec) zip_junk z1 with
                   | Some (_, z2) => (0 <=? fb_readptr (zf_backing_store z2)) &&
                       pf_writable (fb_file (zf_backing_store z2)) &&
                       (zlen (pf_data (fb_file (zf_backing_store z2))) <=? BUFF_SIZE - 4)
                   | None => false end
      | None => false end = true) as Hev by (vm_compute; reflexivity).
    rewrite Hrun, Hclose in Hev.
    apply andb_prop in Hev as [[H1%Z.leb_le H2]%andb_prop H3%Z.leb_le].
    destruct (Hread (zf_backing_store z2)) as (zr & Hopen & _ & Hmem);
      [by split|reflexivity|exact H3|vm_compute; congruence|].
    destruct (Hmem read_example) as (zr' & Hr); [vm_compute; reflexivity|].
    exists zr, zr'. split_and!; try done.
Defined.

(** ** Volumes that cannot be read back *)

(** A session on a new volume, up to the file it leaves. *)
Definition zip_store (ops : list zip_op) : option FileBackedObject :=
  z ← zip_run (FR := held_codec) zip_junk zip_now [] zip_new ops;
  '(_, z) ← ZipFile_close (FR := held_codec) zip_junk z;
  Some (zf_backing_store z).

(** Opening a volume for writing and closing it again. *)
Definition zip_reclose (f : FileBackedObject) : option FileBackedObject :=
  z ← ZipFile_Con (FR := held_codec) None true f;
  z ← ZipFile_finish (FR := held_codec) zip_junk zip_now [] z;
  '(_, z) ← ZipFile_close (FR := held_codec) zip_junk z;
  Some (zf_backing_store z).

(** Reading a member of a volume; the URN of the volume too. *)
Definition zip_fetch (f : FileBackedObject) (m : RDFURN) (n : Z)
  : option (list Z * option (option (list Z))) :=
  z ← zip_open_volume (H := held_codec) zip_junk zip_now [] f;
  '(i, z) ← ZipFile_open_member (FR := held_codec) zip_now [] z m false 0;
  match i with
  | None => Some (urn_value (zf_urn z), None)
  | Some i =>
      '(d, _) ← member_read (FR := held_codec) zip_junk z i n;
      Some (urn_value (zf_urn z), Some d)
  end.

(** Opening an existing volume for writing and closing it makes its members
    unreadable.  The names of loaded segments do not count the NUL that the local
    headers count, the new directory is written with the shorter lengths, and the next
    reader rejects every old member because the two lengths differ. *)
Theorem zip_reclose_unreadable :
  (f ← zip_store zip_example; zip_fetch f (zip_urn "data/0") 100)
    = Some (lit "aff4://vol", Some (Some (lit "world"))) /\
  (f ← zip_store zip_example; f ← zip_reclose f; zip_fetch f (zip_urn "data/0") 100)
    = Some (lit "aff4://vol", Some None).
Proof. vm_compute. split; reflexivity. Qed.

(** A volume of [BUFF_SIZE] bytes or more loses the end of its URN.  The scan for
    the end record reads all but the last four bytes of the file, so the comment comes
    back without its last characters and members are not found under their names. *)
Theorem zip_large_volume_loses_urn :
  (f ← zip_store [ZOpen (zip_urn "x") ZIP_STORED;
                  ZWrite 0 (replicate (Z.to_nat BUFF_SIZE) 0); ZClose 0];
   zip_fetch f (zip_urn "x") 100)
  = Some (lit "aff4://", None).
Proof. vm_compute. reflexivity. Qed.

(** A volume that is closed without members cannot be opened: its directory is at
    offset 0, which stands for failure. *)
Lemma zip_empty_volume_not_found :
  (f ← zip_store []; z ← ZipFile_Con (FR := held_codec) None false f;
   '(found, _) ← ZipFile_load_from_backing_store (FR := held_codec) zip_junk zip_now z;
   Some found) = Some false.
Proof. vm_compute. reflexivity. Qed.

(** Reading a segment does not move its position: two reads in a row return the
    same bytes, unlike any other file-like object. *)
Theorem zip_read_repeats :
  (f ← zip_store zip_example; z ← zip_open_volume (H := held_codec) zip_junk zip_now [] f;
   '(a, z) ← member_read (FR := held_codec) zip_junk z 1 3;
   '(b, z) ← member_read (FR := held_codec) zip_junk z 1 3; Some (a, b))
  = Some (Some (lit "wor"), Some (lit "wor")).
Proof. vm_compute. reflexivity. Qed.
