(* ===== verification/Image.v ===== *)
(** Image streams (lib/aff4_image.c): what is written is collected into bevies of
    [bevy_size] bytes; a full bevy is handed to the thread pool, whose worker cuts it
    into chunks, compresses each and stores them as two segments of a volume, the
    chunks and the index of their offsets.

    The image of the thread pool here is the list of the jobs it accepted, oldest
    first, and [run_jobs] runs them one after the other, as a pool with one worker that
    loses none does: Sync.v shows that the pool starts its jobs in this order, each at most
    once, and when [ThreadPool_join] may leave one behind.  The interleaving of several
    workers on one volume is not modelled.  [accept n] says whether the bevy number [n] is
    accepted before the timeout. *)

From S2P Require Import Prelude.
From S2P Require Import Talloc.
From S2P Require Import StringIO.
From S2P Require Import CText.
From S2P Require Import Misc.
From S2P Require Import Url.
From S2P Require Import Rdf.
From S2P Require Import File.
From S2P Require Import ZipFormat.
From S2P Require Import ZipSegment.
From S2P Require Import ZipVolume.
From S2P Require Import ZipArchive.
From S2P Require Import ZipReader.

(** zlib's one-shot functions.  [compress2 data n]: the compressed data, if it fits
    [n] bytes. *)
Class Compressor := {
  compressBound : Z -> Z;
  compress2 : list Z -> Z -> option (list Z)
}.

Record ImageWorker := { iw_segment_count : Z; iw_bevy : StringIO }.

Record AFF4Image := {
  im_urn : RDFURN;
  im_write : bool;
  im_stored : bool;
  im_chunk_size : Z;
  im_compression : Z;
  im_chunks_in_segment : Z;
  im_bevy_size : Z;
  im_segment_count : Z;
  im_current : ImageWorker;
  im_thread_count : Z;
  im_readptr : Z;
  im_jobs : list ImageWorker
}.

Definition ImageWorker_Con (segment_count : Z) : ImageWorker :=
  {| iw_segment_count := segment_count; iw_bevy := StringIO_constructor |}.

(** The error raised, if any. *)
Definition AFF4Image_finish (uuid : list Z) (self : AFF4Image)
  : option (option aff4_error * AFF4Image) :=
  urn ← AFFObject_finish uuid (im_urn self);
  let bevy_size := u32 (i32 (im_chunk_size self * im_chunks_in_segment self)) in
  let plain :=
    {| im_urn := urn; im_write := im_write self; im_stored := im_stored self;
       im_chunk_size := im_chunk_size self; im_compression := im_compression self;
       im_chunks_in_segment := im_chunks_in_segment self; im_bevy_size := bevy_size;
       im_segment_count := im_segment_count self; im_current := im_current self;
       im_thread_count := im_thread_count self; im_readptr := im_readptr self;
       im_jobs := im_jobs self |} in
  if negb (im_write self) then Some (Some EProgrammingError, plain)
  else if negb (im_stored self) then Some (Some EProgrammingError, plain)
  else
    Some (None,
      {| im_urn := urn; im_write := im_write self; im_stored := im_stored self;
         im_chunk_size := if im_chunk_size self =? 0 then 32 * 1024 else im_chunk_size self;
         im_compression := if im_compression self =? 0 then ZIP_STORED
                           else im_compression self;
         im_chunks_in_segment := if im_chunks_in_segment self =? 0 then 1024
                                 else im_chunks_in_segment self;
         im_bevy_size := bevy_size;
         im_segment_count := 0;
         im_current := ImageWorker_Con 0;
         im_thread_count := if im_thread_count self <=? 0 then 1 else im_thread_count self;
         im_readptr := im_readptr self;
         im_jobs := [] |}).

Section Writing.

Variable junk : nat -> Z.
Variable accept : Z -> bool.

Definition with_current (self : AFF4Image) (w : ImageWorker) : AFF4Image :=
  {| im_urn := im_urn self; im_write := im_write self; im_stored := im_stored self;
     im_chunk_size := im_chunk_size self; im_compression := im_compression self;
     im_chunks_in_segment := im_chunks_in_segment self; im_bevy_size := im_bevy_size self;
     im_segment_count := im_segment_count self; im_current := w;
     im_thread_count := im_thread_count self; im_readptr := im_readptr self;
     im_jobs := im_jobs self |}.

(** [ThreadPool_schedule] of the current worker; its result is not looked at. *)
Definition schedule_current (self : AFF4Image) : list ImageWorker :=
  if accept (iw_segment_count (im_current self))
  then im_jobs self ++ [im_current self] else im_jobs self.

(** Hand the worker over and take a new one. *)
Definition next_worker (self : AFF4Image) : AFF4Image :=
  {| im_urn := im_urn self; im_write := im_write self; im_stored := im_stored self;
     im_chunk_size := im_chunk_size self; im_compression := im_compression self;
     im_chunks_in_segment := im_chunks_in_segment self; im_bevy_size := im_bevy_size self;
     im_segment_count := i32 (im_segment_count self + 1);
     im_current := ImageWorker_Con (i32 (im_segment_count self + 1));
     im_thread_count := im_thread_count self; im_readptr := im_readptr self;
     im_jobs := schedule_current self |}.

(** The loop of [AFF4Image_write].  A negative number of bytes to write is a huge
    unsigned one. *)
Fixpoint write_loop (fuel : nat) (self : AFF4Image) (buffer : list Z) (offset : Z)
  : option AFF4Image :=
  match fuel with
  | O => None
  | S fuel' =>
      let need_to_write := i32 (zlen buffer - offset) in
      let available_to_write :=
        i32 (im_bevy_size self - sio_size (iw_bevy (im_current self))) in
      if need_to_write <=? 0 then Some self
      else
        let n := Z.min need_to_write available_to_write in
        if n <? 0 then None
        else
          '(_, bevy) ← StringIO_write junk (iw_bevy (im_current self))
                         (zread offset n buffer);
          let self := with_current self
            {| iw_segment_count := iw_segment_count (im_current self); iw_bevy := bevy |} in
          let self := if u32 (sio_size bevy) >=? im_bevy_size self
                      then next_worker self else self in
          write_loop fuel' self buffer (i32 (offset + available_to_write))
  end.

(** Every turn but the last writes at least one byte when bevies have a size. *)
Definition AFF4Image_write (self : AFF4Image) (buffer : list Z) : option (Z * AFF4Image) :=
  self ← write_loop (S (S (length buffer))) self buffer 0;
  Some (zlen buffer, self).

(** The jobs the pool has accepted when [ThreadPool_join] is called. *)
Definition AFF4Image_close (self : AFF4Image) : list ImageWorker := schedule_current self.

Fixpoint write_all (self : AFF4Image) (buffers : list (list Z)) : option AFF4Image :=
  match buffers with
  | [] => Some self
  | b :: buffers => '(_, self) ← AFF4Image_write self b; write_all self buffers
  end.

End Writing.

(** ** The worker *)

Section Worker.

Context `{FR : Foreign} `{CP : Compressor} `{FL : FileLike F}.
Variable junk : nat -> Z.
Variable now : tm.
Variable uuid : list Z.

(** The URNs of the two segments of a bevy. *)
Definition bevy_urns (image : AFF4Image) (segment_count : Z) : option (RDFURN * RDFURN) :=
  bevy_urn ← RDFURN_copy (im_urn image);
  bevy_urn ← RDFURN_add bevy_urn (print_08X (u32 segment_count));
  index_urn ← RDFURN_add bevy_urn (lit "idx");
  Some (bevy_urn, index_urn).

(** One chunk as it is stored; [None] when the compressor fails. *)
Definition compress_chunk (image : AFF4Image) (chunk : list Z) : option (list Z) :=
  if im_compression image =? ZIP_STORED then Some chunk
  else compress2 chunk (compressBound (im_chunk_size image)).

(** The loop over the chunks of a bevy; [segment] and [index_segment] are members of
    the volume. *)
Fixpoint chunk_loop (fuel : nat) (image : AFF4Image) (bevy : StringIO)
    (segment index_segment : nat) (chunk_offset compressed_offset : Z) (z : ZipFile F)
  : option (option aff4_error * ZipFile F) :=
  if chunk_offset <? u32 (sio_size bevy) then
    match fuel with
    | O => None
    | S fuel' =>
        let length := Z.min (u32 (im_chunk_size image)) (u32 (sio_size bevy - chunk_offset)) in
        buffer ← mem_read (sio_data bevy) chunk_offset length;
        match compress_chunk image buffer with
        | None => Some (Some ERuntimeError, z)
        | Some cbuffer =>
            '(_, z) ← member_write junk z index_segment (le 4 compressed_offset);
            '(_, z) ← member_write junk z segment cbuffer;
            chunk_loop fuel' image bevy segment index_segment
              (u32 (chunk_offset + length)) (u32 (compressed_offset + zlen cbuffer)) z
        end
    end
  else Some (None, z).

(** [z]: the volume the resolver returns for the image's storage.  On an error the
    segments are left open. *)
Definition ImageWorker_run (image : AFF4Image) (self : ImageWorker) (z : ZipFile F)
  : option (option aff4_error * ZipFile F) :=
  '(bevy_urn, index_urn) ← bevy_urns image (iw_segment_count self);
  '(segment, z) ← ZipFile_open_member now uuid z bevy_urn true ZIP_STORED;
  '(index_segment, z) ← ZipFile_open_member now uuid z index_urn true ZIP_STORED;
  segment ← segment;
  index_segment ← index_segment;
  '(err, z) ← chunk_loop (S (Z.to_nat (sio_size (iw_bevy self)))) image (iw_bevy self)
                segment index_segment 0 0 z;
  match err with
  | Some e => Some (Some e, z)
  | None =>
      z ← member_close junk z segment;
      z ← member_close junk z index_segment;
      Some (None, z)
  end.

(** The runs of the jobs, one after the other, in the order in which the pool starts them. *)
Fixpoint run_jobs (image : AFF4Image) (jobs : list ImageWorker) (z : ZipFile F)
  : option (ZipFile F) :=
  match jobs with
  | [] => Some z
  | j :: jobs => '(_, z) ← ImageWorker_run image j z; run_jobs image jobs z
  end.

(** ** Reading *)

(** [_partial_read].  The caller's buffer has [length] bytes.  [None] is undefined
    behaviour: an access out of bounds; the length returned when a segment is missing,
    which is not initialised; and in a compressed image the size of the output
    [uncompress] is given, which is not initialised either.  The bytes stored. *)
Definition partial_read (self : AFF4Image) (z : ZipFile F) (length : Z)
  : option (list Z) :=
  let segment_number := i32 (im_readptr self / im_bevy_size self) in
  let segment_offset := i32 (im_readptr self mod im_bevy_size self) in
  '(bevy, index) ← bevy_urns self segment_number;
  '(segment, z) ← ZipFile_open_member now uuid z bevy false 0;
  '(index_segment, z) ← ZipFile_open_member now uuid z index false 0;
  segment ← segment;
  index_segment ← index_segment;
  let chunk_number := segment_offset ÷ im_chunk_size self in
  let chunk_offset := Z.rem segment_offset (im_chunk_size self) in
  '(bytes, z) ← member_read junk z index_segment (im_chunks_in_segment self * 4);
  let chunk_data_offsets := read_local junk (im_chunks_in_segment self * 4) (default [] bytes) in
  z ← member_seek z segment (unle (zread (4 * chunk_number) 4 chunk_data_offsets));
  if im_compression self =? ZIP_DEFLATE then None
  else
    '(chunk, z) ← member_read junk z segment (im_chunk_size self);
    let uncompressed_buffer := read_local junk (im_chunk_size self) (default [] chunk) in
    let read_length := match chunk with Some c => zlen c | None => -1 end in
    let available_to_read := Z.max (read_length - chunk_offset) (i32 length) in
    if (available_to_read <? 0) || (length <? available_to_read) ||
       (im_chunk_size self <? chunk_offset + available_to_read)
    then None
    else Some (zread chunk_offset available_to_read uncompressed_buffer).

(** [AFF4Image_read].  [_partial_read] frees the segments it used, which stay in the
    volume's list, so a second turn of the loop is undefined behaviour. *)
Definition AFF4Image_read (self : AFF4Image) (z : ZipFile F) (length : Z)
  : option (list Z) :=
  if length <=? 0 then Some []
  else
    bytes ← partial_read self z length;
    if (zlen bytes =? 0) || (zlen bytes =? length) then Some bytes else None.

End Worker.

(** * Splitting the stream into bevies *)

Definition numbered (bs : list (list Z)) : list (Z * list Z) :=
  imap (fun i b => (Z.of_nat i, b)) bs.

Definition accepted (accept : Z -> bool) (ps : list (Z * list Z)) : list (Z * list Z) :=
  List.filter (fun p => accept p.1) ps.

(** A worker with the number and the bytes of its bevy. *)
Definition job_is (w : ImageWorker) (p : Z * list Z) : Prop :=
  iw_segment_count w = p.1 /\ sio_end (iw_bevy w) p.2.

Section Split.

Variable junk : nat -> Z.
Variable accept : Z -> bool.

(** The full bevies [bs] were handed over, [tail] is in the current worker. *)
Record image_state (B : Z) (self : AFF4Image) (bs : list (list Z)) (tail : list Z) : Prop := {
  is_size : im_bevy_size self = B;
  is_count : im_segment_count self = zlen bs;
  is_current : job_is (im_current self) (zlen bs, tail);
  is_tail : zlen tail < B;
  is_full : Forall (fun b => zlen b = B) bs;
  is_jobs : Forall2 job_is (im_jobs self) (accepted accept (numbered bs))
}.

Lemma numbered_snoc bs b : numbered (bs ++ [b]) = numbered bs ++ [(zlen bs, b)].
Proof. unfold numbered. rewrite imap_app. simpl. by rewrite Nat.add_0_r. Qed.

Lemma accepted_snoc ps n b :
  accepted accept (ps ++ [(n, b)]) = accepted accept ps ++ (if accept n then [(n, b)] else []).
Proof. unfold accepted. rewrite List.filter_app. simpl. by destruct (accept n). Qed.

(** The jobs after the current worker is scheduled. *)
Lemma schedule_jobs self bs b :
  job_is (im_current self) (zlen bs, b) ->
  Forall2 job_is (im_jobs self) (accepted accept (numbered bs)) ->
  Forall2 job_is (schedule_current accept self) (accepted accept (numbered (bs ++ [b]))).
Proof.
  intros Hc Hj. rewrite numbered_snoc, accepted_snoc. unfold schedule_current.
  pose proof Hc as [-> _]. cbn [fst]. destruct (accept (zlen bs)).
  - apply Forall2_app; [done|]. by constructor.
  - by rewrite app_nil_r.
Qed.

Lemma write_loop_spec B buffer fuel self offset bs tail :
  0 < B -> 2 * B < MAX_TALLOC_SIZE -> 0 <= offset ->
  zlen bs + Z.max 0 (zlen buffer - offset) < INT_MAX -> zlen buffer + B < INT_MAX ->
  offset < zlen buffer + B ->
  (Z.to_nat (zlen buffer - offset) < fuel)%nat ->
  image_state B self bs tail ->
  exists self' bs' tail', write_loop junk accept fuel self buffer offset = Some self' /\
    image_state B self' bs' tail' /\
    concat bs' ++ tail' = concat bs ++ tail ++ zdrop offset buffer /\
    zlen bs' <= zlen bs + Z.max 0 (zlen buffer - offset).
Proof.
  intros HB Hmax. unfold INT_MAX, MAX_TALLOC_SIZE in *. revert self offset bs tail.
  induction fuel as [|fuel IH]; intros self offset bs tail Ho Hbs Hbf Hob Hf Hst; [lia|].
  pose proof Hst as [Hsz Hcnt [Hcn Hce] Htl Hfull Hjobs]. cbn [fst snd] in Hcn, Hce.
  simpl. destruct (sio_end_read _ _ Hce) as [Hsize _]. rewrite Hsize, Hsz.
  pose proof (zlen_nonneg tail). pose proof (zlen_nonneg buffer). pose proof (zlen_nonneg bs).
  rewrite (i32_small (zlen buffer - offset)), (i32_small (B - zlen tail)) by lia.
  destruct (Z.leb_spec (zlen buffer - offset) 0) as [Hdone|Hmore].
  { exists self, bs, tail. rewrite zdrop_all, app_nil_r by lia. split_and!; try done. lia. }
  destruct (Z.ltb_spec (Z.min (zlen buffer - offset) (B - zlen tail)) 0); [lia|].
  set (n := Z.min (zlen buffer - offset) (B - zlen tail)) in *.
  set (piece := zread offset n buffer).
  assert (zlen piece = n) as Hpl by (unfold piece; rewrite zlen_zread; lia).
  assert (piece ++ zdrop (offset + n) buffer = zdrop offset buffer) as Hpd.
  { unfold piece, zread. rewrite <- (zdrop_zdrop n offset) by lia. apply ztake_zdrop. }
  destruct (sio_end_write junk _ _ piece Hce) as (b' & -> & Hb');
    [unfold MAX_TALLOC_SIZE; lia|]. mred.
  destruct (sio_end_read _ _ Hb') as [-> _]. rewrite zlen_app, Hpl, u32_small by lia.
  rewrite i32_small by lia.
  destruct (Z.geb_spec (zlen tail + n) B) as [Hfl|Hnf].
  - assert (n = B - zlen tail) as En by lia. rewrite <- En.
    edestruct (IH (next_worker accept (with_current self
      {| iw_segment_count := iw_segment_count (im_current self); iw_bevy := b' |}))
      (offset + n) (bs ++ [tail ++ piece]) []) as (s' & bs' & t' & -> & Hst' & Heq & Hlb);
      try lia; [rewrite zlen_app; change (zlen [tail ++ piece]) with 1; lia| |].
    { split; cbn [im_bevy_size im_segment_count im_current im_jobs next_worker with_current].
      - done.
      - rewrite Hcnt, zlen_app, i32_small by lia. done.
      - rewrite Hcnt, i32_small, zlen_app by lia. split; [done|]. apply sio_end_new.
      - done.
      - apply Forall_app; split; [done|]. constructor; [|done]. rewrite zlen_app. lia.
      - apply schedule_jobs; [|done]. by split. }
    exists s', bs', t'. split_and!; try done.
    + rewrite Heq, concat_app. cbn [concat]. rewrite app_nil_r, <- !app_assoc. cbn [app].
      by rewrite Hpd.
    + rewrite zlen_app in Hlb. change (zlen [tail ++ piece]) with 1 in Hlb. lia.
  - assert (n = zlen buffer - offset) as En by lia.
    edestruct (IH (with_current self
      {| iw_segment_count := iw_segment_count (im_current self); iw_bevy := b' |})
      (offset + (B - zlen tail)) bs (tail ++ piece)) as (s' & bs' & t' & -> & Hst' & Heq & Hlb);
      try lia.
    { split; cbn [im_bevy_size im_segment_count im_current im_jobs with_current]; try done.
      rewrite zlen_app. lia. }
    exists s', bs', t'. split_and!; try done; [|lia].
    rewrite Heq, <- Hpd, <- !app_assoc. rewrite (zdrop_all (offset + n)) by lia.
    by rewrite zdrop_all by lia.
Qed.

End Split.

Section Stream.

Variable junk : nat -> Z.
Variable accept : Z -> bool.

Lemma write_all_spec B buffers self bs tail :
  0 < B -> 2 * B < MAX_TALLOC_SIZE -> zlen bs + zlen (concat buffers) + B < INT_MAX ->
  image_state accept B self bs tail ->
  exists self' bs' tail', write_all junk accept self buffers = Some self' /\
    image_state accept B self' bs' tail' /\
    concat bs' ++ tail' = concat bs ++ tail ++ concat buffers.
Proof.
  intros HB Hm. revert self bs tail.
  induction buffers as [|b buffers IH]; intros self bs tail Hl Hst.
  { exists self, bs, tail. cbn. by rewrite app_nil_r. }
  cbn [concat] in Hl. rewrite zlen_app in Hl. pose proof (zlen_nonneg bs).
  pose proof (zlen_nonneg b). pose proof (zlen_nonneg (concat buffers)).
  destruct (write_loop_spec junk accept B b (S (S (length b))) self 0 bs tail)
    as (s1 & bs1 & t1 & Hw & Hst1 & Heq & Hlb); try done; try lia.
  { unfold zlen. lia. }
  cbn [write_all]. unfold AFF4Image_write. rewrite Hw. mred.
  destruct (IH s1 bs1 t1) as (s' & bs' & t' & -> & Hst' & Heq'); [lia|done|].
  exists s', bs', t'. split_and!; try done. rewrite Heq'. cbn [concat].
  rewrite app_assoc, Heq, zdrop_0 by lia. by rewrite <- !app_assoc.
Qed.

(** What the workers and the readers use of an image; writing does not change it. *)
Definition im_static (self : AFF4Image) : RDFURN * Z * Z * Z :=
  (im_urn self, im_chunk_size self, im_compression self, im_chunks_in_segment self).

Lemma write_loop_static fuel self buffer offset self' :
  write_loop junk accept fuel self buffer offset = Some self' ->
  im_static self' = im_static self.
Proof.
  revert self offset. induction fuel as [|fuel IH]; intros self offset; [done|].
  cbn [write_loop]. destruct (_ <=? 0); [by intros [= ->]|]. destruct (_ <? 0); [done|].
  destruct (StringIO_write _ _ _) as [[r b]|]; [|done]. mred. intros Hw%IH.
  rewrite Hw. by destruct (_ >=? _).
Qed.

Lemma write_all_static buffers self self' :
  write_all junk accept self buffers = Some self' -> im_static self' = im_static self.
Proof.
  revert self. induction buffers as [|b buffers IH]; intros self; [by intros [= ->]|].
  cbn [write_all]. unfold AFF4Image_write.
  destruct (write_loop junk accept _ self b 0) as [s1|] eqn:Hw; [|done]. mred.
  intros H%IH. by rewrite H, (write_loop_static _ _ _ _ _ Hw).
Qed.

End Stream.

(** An image stream before [finish]. *)
Definition image_ready (self : AFF4Image) : Prop :=
  im_write self = true /\ im_stored self = true /\ urn_parser (im_urn self) <> None /\
  0 < im_chunk_size self /\ 0 < im_chunks_in_segment self /\
  2 * (im_chunk_size self * im_chunks_in_segment self) < MAX_TALLOC_SIZE.

Lemma AFF4Image_finish_ready accept uuid self :
  image_ready self ->
  let B := im_chunk_size self * im_chunks_in_segment self in
  exists self', AFF4Image_finish uuid self = Some (None, self') /\
    image_state accept B self' [] [] /\ im_static self' = im_static self.
Proof.
  intros (Hw & Hs & Hu & Hc & Hk & Hm) B. unfold AFF4Image_finish, AFFObject_finish.
  destruct (urn_parser (im_urn self)) eqn:Hp; [|done]. mred. rewrite Hw, Hs. cbn [negb].
  assert (0 < B) by (unfold B; nia). unfold MAX_TALLOC_SIZE in Hm.
  destruct (Z.eqb_spec (im_chunk_size self) 0); [lia|].
  destruct (Z.eqb_spec (im_chunks_in_segment self) 0); [lia|].
  eexists. split; [reflexivity|]. split_and!; try done.
  - split; cbn; try done.
    + fold B. rewrite i32_small, u32_small by lia. done.
    + split; [done|]. apply sio_end_new.
  - unfold im_static. cbn. by destruct (Z.eqb_spec (im_compression self) 0) as [->|].
Qed.

(** C7: an image stream with given sizes is cut into bevies without loss.  When [chunk_size]
    and [chunks_in_segment] are set and not zero before [finish] ([image_ready]; with the
    defaults the size of a bevy is zero and [write] does not end,
    [AFF4Image_default_write_diverges]), however the data is divided among calls of [write],
    less than 2^31 bytes in all, after [finish] every call succeeds; the data is the
    concatenation of bevies of exactly [chunk_size * chunks_in_segment] bytes and a shorter
    last one, numbered from zero, and after [close] the thread pool has been given exactly
    those bevies it accepted in time, in order.  A bevy it does not accept is dropped without
    an error. *)
Theorem AFF4Image_write_splits junk accept uuid self buffers :
  image_ready self ->
  let B := im_chunk_size self * im_chunks_in_segment self in
  zlen (concat buffers) + B < INT_MAX ->
  exists self1 self2 bs tail,
    AFF4Image_finish uuid self = Some (None, self1) /\
    write_all junk accept self1 buffers = Some self2 /\
    concat (bs ++ [tail]) = concat buffers /\
    Forall (fun b => zlen b = B) bs /\ zlen tail < B /\
    Forall2 job_is (AFF4Image_close accept self2) (accepted accept (numbered (bs ++ [tail]))).
Proof.
  intros Hr B Hl. destruct (AFF4Image_finish_ready accept uuid self Hr) as (s1 & Hf & Hst & _).
  assert (0 < B) by (destruct Hr as (_ & _ & _ & ? & ? & _); unfold B; nia).
  destruct (write_all_spec junk accept B buffers s1 [] []) as (s2 & bs & tail & Hw & Hst2 & Heq);
    try done; [apply Hr|].
  exists s1, s2, bs, tail. split_and!; try done.
  - rewrite concat_app. cbn [concat]. by rewrite app_nil_r, Heq.
  - apply (is_full _ _ _ _ _ Hst2).
  - apply (is_tail _ _ _ _ _ Hst2).
  - apply schedule_jobs; [apply (is_current _ _ _ _ _ Hst2)|apply (is_jobs _ _ _ _ _ Hst2)].
Qed.

Definition image_urn : RDFURN :=
  default RDFURN_Con (RDFURN_Con2 (Some (lit "aff4://vol/img"))).

Definition image_example (chunk_size chunks : Z) : AFF4Image :=
  {| im_urn := image_urn; im_write := true; im_stored := true; im_chunk_size := chunk_size;
     im_compression := 0; im_chunks_in_segment := chunks; im_bevy_size := 0;
     im_segment_count := 0; im_current := ImageWorker_Con 0; im_thread_count := 2;
     im_readptr := 0; im_jobs := [] |}.

Lemma image_example_ready : image_ready (image_example 2 2).
Proof. vm_compute. repeat split; congruence. Qed.

(** Bevies of four bytes; the second one is refused. *)
Lemma AFF4Image_write_splits_witness :
  exists self1 self2 bs tail,
    AFF4Image_finish [] (image_example 2 2) = Some (None, self1) /\
    write_all zip_junk (fun n => negb (n =? 1)) self1 [lit "hel"; lit "lo worl"; lit "d"]
      = Some self2 /\
    concat (bs ++ [tail]) = lit "hello world" /\
    Forall (fun b => zlen b = 4) bs /\ zlen tail < 4 /\
    Forall2 job_is (AFF4Image_close (fun n => negb (n =? 1)) self2)
      (accepted (fun n => negb (n =? 1)) (numbered (bs ++ [tail]))).
Proof.
  apply (AFF4Image_write_splits zip_junk (fun n => negb (n =? 1)) [] (image_example 2 2)
    [lit "hel"; lit "lo worl"; lit "d"]).
  - apply image_example_ready.
  - vm_compute. reflexivity.
Defined.

Lemma write_loop_empty_bevies junk accept fuel self buffer :
  im_bevy_size self = 0 -> sio_end (iw_bevy (im_current self)) [] -> 0 < zlen buffer < INT_MAX ->
  write_loop junk accept fuel self buffer 0 = None.
Proof.
  revert self. induction fuel as [|fuel IH]; intros self Hs He Hl; [done|]. cbn [write_loop].
  unfold INT_MAX in Hl. destruct (sio_end_read _ _ He) as [-> _]. rewrite Hs.
  change (i32 (0 - zlen (@nil Z))) with 0. rewrite Z.sub_0_r, i32_small by lia.
  destruct (Z.leb_spec (zlen buffer) 0); [lia|]. rewrite Z.min_r by lia.
  change (0 <? 0) with false. cbv iota.
  destruct (sio_end_write junk _ _ (zread 0 0 buffer) He) as (b & -> & Hb); [done|]. mred.
  destruct (sio_end_read _ _ Hb) as [-> _]. cbn [im_bevy_size with_current]. rewrite Hs.
  change (u32 (zlen ([] ++ zread 0 0 buffer)) >=? 0) with true. cbv iota.
  apply IH; [done|apply sio_end_new|done].
Qed.

(** With the default chunk sizes [AFF4Image_write] does not return.  [finish]
    computes the size of a bevy before it sets the defaults, so it stays zero: every
    turn of the loop writes nothing, schedules an empty bevy and goes on. *)
Theorem AFF4Image_default_write_diverges junk accept uuid buffer fuel :
  0 < zlen buffer < INT_MAX ->
  exists self1, AFF4Image_finish uuid (image_example 0 0) = Some (None, self1) /\
    im_chunk_size self1 = 32768 /\ im_chunks_in_segment self1 = 1024 /\
    write_loop junk accept fuel self1 buffer 0 = None.
Proof.
  intros Hl. eexists. split; [reflexivity|]. split; [done|]. split; [done|].
  apply write_loop_empty_bevies; [done|apply sio_end_new|done].
Qed.

Lemma AFF4Image_default_write_diverges_witness :
  exists self1, AFF4Image_finish [] (image_example 0 0) = Some (None, self1) /\
    im_chunk_size self1 = 32768 /\ im_chunks_in_segment self1 = 1024 /\
    write_loop zip_junk (fun _ => true) 100 self1 (lit "x") 0 = None.
Proof.
  apply (AFF4Image_default_write_diverges zip_junk (fun _ => true) [] (lit "x") 100).
  vm_compute. split; congruence.
Defined.
