(* ===== verification/ImageStore.v ===== *)
(** Image streams on a volume: what a worker stores of a bevy, and what a reader of the
    volume gets back.

    A bevy is two entries of the archive: its chunks, one after the other, and the
    index of their offsets.  [cuts] and [index_from] say what these are. *)

From S2P Require Import Prelude.
From S2P Require Import Talloc.
From S2P Require Import StringIO.
From S2P Require Import CText.
From S2P Require Import Misc.
From S2P Require Import Url.
From S2P Require Import Rdf.
From S2P Require Import File.
From S2P Require Import ZipFormat.
From S2P Require Import ZipSegment.
From S2P Require Import ZipVolume.
From S2P Require Import ZipArchive.
From S2P Require Import ZipReader.
From S2P Require Import Image.

(** The chunks of a bevy. *)
Fixpoint cuts (fuel : nat) (k : Z) (data : list Z) : list (list Z) :=
  match fuel with
  | O => []
  | S fuel' => if zlen data =? 0 then [] else ztake k data :: cuts fuel' k (zdrop k data)
  end.

(** The index: where each stored chunk starts. *)
Fixpoint index_from (off : Z) (cs : list (list Z)) : list Z :=
  match cs with
  | [] => []
  | c :: cs => le 4 off ++ index_from (off + zlen c) cs
  end.

Lemma zlen_index off cs : zlen (index_from off cs) = 4 * zlen cs.
Proof.
  revert off. induction cs as [|c cs IH]; intros off; [done|]. cbn [index_from].
  rewrite zlen_app, zlen_le, IH, zlen_cons. lia.
Qed.

Lemma concat_cuts fuel k data : 0 < k -> (length data <= fuel)%nat -> concat (cuts fuel k data) = data.
Proof.
  intros Hk. revert data. induction fuel as [|fuel IH]; intros data Hl.
  { destruct data; [done|simpl in Hl; lia]. }
  cbn [cuts]. destruct (Z.eqb_spec (zlen data) 0) as [E|E]; [by apply zlen_0_nil in E|].
  cbn [concat]. rewrite IH; [apply ztake_zdrop|].
  pose proof (zlen_zdrop k data) as Hd. unfold zlen in *. lia.
Qed.

(** Entry [i] of the index is where stored chunk [i] starts. *)
Lemma index_lookup cs i c off :
  cs !! i = Some c -> 0 <= off -> off + zlen (concat cs) < 4294967296 ->
  exists o, unle (zread (4 * Z.of_nat i) 4 (index_from off cs)) = off + o /\
    0 <= o /\ zread o (zlen c) (concat cs) = c.
Proof.
  revert i off. induction cs as [|c' cs IH]; intros i off Hi Ho Hl; [done|].
  cbn [concat] in Hl |- *. rewrite zlen_app in Hl. pose proof (zlen_nonneg c').
  pose proof (zlen_nonneg (concat cs)).
  destruct i as [|i]; cbn [index_from].
  - injection Hi as ->. exists 0. split_and!; [|done|].
    + change (4 * Z.of_nat 0) with 0. unfold zread. rewrite zdrop_0, ztake_app_eq by done.
      rewrite unle_le4, u32_small by lia. lia.
    + unfold zread. by rewrite zdrop_0, ztake_app_eq.
  - destruct (IH i (off + zlen c') Hi) as (o & Hu & Ho' & Hr); [lia|lia|].
    exists (zlen c' + o). split_and!; [|lia|].
    + rewrite Z.add_assoc, <- Hu. f_equal. unfold zread. f_equal.
      rewrite zdrop_app_ge by (rewrite zlen_le; lia). f_equal. rewrite zlen_le. lia.
    + unfold zread in *. rewrite zdrop_app_ge by lia. by replace (zlen c' + o - zlen c') with o by lia.
Qed.

Section WorkerLemmas.

Context `{FRL : ForeignLaws} `{CP : Compressor} `{FLL : FileLikeLaws F}.
Variable junk : nat -> Z.
Variable now : tm.
Variable uuid : list Z.

Definition stored_entry (name data : list Z) (closed : bool) : entry :=
  {| e_name := name; e_method := ZIP_STORED; e_data := data; e_closed := closed |}.

(** The two entries of a bevy at the end of the archive. *)
Lemma pair_lookup (es : list entry) a b :
  (es ++ [a; b]) !! length es = Some a /\ (es ++ [a; b]) !! S (length es) = Some b.
Proof.
  rewrite !lookup_app_r by lia. rewrite Nat.sub_diag, Nat.sub_succ_l, Nat.sub_diag by lia. done.
Qed.

Lemma pair_insert (es : list entry) a b x :
  <[length es := x]> (es ++ [a; b]) = es ++ [x; b] /\
  <[S (length es) := x]> (es ++ [a; b]) = es ++ [a; x].
Proof.
  rewrite !insert_app_r_alt by lia. rewrite Nat.sub_diag, Nat.sub_succ_l, Nat.sub_diag by lia.
  done.
Qed.

Lemma sio_end_read_at b bytes o n :
  sio_end b bytes -> 0 <= o -> 0 <= n -> o + n <= zlen bytes ->
  mem_read (sio_data b) o n = Some (zread o n bytes).
Proof.
  intros He Ho Hn Hl. destruct (sio_end_read b bytes He) as [_ Hr].
  destruct (sio_data b) as [tc|]; [|done]. cbn [mem_read] in *.
  destruct ((0 <=? 0) && (0 <=? zlen bytes) && (0 + zlen bytes <=? zlen (tc_mem tc))) eqn:E; [|done].
  apply andb_prop in E as [_ E%Z.leb_le]. rewrite Z.add_0_l in E. injection Hr as Hr.
  rewrite (proj2 (Z.leb_le 0 o)), (proj2 (Z.leb_le 0 n)), (proj2 (Z.leb_le (o + n) _)) by lia.
  cbn [andb]. f_equal. rewrite <- Hr. unfold zread. rewrite (zdrop_0 0), zdrop_ztake by lia.
  symmetry. apply ztake_ztake. lia.
Qed.

(** One turn of the loop: an index entry and a chunk. *)
Lemma write_chunk_spec vol (z : ZipFile F) es n1 n2 d1 d2 c :
  zip_inv vol z (es ++ [stored_entry n1 d1 false; stored_entry n2 d2 false]) ->
  2 * (zlen d1 + zlen c) < MAX_TALLOC_SIZE -> 2 * (zlen d2 + 4) < MAX_TALLOC_SIZE ->
  exists r1 z1 r2 z2,
    member_write junk z (S (length es)) (le 4 (zlen d1)) = Some (r1, z1) /\
    member_write junk z1 (length es) c = Some (r2, z2) /\
    zip_inv vol z2 (es ++ [stored_entry n1 (d1 ++ c) false;
                           stored_entry n2 (d2 ++ le 4 (zlen d1)) false]).
Proof.
  intros Hz Hm1 Hm2.
  destruct (member_write_stored junk now uuid vol z _ (S (length es))
    (stored_entry n2 d2 false) (le 4 (zlen d1)) Hz) as (r1 & z1 & E1 & Hz1);
    [apply pair_lookup|done|done|by rewrite zlen_le|].
  rewrite (proj2 (pair_insert _ _ _ _)) in Hz1.
  edestruct (member_write_stored junk now uuid vol z1 _ (length es)
    (stored_entry n1 d1 false) c Hz1) as (r2 & z2 & E2 & Hz2);
    [apply pair_lookup|done|done|done|].
  rewrite (proj1 (pair_insert _ _ _ _)) in Hz2. by exists r1, z1, r2, z2.
Qed.

Lemma chunk_loop_spec vol image bevy bytes n1 n2 es fuel o (z : ZipFile F) d1 d2 cs :
  sio_end bevy bytes -> 0 < im_chunk_size image < MAX_TALLOC_SIZE ->
  zip_inv vol z (es ++ [stored_entry n1 d1 false; stored_entry n2 d2 false]) ->
  0 <= o <= zlen bytes -> (Z.to_nat (zlen bytes - o) < fuel)%nat ->
  mapM (compress_chunk image) (cuts fuel (im_chunk_size image) (zdrop o bytes)) = Some cs ->
  2 * (zlen d1 + zlen (concat cs)) < MAX_TALLOC_SIZE ->
  2 * (zlen d2 + 4 * zlen cs) < MAX_TALLOC_SIZE ->
  exists z', chunk_loop junk fuel image bevy (length es) (S (length es)) o (zlen d1) z =
      Some (None, z') /\
    zip_inv vol z' (es ++ [stored_entry n1 (d1 ++ concat cs) false;
                           stored_entry n2 (d2 ++ index_from (zlen d1) cs) false]).
Proof.
  intros Hb Hk. destruct (sio_end_read _ _ Hb) as [Hs _]. pose proof (sio_end_bound _ _ Hb) as Hbd.
  unfold MAX_TALLOC_SIZE in *. revert o z d1 d2 cs.
  induction fuel as [|fuel IH]; intros o z d1 d2 cs Hz Ho Hf Hc H1 H2; [lia|].
  cbn [chunk_loop]. rewrite Hs, (u32_small (zlen bytes)) by lia. cbn [cuts] in Hc.
  rewrite zlen_zdrop in Hc. destruct (Z.ltb_spec o (zlen bytes)) as [Hlt|Hge].
  2: { destruct (Z.eqb_spec (Z.max 0 (zlen bytes - Z.max o 0)) 0); [|lia].
       injection Hc as <-. exists z. split; [done|]. cbn. by rewrite !app_nil_r. }
  destruct (Z.eqb_spec (Z.max 0 (zlen bytes - Z.max o 0)) 0); [lia|].
  rewrite (u32_small (im_chunk_size image)), (u32_small (zlen bytes - o)) by lia.
  set (k := im_chunk_size image) in *. set (len := Z.min k (zlen bytes - o)).
  rewrite (sio_end_read_at bevy bytes o len) by (done || lia). mred.
  assert (zread o len bytes = ztake k (zdrop o bytes)) as ->.
  { unfold zread, len. destruct (Z.min_spec k (zlen bytes - o)) as [[? ->]|[? ->]]; [done|].
    by rewrite !ztake_all by (rewrite zlen_zdrop; lia). }
  rewrite zdrop_zdrop in Hc by lia. cbn [mapM] in Hc.
  destruct (compress_chunk image (ztake k (zdrop o bytes))) as [c|] eqn:Hcomp; [|done].
  cbn [mbind option_bind] in Hc.
  destruct (mapM (compress_chunk image) (cuts fuel k (zdrop (o + k) bytes))) as [cs'|] eqn:Hrest;
    [|done]. cbn [mbind option_bind mret option_ret] in Hc. injection Hc as <-.
  cbn [concat] in H1 |- *. rewrite zlen_app in H1. rewrite zlen_cons in H2.
  pose proof (zlen_nonneg c). pose proof (zlen_nonneg d1). pose proof (zlen_nonneg d2).
  pose proof (zlen_nonneg cs'). pose proof (zlen_nonneg (concat cs')).
  destruct (write_chunk_spec vol z es n1 n2 d1 d2 c Hz)
    as (r1 & z1 & r2 & z2 & -> & E2 & Hz2); [unfold MAX_TALLOC_SIZE; lia..|].
  mred. rewrite E2. mred. rewrite (u32_small (o + len)), (u32_small (zlen d1 + zlen c)) by lia.
  assert (cuts fuel k (zdrop (o + k) bytes) = cuts fuel k (zdrop (o + len) bytes)) as Ecut.
  { f_equal. unfold len. destruct (Z.min_spec k (zlen bytes - o)) as [[? ->]|[? ->]]; [done|].
    by rewrite !zdrop_all by lia. }
  rewrite <- zlen_app.
  destruct (IH (o + len) z2 (d1 ++ c) (d2 ++ le 4 (zlen d1)) cs') as (z' & -> & Hz'); try lia;
    [done|by rewrite <- Ecut|rewrite zlen_app; lia|rewrite zlen_app, zlen_le; lia|].
  exists z'. split; [done|]. rewrite <- !app_assoc, zlen_app in Hz'. exact Hz'.
Qed.

End WorkerLemmas.

(** ** The names of the segments *)

Definition bevy_name (rel : list Z) (n : Z) : list Z := rel ++ lit "/" ++ print_08X n.
Definition index_name (rel : list Z) (n : Z) : list Z := bevy_name rel n ++ lit "/" ++ lit "idx".

(** The image has the name [rel] in the volume. *)
Record image_on (vol : RDFURN) (rel : list Z) (u : RDFURN) : Prop := {
  io_plain : exists k, urn_plain k u /\ k + 40 < BUFF_SIZE;
  io_value : urn_value u = urn_value vol ++ rel;
  io_legal : Forall (fun b => b < 128 /\ legal_char b = true) rel;
  io_short : 3 * (zlen rel + 13) <= BUFF_SIZE - 10
}.

Lemma print_08X_simple n : 0 <= n < 4294967296 ->
  simple_name (print_08X n) /\ cstring (print_08X n) /\
  Forall (fun b => b < 128 /\ legal_char b = true) (print_08X n).
Proof.
  intros Hn. destruct (print_08X_text n Hn) as [Hl Hd].
  assert (forallb (plain STATE_METHOD) (print_08X n) = true /\
    forallb (fun c => negb (c =? c2z "/")) (print_08X n) = true) as [Hp Hs].
  { split; apply forallb_forall; intros c Hc%list_elem_of_In;
      pose proof (proj1 (Forall_forall _ _) Hd c Hc) as Hr; cbn in Hr;
      unfold plain; change (c2z "#") with 35; change (c2z "/") with 47;
      change (c2z ":") with 58; repeat case_bool; try done; lia. }
  split_and!.
  - split; [|done]. split_and!; try done; intros E; rewrite E in Hl; vm_compute in Hl; done.
  - eapply Forall_impl; [exact Hd|]. cbn. lia.
  - eapply Forall_impl; [exact Hd|]. intros b Hb. cbn in Hb. split; [lia|].
    unfold legal_char. destruct (Z.leb_spec 32 b); [|lia]. cbn [andb].
    rewrite bool_decide_eq_false_2; [done|]. intros Hin%list_elem_of_In.
    vm_compute in Hin. lia.
Qed.

Lemma bevy_name_inj rel n m :
  0 <= n < 4294967296 -> 0 <= m < 4294967296 -> bevy_name rel n = bevy_name rel m -> n = m.
Proof. intros Hn Hm E%app_inv_head%app_inv_head. by apply print_08X_inj. Qed.

Lemma index_name_inj rel n m :
  0 <= n < 4294967296 -> 0 <= m < 4294967296 -> index_name rel n = index_name rel m -> n = m.
Proof. intros Hn Hm E%app_inv_tail. by apply bevy_name_inj in E. Qed.

Lemma bevy_index_name rel n m :
  0 <= n < 4294967296 -> 0 <= m < 4294967296 -> bevy_name rel n <> index_name rel m.
Proof.
  intros Hn Hm E%(f_equal zlen). unfold index_name, bevy_name in E. rewrite !zlen_app in E.
  destruct (print_08X_text n Hn) as [Hl _]. destruct (print_08X_text m Hm) as [Hl' _].
  rewrite Hl, Hl' in E. change (zlen (lit "/")) with 1 in E. change (zlen (lit "idx")) with 3 in E. lia.
Qed.

Lemma bevy_names_ok rel n :
  Forall (fun b => b < 128 /\ legal_char b = true) rel -> 3 * (zlen rel + 13) <= BUFF_SIZE - 10 ->
  0 <= n < 4294967296 -> name_ok (bevy_name rel n) /\ name_ok (index_name rel n).
Proof.
  intros Hr Hs Hn. destruct (print_08X_text n Hn) as [Hl _].
  destruct (print_08X_simple n Hn) as (_ & _ & Hp). pose proof (zlen_nonneg rel).
  assert (name_ok (lit "/idx")) as (_ & _ & Hi) by (apply (bool_decide_unpack _); vm_compute; exact I).
  assert (name_ok (lit "/")) as (_ & _ & Hsl) by (apply (bool_decide_unpack _); vm_compute; exact I).
  unfold name_ok, index_name, bevy_name. rewrite !zlen_app, Hl, !Forall_app.
  change (zlen (lit "idx")) with 3. change (zlen (lit "/")) with 1.
  assert (Forall (fun b => b < 128 /\ legal_char b = true) (lit "idx"))
    by (by apply Forall_inv_tail in Hi).
  split_and!; try done; lia.
Qed.

Lemma bevy_urns_spec vol rel image n :
  image_on vol rel (im_urn image) -> 0 <= n < 2147483648 ->
  exists b i, bevy_urns image n = Some (b, i) /\
    RDFURN_relative_name b vol = bevy_name rel n /\ urn_normal b /\
    RDFURN_relative_name i vol = index_name rel n /\ urn_normal i.
Proof.
  intros [(k & Hk & Hkl) Hv _ _] Hn. unfold BUFF_SIZE in Hkl.
  destruct (print_08X_text n) as [Hl _]; [lia|].
  destruct (print_08X_simple n) as (Hs & Hc & _); [lia|].
  unfold bevy_urns. rewrite u32_small by lia.
  destruct (urn_plain_copy k _ Hk) as (u & -> & Hu & Hpu); [unfold BUFF_SIZE; lia|]. mred.
  destruct (RDFURN_add_simple _ u (print_08X n) Hpu Hc) as (b & -> & Hbv & Hpb);
    [rewrite Hl; done|done|]. mred.
  destruct (RDFURN_add_simple _ b (lit "idx") Hpb) as (i & -> & Hiv & Hpi);
    [|done|apply (bool_decide_unpack _); vm_compute; exact I|]. 
  { repeat (constructor; [vm_compute; split; congruence|]). constructor. }
  mred. exists b, i. split; [done|]. rewrite Hl in *. change (zlen (lit "idx")) with 3 in Hpi.
  destruct (urn_plain_copy _ _ Hpb) as (b' & Hb' & Hb'v & _); [unfold BUFF_SIZE; lia|].
  destruct (urn_plain_copy _ _ Hpi) as (i' & Hi' & Hi'v & _); [unfold BUFF_SIZE; lia|].
  assert (urn_value b = urn_value vol ++ bevy_name rel n) as Hb
    by (rewrite Hbv, Hu, Hv; unfold bevy_name; by rewrite <- !app_assoc).
  unfold urn_normal. rewrite Hb', Hi'. cbn. rewrite Hb'v, Hi'v. split_and!; try done.
  - by apply relative_name_app.
  - apply relative_name_app. rewrite Hiv, Hb. unfold index_name. by rewrite <- !app_assoc.
Qed.

(** ** A worker and the pool *)

(** The chunks of a bevy as they are stored. *)
Definition bevy_chunks `{Compressor} (image : AFF4Image) (bytes : list Z)
  : option (list (list Z)) :=
  mapM (compress_chunk image) (cuts (S (length bytes)) (im_chunk_size image) bytes).

(** The two entries of a bevy. *)
Definition bevy_entries `{Compressor} (rel : list Z) (image : AFF4Image) (p : Z * list Z)
  : list entry :=
  match bevy_chunks image p.2 with
  | Some cs => [stored_entry (bevy_name rel p.1) (concat cs) true;
                stored_entry (index_name rel p.1) (index_from 0 cs) true]
  | None => []
  end.

(** A bevy that can be stored: its chunks compress and fit in memory. *)
Definition bevy_ok `{Compressor} (image : AFF4Image) (p : Z * list Z) : Prop :=
  0 <= p.1 < 2147483648 /\
  exists cs, bevy_chunks image p.2 = Some cs /\ 2 * zlen (concat cs) < MAX_TALLOC_SIZE /\
    8 * zlen cs < MAX_TALLOC_SIZE.

Section Run.

Context `{FRL : ForeignLaws} `{CP : Compressor} `{FLL : FileLikeLaws F}.
Variable junk : nat -> Z.
Variable now : tm.
Variable uuid : list Z.

Lemma open_pair vol (z : ZipFile F) es b i n1 n2 :
  zip_inv vol z es -> urn_normal b -> urn_normal i ->
  RDFURN_relative_name b vol = n1 -> RDFURN_relative_name i vol = n2 ->
  name_ok n1 -> name_ok n2 -> n1 <> n2 -> n1 ∉ e_name <$> es -> n2 ∉ e_name <$> es ->
  exists z1 z2,
    ZipFile_open_member now uuid z b true ZIP_STORED = Some (Some (length es), z1) /\
    ZipFile_open_member now uuid z1 i true ZIP_STORED = Some (Some (S (length es)), z2) /\
    zip_inv vol z2 (es ++ [stored_entry n1 [] false; stored_entry n2 [] false]).
Proof.
  intros Hz Hb Hi <- <- Hn1 Hn2 Hne Hf1 Hf2.
  destruct (open_fresh now uuid vol z es b ZIP_STORED Hz Hb Hn1) as (z1 & E1 & Hz1);
    [by left|done|].
  destruct (open_fresh now uuid vol z1 _ i ZIP_STORED Hz1 Hi Hn2) as (z2 & E2 & Hz2);
    [by left| |].
  { rewrite fmap_app. intros [Hin|Hin%list_elem_of_singleton]%elem_of_app; [done|].
    by apply Hne. }
  rewrite length_app, Nat.add_comm in E2. rewrite <- app_assoc in Hz2. by exists z1, z2.
Qed.

Lemma close_pair vol (z : ZipFile F) es n1 n2 d1 d2 :
  zip_inv vol z (es ++ [stored_entry n1 d1 false; stored_entry n2 d2 false]) ->
  2 * zlen d1 < MAX_TALLOC_SIZE -> 2 * zlen d2 < MAX_TALLOC_SIZE ->
  exists z1 z2, member_close junk z (length es) = Some z1 /\
    member_close junk z1 (S (length es)) = Some z2 /\
    zip_inv vol z2 (es ++ [stored_entry n1 d1 true; stored_entry n2 d2 true]).
Proof.
  intros Hz H1 H2.
  destruct (member_close_stored junk now uuid vol z _ (length es) (stored_entry n1 d1 false) Hz)
    as (z1 & E1 & Hz1); [apply pair_lookup|done..|].
  rewrite (proj1 (pair_insert _ _ _ _)) in Hz1.
  destruct (member_close_stored junk now uuid vol z1 _ (S (length es))
    (stored_entry n2 d2 false) Hz1) as (z2 & E2 & Hz2); [apply pair_lookup|done..|].
  rewrite (proj2 (pair_insert _ _ _ _)) in Hz2. by exists z1, z2.
Qed.

Lemma ImageWorker_run_stores vol rel image w p es (z : ZipFile F) :
  image_on vol rel (im_urn image) -> 0 < im_chunk_size image < MAX_TALLOC_SIZE ->
  job_is w p -> bevy_ok image p -> zip_inv vol z es ->
  bevy_name rel p.1 ∉ e_name <$> es -> index_name rel p.1 ∉ e_name <$> es ->
  exists z', ImageWorker_run junk now uuid image w z = Some (None, z') /\
    zip_inv vol z' (es ++ bevy_entries rel image p).
Proof.
  intros Hon Hk [Hn He] (Hp & cs & Hcs & Hm1 & Hm2) Hz Hf1 Hf2. destruct p as [n bytes].
  cbn [fst snd] in *. unfold bevy_entries. cbn [fst snd]. rewrite Hcs.
  destruct (bevy_urns_spec vol rel image n Hon Hp) as (b & i & Hbi & Hbr & Hbn & Hir & Hin).
  destruct (bevy_names_ok rel n (io_legal _ _ _ Hon) (io_short _ _ _ Hon)) as [Hok1 Hok2]; [lia|].
  destruct (open_pair vol z es b i _ _ Hz Hbn Hin Hbr Hir Hok1 Hok2)
    as (z1 & z2 & E1 & E2 & Hz2); [apply bevy_index_name; lia|done|done|].
  destruct (sio_end_read _ _ He) as [Hsz _].
  unfold ImageWorker_run. rewrite Hn, Hbi. mred. rewrite E1. mred. rewrite E2. mred. rewrite Hsz.
  destruct (chunk_loop_spec junk now uuid vol image (iw_bevy w) bytes (bevy_name rel n)
    (index_name rel n) es (S (Z.to_nat (zlen bytes))) 0 z2 [] [] cs He Hk Hz2)
    as (z3 & E3 & Hz3); change (zlen (@nil Z)) with 0; try (zlen_facts; lia).
  { unfold bevy_chunks in Hcs. unfold zlen. by rewrite Nat2Z.id, zdrop_0. }
  change (zlen (@nil Z)) with 0 in E3, Hz3. rewrite E3. mred. cbn [app] in Hz3.
  destruct (close_pair vol z3 es _ _ _ _ Hz3 Hm1) as (z4 & z5 & E4 & E5 & Hz5).
  { rewrite zlen_index. lia. }
  rewrite E4. mred. rewrite E5. mred. by exists z5.
Qed.

Lemma bevy_entries_names rel image n p :
  0 <= n < 4294967296 -> 0 <= p.1 < 4294967296 -> n <> p.1 ->
  (bevy_name rel n ∉ e_name <$> bevy_entries rel image p) /\
  (index_name rel n ∉ e_name <$> bevy_entries rel image p).
Proof.
  intros Hn Hp Hne. unfold bevy_entries.
  destruct (bevy_chunks image p.2) as [cs|]; [|split; apply not_elem_of_nil]. cbn.
  rewrite !not_elem_of_cons. split_and!; try apply not_elem_of_nil.
  - by intros ?%bevy_name_inj.
  - by apply bevy_index_name.
  - intros E. symmetry in E. by apply bevy_index_name in E.
  - by intros ?%index_name_inj.
Qed.

Lemma run_jobs_stores vol rel image jobs ps es (z : ZipFile F) :
  image_on vol rel (im_urn image) -> 0 < im_chunk_size image < MAX_TALLOC_SIZE ->
  Forall2 job_is jobs ps -> Forall (bevy_ok image) ps -> NoDup (fst <$> ps) ->
  zip_inv vol z es ->
  Forall (fun p => (bevy_name rel p.1 ∉ e_name <$> es) /\
                   (index_name rel p.1 ∉ e_name <$> es)) ps ->
  exists z', run_jobs junk now uuid image jobs z = Some z' /\
    zip_inv vol z' (es ++ flat_map (bevy_entries rel image) ps).
Proof.
  intros Hon Hk Hj. revert es z. induction Hj as [|w p jobs ps Hw Hj IH];
    intros es z Hok Hnd Hz Hf.
  { exists z. cbn. by rewrite app_nil_r. }
  apply Forall_cons in Hok as [Hok1 Hok]. apply Forall_cons in Hf as [[Hf1 Hf2] Hf].
  rewrite fmap_cons in Hnd. apply NoDup_cons in Hnd as [Hnot Hnd].
  destruct (ImageWorker_run_stores vol rel image w p es z Hon Hk Hw Hok1 Hz Hf1 Hf2)
    as (z1 & E1 & Hz1).
  cbn [run_jobs flat_map]. rewrite E1. mred. rewrite app_assoc. apply IH; try done.
  apply Forall_forall. intros q Hq. pose proof (proj1 (Forall_forall _ _) Hf q Hq) as [Hq1 Hq2].
  pose proof (proj1 (Forall_forall _ _) Hok q Hq) as [Hqn _]. destruct Hok1 as [Hpn _].
  destruct (bevy_entries_names rel image q.1 p) as [Hb Hi]; [lia|lia| |].
  { intros E. apply Hnot. rewrite <- E. by apply list_elem_of_fmap_2. }
  rewrite fmap_app, !elem_of_app. tauto.
Qed.

End Run.

(** ** The chunks of an image that is not compressed *)

Lemma bevy_chunks_stored `{Compressor} image bytes :
  im_compression image = ZIP_STORED ->
  bevy_chunks image bytes = Some (cuts (S (length bytes)) (im_chunk_size image) bytes).
Proof.
  intros Hc. unfold bevy_chunks. generalize (cuts (S (length bytes)) (im_chunk_size image) bytes).
  intros l. induction l as [|c l IH]; [done|]. cbn [mapM]. rewrite IH.
  unfold compress_chunk. by rewrite Hc.
Qed.

Lemma zlen_cuts fuel k data : 0 < k -> (zlen (cuts fuel k data) - 1) * k < Z.max 1 (zlen data).
Proof.
  intros Hk. assert (zlen (@nil (list Z)) = 0) as Hnil by done.
  revert data. induction fuel as [|fuel IH]; intros data; cbn [cuts]; [lia|].
  destruct (Z.eqb_spec (zlen data) 0) as [E|E]; [lia|].
  rewrite zlen_cons. specialize (IH (zdrop k data)). rewrite zlen_zdrop in IH.
  pose proof (zlen_nonneg data).
  destruct (cuts fuel k (zdrop k data)) as [|c cs] eqn:Hc; [lia|].
  destruct fuel; [done|]. cbn [cuts] in Hc. rewrite zlen_zdrop in Hc.
  destruct (Z.eqb_spec (Z.max 0 (zlen data - Z.max k 0)) 0); [done|]. nia.
Qed.

Lemma cuts_lookup fuel k data i :
  0 < k -> (length data <= fuel)%nat -> k * Z.of_nat i < zlen data ->
  cuts fuel k data !! i = Some (zread (k * Z.of_nat i) k data) /\
  forall off, 0 <= off -> off + zlen data < 4294967296 ->
    unle (zread (4 * Z.of_nat i) 4 (index_from off (cuts fuel k data))) = off + k * Z.of_nat i.
Proof.
  intros Hk. revert data i. induction fuel as [|fuel IH]; intros data i Hl Hi.
  { unfold zlen in Hi. lia. }
  cbn [cuts]. destruct (Z.eqb_spec (zlen data) 0); [lia|]. destruct i as [|i].
  - change (Z.of_nat 0) with 0. rewrite !Z.mul_0_r. unfold zread.
    split; [cbn; by rewrite (zdrop_0 0)|]. intros off Ho Hm.
    cbn [index_from]. rewrite (zdrop_0 0), ztake_app_eq by done.
    rewrite unle_le4, u32_small by lia. lia.
  - destruct (IH (zdrop k data) i) as [H1 H2].
    { pose proof (zlen_zdrop k data) as Hd. unfold zlen in *. lia. }
    { rewrite zlen_zdrop. lia. }
    split.
    + change ((ztake k data :: cuts fuel k (zdrop k data)) !! S i)
        with (cuts fuel k (zdrop k data) !! i). rewrite H1. unfold zread. rewrite zdrop_zdrop by lia. do 3 f_equal. lia.
    + intros off Ho Hm. cbn [index_from]. unfold zread in *.
      rewrite zdrop_app_ge by (rewrite zlen_le; lia). rewrite zlen_le.
      replace (4 * Z.of_nat (S i) - Z.of_nat 4) with (4 * Z.of_nat i) by lia.
      rewrite H2; rewrite ?zlen_ztake, ?zlen_zdrop; lia.
Qed.

Lemma zlen_cuts_le fuel k m data :
  0 < k -> 0 < m -> zlen data <= k * m -> zlen (cuts fuel k data) <= m.
Proof. intros Hk Hm Hl. pose proof (zlen_cuts fuel k data Hk). nia. Qed.

(** Where the bevies of a stream are. *)
Lemma bevy_lookup B (bs : list (list Z)) tail n :
  0 < B -> Forall (fun b => zlen b = B) bs -> zlen tail < B ->
  B * Z.of_nat n < Z.max 1 (zlen (concat (bs ++ [tail]))) ->
  (bs ++ [tail]) !! n = Some (zread (B * Z.of_nat n) B (concat (bs ++ [tail]))).
Proof.
  intros HB Hf Ht. revert n. induction Hf as [|b bs Hb Hf IH]; intros n Hn.
  { cbn in *. rewrite app_nil_r in *. destruct n as [|n]; [|zlen_facts; nia].
    rewrite Z.mul_0_r. unfold zread. rewrite zdrop_0, ztake_all by lia. done. }
  cbn [app concat] in *. rewrite zlen_app, Hb in Hn. destruct n as [|n].
  - rewrite Z.mul_0_r. unfold zread. rewrite zdrop_0, ztake_app_eq by lia. done.
  - cbn [lookup list_lookup]. rewrite IH by lia. f_equal. unfold zread.
    rewrite zdrop_app_ge by lia. do 2 f_equal. lia.
Qed.

(** ** Reading *)

Lemma read_into_data junk k c :
  zlen c <= k -> zlen (read_local junk k c) = k /\
  forall o n, 0 <= o -> 0 <= n -> o + n <= zlen c -> zread o n (read_local junk k c) = zread o n c.
Proof.
  intros Hc. pose proof (zlen_nonneg c). unfold read_local. split.
  - assert (zlen (map junk (seq 0 (Z.to_nat k))) = k)
      by (unfold zlen; rewrite length_map, length_seq; lia).
    rewrite zlen_zover; lia.
  - intros o n Ho Hn0 Hn. rewrite zover_0. unfold zread. rewrite zdrop_app_le by lia.
    apply ztake_app_le. rewrite zlen_zdrop. lia.
Qed.

Section Reading.

Context `{FRL : ForeignLaws} `{CP : Compressor} `{FLL : FileLikeLaws F}.
Variable junk : nat -> Z.
Variable now : tm.
Variable uuid : list Z.

Lemma reader_open_entry vol c (z : ZipFile F) es ps m method i e :
  reader_inv vol c z es ps -> es !! i = Some e -> name_ok (e_name e) ->
  RDFURN_relative_name m vol = e_name e ->
  ZipFile_open_member now uuid z m false method = Some (Some i, z).
Proof.
  intros Hz He Hn Hrel. rewrite (reader_open now uuid vol c z es ps m method Hz) by by rewrite Hrel.
  rewrite (proj2 (list_find_Some _ es i e)); [done|]. split_and!; [done|by rewrite Hrel|].
  intros j e' He' Hj Heq. pose proof (ri_nodup _ _ _ _ _ Hz) as Hnd.
  assert (i = j); [|lia]. apply (proj1 (NoDup_alt _) Hnd i j (e_name e));
    rewrite list_lookup_fmap; [by rewrite He|rewrite He'; cbn; congruence].
Qed.

(** What a read of [len] bytes at offset [o] of a chunk [ch] does. *)
Definition chunk_read (k : Z) (ch : list Z) (o len : Z) : option (list Z) :=
  if (zlen ch - o <=? len) && (o + len <=? k) then Some (zread o len (read_local junk k ch))
  else None.

Lemma AFF4Image_read_chunk vol rel c (z : ZipFile F) es image n b q i j len :
  image_on vol rel (im_urn image) -> im_compression image = ZIP_STORED ->
  reader_inv vol c z es (replicate (length es) 0) ->
  let k := im_chunk_size image in let m := im_chunks_in_segment image in
  0 < k < MAX_TALLOC_SIZE -> 0 < m -> 8 * m < MAX_TALLOC_SIZE -> 2 * (k * m) < MAX_TALLOC_SIZE ->
  im_bevy_size image = k * m -> im_readptr image = k * m * n + q -> 0 <= n < 2147483648 ->
  0 <= q < zlen b -> zlen b <= k * m -> 0 < len < INT_MAX ->
  es !! i = Some (stored_entry (bevy_name rel n) b true) ->
  es !! j = Some (stored_entry (index_name rel n) (index_from 0 (cuts (S (length b)) k b)) true) ->
  AFF4Image_read junk now uuid image z len =
    chunk_read k (zread (q - q mod k) k b) (q mod k) len.
Proof.
  intros Hon Hst Hz k m Hk Hm Hm8 HB Hbs Hp Hn Hq Hb Hlen Hi Hj.
  unfold MAX_TALLOC_SIZE, INT_MAX in *.
  destruct (bevy_urns_spec vol rel image n Hon Hn) as (bu & iu & Hbi & Hbr & _ & Hir & _).
  destruct (bevy_names_ok rel n (io_legal _ _ _ Hon) (io_short _ _ _ Hon)) as [Hok1 Hok2]; [lia|].
  assert (q = k * (q / k) + q mod k) as Hqk by (apply Z.div_mod; lia).
  pose proof (Z.mod_pos_bound q k ltac:(lia)) as Hmod.
  assert (0 <= q / k) by (apply Z.div_pos; lia).
  destruct (cuts_lookup (S (length b)) k b (Z.to_nat (q / k))) as [_ Hidx]; [lia|lia|
    rewrite Z2Nat.id by lia; lia|]. rewrite Z2Nat.id in Hidx by lia.
  assert (zlen (cuts (S (length b)) k b) <= m) as Hcm.
  { apply zlen_cuts_le; [lia..|done]. }
  assert (q / k < zlen (cuts (S (length b)) k b)) as Hqc.
  { destruct (cuts_lookup (S (length b)) k b (Z.to_nat (q / k))) as [Hlk%lookup_lt_Some _];
      [lia|lia|rewrite Z2Nat.id by lia; lia|]. unfold zlen. lia. }
  assert (forall x y, es !! x = Some y -> replicate (length es) 0 !! x = Some 0) as Hzero.
  { intros x y Hx%lookup_lt_Some. by apply lookup_replicate_2. }
  unfold AFF4Image_read. destruct (Z.leb_spec len 0); [lia|].
  unfold partial_read. fold k m. rewrite Hbs, Hp.
  assert ((k * m * n + q) / (k * m) = n /\ (k * m * n + q) mod (k * m) = q) as [-> ->].
  { rewrite Z.add_comm, Z.mul_comm, Z.div_add, Z.mod_add by lia.
    rewrite Z.div_small, Z.mod_small by lia. lia. }
  rewrite (i32_small n), (i32_small q), Hbi by lia. mred.
  rewrite (reader_open_entry vol c z es _ bu 0 i _ Hz Hi) by done. mred.
  rewrite (reader_open_entry vol c z es _ iu 0 j _ Hz Hj) by done. mred.
  destruct (reader_read junk vol c z es _ j _ 0 (m * 4) Hz Hj (Hzero _ _ Hj))
    as (z1 & -> & Hz1); [unfold MAX_TALLOC_SIZE; lia|]. mred. cbn [e_data stored_entry].
  set (idx := index_from 0 (cuts (S (length b)) k b)) in *.
  assert (zlen idx = 4 * zlen (cuts (S (length b)) k b)) as Hil by apply zlen_index.
  assert (zread 0 (m * 4) idx = idx) as ->.
  { unfold zread. rewrite zdrop_0, ztake_all by lia. done. }
  rewrite Z.quot_div_nonneg, Z.rem_mod_nonneg by lia.
  change (default [] (Some idx)) with idx.
  rewrite (proj2 (read_into_data junk (m * 4) idx ltac:(lia)) (4 * (q / k)) 4) by lia.
  unfold idx at 1. rewrite Hidx, Z.add_0_l by lia.
  destruct (reader_seek vol c z1 es _ i _ (k * (q / k)) Hz1 Hi) as (z2 & -> & Hz2);
    [cbn; lia|]. mred. rewrite Hst. change (ZIP_STORED =? ZIP_DEFLATE) with false. cbv iota.
  destruct (reader_read junk vol c z2 es _ i _ (k * (q / k)) k Hz2 Hi) as (z3 & -> & Hz3).
  { rewrite Z.max_r by lia. apply list_lookup_insert_eq. rewrite length_replicate.
    by apply lookup_lt_Some in Hi. }
  { unfold MAX_TALLOC_SIZE. lia. }
  mred. cbn [e_data stored_entry]. replace (q - q mod k) with (k * (q / k)) by lia.
  set (ch := zread (k * (q / k)) k b).
  assert (zlen ch <= k) as Hch by (unfold ch, zread; rewrite zlen_ztake; lia).
  change (default [] (Some ch)) with ch. rewrite (i32_small len) by lia. unfold chunk_read.
  destruct (read_into_data junk k ch Hch) as [Hrl _].
  destruct (Z.leb_spec (zlen ch - q mod k) len).
  - rewrite Z.max_r by lia. destruct (Z.ltb_spec len 0); [lia|]. rewrite Z.ltb_irrefl.
    cbn [orb andb]. rewrite Z.ltb_antisym.
    destruct (q mod k + len <=? k) eqn:E; cbn [negb]; [|done]. apply Z.leb_le in E. mred.
    rewrite zlen_zread by lia. rewrite Z.eqb_refl, orb_true_r. done.
  - rewrite Z.max_l by lia. destruct (Z.ltb_spec len (zlen ch - q mod k)); [|lia].
    by rewrite orb_true_r.
Qed.

End Reading.

(** ** From the writer to a reader *)

(** The image opened for reading at position [p], before [finish]. *)
Definition reopened (self : AFF4Image) (p : Z) : AFF4Image :=
  {| im_urn := im_urn self; im_write := false; im_stored := im_stored self;
     im_chunk_size := im_chunk_size self; im_compression := im_compression self;
     im_chunks_in_segment := im_chunks_in_segment self; im_bevy_size := 0;
     im_segment_count := 0; im_current := ImageWorker_Con 0; im_thread_count := 0;
     im_readptr := p; im_jobs := [] |}.

Lemma numbered_lookup bs i b : bs !! i = Some b -> numbered bs !! i = Some (Z.of_nat i, b).
Proof. intros Hi. unfold numbered. by rewrite list_lookup_imap, Hi. Qed.

Lemma numbered_fst bs : NoDup (fst <$> numbered bs).
Proof.
  unfold numbered. rewrite fmap_imap. apply NoDup_alt. intros i j x. rewrite !list_lookup_imap.
  destruct (bs !! i), (bs !! j); cbn; intros [= <-] [= E]; lia.
Qed.

Lemma accepted_all ps : accepted (fun _ => true) ps = ps.
Proof. unfold accepted. induction ps as [|p ps IH]; [done|]. cbn. by rewrite IH. Qed.

Lemma bevies_stored `{Compressor} image bs k m :
  im_compression image = ZIP_STORED -> im_chunk_size image = k ->
  0 < k -> 0 < m -> 8 * m < MAX_TALLOC_SIZE -> 2 * (k * m) < MAX_TALLOC_SIZE ->
  zlen bs <= INT_MAX -> Forall (fun b => zlen b <= k * m) bs ->
  Forall (bevy_ok image) (numbered bs).
Proof.
  intros Hc Hk Hk0 Hm Hm8 HB Hl Hf. apply Forall_lookup. intros i [n b] Hi.
  unfold numbered in Hi. rewrite list_lookup_imap in Hi.
  destruct (bs !! i) as [b'|] eqn:Hb; [|done]. injection Hi as <- <-.
  pose proof (proj1 (Forall_lookup _ _) Hf i b' Hb) as Hlb. cbn in Hlb.
  apply lookup_lt_Some in Hb. unfold zlen, INT_MAX in Hl. split; [cbn; lia|].
  exists (cuts (S (length b')) k b'). cbn [snd]. rewrite bevy_chunks_stored, Hk by done.
  split; [done|]. rewrite concat_cuts by lia.
  pose proof (zlen_cuts_le (S (length b')) k m b' Hk0 Hm Hlb). lia.
Qed.

(** All entries of the bevies are closed, and those of each bevy are among them. *)
Lemma bevy_entries_closed `{Compressor} rel image ps :
  closed_entries (flat_map (bevy_entries rel image) ps) = flat_map (bevy_entries rel image) ps.
Proof.
  unfold closed_entries. induction ps as [|p ps IH]; [done|]. cbn [flat_map].
  rewrite List.filter_app, IH. f_equal. unfold bevy_entries. by destruct (bevy_chunks _ _).
Qed.

Lemma bevy_entries_in `{Compressor} rel image ps p cs :
  p ∈ ps -> bevy_chunks image p.2 = Some cs ->
  exists i j, flat_map (bevy_entries rel image) ps !! i =
      Some (stored_entry (bevy_name rel p.1) (concat cs) true) /\
    flat_map (bevy_entries rel image) ps !! j =
      Some (stored_entry (index_name rel p.1) (index_from 0 cs) true).
Proof.
  intros Hp Hcs. assert (forall e, e ∈ bevy_entries rel image p ->
    exists i, flat_map (bevy_entries rel image) ps !! i = Some e) as Hin.
  { intros e He. apply list_elem_of_lookup, list_elem_of_In, in_flat_map. exists p.
    by rewrite <- !list_elem_of_In. }
  unfold bevy_entries in Hin at 1. rewrite Hcs in Hin.
  destruct (Hin (stored_entry (bevy_name rel p.1) (concat cs) true)) as [i Hi]; [by left|].
  destruct (Hin (stored_entry (index_name rel p.1) (index_from 0 cs) true)) as [j Hj];
    [by right; left|]. by exists i, j.
Qed.

(** A chunk of a bevy is a chunk of the stream. *)
Lemma chunk_of_stream (data : list Z) k m p :
  0 < k -> 0 < m -> 0 <= p < zlen data ->
  let B := k * m in let q := p mod B in let b := zread (B * (p / B)) B data in
  q < zlen b /\ q mod k = p mod k /\
  zread (q - q mod k) k b = zread (p - p mod k) k data.
Proof.
  intros Hk Hm Hp B q b. assert (0 < B) by (unfold B; nia).
  assert (p = B * (p / B) + q) as Hpq by (apply Z.div_mod; lia).
  assert (0 <= q < B) as Hq by (apply Z.mod_pos_bound; lia).
  assert (0 <= p / B) by (apply Z.div_pos; lia).
  assert (q mod k = p mod k) as Hmod.
  { rewrite Hpq. unfold B. rewrite <- Z.mul_assoc, Z.add_comm, Z.mul_comm, Z.mod_add by lia. done. }
  split_and!; [|done|].
  - unfold b, zread. rewrite zlen_ztake, zlen_zdrop. nia.
  - pose proof (Z.mod_pos_bound q k Hk). pose proof (Z.div_mod q k ltac:(lia)) as Hqk.
    assert (q / k < m) as Hx by (apply Z.div_lt_upper_bound; lia).
    assert (k * (q / k) + k <= B) by (unfold B; nia).
    pose proof (Z.mod_le q k ltac:(lia) Hk). assert (0 <= B * (p / B)) by nia.
    rewrite <- Hmod. unfold b, zread. rewrite zdrop_ztake by lia.
    rewrite zdrop_zdrop by lia. rewrite ztake_ztake by lia. do 2 f_equal. lia.
Qed.

Section Roundtrip.

Context `{FRL : ForeignLaws} `{CP : Compressor} `{FLL : FileLikeLaws F}.
Variable junk : nat -> Z.
Variable now : tm.
Variable uuid : list Z.

(** The reader, on the archive of the bevies. *)
Lemma image_readable vol rel c (z : ZipFile F) self image bs tail data p len :
  image_ready self -> im_compression self = ZIP_STORED -> image_on vol rel (im_urn self) ->
  8 * im_chunks_in_segment self < MAX_TALLOC_SIZE -> im_static image = im_static self ->
  let k := im_chunk_size self in let B := k * im_chunks_in_segment self in
  Forall (fun b => zlen b = B) bs -> zlen tail < B -> concat (bs ++ [tail]) = data ->
  zlen data + B < INT_MAX ->
  let es := flat_map (bevy_entries rel image) (numbered (bs ++ [tail])) in
  reader_inv vol c z es (replicate (length es) 0) ->
  0 <= p < zlen data -> 0 < len < INT_MAX ->
  exists r, AFF4Image_finish uuid (reopened self p) = Some (Some EProgrammingError, r) /\
    AFF4Image_read junk now uuid r z len =
      chunk_read junk k (zread (p - p mod k) k data) (p mod k) len.
Proof.
  intros (_ & _ & Hu & Hk & Hm & HBm) Hst Hon Hm8 Hstat k B Hf Ht Hd Hlen es Hz Hp Hl.
  assert (0 < B) as HB by (unfold B, k; nia). unfold MAX_TALLOC_SIZE, INT_MAX in *.
  injection Hstat as Hiu Hik Hic Him.
  unfold AFF4Image_finish, AFFObject_finish. cbn [im_urn reopened im_write negb].
  destruct (urn_parser (im_urn self)) as [pa|] eqn:Hpa; [|done]. mred.
  eexists. split; [reflexivity|].
  destruct (chunk_of_stream data k (im_chunks_in_segment self) p Hk Hm Hp) as (Hq & Hmod & Hch).
  fold B in Hq, Hmod, Hch. rewrite <- Hch, <- Hmod.
  assert (0 <= p / B) as Hpb by (apply Z.div_pos; lia).
  assert (p / B <= p) by (apply Z.div_le_upper_bound; nia).
  set (b := zread (B * (p / B)) B data) in *.
  assert (numbered (bs ++ [tail]) !! Z.to_nat (p / B) = Some (p / B, b)) as Hlk.
  { rewrite <- (Z2Nat.id (p / B)) at 2 by done. apply numbered_lookup. unfold b. rewrite <- Hd.
    rewrite <- (Z2Nat.id (p / B)) at 2 by done. apply bevy_lookup; try done.
    rewrite Z2Nat.id, Hd by done. pose proof (Z.mul_div_le p B HB). lia. }
  assert (zlen b <= B) as Hlb by (unfold b, zread; rewrite zlen_ztake; lia).
  edestruct (bevy_entries_in rel image (numbered (bs ++ [tail])) (p / B, b)) as (i & j & Hi & Hj).
  { by apply list_elem_of_lookup_2 with (Z.to_nat (p / B)). }
  { apply bevy_chunks_stored. by rewrite Hic. }
  cbn [fst snd] in Hi, Hj. rewrite concat_cuts in Hi by lia.
  match goal with |- AFF4Image_read _ _ _ ?im _ _ = _ =>
    apply (AFF4Image_read_chunk junk now uuid vol rel c z es im (p / B) b (p mod B) i j len) end;
    cbn; fold k B; try done; unfold MAX_TALLOC_SIZE, INT_MAX; try lia.
  - rewrite i32_small, u32_small by lia. done.
  - apply Z.div_mod. lia.
  - pose proof (Z.mod_pos_bound p B HB). lia.
  - by rewrite Hik in Hj.
Qed.

(** The writer and the workers, on a volume without members. *)
Lemma image_stored vol rel self (z : ZipFile F) buffers :
  image_ready self -> im_compression self = ZIP_STORED -> image_on vol rel (im_urn self) ->
  8 * im_chunks_in_segment self < MAX_TALLOC_SIZE ->
  let B := im_chunk_size self * im_chunks_in_segment self in
  zlen (concat buffers) + B < INT_MAX -> zip_inv vol z [] ->
  exists self1 self2 z1 bs tail,
    AFF4Image_finish uuid self = Some (None, self1) /\
    write_all junk (fun _ => true) self1 buffers = Some self2 /\
    run_jobs junk now uuid self2 (AFF4Image_close (fun _ => true) self2) z = Some z1 /\
    im_static self2 = im_static self /\ Forall (fun b => zlen b = B) bs /\ zlen tail < B /\
    concat (bs ++ [tail]) = concat buffers /\
    zip_inv vol z1 (flat_map (bevy_entries rel self2) (numbered (bs ++ [tail]))).
Proof.
  intros Hr Hst Hon Hm8 B Hlen Hz. pose proof Hr as (_ & _ & _ & Hk & Hc & HB).
  assert (0 < B) by (unfold B; nia).
  destruct (AFF4Image_finish_ready (fun _ => true) uuid self Hr) as (s1 & Hf & Hs1 & Hstat1).
  destruct (write_all_spec junk (fun _ => true) B buffers s1 [] [])
    as (s2 & bs & tail & Hwr & [_ _ Hcur Htail Hfull Hjobs] & Heq); try done.
  pose proof (write_all_static _ _ _ _ _ Hwr) as Hstat2. rewrite Hstat1 in Hstat2.
  assert (concat (bs ++ [tail]) = concat buffers) as Hdata
    by (rewrite concat_app; cbn [concat]; by rewrite app_nil_r, Heq).
  assert (zlen bs <= zlen (concat buffers)) as Hbl.
  { rewrite <- Hdata, concat_app, zlen_app. pose proof (zlen_nonneg (concat [tail])).
    assert (zlen bs <= zlen (concat bs)); [|lia]. clear -Hfull H1. induction Hfull; [done|].
    cbn [concat]. rewrite zlen_cons, zlen_app. lia. }
  pose proof (schedule_jobs _ _ _ _ Hcur Hjobs) as Hj. rewrite accepted_all in Hj.
  pose proof Hstat2 as Hs. injection Hs as Hiu Hik Hic Him. unfold MAX_TALLOC_SIZE, INT_MAX in *.
  destruct (run_jobs_stores junk now uuid vol rel s2 (schedule_current (fun _ => true) s2)
    (numbered (bs ++ [tail])) [] z) as (z1 & Hrun & Hz1); try done.
  { by rewrite Hiu. }
  { rewrite Hik. unfold MAX_TALLOC_SIZE. nia. }
  { apply (bevies_stored s2 _ (im_chunk_size self) (im_chunks_in_segment self)); try done;
      [congruence|rewrite zlen_app; change (zlen [tail]) with 1; unfold INT_MAX; lia|].
    apply Forall_app. split; [|constructor; [unfold B in *; lia|done]].
    eapply Forall_impl; [exact Hfull|]. intros b Hb. cbn in Hb. unfold B in *. lia. }
  { apply numbered_fst. }
  { apply Forall_forall. intros. split; apply not_elem_of_nil. }
  exists s1, s2, z1, bs, tail. by split_and!.
Qed.

End Roundtrip.


(** A compressor that keeps its input. *)
Definition held_compressor : Compressor := {|
  compressBound n := n + 13;
  compress2 d n := if zlen d <=? n then Some d else None
|}.

Lemma image_urn_on : image_on zip_vol (lit "/img") image_urn.
Proof.
  split; [|reflexivity|apply (bool_decide_unpack _); vm_compute; exact I|vm_compute; congruence].
  destruct (RDFURN_set_plain RDFURN_Con (lit "aff4://vol/img")) as (r & Hr & Hp);
    [apply (bool_decide_unpack _); vm_compute; exact I|reflexivity|reflexivity|].
  assert (RDFURN_set RDFURN_Con (Some (lit "aff4://vol/img")) = Some image_urn) as Hi
    by (vm_compute; reflexivity).
  rewrite Hi in Hr. apply (inj Some) in Hr. subst r. eexists. split; [exact Hp|]. vm_compute. reflexivity.
Qed.

