(* ===== verification/Cipher.v ===== *)
(** * Cipher: keys and the AES-256 cipher of encrypted streams (lib/encrypt.c)

    A stream's key lives in a [Key] object that every cipher of the stream shares through
    the global [KeyCache]; [AES256Password] stores it encrypted under a key derived from
    a passphrase and encrypts the chunks of the stream with it.

    OpenSSL is a parameter ([OpenSSL], its documented behaviour in [OpenSSLLaws]).  The
    keys are objects in a store, since the cache and the ciphers point to the same one
    and decoding writes into it.  Reading a dangling or NULL pointer, or outside a
    buffer, is [None].  [uninit] is what a local array holds before it is written, and
    [frame] the bytes that follow the last local array in memory. *)
From S2P Require Import Prelude Cache Encode Rdf.

Definition AES_BLOCK_SIZE : Z := 16.
Definition AES256_KEY_SIZE : Z := 32.

(** The functions of OpenSSL the file calls.  [AES_cbc_encrypt in key ivec enc] gives the
    output and the new contents of [ivec]; the [RAND] functions are numbered calls, and
    [None] is a failure. *)
Class OpenSSL := {
  EVP_MAX_KEY_LENGTH : Z;
  AES_KEY : Type;
  AES_set_encrypt_key : list Z -> AES_KEY;
  AES_set_decrypt_key : list Z -> AES_KEY;
  AES_cbc_encrypt : list Z -> AES_KEY -> list Z -> bool -> list Z * list Z;
  PKCS5_PBKDF2_HMAC_SHA1 : list Z -> list Z -> Z -> Z -> list Z;
  RAND_bytes : nat -> Z -> option (list Z);
  RAND_pseudo_bytes : nat -> Z -> option (list Z)
}.

(** Whole blocks of bytes are encrypted to as many bytes, and decrypting with the same
    key and initial vector gives them back. *)
Class OpenSSLLaws `{OpenSSL} := {
  key_length_law : AES256_KEY_SIZE <= EVP_MAX_KEY_LENGTH;
  cbc_length_law d k iv enc : zlen d mod AES_BLOCK_SIZE = 0 -> bytes_ok d ->
    zlen (AES_cbc_encrypt d k iv enc).1 = zlen d /\ bytes_ok (AES_cbc_encrypt d k iv enc).1;
  cbc_inverse_law d key iv :
    zlen key = AES256_KEY_SIZE -> zlen iv = AES_BLOCK_SIZE ->
    zlen d mod AES_BLOCK_SIZE = 0 -> bytes_ok d ->
    (AES_cbc_encrypt (AES_cbc_encrypt d (AES_set_encrypt_key key) iv true).1
       (AES_set_decrypt_key key) iv false).1 = d;
  pbkdf2_law pass salt n len : 0 <= len ->
    zlen (PKCS5_PBKDF2_HMAC_SHA1 pass salt n len) = len /\
    bytes_ok (PKCS5_PBKDF2_HMAC_SHA1 pass salt n len);
  rand_law c n b : 0 <= n ->
    RAND_bytes c n = Some b \/ RAND_pseudo_bytes c n = Some b -> zlen b = n /\ bytes_ok b
}.

(** A range of a buffer. *)
Definition bread (off n : Z) (l : list Z) : option (list Z) :=
  if (0 <=? off) && (0 <=? n) && (off + n <=? zlen l) then Some (zread off n l) else None.

(** ** Keys *)

Record Key := { key_type : list Z; key_data : list Z; key_iv : list Z }.

(** The store of keys, the cache of pointers to them, and how many calls of the random
    generator were made. *)
Record crypto := {
  cr_keys : gmap nat Key;
  cr_next : nat;
  KeyCache : Cache nat;
  cr_rand : nat
}.

Definition HASH_TABLE_SIZE : Z := 256.

(** [AFF4_MODULE_INIT(A000_encrypt)] *)
Definition A000_encrypt : crypto :=
  {| cr_keys := ∅; cr_next := O; KeyCache := Cache_Con HASH_TABLE_SIZE 0; cr_rand := O |}.

Definition with_key_cache (st : crypto) (c : Cache nat) : crypto :=
  {| cr_keys := cr_keys st; cr_next := cr_next st; KeyCache := c; cr_rand := cr_rand st |}.

Definition subject_key (subject : RDFURN) : list Z := urn_value subject ++ [0].

(** The loop of [Key_Con] over the cached keys of the subject. *)
Fixpoint key_loop (fuel : nat) (st : crypto) (type : list Z) (iter : option cid)
  : option (option nat * crypto) :=
  match iter with
  | None => Some (None, st)
  | Some _ =>
      match fuel with
      | O => None
      | S fuel' =>
          '(data, iter', c) ← Cache_next (KeyCache st) iter;
          let st := with_key_cache st c in
          match data with
          | Some kid =>
              key ← cr_keys st !! kid;
              if bool_decide (cstr type = cstr (key_type key)) then Some (Some kid, st)
              else key_loop fuel' st type iter'
          | None => key_loop fuel' st type iter'
          end
      end
  end.

Section Cipher.

Context `{OpenSSL}.

(** [RAND_bytes], and [RAND_pseudo_bytes] when that fails. *)
Definition random_fill (st : crypto) (n : Z) : option (list Z) * crypto :=
  (match RAND_bytes (cr_rand st) n with
   | Some b => Some b
   | None => RAND_pseudo_bytes (cr_rand st) n
   end,
   {| cr_keys := cr_keys st; cr_next := cr_next st; KeyCache := KeyCache st;
      cr_rand := S (cr_rand st) |}).

(** A new object, which the cache takes over. *)
Definition new_key (st : crypto) (subject : RDFURN) (k : Key) : option (nat * crypto) :=
  c ← Cache_put (KeyCache st) (subject_key subject) (Some (cr_next st));
  Some (cr_next st,
        {| cr_keys := <[cr_next st := k]> (cr_keys st); cr_next := S (cr_next st);
           KeyCache := c; cr_rand := cr_rand st |}).

(** The key (NULL is [None]), the error raised, and the state. *)
Definition Key_Con (st : crypto) (type : list Z) (subject : RDFURN) (create : bool)
  : option (option nat * option aff4_error * crypto) :=
  let iter := Cache_iter (KeyCache st) (subject_key subject) in
  '(found, st) ← key_loop (length (cache_list (KeyCache st))) st type iter;
  match found with
  | Some kid => Some (Some kid, None, st)
  | None =>
      if negb create then Some (None, None, st)
      else
        match random_fill st EVP_MAX_KEY_LENGTH with
        | (None, st) => Some (None, Some ERuntimeError, st)
        | (Some data, st) =>
            match random_fill st EVP_MAX_KEY_LENGTH with
            | (None, st) => Some (None, Some ERuntimeError, st)
            | (Some iv, st) =>
                '(kid, st) ← new_key st subject
                  {| key_type := type; key_data := data; key_iv := iv |};
                Some (Some kid, None, st)
            end
        end
  end.

(** The end of [Encrypted_close]: the oldest key of the stream is taken out of the cache
    and freed. *)
Definition flush_key (st : crypto) (subject : RDFURN) : crypto :=
  let '(key, _, c) := Cache_get (KeyCache st) (subject_key subject) in
  match key with
  | Some kid =>
      {| cr_keys := delete kid (cr_keys st); cr_next := cr_next st; KeyCache := c;
         cr_rand := cr_rand st |}
  | None => with_key_cache st c
  end.

(** ** The password cipher *)

(** The fields of [AFF4Cipher] and [AES256Password]; the type of every cipher here is
    ["aes256"]. *)
Record AES256Password := {
  ci_master_key : option nat;
  ci_ekey : option AES_KEY;
  ci_dkey : option AES_KEY
}.

Definition AES256Password_new : AES256Password :=
  {| ci_master_key := None; ci_ekey := None; ci_dkey := None |}.

Definition AES256_type : list Z := lit "aes256".

(** [struct aff4_cipher_data_t] *)
Definition CIPHER_DATA_SIZE : Z := AES_BLOCK_SIZE + AES_BLOCK_SIZE + AES256_KEY_SIZE.

(** [SecurityProvider_passphrase] of the default provider, given what [getenv] says. *)
Definition SecurityProvider_passphrase (env : option (list Z))
  : option (list Z) * option aff4_error :=
  match env with
  | Some pass => (Some pass, None)
  | None => (None, Some ERuntimeError)
  end.

(** [master_key], or the one [Key_Con] gives. *)
Definition get_master_key (st : crypto) (self : AES256Password) (subject : RDFURN)
    (create : bool) : option (option nat * crypto) :=
  match ci_master_key self with
  | Some kid => Some (Some kid, st)
  | None =>
      '(r, _, st) ← Key_Con st AES256_type subject create;
      Some (r, st)
  end.

(** The two key schedules are set from the master key. *)
Definition set_keys (st : crypto) (kid : nat) : option AES256Password :=
  key ← cr_keys st !! kid;
  data ← bread 0 AES256_KEY_SIZE (key_data key);
  Some {| ci_master_key := Some kid; ci_ekey := Some (AES_set_encrypt_key data);
          ci_dkey := Some (AES_set_decrypt_key data) |}.

Definition round_number (iv : list Z) : Z := u32 (Z.shiftl (znth iv 0) 8).

(** The key derived from the passphrase. *)
Definition password_key (pass iv : list Z) : list Z :=
  PKCS5_PBKDF2_HMAC_SHA1 pass iv (round_number iv) AES256_KEY_SIZE.

(** The structure that is stored for a master key. *)
Definition cipher_data (pass : list Z) (key : Key) : option (list Z) :=
  iv ← bread 0 AES_BLOCK_SIZE (key_iv key);
  data ← bread 0 AES256_KEY_SIZE (key_data key);
  let pk := AES_set_encrypt_key (password_key pass iv) in
  let encrypted := (AES_cbc_encrypt data pk iv true).1 in
  let nonce := (AES_cbc_encrypt (replicate (Z.to_nat AES_BLOCK_SIZE) 0) pk iv true).1 in
  Some (iv ++ nonce ++ encrypted).

Variable passphrase : RDFURN -> option (list Z).
Variable uninit : nat -> Z.
Variable frame : list Z.

(** The text ([None] is NULL), the error raised, the cipher and the state. *)
Definition AES256Password_serialise (st : crypto) (self : AES256Password)
    (subject : RDFURN)
  : option (option (list Z) * option aff4_error * AES256Password * crypto) :=
  '(master, st) ← get_master_key st self subject true;
  kid ← master;
  self ← set_keys st kid;
  match passphrase subject with
  | None => Some (None, Some ERuntimeError, self, st)
  | Some pass =>
      key ← cr_keys st !! kid;
      encoding ← cipher_data pass key;
      '(_, result) ← encode64 (encoding ++ frame) CIPHER_DATA_SIZE
                       (replicate (Z.to_nat (CIPHER_DATA_SIZE * 2)) 0) (CIPHER_DATA_SIZE * 2);
      Some (Some result, None, self, st)
  end.

(** The check of the nonce and the decryption of the master key.  [None] inside is the
    nonce that does not decrypt. *)
Definition open_cipher_data (pass encoding : list Z) : option (option (list Z * list Z)) :=
  iv ← bread 0 AES_BLOCK_SIZE encoding;
  nonce ← bread AES_BLOCK_SIZE AES_BLOCK_SIZE encoding;
  encrypted ← bread (2 * AES_BLOCK_SIZE) AES256_KEY_SIZE encoding;
  let pk := AES_set_decrypt_key (password_key pass iv) in
  if forallb (Z.eqb 0) (AES_cbc_encrypt nonce pk iv false).1
  then Some (Some (iv, (AES_cbc_encrypt encrypted pk iv false).1))
  else Some None.

(** What is copied into the new key: the local [iv] has 32 bytes, 16 of them set. *)
Definition enter_key (st : crypto) (kid : nat) (iv data : list Z) : option crypto :=
  key ← cr_keys st !! kid;
  let local := zover 0 iv (map uninit (seq 0 (Z.to_nat AES256_KEY_SIZE))) in
  iv' ← bread 0 (zlen (key_iv key)) (local ++ frame);
  data' ← bput (key_data key) 0 data;
  Some {| cr_keys := <[kid := {| key_type := key_type key; key_data := data'; key_iv := iv' |}]>
                       (cr_keys st);
          cr_next := cr_next st; KeyCache := KeyCache st; cr_rand := cr_rand st |}.

(** The result, the error raised, the cipher and the state. *)
Definition AES256Password_decode (st : crypto) (self : AES256Password) (data : list Z)
    (length : Z) (subject : RDFURN)
  : option (Z * option aff4_error * AES256Password * crypto) :=
  let succeed st kid := self ← set_keys st kid; Some (AES256_KEY_SIZE, None, self, st) in
  '(master, st) ← get_master_key st self subject false;
  match master with
  | Some kid => succeed st kid
  | None =>
      '(length, encoding) ← decode64 data length
                              (map uninit (seq 0 (Z.to_nat CIPHER_DATA_SIZE))) CIPHER_DATA_SIZE;
      if negb (length =? CIPHER_DATA_SIZE) then Some (0, Some ERuntimeError, self, st)
      else
        match passphrase subject with
        | None => Some (0, Some ERuntimeError, self, st)
        | Some pass =>
            r ← open_cipher_data pass encoding;
            match r with
            | None => Some (0, Some ERuntimeError, self, st)
            | Some (iv, plain) =>
                '(master, _, st) ← Key_Con st AES256_type subject true;
                kid ← master;
                st ← enter_key st kid iv plain;
                succeed st kid
            end
        end
  end.

(** The vector of a chunk: the number is mixed into the first four bytes. *)
Definition block_iv (iv : list Z) (chunk_number : Z) : list Z :=
  le 4 (Z.lxor (unle (ztake 4 iv)) (u32 chunk_number)) ++ zdrop 4 iv.

Definition cipher_run (st : crypto) (self : AES256Password) (k : option AES_KEY)
    (chunk_number : Z) (inbuff : list Z) (length : Z) (enc : bool) : option (list Z) :=
  kid ← ci_master_key self;
  key ← cr_keys st !! kid;
  iv ← bread 0 AES_BLOCK_SIZE (key_iv key);
  k ← k;
  data ← bread 0 length inbuff;
  Some (AES_cbc_encrypt data k (block_iv iv chunk_number) enc).1.

(** The bytes put into the output buffer; the result is [length]. *)
Definition AES256Password_encrypt (st : crypto) (self : AES256Password) (chunk_number : Z)
    (inbuff : list Z) (length : Z) : option (list Z) :=
  cipher_run st self (ci_ekey self) chunk_number inbuff length true.

Definition AES256Password_decrypt (st : crypto) (self : AES256Password) (chunk_number : Z)
    (inbuff : list Z) (length : Z) : option (list Z) :=
  cipher_run st self (ci_dkey self) chunk_number inbuff length false.

End Cipher.

(** ** The state of the keys *)

(** The first of the cached objects that is a key of the type. *)
Fixpoint find_type (keys : gmap nat Key) (type : list Z) (ds : list (option nat))
  : option nat :=
  match ds with
  | [] => None
  | Some kid :: ds =>
      match keys !! kid with
      | Some key => if bool_decide (cstr type = cstr (key_type key)) then Some kid
                    else find_type keys type ds
      | None => find_type keys type ds
      end
  | None :: ds => find_type keys type ds
  end.

(** The key a cipher of this type gets for a stream. *)
Definition cached_key (st : crypto) (type : list Z) (subject : RDFURN) : option nat :=
  find_type (cr_keys st) type (entries (KeyCache st) (subject_key subject)).

Definition key_ok `{OpenSSL} (k : Key) : Prop :=
  zlen (key_data k) = EVP_MAX_KEY_LENGTH /\ zlen (key_iv k) = EVP_MAX_KEY_LENGTH /\
  bytes_ok (key_data k) /\ bytes_ok (key_iv k).

(** No element of the cache points to a freed key, and no two to the same one. *)
Record crypto_wf `{OpenSSL} (st : crypto) : Prop := {
  cw_cache : cache_wf (KeyCache st);
  cw_max : max_cache_size (KeyCache st) = 0;
  cw_live : forall i n kid, nodes (KeyCache st) !! i = Some n -> node_data n = Some kid ->
    is_Some (cr_keys st !! kid);
  cw_once : forall i j n m kid, nodes (KeyCache st) !! i = Some n ->
    nodes (KeyCache st) !! j = Some m -> node_data n = Some kid -> node_data m = Some kid ->
    i = j;
  cw_fresh : forall kid, is_Some (cr_keys st !! kid) -> (kid < cr_next st)%nat;
  cw_keys : forall kid k, cr_keys st !! kid = Some k -> key_ok k
}.

(** What uses the keys: ciphers asking for one, and streams that are closed. *)
Inductive crypto_step `{OpenSSL} : crypto -> crypto -> Prop :=
| step_key st type subject create r e st' :
    Key_Con st type subject create = Some (r, e, st') -> crypto_step st st'
| step_flush st subject : crypto_step st (flush_key st subject).

Section Lemmas.

Context `{OL : OpenSSLLaws}.

Lemma A000_encrypt_wf : crypto_wf A000_encrypt.
Proof.
  split; cbn; try done; [by apply Cache_Con_wf|]. intros kid [x Hx]. by rewrite lookup_empty in Hx.
Qed.

(** Looking at the cache changes the order of its elements only. *)
Lemma wf_same_table st c : crypto_wf st -> same_table (KeyCache st) c -> cache_wf c ->
  max_cache_size c = 0 -> crypto_wf (with_key_cache st c).
Proof.
  intros [Hc Hm Hl Ho Hf Hk] (Hn & _) Hwf Hmax. split; cbn; rewrite ?Hn; try done.
Qed.

Lemma entries_live st s kid : crypto_wf st -> Some kid ∈ entries (KeyCache st) s ->
  is_Some (cr_keys st !! kid).
Proof.
  intros Hwf Hin. unfold entries in Hin. apply list_elem_of_In, in_map_iff in Hin as (i & Hi & _).
  destruct (nodes (KeyCache st) !! i) as [n|] eqn:Hn; [|done].
  eapply (cw_live st Hwf); [exact Hn|exact Hi].
Qed.

Lemma key_loop_spec st type s pre post fuel :
  crypto_wf st -> entry_ids (KeyCache st) s = pre ++ post -> (length post <= fuel)%nat ->
  exists c, key_loop fuel st type (head post) =
      Some (find_type (cr_keys st) type
              (map (fun i => n ← nodes (KeyCache st) !! i; node_data n) post),
            with_key_cache st c) /\
    same_table (KeyCache st) c /\ cache_wf c /\ max_cache_size c = 0.
Proof.
  revert st pre post. induction fuel as [|fuel IH]; intros st pre [|i post] Hwf He Hlen;
    [ | simpl in Hlen; lia | |].
  1, 2: exists (KeyCache st); split_and!; [by destruct st|done|apply Hwf|apply Hwf].
  destruct (Cache_next_spec (KeyCache st) s pre i post (cw_cache st Hwf) He)
    as (n & c1 & Hn & Hnx & Hst & Hwf1 & Hm1 & _).
  rewrite (cw_max st Hwf) in Hm1.
  assert (crypto_wf (with_key_cache st c1)) as Hwfc by by apply wf_same_table.
  destruct (IH (with_key_cache st c1) (pre ++ [i]) post Hwfc) as (c2 & Hl & Hst2 & Hwf2 & Hm2).
  { cbn [KeyCache with_key_cache]. rewrite (same_table_entry_ids _ c1), He by done.
    by rewrite <- (assoc_L (++)). }
  { simpl in Hlen. lia. }
  cbn [key_loop head]. rewrite Hnx. mred. cbn [map]. rewrite Hn. cbn [mbind option_bind].
  cbn [KeyCache with_key_cache cr_keys] in *.
  assert (nodes c1 = nodes (KeyCache st)) as Hnn by apply Hst. rewrite Hnn in Hl.
  assert (same_table (KeyCache st) c2) as Hst3
    by (destruct Hst as (? & ? & ?), Hst2 as (? & ? & ?); split_and!; congruence).
  destruct (node_data n) as [kid|] eqn:Hd; cbn [find_type].
  - destruct (cw_live st Hwf i n kid Hn Hd) as [key Hk]. rewrite Hk. mred.
    destruct (bool_decide _); [by exists c1|]. exists c2. by rewrite Hl.
  - exists c2. by rewrite Hl.
Qed.

Lemma entry_ids_length (c : Cache nat) s : cache_wf c ->
  (length (entry_ids c s) <= length (cache_list c))%nat.
Proof.
  intros Hwf. apply submseteq_length, NoDup_submseteq; [by apply entry_ids_nodup|].
  intros i (n & Hn & _)%entry_ids_node. apply (wf_list c Hwf). by exists n.
Qed.

(** The search of [Key_Con] finds the cached key. *)
Lemma key_search_spec st type subject :
  crypto_wf st ->
  exists c, key_loop (length (cache_list (KeyCache st))) st type
      (Cache_iter (KeyCache st) (subject_key subject)) =
      Some (cached_key st type subject, with_key_cache st c) /\
    same_table (KeyCache st) c /\ crypto_wf (with_key_cache st c).
Proof.
  intros Hwf. rewrite Cache_iter_entries.
  destruct (key_loop_spec st type (subject_key subject) [] (entry_ids (KeyCache st) (subject_key subject))
    (length (cache_list (KeyCache st))) Hwf eq_refl) as (c & Hl & Hst & Hc & Hm).
  { apply entry_ids_length, Hwf. }
  exists c. split; [exact Hl|]. split; [done|]. by apply wf_same_table.
Qed.

Lemma find_type_ext keys keys' type ds :
  (forall kid, Some kid ∈ ds -> keys' !! kid = keys !! kid) ->
  find_type keys' type ds = find_type keys type ds.
Proof.
  induction ds as [|[kid|] ds IH]; intros Hk; [done| |]; cbn [find_type].
  - rewrite Hk by left. rewrite IH; [done|]. intros k Hin. apply Hk. by right.
  - apply IH. intros k Hin. apply Hk. by right.
Qed.

Lemma find_type_elem keys type ds kid : find_type keys type ds = Some kid -> Some kid ∈ ds.
Proof.
  induction ds as [|[k|] ds IH]; intros Hf; [done| |right; auto].
  cbn [find_type] in Hf. destruct (keys !! k); [|right; auto].
  case_bool_decide; [|right; auto]. injection Hf as ->. left.
Qed.

Lemma cached_key_same st c type subject :
  same_table (KeyCache st) c -> cached_key (with_key_cache st c) type subject = cached_key st type subject.
Proof.
  intros Hst. unfold cached_key. cbn [KeyCache with_key_cache cr_keys].
  by rewrite (same_table_entries (KeyCache st) c).
Qed.

Lemma find_type_app keys type a b :
  find_type keys type (a ++ b) =
    match find_type keys type a with Some k => Some k | None => find_type keys type b end.
Proof.
  induction a as [|[kid|] a IH]; [done| |]; cbn [find_type app]; [|done].
  destruct (keys !! kid); [|done]. by destruct (bool_decide _).
Qed.

(** A new key is the last one of its subject. *)
Lemma new_key_spec st subject k :
  crypto_wf st -> key_ok k ->
  exists st', new_key st subject k = Some (cr_next st, st') /\ crypto_wf st' /\
    cr_keys st' = <[cr_next st := k]> (cr_keys st) /\
    forall type subject', cached_key st' type subject' =
      match cached_key st type subject' with
      | Some kid => Some kid
      | None => if decide (subject_key subject = subject_key subject') then
                  if bool_decide (cstr type = cstr (key_type k)) then Some (cr_next st) else None
                else None
      end.
Proof.
  intros Hwf Hk. unfold new_key, Cache_put.
  assert (cache_expire (length (cache_list (KeyCache st))) (KeyCache st) = Some (KeyCache st)) as ->.
  { destruct (length (cache_list (KeyCache st))); cbn [cache_expire]; by rewrite (cw_max st Hwf). }
  mred. eexists. split; [reflexivity|].
  assert (cr_keys st !! cr_next st = None) as Hfr.
  { apply eq_None_not_Some. intros Hs. apply (cw_fresh st Hwf) in Hs. lia. }
  assert (forall i n kid, nodes (KeyCache st) !! i = Some n -> node_data n = Some kid -> kid <> cr_next st) as Hne.
  { intros i n kid Hn Hd ->. destruct (cw_live st Hwf i n _ Hn Hd) as [x Hx]. congruence. }
  split_and!.
  - pose proof Hwf as [Hc Hm Hl Ho Hf Hks]. split; cbn [KeyCache cr_keys cr_next].
    + by apply wf_link.
    + done.
    + intros i n kid. cbn. intros [[_ <-]|[_ Hn]]%lookup_insert_Some; cbn.
      * intros [= <-]. rewrite lookup_insert_eq. by eexists.
      * intros Hd. rewrite lookup_insert_ne by (symmetry; by eapply Hne). by eapply Hl.
    + intros i j n m kid. cbn.
      intros [[<- <-]|[_ Hn]]%lookup_insert_Some [[<- <-]|[_ Hm']]%lookup_insert_Some; cbn; try done.
      * intros [= <-] Hd. by destruct (Hne _ _ _ Hm' Hd).
      * intros Hd [= <-]. by destruct (Hne _ _ _ Hn Hd).
      * by eapply Ho.
    + intros kid [<-|[_ Hs]]%lookup_insert_is_Some; [lia|]. apply Hf in Hs. lia.
    + intros kid k' [[_ <-]|[_ Hs]]%lookup_insert_Some; [done|]. by eapply Hks.
  - done.
  - intros type subject'. unfold cached_key. cbn [KeyCache cr_keys].
    rewrite entries_link by apply Hwf. rewrite find_type_app.
    assert (find_type (<[cr_next st:=k]> (cr_keys st)) type (entries (KeyCache st) (subject_key subject'))
      = find_type (cr_keys st) type (entries (KeyCache st) (subject_key subject'))) as ->.
    { apply find_type_ext. intros kid Hin. apply (entries_live st _ _ Hwf) in Hin as [x Hx].
      rewrite lookup_insert_ne; [done|]. intros <-. congruence. }
    destruct (find_type _ _ _); [done|]. case_decide; [|done]. cbn [find_type].
    rewrite lookup_insert_eq. by case_bool_decide.
Qed.

Lemma random_fill_ok st n b st' : 0 <= n -> random_fill st n = (Some b, st') ->
  zlen b = n /\ bytes_ok b.
Proof.
  intros Hn [= Hb _]. apply (rand_law (cr_rand st)); [done|].
  destruct (RAND_bytes _ _); [left; congruence|by right].
Qed.

(** The random generator does not touch the keys. *)
Lemma random_fill_wf st n b st' : crypto_wf st -> random_fill st n = (b, st') ->
  crypto_wf st' /\ cr_keys st' = cr_keys st /\ cr_next st' = cr_next st /\ KeyCache st' = KeyCache st.
Proof. intros [] [= _ <-]. split; [by split|done]. Qed.

(** The generator delivers what [Key_Con] asks for. *)
Definition rand_ok (st : crypto) : Prop :=
  forall c, (cr_rand st <= c <= S (cr_rand st))%nat ->
    is_Some (RAND_bytes c EVP_MAX_KEY_LENGTH) \/ is_Some (RAND_pseudo_bytes c EVP_MAX_KEY_LENGTH).

Lemma random_fill_some st n c :
  is_Some (RAND_bytes c n) \/ is_Some (RAND_pseudo_bytes c n) -> cr_rand st = c ->
  exists b, (random_fill st n).1 = Some b.
Proof.
  intros Hs <-. cbn. destruct (RAND_bytes _ _); [by eexists|].
  destruct Hs as [[? ?]|[? ?]]; [done|by eexists].
Qed.

(** All that [Key_Con] does. *)
Lemma Key_Con_spec st type subject create :
  crypto_wf st ->
  exists r e st', Key_Con st type subject create = Some (r, e, st') /\ crypto_wf st' /\
    cr_keys st ⊆ cr_keys st' /\
    (forall t s kid, cached_key st t s = Some kid -> cached_key st' t s = Some kid) /\
    (forall kid, r = Some kid -> cached_key st' type subject = Some kid) /\
    (forall kid, cached_key st type subject = Some kid -> r = Some kid /\ e = None) /\
    (cached_key st type subject = None ->
      (create = false -> r = None /\ e = None /\ cr_keys st' = cr_keys st /\
         cr_rand st' = cr_rand st /\ forall t s, cached_key st' t s = cached_key st t s) /\
      (create = true -> rand_ok st -> exists kid k, r = Some kid /\ e = None /\
         cr_keys st !! kid = None /\ cr_keys st' = <[kid := k]> (cr_keys st))).
Proof.
  intros Hwf. destruct (key_search_spec st type subject Hwf) as (c & Hl & Hst & Hc).
  unfold Key_Con. rewrite Hl. mred. set (st1 := with_key_cache st c) in *.
  assert (forall t s, cached_key st1 t s = cached_key st t s) as Hsame
    by (intros; by apply cached_key_same).
  assert (cr_keys st1 = cr_keys st /\ cr_rand st1 = cr_rand st) as [Hk1 Hr1] by done.
  clearbody st1. destruct (cached_key st type subject) as [kid|] eqn:Hck.
  { eexists _, _, st1. split; [reflexivity|]. rewrite Hk1. split_and!; try done.
    - intros t s. by rewrite Hsame.
    - intros ? [= <-]. by rewrite Hsame.
    }
  destruct create; cbn [negb]; cycle 1.
  { eexists _, _, st1. split; [reflexivity|]. rewrite Hk1. split_and!; try done.
    intros t s. by rewrite Hsame. }
  pose proof key_length_law as Hlen. unfold AES256_KEY_SIZE in Hlen.
  assert (rand_ok st -> exists b, (random_fill st1 EVP_MAX_KEY_LENGTH).1 = Some b) as Hok1.
  { intros Hr. apply (random_fill_some _ _ (cr_rand st)); [apply Hr; lia|done]. }
  assert (forall st2, cr_keys st2 = cr_keys st1 -> KeyCache st2 = KeyCache st1 ->
    forall t s, cached_key st2 t s = cached_key st t s) as Hcs.
  { intros st2 Hk2 Hc2 t s. rewrite <- Hsame. unfold cached_key. by rewrite Hk2, Hc2. }
  destruct (random_fill st1 EVP_MAX_KEY_LENGTH) as [[data|] st2] eqn:Hf1; cycle 1.
  { destruct (random_fill_wf _ _ _ _ Hc Hf1) as (Hc2 & Hk2 & _ & Hkc2).
    eexists _, _, st2. split; [reflexivity|]. rewrite Hk2, Hk1. split_and!; try done.
    - intros t s. by rewrite (Hcs st2).
    - intros _. split; [done|]. intros _ Hr. by destruct (Hok1 Hr). }
  destruct (random_fill_wf _ _ _ _ Hc Hf1) as (Hc2 & Hk2 & _ & Hkc2).
  assert (rand_ok st -> exists b, (random_fill st2 EVP_MAX_KEY_LENGTH).1 = Some b) as Hok2.
  { intros Hr. apply (random_fill_some _ _ (S (cr_rand st))); [apply Hr; lia|].
    injection Hf1 as _ <-. cbn. by rewrite Hr1. }
  destruct (random_fill st2 EVP_MAX_KEY_LENGTH) as [[iv|] st3] eqn:Hf2; cycle 1.
  { destruct (random_fill_wf _ _ _ _ Hc2 Hf2) as (Hc3 & Hk3 & _ & Hkc3).
    eexists _, _, st3. split; [reflexivity|]. rewrite Hk3, Hk2, Hk1. split_and!; try done.
    - intros t s. by rewrite (Hcs st3) by congruence.
    - intros _. split; [done|]. intros _ Hr. by destruct (Hok2 Hr). }
  destruct (random_fill_wf _ _ _ _ Hc2 Hf2) as (Hc3 & Hk3 & Hn3 & Hkc3).
  destruct (new_key_spec st3 subject {| key_type := type; key_data := data; key_iv := iv |} Hc3)
    as (st4 & Hnew & Hc4 & Hk4 & Hck4).
  { apply random_fill_ok in Hf1 as [? ?]; [|lia]. apply random_fill_ok in Hf2 as [? ?]; [|lia]. done. }
  rewrite Hnew. mred. eexists _, _, st4. split; [reflexivity|].
  assert (forall t s, cached_key st3 t s = cached_key st t s) as Hs3
    by (intros; apply Hcs; congruence).
  assert (cr_keys st3 = cr_keys st) as Hk30 by congruence.
  assert (cr_keys st !! cr_next st3 = None) as Hnone.
  { rewrite <- Hk30. apply eq_None_not_Some. intros Hs. apply (cw_fresh st3 Hc3) in Hs. lia. }
  split_and!; try done.
  - rewrite Hk4, Hk30. by apply insert_subseteq.
  - intros t s kid Hck'. by rewrite Hck4, Hs3, Hck'.
  - intros kid [= <-]. rewrite Hck4, Hs3, Hck. rewrite decide_True by done. cbn.
    by rewrite bool_decide_eq_true_2.
  - intros _. split; [done|]. intros _ _. eexists _, _. by rewrite Hk4, Hk30.
Qed.

(** Closing a stream frees the oldest of its keys, and only that. *)
Lemma flush_key_spec st subject :
  crypto_wf st -> crypto_wf (flush_key st subject) /\
  forall t s kid, subject_key s <> subject_key subject -> cached_key st t s = Some kid ->
    cached_key (flush_key st subject) t s = Some kid /\
    cr_keys (flush_key st subject) !! kid = cr_keys st !! kid.
Proof.
  intros Hwf. unfold flush_key.
  pose proof (Cache_get_spec (KeyCache st) (subject_key subject)) as Hg.
  destruct (entry_ids (KeyCache st) (subject_key subject)) as [|i ids] eqn:He.
  { destruct Hg as [e ->]. cbn. by destruct st. }
  destruct Hg as (n & Hn & ->).
  assert (node_key n = subject_key subject) as Hkey.
  { assert (i ∈ entry_ids (KeyCache st) (subject_key subject)) as Hi by (rewrite He; left).
    apply entry_ids_node in Hi as (m & Hm & Hk). congruence. }
  assert (forall s, subject_key s <> subject_key subject ->
    entries (Cache_destructor (KeyCache st) i) (subject_key s) = entries (KeyCache st) (subject_key s))
    as Hent.
  { intros s Hne. rewrite (entries_destructor _ (subject_key subject) _ i ids) by (done || apply Hwf).
    rewrite decide_False; [done|congruence]. }
  assert (cache_wf (Cache_destructor (KeyCache st) i)) as Hcw.
  { apply wf_destructor; [apply Hwf|]. by eexists. }
  pose proof Hwf as [Hc Hm Hl Ho Hf Hks].
  assert (forall j m, nodes (Cache_destructor (KeyCache st) i) !! j = Some m ->
    nodes (KeyCache st) !! j = Some m /\ j <> i) as Hnodes.
  { intros j m. cbn. intros [? ?]%lookup_delete_Some. split; [done|congruence]. }
  destruct (node_data n) as [kid0|] eqn:Hd.
  - split.
    + split; cbn [KeyCache cr_keys cr_next]; try done.
      * intros j m kid [Hj Hji]%Hnodes Hdm.
        rewrite lookup_delete_ne; [by eapply Hl|]. intros <-. apply Hji. by eapply Ho.
      * intros j1 j2 m1 m2 kid [H1 _]%Hnodes
          [H2 _]%Hnodes. by eapply Ho.
      * intros kid [k [_ Hk]%lookup_delete_Some]. apply Hf. by exists k.
      * intros kid k [_ Hk]%lookup_delete_Some. by eapply Hks.
    + intros t s kid Hne Hck. unfold cached_key. cbn [KeyCache cr_keys]. rewrite Hent by done.
      assert (forall k, Some k ∈ entries (KeyCache st) (subject_key s) -> k <> kid0) as Hk0.
      { intros k Hin ->. unfold entries in Hin. apply list_elem_of_In, in_map_iff in Hin as (j & Hj & Hjin).
        apply list_elem_of_In, entry_ids_node in Hjin as (m & Hm' & Hkm). rewrite Hm' in Hj.
        pose proof (Ho _ _ _ _ _ Hm' Hn Hj Hd) as ->. congruence. }
      rewrite (find_type_ext (cr_keys st)).
      2: { intros k Hin. rewrite lookup_delete_ne; [done|]. by apply not_eq_sym, Hk0. }
      split; [done|]. rewrite lookup_delete_ne; [done|]. apply not_eq_sym, Hk0.
      by eapply find_type_elem.
  - split.
    + split; cbn [KeyCache cr_keys cr_next with_key_cache]; try done.
      * intros j m kid [Hj Hji]%Hnodes Hdm. by eapply Hl.
      * intros j1 j2 m1 m2 kid [H1 _]%Hnodes
          [H2 _]%Hnodes. by eapply Ho.
    + intros t s kid Hne Hck. unfold cached_key. cbn [KeyCache cr_keys with_key_cache].
      by rewrite Hent.
Qed.

Lemma crypto_step_wf st st' : crypto_wf st -> crypto_step st st' -> crypto_wf st'.
Proof.
  intros Hwf Hst. revert Hwf. destruct Hst as [st0 type subject create r e st1 Hk | st0 subject]; intros Hwf.
  - destruct (Key_Con_spec st0 type subject create Hwf) as (? & ? & ? & Hk' & Hwf' & _). congruence.
  - by apply flush_key_spec.
Qed.

(** ** The stored form of a key *)

Lemma bread_ok off n l : 0 <= off -> 0 <= n -> off + n <= zlen l -> bread off n l = Some (zread off n l).
Proof. intros. unfold bread. by rewrite !(proj2 (Z.leb_le _ _)). Qed.

Lemma bread_app_mid (a b c : list Z) off n : off = zlen a -> n = zlen b ->
  bread off n (a ++ b ++ c) = Some b.
Proof. intros. subst. rewrite bread_ok by zlen_lia. f_equal. by apply zread_app_mid. Qed.

Lemma zread_prefix {A} n (l : list A) : 0 <= n -> zread 0 n l = ztake n l.
Proof. intros. unfold zread. by rewrite zdrop_0 by lia. Qed.

Lemma key_prefix k : key_ok k ->
  bread 0 AES_BLOCK_SIZE (key_iv k) = Some (ztake AES_BLOCK_SIZE (key_iv k)) /\
  bread 0 AES256_KEY_SIZE (key_data k) = Some (ztake AES256_KEY_SIZE (key_data k)) /\
  zlen (ztake AES_BLOCK_SIZE (key_iv k)) = AES_BLOCK_SIZE /\
  zlen (ztake AES256_KEY_SIZE (key_data k)) = AES256_KEY_SIZE /\
  bytes_ok (ztake AES_BLOCK_SIZE (key_iv k)) /\ bytes_ok (ztake AES256_KEY_SIZE (key_data k)).
Proof.
  intros (Hd & Hi & Hbd & Hbi). pose proof key_length_law as Hl.
  unfold AES_BLOCK_SIZE, AES256_KEY_SIZE in *.
  rewrite !bread_ok, !zread_prefix by lia. split_and!; try done; try (rewrite zlen_ztake; lia).
  all: by apply Forall_ztake.
Qed.

Lemma zero_block_ok :
  zlen (replicate (Z.to_nat AES_BLOCK_SIZE) 0) = AES_BLOCK_SIZE /\
  bytes_ok (replicate (Z.to_nat AES_BLOCK_SIZE) 0).
Proof. split; [done|]. apply Forall_replicate. unfold is_byte. lia. Qed.

(** What is stored for a key opens with the same passphrase. *)
Lemma open_sealed pass k :
  key_ok k ->
  exists d, cipher_data pass k = Some d /\ zlen d = CIPHER_DATA_SIZE /\ bytes_ok d /\
    open_cipher_data pass d =
      Some (Some (ztake AES_BLOCK_SIZE (key_iv k), ztake AES256_KEY_SIZE (key_data k))).
Proof.
  intros Hk. destruct (key_prefix k Hk) as (Hi & Hd & Hli & Hld & Hbi & Hbd).
  unfold cipher_data. rewrite Hi, Hd. mred.
  set (iv := ztake AES_BLOCK_SIZE (key_iv k)) in *. clearbody iv.
  set (data := ztake AES256_KEY_SIZE (key_data k)) in *. clearbody data.
  set (key := password_key pass iv).
  assert (zlen key = AES256_KEY_SIZE) as Hlk by by apply pbkdf2_law.
  destruct zero_block_ok as [Hz Hbz].
  set (zero := replicate (Z.to_nat AES_BLOCK_SIZE) 0) in *.
  destruct (cbc_length_law zero (AES_set_encrypt_key key) iv true) as [Hn Hbn]; [done|done|].
  destruct (cbc_length_law data (AES_set_encrypt_key key) iv true) as [He Hbe]; [by rewrite Hld|done|].
  pose proof (cbc_inverse_law zero key iv Hlk Hli eq_refl Hbz) as Hnonce.
  pose proof (cbc_inverse_law data key iv Hlk Hli ltac:(by rewrite Hld) Hbd) as Hdata.
  set (nonce := (AES_cbc_encrypt zero _ _ _).1) in *. clearbody nonce.
  set (sealed := (AES_cbc_encrypt data _ _ _).1) in *. clearbody sealed.
  eexists. split; [reflexivity|]. split; [rewrite !zlen_app, Hli, Hn, He, Hz, Hld; done|].
  split; [by rewrite !Forall_app|].
  unfold open_cipher_data.
  assert (bread 0 AES_BLOCK_SIZE (iv ++ nonce ++ sealed) = Some iv) as ->
    by by apply (bread_app_mid []).
  mred.
  assert (bread AES_BLOCK_SIZE AES_BLOCK_SIZE (iv ++ nonce ++ sealed) = Some nonce) as ->
    by (apply bread_app_mid; congruence).
  mred.
  assert (bread (2 * AES_BLOCK_SIZE) AES256_KEY_SIZE (iv ++ nonce ++ sealed) = Some sealed) as ->.
  { rewrite (app_assoc iv), <- (app_nil_r sealed) at 1.
    apply bread_app_mid; [rewrite zlen_app, Hli, Hn, Hz; done|by rewrite He, Hld]. }
  mred. fold key. rewrite Hnonce, Hdata. done.
Qed.

(** The text of 64 bytes, and back, whatever the memory around them holds. *)
Lemma stored_text uninit frame d :
  zlen d = CIPHER_DATA_SIZE -> bytes_ok d -> bytes_ok frame -> 2 <= zlen frame ->
  exists text,
    encode64 (d ++ frame) CIPHER_DATA_SIZE (replicate (Z.to_nat (CIPHER_DATA_SIZE * 2)) 0)
      (CIPHER_DATA_SIZE * 2) = Some (88, text) /\
    decode64 text 88 (map uninit (seq 0 (Z.to_nat CIPHER_DATA_SIZE))) CIPHER_DATA_SIZE =
      Some (CIPHER_DATA_SIZE, d).
Proof.
  intros Hd Hb Hbf Hf. set (out0 := map uninit _).
  assert (zlen out0 = CIPHER_DATA_SIZE) as Ho by (unfold out0; rewrite zlen_map; done).
  destruct (base64_lossless (d ++ frame) CIPHER_DATA_SIZE
    (replicate (Z.to_nat (CIPHER_DATA_SIZE * 2)) 0) (CIPHER_DATA_SIZE * 2) out0 CIPHER_DATA_SIZE)
    as (text & out & He & Hdec & Heq).
  1: done.
  1: by apply Forall_app.
  1: rewrite zlen_app, Hd; change (3 * ((CIPHER_DATA_SIZE + 2) / 3)) with (CIPHER_DATA_SIZE + 2); lia.
  1-3: by vm_compute.
  1: rewrite Ho; lia.
  1: done.
  exists text. split; [exact He|].
  change (4 * ((CIPHER_DATA_SIZE + 2) / 3)) with 88 in Hdec. rewrite Hdec. do 2 f_equal.
  apply decode64_zlen in Hdec. rewrite ztake_all in Heq by lia. rewrite Heq.
  rewrite ztake_app_eq by done. done.
Qed.

(** The cipher holds the key, and the schedules made from it. *)
Definition keyed (st : crypto) (self : AES256Password) (iv data : list Z) : Prop :=
  exists kid k, ci_master_key self = Some kid /\ cr_keys st !! kid = Some k /\ key_ok k /\
    ztake AES_BLOCK_SIZE (key_iv k) = iv /\ ztake AES256_KEY_SIZE (key_data k) = data /\
    ci_ekey self = Some (AES_set_encrypt_key data) /\
    ci_dkey self = Some (AES_set_decrypt_key data).

Lemma set_keys_spec st kid k : cr_keys st !! kid = Some k -> key_ok k ->
  exists self, set_keys st kid = Some self /\ ci_master_key self = Some kid /\
    keyed st self (ztake AES_BLOCK_SIZE (key_iv k)) (ztake AES256_KEY_SIZE (key_data k)).
Proof.
  intros Hk Hok. unfold set_keys. rewrite Hk. mred. destruct (key_prefix k Hok) as (_ & -> & _). mred.
  eexists. split; [reflexivity|]. split; [done|]. by exists kid, k.
Qed.

(** A cipher that has a key uses it; another one gets the cached or a new one. *)
Lemma get_master_key_spec st self subject :
  crypto_wf st -> (forall kid, ci_master_key self = Some kid -> is_Some (cr_keys st !! kid)) ->
  rand_ok st ->
  exists kid k st', get_master_key st self subject true = Some (Some kid, st') /\
    crypto_wf st' /\ cr_keys st' !! kid = Some k /\ key_ok k.
Proof.
  intros Hwf Hm Hr. unfold get_master_key. destruct (ci_master_key self) as [kid|].
  { destruct (Hm kid eq_refl) as [k Hk]. exists kid, k, st. split_and!; try done. by eapply (cw_keys st). }
  destruct (Key_Con_spec st AES256_type subject true Hwf)
    as (r & e & st' & -> & Hwf' & Hsub & _ & Hrk & Hc & Hn). mred.
  assert (exists kid, r = Some kid) as [kid ->].
  { destruct (cached_key st AES256_type subject) as [kid|]; [exists kid; by apply Hc|].
    destruct Hn as [_ Hn]; [done|]. destruct (Hn eq_refl Hr) as (kid & _ & -> & _). by exists kid. }
  specialize (Hrk kid eq_refl).
  assert (is_Some (cr_keys st' !! kid)) as [k Hk]
    by (eapply (entries_live st'); [done|by eapply find_type_elem]).
  exists kid, k, st'. split_and!; try done. by eapply (cw_keys st').
Qed.

(** Serialising: the text is the stored form of the key the cipher ends with. *)
Lemma serialise_spec passphrase frame st self subject pass :
  crypto_wf st -> (forall kid, ci_master_key self = Some kid -> is_Some (cr_keys st !! kid)) ->
  rand_ok st -> passphrase subject = Some pass -> bytes_ok frame -> 2 <= zlen frame ->
  exists text self1 st1 k d,
    AES256Password_serialise passphrase frame st self subject = Some (Some text, None, self1, st1) /\
    crypto_wf st1 /\ key_ok k /\ cipher_data pass k = Some d /\
    keyed st1 self1 (ztake AES_BLOCK_SIZE (key_iv k)) (ztake AES256_KEY_SIZE (key_data k)) /\
    forall uninit, decode64 text 88 (map uninit (seq 0 (Z.to_nat CIPHER_DATA_SIZE)))
      CIPHER_DATA_SIZE = Some (CIPHER_DATA_SIZE, d).
Proof.
  intros Hwf Hm Hr Hp Hbf Hf. unfold AES256Password_serialise.
  destruct (get_master_key_spec st self subject Hwf Hm Hr) as (kid & k & st1 & -> & Hwf1 & Hk & Hok).
  mred. destruct (set_keys_spec st1 kid k Hk Hok) as (self1 & -> & _ & Hkeyed). mred.
  rewrite Hp, Hk. mred. destruct (open_sealed pass k Hok) as (d & Hd & Hl & Hb & _). rewrite Hd. mred.
  destruct (stored_text (fun _ => 0) frame d Hl Hb Hbf Hf) as (text & He & _). rewrite He. mred.
  exists text, self1, st1, k, d. split_and!; try done. intros uninit.
  destruct (stored_text uninit frame d Hl Hb Hbf Hf) as (text' & He' & Hdec). congruence.
Qed.

(** The key object of a new key is overwritten with the opened one. *)
Lemma copied_key_spec uninit frame st kid k iv data :
  crypto_wf st -> cr_keys st !! kid = Some k -> key_ok k ->
  zlen iv = AES_BLOCK_SIZE -> zlen data = AES256_KEY_SIZE -> bytes_ok iv -> bytes_ok data ->
  (forall i, is_byte (uninit i)) -> bytes_ok frame ->
  EVP_MAX_KEY_LENGTH - AES256_KEY_SIZE <= zlen frame ->
  exists st' k', enter_key uninit frame st kid iv data = Some st' /\ KeyCache st' = KeyCache st /\
    cr_keys st' !! kid = Some k' /\ key_ok k' /\
    ztake AES_BLOCK_SIZE (key_iv k') = iv /\ ztake AES256_KEY_SIZE (key_data k') = data.
Proof.
  intros Hwf Hk (Hld & Hli & Hbd & Hbi) Hiv Hdata Hbiv Hbdata Hu Hbf Hf.
  pose proof key_length_law as Hmax. unfold AES256_KEY_SIZE, AES_BLOCK_SIZE in *.
  unfold enter_key. rewrite Hk. mred. set (local := zover 0 iv _).
  assert (local = iv ++ map uninit (seq 16 16)) as Hloc.
  { unfold local. rewrite zover_0, Hiv. reflexivity. }
  assert (zlen local = 32) as Hll by (rewrite Hloc, zlen_app, Hiv, zlen_map; done).
  assert (bytes_ok local) as Hbl.
  { rewrite Hloc. apply Forall_app. split; [done|]. apply List.Forall_map, list.Forall_forall. intros. apply Hu. }
  rewrite bread_ok by (rewrite ?zlen_app; lia). mred. rewrite bput_ok by lia. mred.
  rewrite zread_prefix by lia. eexists _, _. split; [reflexivity|]. split; [done|].
  split; [cbn; by rewrite lookup_insert_eq|]. rewrite zover_0, Hdata. split_and!; cbn.
  - split; [|split; [|split]]; cbn.
    + rewrite zlen_app, zlen_zdrop. lia.
    + rewrite zlen_ztake, zlen_app. lia.
    + apply Forall_app. split; [done|]. by apply Forall_zdrop.
    + apply Forall_ztake, Forall_app. done.
  - rewrite ztake_ztake by lia. rewrite Hloc, <- app_assoc. by apply ztake_app_eq.
  - by apply ztake_app_eq.
Qed.

End Lemmas.

(** A stand-in for OpenSSL: bytes are shifted by the first byte of the key, and the key
    derived from a passphrase repeats the sum of its characters. *)
Definition toy_ssl : OpenSSL := {|
  EVP_MAX_KEY_LENGTH := 64;
  AES_KEY := Z;
  AES_set_encrypt_key key := znth key 0;
  AES_set_decrypt_key key := znth key 0;
  AES_cbc_encrypt d k iv enc := (map (fun b => u8 (if enc then b + k else b - k)) d, iv);
  PKCS5_PBKDF2_HMAC_SHA1 pass salt n len := replicate (Z.to_nat len) (u8 (foldl Z.add 1 pass));
  RAND_bytes c n := Some (replicate (Z.to_nat n) (u8 (Z.of_nat c + 7)));
  RAND_pseudo_bytes c n := None
|}.

Lemma u8_range z : is_byte (u8 z).
Proof. unfold is_byte, u8. dlia. Qed.

#[export] Instance toy_ssl_laws : @OpenSSLLaws toy_ssl.
Proof.
  split; cbn.
  - vm_compute. congruence.
  - intros d k iv enc _ _. split; [apply zlen_map|]. apply List.Forall_map, list.Forall_forall.
    intros. apply u8_range.
  - intros d key iv _ _ _ Hd. rewrite map_map. rewrite <- (map_id d) at 2. apply map_ext_in.
    intros b Hb%list_elem_of_In. apply (list.Forall_forall is_byte d) in Hb; [|done].
    unfold is_byte, u8 in *. dlia.
  - intros pass salt n len Hl. rewrite zlen_replicate, Z2Nat.id by lia. split; [done|].
    apply Forall_replicate, u8_range.
  - intros c n b Hn [[= <-]|?]; [|done]. rewrite zlen_replicate, Z2Nat.id by lia.
    split; [done|]. apply Forall_replicate, u8_range.
Qed.

(** ** Properties *)

(** The key cache never hands out a freed key.  After any sequence of requests for
    keys, of any types and streams, and of closed streams, every object in the cache is a
    live key with a master key and a vector of the right size, it is there only once, and
    the search of [Key_Con] ends without following a dangling pointer. *)
Theorem KeyCache_invariant `{OL : OpenSSLLaws} st :
  rtc crypto_step A000_encrypt st ->
  crypto_wf st /\
  forall type subject create, exists r e st',
    Key_Con st type subject create = Some (r, e, st') /\
    forall kid, r = Some kid -> exists k, cr_keys st' !! kid = Some k /\ key_ok k.
Proof.
  intros Hr. assert (crypto_wf st) as Hwf.
  { revert Hr. generalize A000_encrypt_wf. intros Hwf Hr.
    induction Hr as [|a b c Hab _ IH]; [done|]. apply IH. by eapply crypto_step_wf. }
  split; [done|]. intros type subject create.
  destruct (Key_Con_spec st type subject create Hwf) as (r & e & st' & Hk & Hwf' & _ & _ & Hc & _).
  exists r, e, st'. split; [done|]. intros kid Hrk.
  destruct (entries_live st' (subject_key subject) kid Hwf') as [k Hkk].
  { by eapply find_type_elem, Hc. }
  exists k. split; [done|]. by eapply (cw_keys st').
Qed.

Definition cipher_urn : RDFURN := {| urn_value := lit "aff4://s"; urn_parser := None |}.

Definition toy_keyed : crypto :=
  match @Key_Con toy_ssl A000_encrypt AES256_type cipher_urn true with
  | Some (_, _, st) => st
  | None => A000_encrypt
  end.

Lemma toy_keyed_step : @crypto_step toy_ssl A000_encrypt toy_keyed.
Proof. apply (@step_key toy_ssl _ AES256_type cipher_urn true (Some O) None). vm_compute. reflexivity. Qed.

Lemma KeyCache_invariant_witness :
  @crypto_wf toy_ssl toy_keyed /\
  forall type subject create, exists r e st',
    @Key_Con toy_ssl toy_keyed type subject create = Some (r, e, st') /\
    forall kid, r = Some kid -> exists k, cr_keys st' !! kid = Some k /\ @key_ok toy_ssl k.
Proof.
  apply (@KeyCache_invariant toy_ssl toy_ssl_laws). eapply rtc_once, toy_keyed_step.
Defined.

(** What happens to the keys while a stream stays open: ciphers of any stream ask for
    keys, other streams are closed. *)
Inductive key_activity `{OpenSSL} (subject : RDFURN) : crypto -> crypto -> Prop :=
| act_key st type s create r e st' :
    Key_Con st type s create = Some (r, e, st') -> key_activity subject st st'
| act_flush st s : subject_key s <> subject_key subject ->
    key_activity subject st (flush_key st s).

Lemma key_activity_keeps `{OL : OpenSSLLaws} subject type kid k st st' :
  key_activity subject st st' -> crypto_wf st -> cached_key st type subject = Some kid ->
  cr_keys st !! kid = Some k ->
  crypto_wf st' /\ cached_key st' type subject = Some kid /\ cr_keys st' !! kid = Some k.
Proof.
  intros [st0 t s create r e st1 Hc | st0 s Hne] Hwf Hck Hk.
  - destruct (Key_Con_spec st0 t s create Hwf) as (? & ? & ? & Hc' & Hwf' & Hsub & Hkeep & _).
    rewrite Hc in Hc'. injection Hc' as <- <- <-. split_and!; [done|by apply Hkeep|].
    by eapply lookup_weaken.
  - destruct (flush_key_spec st0 s Hwf) as [Hwf' Hf].
    destruct (Hf type subject kid) as [Hck' Hk']; [congruence|done|]. by rewrite Hk'.
Qed.

(** The ciphers of a stream share one key.  Once some cipher got a key for a stream,
    every later request for a key of that type and stream gives the same object with the
    same contents, whatever other keys are requested in between and whatever other
    streams are closed. *)
Theorem Key_Con_shared `{OL : OpenSSLLaws} st st1 st2 type subject kid e k create :
  crypto_wf st -> Key_Con st type subject true = Some (Some kid, e, st1) ->
  cr_keys st1 !! kid = Some k -> rtc (key_activity subject) st1 st2 ->
  exists st3, Key_Con st2 type subject create = Some (Some kid, None, st3) /\
    cr_keys st3 !! kid = Some k.
Proof.
  intros Hwf Hc Hk Hr.
  destruct (Key_Con_spec st type subject true Hwf) as (? & ? & ? & Hc' & Hwf1 & _ & _ & Hck & _).
  rewrite Hc in Hc'. injection Hc' as <- <- <-. specialize (Hck kid eq_refl).
  assert (crypto_wf st2 /\ cached_key st2 type subject = Some kid /\ cr_keys st2 !! kid = Some k)
    as (Hwf2 & Hck2 & Hk2).
  { clear -Hr Hwf1 Hck Hk OL. induction Hr as [|a b c Hab Hbc IH]; [done|].
    destruct (key_activity_keeps subject type kid k a b Hab Hwf1 Hck Hk) as (? & ? & ?). auto. }
  destruct (Key_Con_spec st2 type subject create Hwf2)
    as (r & e2 & st3 & Hc3 & _ & Hsub & _ & _ & Hf & _).
  destruct (Hf kid Hck2) as [-> ->]. exists st3. split; [done|]. by eapply lookup_weaken.
Qed.

Definition other_urn : RDFURN := {| urn_value := lit "aff4://other"; urn_parser := None |}.

Lemma Key_Con_shared_witness :
  exists st3, @Key_Con toy_ssl (flush_key toy_keyed other_urn) AES256_type cipher_urn false =
      Some (Some O, None, st3) /\
    cr_keys st3 !! O = cr_keys toy_keyed !! O.
Proof.
  destruct (cr_keys toy_keyed !! O) as [k|] eqn:Hk; [|vm_compute in Hk; discriminate].
  apply (@Key_Con_shared toy_ssl toy_ssl_laws A000_encrypt toy_keyed _ _ _ O None k false).
  - apply A000_encrypt_wf.
  - vm_compute. reflexivity.
  - exact Hk.
  - apply rtc_once. constructor. vm_compute. congruence.
Defined.

Section Passphrase.

Context `{OL : OpenSSLLaws}.
Variable passphrase : RDFURN -> option (list Z).
Variable uninit : nat -> Z.
Variable frame : list Z.

(** A chunk one cipher encrypts, another one with the same key decrypts. *)
Lemma keyed_inverse st1 self1 st2 self2 iv data n d :
  keyed st1 self1 iv data -> keyed st2 self2 iv data ->
  zlen d mod AES_BLOCK_SIZE = 0 -> bytes_ok d ->
  exists c, AES256Password_encrypt st1 self1 n d (zlen d) = Some c /\ zlen c = zlen d /\
    bytes_ok c /\ AES256Password_decrypt st2 self2 n c (zlen c) = Some d.
Proof.
  intros (k1 & key1 & Hm1 & Hk1 & Hok1 & Hi1 & Hd1 & He1 & _)
    (k2 & key2 & Hm2 & Hk2 & Hok2 & Hi2 & Hd2 & _ & Hx2) Hl Hb.
  destruct (key_prefix key1 Hok1) as (Hr1 & _ & Hl1 & Hld1 & Hb1 & _).
  destruct (key_prefix key2 Hok2) as (Hr2 & _).
  rewrite Hi1 in *. rewrite Hi2 in *. rewrite Hd1 in *.
  set (biv := block_iv iv n).
  destruct (cbc_length_law d (AES_set_encrypt_key data) biv true Hl Hb) as [Hlc Hbc].
  pose proof (cbc_inverse_law d data biv Hld1) as Hinv.
  unfold AES256Password_encrypt, AES256Password_decrypt, cipher_run.
  rewrite Hm1, He1. mred. rewrite Hk1. mred. rewrite Hr1. mred.
  rewrite (bread_ok 0 (zlen d)), zread_prefix, ztake_all by (auto with aff4; lia). mred.
  eexists. split; [reflexivity|]. fold biv. split; [done|]. split; [done|].
  rewrite Hm2, Hx2. mred. rewrite Hk2. mred. rewrite Hr2. mred. fold biv.
  set (c := (AES_cbc_encrypt d _ _ _).1) in *.
  rewrite (bread_ok 0 (zlen c)), zread_prefix, ztake_all by (auto with aff4; lia). mred.
  rewrite Hinv; [done| |done|done].
  unfold biv, block_iv. rewrite zlen_app, zlen_le, zlen_zdrop, Hl1. done.
Qed.

(** Decoding without a cached key comes down to opening the text. *)
Lemma decode_uncached st subject pass text d :
  crypto_wf st -> rand_ok st -> cached_key st AES256_type subject = None ->
  passphrase subject = Some pass ->
  decode64 text 88 (map uninit (seq 0 (Z.to_nat CIPHER_DATA_SIZE))) CIPHER_DATA_SIZE =
    Some (CIPHER_DATA_SIZE, d) ->
  exists st1, crypto_wf st1 /\ rand_ok st1 /\ cr_keys st1 = cr_keys st /\
    cached_key st1 AES256_type subject = None /\
    AES256Password_decode passphrase uninit frame st AES256Password_new text 88 subject =
      (r ← open_cipher_data pass d;
       match r with
       | None => Some (0, Some ERuntimeError, AES256Password_new, st1)
       | Some (iv, plain) =>
           '(master, _, st) ← Key_Con st1 AES256_type subject true;
           kid ← master;
           st ← enter_key uninit frame st kid iv plain;
           self ← set_keys st kid; Some (AES256_KEY_SIZE, None, self, st)
       end).
Proof.
  intros Hwf Hr Hn Hp Hd. unfold AES256Password_decode, get_master_key.
  destruct (Key_Con_spec st AES256_type subject false Hwf)
    as (r & e & st1 & -> & Hwf1 & _ & _ & _ & _ & Hf).
  destruct (Hf Hn) as [Hf' _]. destruct (Hf' eq_refl) as (-> & -> & Hk & Hc & Hck).
  exists st1. split; [done|]. split; [unfold rand_ok; by rewrite Hc|].
  split; [done|]. split; [by rewrite Hck|]. cbn [ci_master_key AES256Password_new]. mred.
  rewrite Hd. mred. rewrite Z.eqb_refl. cbn [negb]. by rewrite Hp.
Qed.

(** C29: the master key of an encrypted stream survives storage under a passphrase, where
    the stack can be read behind two local arrays.  A cipher that has, finds or makes a key
    for the stream serialises it to a text of 88 characters; another process that has no key
    in its cache and is given the same passphrase decodes the text without an error, and its
    cipher then decrypts every chunk of whole blocks the first one encrypts, under the same
    chunk number.  It is assumed that random bytes can be had ([rand_ok]), and that the reads
    out of bounds that every run makes find memory: [encode64] reads two bytes behind the
    structure it encodes, and decoding copies EVP_MAX_KEY_LENGTH bytes of a local vector of
    32; whatever bytes they find ([frame]) do not matter.  Without that memory decoding
    fails, as [AES256Password_decode_overreads] says. *)
Theorem AES256Password_opens st self subject pass st2 :
  crypto_wf st -> rand_ok st ->
  (forall kid, ci_master_key self = Some kid -> is_Some (cr_keys st !! kid)) ->
  crypto_wf st2 -> rand_ok st2 -> cached_key st2 AES256_type subject = None ->
  passphrase subject = Some pass ->
  (forall i, is_byte (uninit i)) -> bytes_ok frame ->
  2 <= zlen frame -> EVP_MAX_KEY_LENGTH - AES256_KEY_SIZE <= zlen frame ->
  exists text self1 st1 self2 st3,
    AES256Password_serialise passphrase frame st self subject =
      Some (Some text, None, self1, st1) /\
    AES256Password_decode passphrase uninit frame st2 AES256Password_new text 88 subject =
      Some (AES256_KEY_SIZE, None, self2, st3) /\
    forall n d, zlen d mod AES_BLOCK_SIZE = 0 -> bytes_ok d ->
      exists c, AES256Password_encrypt st1 self1 n d (zlen d) = Some c /\ zlen c = zlen d /\
        AES256Password_decrypt st3 self2 n c (zlen c) = Some d.
Proof.
  intros Hwf Hr Hm Hwf2 Hr2 Hn Hp Hu Hbf Hf2 Hf.
  destruct (serialise_spec passphrase frame st self subject pass)
    as (text & self1 & st1 & k & d & Hser & Hwf1 & Hok & Hd & Hkd & Hdec); try done.
  destruct (open_sealed pass k Hok) as (d' & Hd' & _ & _ & Hop).
  rewrite Hd in Hd'. injection Hd' as <-.
  destruct (key_prefix k Hok) as (_ & _ & Hli & Hld & Hbi & Hbd).
  destruct (decode_uncached st2 subject pass text d) as (st3 & Hwf3 & Hr3 & _ & Hn3 & Hdc); try done.
  rewrite Hop in Hdc. cbn [mbind option_bind] in Hdc.
  destruct (Key_Con_spec st3 AES256_type subject true Hwf3)
    as (r & e & st4 & Hc & Hwf4 & _ & _ & _ & _ & Hnew).
  destruct (Hnew Hn3) as [_ Hnew']. destruct (Hnew' eq_refl Hr3) as (kid & k4 & -> & -> & _ & Hk4).
  rewrite Hc in Hdc. cbn [mbind option_bind] in Hdc.
  assert (cr_keys st4 !! kid = Some k4) as Hkid by by rewrite Hk4, lookup_insert_eq.
  destruct (copied_key_spec uninit frame st4 kid k4 (ztake AES_BLOCK_SIZE (key_iv k))
    (ztake AES256_KEY_SIZE (key_data k))) as (st5 & k5 & Hst & _ & Hk5 & Hok5 & Hi5 & Hd5);
    try done; [by eapply (cw_keys st4)|].
  rewrite Hst in Hdc. cbn [mbind option_bind] in Hdc.
  destruct (set_keys_spec st5 kid k5 Hk5 Hok5) as (self2 & Hset & _ & Hkeyed).
  rewrite Hset in Hdc. cbn [mbind option_bind] in Hdc.
  exists text, self1, st1, self2, st5. split; [done|]. split; [done|]. rewrite Hi5, Hd5 in Hkeyed.
  intros n data Hl Hb.
  destruct (keyed_inverse _ _ _ _ _ _ n data Hkd Hkeyed Hl Hb) as (c & He & Hlc & _ & Hx).
  by exists c.
Qed.

(** A wrong passphrase is noticed.  When the stored nonce does not decrypt to zeros
    under the key derived from the passphrase given now, decoding raises an error, and
    no key is made or changed. *)
Theorem AES256Password_rejects pass k d text subject pass' st2 :
  key_ok k -> cipher_data pass k = Some d ->
  encode64 (d ++ frame) CIPHER_DATA_SIZE (replicate (Z.to_nat (CIPHER_DATA_SIZE * 2)) 0)
    (CIPHER_DATA_SIZE * 2) = Some (88, text) ->
  bytes_ok frame -> 2 <= zlen frame ->
  crypto_wf st2 -> rand_ok st2 -> cached_key st2 AES256_type subject = None ->
  passphrase subject = Some pass' ->
  let iv := ztake AES_BLOCK_SIZE (key_iv k) in
  forallb (Z.eqb 0) (AES_cbc_encrypt (zread AES_BLOCK_SIZE AES_BLOCK_SIZE d)
    (AES_set_decrypt_key (password_key pass' iv)) iv false).1 = false ->
  exists st3, AES256Password_decode passphrase uninit frame st2 AES256Password_new text 88 subject =
      Some (0, Some ERuntimeError, AES256Password_new, st3) /\
    cr_keys st3 = cr_keys st2 /\ cached_key st3 AES256_type subject = None.
Proof.
  intros Hok Hd He Hbf Hf Hwf2 Hr2 Hn Hp iv Hbad.
  destruct (key_prefix k Hok) as (Hi & Hk & Hli & Hld & Hbi & Hbd).
  destruct (open_sealed pass k Hok) as (d' & Hd' & Hl & Hb & _).
  rewrite Hd in Hd'. injection Hd' as <-.
  destruct (stored_text uninit frame d Hl Hb Hbf Hf) as (text' & He' & Hdec).
  rewrite He in He'. injection He' as <-.
  destruct (decode_uncached st2 subject pass' text d) as (st3 & _ & _ & Hk3 & Hn3 & Hdc); try done.
  exists st3. split; [|done]. rewrite Hdc. unfold open_cipher_data.
  unfold AES256_KEY_SIZE, CIPHER_DATA_SIZE, AES_BLOCK_SIZE in *.
  rewrite !bread_ok by (unfold AES256_KEY_SIZE in *; lia). mred.
  assert (zread 0 16 d = iv) as ->.
  { unfold cipher_data, AES256_KEY_SIZE, AES_BLOCK_SIZE in Hd. rewrite Hi, Hk in Hd.
    cbn [mbind option_bind] in Hd. injection Hd as <-. rewrite zread_prefix by lia. by apply ztake_app_eq. }
  by rewrite Hbad.
Qed.

(** Decoding reads past its local vector.  The new key's vector has
    [EVP_MAX_KEY_LENGTH] bytes and all of them are copied from an array of 32; where the
    constant is larger and nothing follows the array, a text that opens makes the copy
    leave it. *)
Theorem AES256Password_decode_overreads st subject pass k d text :
  key_ok k -> cipher_data pass k = Some d ->
  decode64 text 88 (map uninit (seq 0 (Z.to_nat CIPHER_DATA_SIZE))) CIPHER_DATA_SIZE =
    Some (CIPHER_DATA_SIZE, d) ->
  crypto_wf st -> rand_ok st -> cached_key st AES256_type subject = None ->
  passphrase subject = Some pass ->
  zlen frame < EVP_MAX_KEY_LENGTH - AES256_KEY_SIZE ->
  AES256Password_decode passphrase uninit frame st AES256Password_new text 88 subject = None.
Proof.
  intros Hok Hd Hdec Hwf Hr Hn Hp Hf.
  destruct (open_sealed pass k Hok) as (d' & Hd' & _ & _ & Hop).
  rewrite Hd in Hd'. injection Hd' as <-.
  destruct (key_prefix k Hok) as (_ & _ & Hli & _).
  destruct (decode_uncached st subject pass text d) as (st1 & Hwf1 & Hr1 & _ & Hn1 & ->); try done.
  rewrite Hop. mred.
  destruct (Key_Con_spec st1 AES256_type subject true Hwf1)
    as (r & e & st2 & -> & Hwf2 & _ & _ & _ & _ & Hnew).
  destruct (Hnew Hn1) as [_ Hnew']. destruct (Hnew' eq_refl Hr1) as (kid & k2 & -> & -> & _ & Hk2).
  mred. assert (cr_keys st2 !! kid = Some k2) as Hkid by by rewrite Hk2, lookup_insert_eq.
  assert (key_ok k2) as (_ & Hl2 & _) by by eapply (cw_keys st2).
  unfold enter_key. rewrite Hkid. mred. unfold bread at 1. rewrite zlen_app, Hl2.
  rewrite zlen_zover by (rewrite ?zlen_map, ?Hli; by vm_compute).
  rewrite (proj2 (Z.leb_gt (0 + EVP_MAX_KEY_LENGTH) _)); [by rewrite andb_false_r|].
  change (zlen (map uninit (seq 0 (Z.to_nat AES256_KEY_SIZE)))) with (Z.of_nat (length (map uninit (seq 0 32)))).
  rewrite length_map, length_seq. unfold AES256_KEY_SIZE in Hf. lia.
Qed.

End Passphrase.

(** Concrete runs: the passphrase is ["pw"], the other one ["pv"]. *)
Definition toy_pass (p : string) (subject : RDFURN) : option (list Z) := Some (lit p).

Definition toy_uninit (i : nat) : Z := Z.of_nat i mod 256.

Definition toy_frame : list Z := replicate 64 90.

Lemma toy_rand_ok st : @rand_ok toy_ssl st.
Proof. intros c _. left. eexists. reflexivity. Qed.

Lemma toy_uninit_ok i : is_byte (toy_uninit i).
Proof. unfold toy_uninit, is_byte. dlia. Qed.

Lemma AES256Password_opens_witness :
  exists text self1 st1 self2 st3,
    @AES256Password_serialise toy_ssl (toy_pass "pw") toy_frame A000_encrypt
      (@AES256Password_new toy_ssl) cipher_urn = Some (Some text, None, self1, st1) /\
    @AES256Password_decode toy_ssl (toy_pass "pw") toy_uninit toy_frame A000_encrypt
      (@AES256Password_new toy_ssl) text 88 cipher_urn = Some (32, None, self2, st3) /\
    forall n d, zlen d mod AES_BLOCK_SIZE = 0 -> bytes_ok d ->
      exists c, @AES256Password_encrypt toy_ssl st1 self1 n d (zlen d) = Some c /\
        zlen c = zlen d /\ @AES256Password_decrypt toy_ssl st3 self2 n c (zlen c) = Some d.
Proof.
  apply (@AES256Password_opens toy_ssl toy_ssl_laws (toy_pass "pw") toy_uninit toy_frame
    A000_encrypt (@AES256Password_new toy_ssl) cipher_urn (lit "pw") A000_encrypt).
  - apply A000_encrypt_wf.
  - apply toy_rand_ok.
  - done.
  - apply A000_encrypt_wf.
  - apply toy_rand_ok.
  - reflexivity.
  - reflexivity.
  - apply toy_uninit_ok.
  - apply Forall_replicate. split; done.
  - vm_compute. congruence.
  - vm_compute. congruence.
Defined.

Definition toy_key : Key :=
  {| key_type := AES256_type; key_data := replicate 64 33; key_iv := replicate 64 5 |}.

Lemma toy_key_ok : @key_ok toy_ssl toy_key.
Proof. split_and!; try done; apply Forall_replicate; split; done. Qed.

Definition toy_data : list Z := default [] (@cipher_data toy_ssl (lit "pw") toy_key).

Definition toy_text : list Z :=
  match encode64 (toy_data ++ toy_frame) CIPHER_DATA_SIZE (replicate 128 0) 128 with
  | Some (_, t) => t
  | None => []
  end.

Lemma AES256Password_rejects_witness :
  exists st3, @AES256Password_decode toy_ssl (toy_pass "pv") toy_uninit toy_frame A000_encrypt
      (@AES256Password_new toy_ssl) toy_text 88 cipher_urn =
      Some (0, Some ERuntimeError, @AES256Password_new toy_ssl, st3) /\
    cr_keys st3 = cr_keys A000_encrypt /\ @cached_key st3 AES256_type cipher_urn = None.
Proof.
  apply (@AES256Password_rejects toy_ssl toy_ssl_laws (toy_pass "pv") toy_uninit toy_frame
    (lit "pw") toy_key toy_data toy_text cipher_urn (lit "pv") A000_encrypt).
  - apply toy_key_ok.
  - vm_compute. reflexivity.
  - vm_compute. reflexivity.
  - apply Forall_replicate. split; done.
  - vm_compute. congruence.
  - apply A000_encrypt_wf.
  - apply toy_rand_ok.
  - reflexivity.
  - reflexivity.
  - vm_compute. reflexivity.
Defined.

Lemma AES256Password_decode_overreads_witness :
  @AES256Password_decode toy_ssl (toy_pass "pw") toy_uninit [] A000_encrypt
    (@AES256Password_new toy_ssl) toy_text 88 cipher_urn = None.
Proof.
  apply (@AES256Password_decode_overreads toy_ssl toy_ssl_laws (toy_pass "pw") toy_uninit []
    A000_encrypt cipher_urn (lit "pw") toy_key toy_data toy_text).
  - apply toy_key_ok.
  - vm_compute. reflexivity.
  - vm_compute. reflexivity.
  - apply A000_encrypt_wf.
  - apply toy_rand_ok.
  - reflexivity.
  - reflexivity.
  - vm_compute. reflexivity.
Defined.
