(* ===== verification/Encrypted.v ===== *)
(** * Encrypted: encrypted streams (lib/encrypt.c)

    What is written is collected in a buffer; full chunks are encrypted under their number
    and appended to a backing stream, and closing pads the last chunk.  Reading decrypts
    the chunk that holds the position.

    The stream works with any cipher ([ChunkCipher], which Cipher.v implements) and any
    backing stream ([FileLike]).  The resolver hands the backing stream out for reading
    and for writing ([open_r], [open_w]; [None] is a failure) and takes it back unchanged.
    A chunk size below one, an access outside a buffer and a copy past the end of the
    caller's buffer are [None]. *)
From S2P Require Import Prelude Talloc StringIO Cache Rdf File ZipSegment Cipher.

(** The virtual methods of [AFF4Cipher] a stream calls. *)
Class ChunkCipher (C : Type) := {
  cc_encrypt : C -> Z -> list Z -> Z -> option (list Z);
  cc_decrypt : C -> Z -> list Z -> Z -> option (list Z);
  (** The first encrypts for the second. *)
  cc_pair : C -> C -> Prop
}.

Class ChunkCipherLaws (C : Type) `{ChunkCipher C} := {
  cc_law w r n d : cc_pair w r -> zlen d mod AES_BLOCK_SIZE = 0 -> bytes_ok d ->
    exists c, cc_encrypt w n d (zlen d) = Some c /\ zlen c = zlen d /\
      cc_decrypt r n c (zlen c) = Some d
}.

(** The password cipher with the keys it uses. *)
#[export] Instance AES256Password_cipher `{OpenSSL} : ChunkCipher (crypto * AES256Password) := {
  cc_encrypt c n d len := AES256Password_encrypt c.1 c.2 n d len;
  cc_decrypt c n d len := AES256Password_decrypt c.1 c.2 n d len;
  cc_pair w r := exists iv data, keyed w.1 w.2 iv data /\ keyed r.1 r.2 iv data
}.

#[export] Instance AES256Password_cipher_laws `{OL : OpenSSLLaws} :
  ChunkCipherLaws (crypto * AES256Password).
Proof.
  split. intros w r n d (iv & data & Hw & Hr) Hl Hb.
  destruct (keyed_inverse w.1 w.2 r.1 r.2 iv data n d Hw Hr Hl Hb) as (c & He & Hlc & _ & Hd).
  by exists c.
Qed.

Section Encrypted.

Context {C F : Type} `{ChunkCipher C} `{FileLike F}.

(** include/aff4_crypto.h *)
Record Encrypted := {
  en_urn : RDFURN;
  en_readptr : Z;
  en_size : Z;
  en_chunk_size : Z;
  en_block_buffer : StringIO;
  en_cipher : C;
  en_backing_store : RDFURN;
  en_stored : RDFURN
}.

(** The attributes of the stream as the resolver has them. *)
Record stream_attrs := {
  sa_target : option RDFURN;
  sa_stored : option RDFURN;
  sa_cipher : option C;
  sa_chunk_size : option Z;
  sa_size : option Z
}.

Variable junk : nat -> Z.
Variable open_r open_w : F -> option F.

(** The order of the checks is the code's; [opens] says whether the target can be
    opened.  On success the stream is added to what the volume it is stored in
    contains. *)
Definition Encrypted_Con (uri : RDFURN) (a : stream_attrs) (opens : bool)
  : option aff4_error + Encrypted :=
  match sa_target a with
  | None => inl (Some ERuntimeError)
  | Some target =>
      if negb opens then inl None
      else
        match sa_stored a, sa_cipher a with
        | None, _ => inl (Some ERuntimeError)
        | _, None => inl (Some ERuntimeError)
        | Some stored, Some cipher =>
            inr {| en_urn := uri; en_readptr := 0; en_size := default 0 (sa_size a);
                   en_chunk_size := default (4 * 1024) (sa_chunk_size a);
                   en_block_buffer := StringIO_constructor; en_cipher := cipher;
                   en_backing_store := target; en_stored := stored |}
        end
  end.

Definition with_buffer (self : Encrypted) (readptr : Z) (b : StringIO) : Encrypted :=
  {| en_urn := en_urn self; en_readptr := readptr; en_size := en_size self;
     en_chunk_size := en_chunk_size self; en_block_buffer := b; en_cipher := en_cipher self;
     en_backing_store := en_backing_store self; en_stored := en_stored self |}.

Definition with_en_size (self : Encrypted) (n : Z) : Encrypted :=
  {| en_urn := en_urn self; en_readptr := en_readptr self; en_size := n;
     en_chunk_size := en_chunk_size self; en_block_buffer := en_block_buffer self;
     en_cipher := en_cipher self; en_backing_store := en_backing_store self;
     en_stored := en_stored self |}.

(** The loop that takes full chunks off the buffer: the offset it ends at and the backing
    stream.  Each turn advances by a chunk, so one turn for each byte is enough. *)
Fixpoint emit_loop (fuel : nat) (cipher : C) (b : StringIO) (chunk_size chunk_id offset : Z)
    (f : F) : option (Z * F) :=
  if sio_size b - offset >=? chunk_size then
    match fuel with
    | O => None
    | S fuel' =>
        data ← mem_read (sio_data b) offset chunk_size;
        out ← cc_encrypt cipher chunk_id data chunk_size;
        emit_loop fuel' cipher b chunk_size (i32 (chunk_id + 1)) (i32 (offset + chunk_size))
          (fl_put f out)
    end
  else Some (offset, f).

(** The result, the error raised, the stream and the backing stream. *)
Definition Encrypted_write (self : Encrypted) (f : F) (buffer : list Z)
  : option (Z * option aff4_error * Encrypted * F) :=
  let len := zlen buffer in
  let chunk_size := i32 (en_chunk_size self) in
  if chunk_size <=? 0 then None
  else
    let chunk_id := i32 (Z.quot (en_readptr self) chunk_size) in
    b ← match StringIO_seek junk (en_block_buffer self) 0 SEEK_END with
        | inr (_, b) => Some b
        | inl _ => Some (en_block_buffer self)
        end;
    '(_, b) ← StringIO_write junk b buffer;
    let readptr := i64 (en_readptr self + len) in
    if sio_size b >=? chunk_size then
      match open_w f with
      | None => Some (0, Some ERuntimeError, with_buffer self readptr b, f)
      | Some f =>
          '(offset, f) ← emit_loop (Z.to_nat (sio_size b)) (en_cipher self) b chunk_size
                           chunk_id 0 f;
          b ← StringIO_skip b offset;
          Some (i32 len, None, with_buffer self readptr b, f)
      end
    else
      b ← StringIO_skip b 0;
      Some (i32 len, None, with_buffer self readptr b, f).

(** The attributes [close] sets; the time stamp is the clock's. *)
Inductive close_set := set_type | set_size (n : Z) | set_timestamp.

(** The size is what was written before the padding; the stream's key is flushed. *)
Definition Encrypted_close (self : Encrypted) (f : F) (keys : crypto)
  : option (list close_set * Encrypted * F * crypto) :=
  let chunk_size := i32 (en_chunk_size self) in
  if chunk_size <=? 0 then None
  else
    let to_pad := i32 (chunk_size - Z.rem (en_readptr self) chunk_size) in
    let self := with_en_size self (en_readptr self) in
    '(self, f) ← (if to_pad >? 0 then
                    '(_, _, self, f) ← Encrypted_write self f (replicate (Z.to_nat to_pad) 0);
                    Some (self, f)
                  else Some (self, f));
    Some ([set_type; set_size (en_size self); set_timestamp], self, f,
          flush_key keys (en_urn self)).

(** One piece of a read of at most [len] bytes, copied to the offset [at] of the caller's
    buffer.  The inner [None] is -1. *)
Definition Encrypted_partialread (self : Encrypted) (f : F) (buff : list Z) (at_ len : Z)
  : option (option (Z * list Z) * Encrypted * F) :=
  let chunk_size := u64 (en_chunk_size self) in
  if (chunk_size =? 0) || (i64 chunk_size <? 0) then None
  else
    let chunk_id := u32 (u64 (en_readptr self) / chunk_size) in
    let chunk_offset := i32 (u64 (en_readptr self) mod chunk_size) in
    let available := i32 (Z.min len (u64 (chunk_size - chunk_offset))) in
    match open_r f with
    | None => Some (None, self, f)
    | Some target =>
        let '(_, target) := fl_seek target (i64 (u64 (chunk_id * chunk_size))) SEEK_SET in
        let '(cbuff, target) := fl_read target chunk_size in
        if zlen cbuff <? chunk_size then Some (None, self, target)
        else
          dbuff ← cc_decrypt (en_cipher self) (i32 chunk_id) cbuff chunk_size;
          bytes ← bread chunk_offset available dbuff;
          buff ← bput buff at_ bytes;
          Some (Some (available, buff),
                with_buffer self (i64 (en_readptr self + available)) (en_block_buffer self),
                target)
    end.

(** The loop of [Encrypted_read]; the buffer has [length] bytes.  The loop moves the
    position by what a piece moved it by already. *)
Fixpoint en_read_loop (fuel : nat) (self : Encrypted) (f : F) (buff : list Z) (offset : Z)
  : option (Z * list Z * Encrypted * F) :=
  if offset <? zlen buff then
    match fuel with
    | O => None
    | S fuel' =>
        let available := i32 (Z.min (zlen buff) (u64 (en_size self - en_readptr self))) in
        if available =? 0 then Some (offset, buff, self, f)
        else
          '(r, self, f) ← Encrypted_partialread self f buff offset (u64 available);
          match r with
          | None => Some (-1, buff, self, f)
          | Some (read_length, buff) =>
              if read_length =? 0 then Some (offset, buff, self, f)
              else
                en_read_loop fuel'
                  (with_buffer self (i64 (en_readptr self + read_length)) (en_block_buffer self))
                  f buff (i32 (offset + read_length))
          end
    end
  else Some (offset, buff, self, f).

Definition Encrypted_read (self : Encrypted) (f : F) (buff : list Z)
  : option (Z * list Z * Encrypted * F) :=
  en_read_loop (S (length buff)) self f buff 0.

(** [FileLikeObject_seek], which the class inherits. *)
Definition Encrypted_seek (self : Encrypted) (offset : Z) (w : whence) : Encrypted :=
  with_buffer self (FileLikeObject_seek (en_readptr self) (en_size self) offset w)
    (en_block_buffer self).

End Encrypted.

Arguments Encrypted C : clear implicits.
Arguments stream_attrs C : clear implicits.

(** Consecutive writes. *)
Fixpoint en_write_all {C F} `{ChunkCipher C} `{FileLike F} (junk : nat -> Z)
    (open_w : F -> option F) (self : Encrypted C) (f : F) (buffers : list (list Z))
  : option (Encrypted C * F) :=
  match buffers with
  | [] => Some (self, f)
  | b :: buffers =>
      '(_, _, self, f) ← Encrypted_write junk open_w self f b;
      en_write_all junk open_w self f buffers
  end.

(** ** What the backing stream holds *)

(** [sealed w cs i d e]: [e] is [d] encrypted chunk by chunk under the numbers from
    [i]. *)
Inductive sealed {C} `{ChunkCipher C} (w : C) (cs : Z) : Z -> list Z -> list Z -> Prop :=
| sealed_nil i : sealed w cs i [] []
| sealed_cons i d e ds es : zlen d = cs -> zlen e = cs -> cc_encrypt w i d cs = Some e ->
    sealed w cs (i + 1) ds es -> sealed w cs i (d ++ ds) (e ++ es).

Section Sealed.

Context {C : Type} `{ChunkCipher C}.

Lemma sealed_one w cs i d e : zlen d = cs -> zlen e = cs -> cc_encrypt w i d cs = Some e ->
  sealed w cs i d e.
Proof.
  intros. rewrite <- (app_nil_r d), <- (app_nil_r e). constructor; try done. constructor.
Qed.

Lemma sealed_zlen w cs i d e : sealed w cs i d e -> zlen e = zlen d.
Proof. induction 1; [done|]. rewrite !zlen_app. lia. Qed.

Lemma sealed_app w cs i d1 e1 d2 e2 j : 0 < cs -> sealed w cs i d1 e1 ->
  j = i + zlen d1 / cs -> sealed w cs j d2 e2 -> sealed w cs i (d1 ++ d2) (e1 ++ e2).
Proof.
  intros Hcs H1 -> H2. induction H1 as [i|i d e ds es Hd He Hc Hs IH].
  - change (zlen (@nil Z)) with 0 in H2. by rewrite Z.div_0_l, Z.add_0_r in H2 by lia.
  - rewrite <- !app_assoc. constructor; try done. apply IH.
    rewrite zlen_app, Hd in H2. replace (cs + zlen ds) with (zlen ds + 1 * cs) in H2 by lia.
    rewrite Z.div_add in H2 by lia. by replace (i + 1 + zlen ds / cs) with (i + (zlen ds / cs + 1)) by lia.
Qed.

(** A whole number of chunks. *)
Lemma sealed_whole w cs i d e : 0 < cs -> sealed w cs i d e -> zlen d mod cs = 0.
Proof.
  intros Hcs. induction 1 as [i|i d e ds es Hd He Hc Hs IH]; [by apply Z.mod_0_l; lia|].
  rewrite zlen_app, Hd, Z.add_comm. replace (zlen ds + cs) with (zlen ds + 1 * cs) by lia.
  by rewrite Z.mod_add by lia.
Qed.

(** Each chunk is where its number says. *)
Lemma sealed_chunk w cs i d e j : 0 < cs -> sealed w cs i d e -> 0 <= j ->
  (j + 1) * cs <= zlen d ->
  cc_encrypt w (i + j) (zread (j * cs) cs d) cs = Some (zread (j * cs) cs e).
Proof.
  intros Hcs Hs. revert j. induction Hs as [i|i d e ds es Hd He Hc Hs IH]; intros j Hj Hl.
  { change (zlen (@nil Z)) with 0 in Hl. nia. }
  rewrite zlen_app, Hd in Hl. unfold zread in *.
  destruct (decide (j = 0)) as [->|Hne].
  - rewrite Z.mul_0_l, Z.add_0_r, !zdrop_0 by lia. by rewrite !ztake_app_eq by done.
  - rewrite !zdrop_app_ge by nia. rewrite Hd, He.
    replace (j * cs - cs) with ((j - 1) * cs) by lia. replace (i + j) with (i + 1 + (j - 1)) by lia.
    apply IH; nia.
Qed.

End Sealed.

(** ** Writing *)

Lemma sio_mem_read s off n : sio_wf s -> 0 <= off -> 0 <= n -> off + n <= sio_size s ->
  mem_read (sio_data s) off n = Some (zread off n (sio_bytes s)).
Proof.
  intros Hwf Ho Hn Hl. pose proof (sio_wf_bytes_len s Hwf) as Hb.
  destruct Hwf as (tc & Hd & Hok & H). unfold sio_bytes in *. rewrite Hd in *.
  unfold chunk_ok in Hok. rewrite mem_read_ok by lia. f_equal. unfold zread.
  rewrite zdrop_ztake by lia. by rewrite ztake_ztake by lia.
Qed.

Lemma sio_seek_end junk s : sio_wf s ->
  exists r s', StringIO_seek junk s 0 SEEK_END = inr (r, s') /\ sio_end s' (sio_bytes s).
Proof.
  intros Hwf. pose proof (sio_wf_bytes_len s Hwf) as Hb.
  assert (StringIO_seek junk s 0 SEEK_END = StringIO_seek junk s (sio_size s) SEEK_SET) as ->
    by (unfold StringIO_seek; by rewrite Z.add_0_r).
  pose proof (zlen_nonneg (sio_bytes s)).
  destruct (sio_seek_inside junk s (sio_size s) Hwf) as (s' & -> & Hwf' & Habs & _); [lia|].
  injection Habs as Hc Hp. eexists _, s'. split; [done|]. split_and!; [done|done|lia].
Qed.

(** A chunk size the cipher and the buffer can work with. *)
Definition chunk_size_ok (cs : Z) : Prop := 0 < cs /\ cs mod AES_BLOCK_SIZE = 0.

Section Writing.

Context {C F : Type} `{CL : ChunkCipherLaws C} `{FL : FileLikeLaws F}.
Variable junk : nat -> Z.
Variable open_w : F -> option F.
Variable w r : C.
Variable cs : Z.
Hypothesis pair : cc_pair w r.
Hypothesis cs_ok : chunk_size_ok cs.
(** The backing stream is handed out as it was left. *)
Hypothesis open_w_law : forall f c, fl_end f c -> exists f', open_w f = Some f' /\ fl_end f' c.

Lemma emit_loop_spec fuel b i o f c :
  sio_wf b -> bytes_ok (sio_bytes b) -> 0 <= o <= sio_size b -> sio_size b - o <= Z.of_nat fuel ->
  0 <= i -> i + (sio_size b - o) < 2147483647 -> fl_end f c ->
  exists o' f' e, emit_loop fuel w b cs i o f = Some (o', f') /\ o <= o' <= sio_size b /\
    sio_size b - o' < cs /\ sealed w cs i (zread o (o' - o) (sio_bytes b)) e /\ fl_end f' (c ++ e).
Proof.
  intros Hwf Hb. revert i o f c. destruct cs_ok as [Hcs Hblk].
  pose proof (sio_wf_bytes_len b Hwf) as Hlen.
  assert (sio_size b < 268435456) as Hmax
    by (destruct Hwf as (? & ? & ? & ? & ? & Hm); unfold MAX_TALLOC_SIZE in Hm; lia).
  assert (forall i o f c, fl_end f c -> 0 <= o <= sio_size b -> sio_size b - o < cs ->
    exists o' f' e, Some (o, f) = Some (o', f') /\ o <= o' <= sio_size b /\ sio_size b - o' < cs /\
      sealed w cs i (zread o (o' - o) (sio_bytes b)) e /\ fl_end f' (c ++ e)) as Hstop.
  { intros i o f c Hf Ho Hs. exists o, f, []. rewrite Z.sub_diag, app_nil_r.
    unfold zread. rewrite ztake_0 by lia. split_and!; try done; try lia. constructor. }
  induction fuel as [|fuel IH]; intros i o f c Ho Hfuel Hi Hib Hf; cbn [emit_loop]; case_bool;
    [lia|by apply Hstop| |by apply Hstop].
  set (d := zread o cs (sio_bytes b)).
  assert (zlen d = cs) as Hd by (apply zlen_zread; lia).
  destruct (cc_law w r i d pair) as (e & He & Hle & _);
    [by rewrite Hd|by apply Forall_ztake, Forall_zdrop|].
  rewrite sio_mem_read by (done || lia). mred. fold d. rewrite Hd in He, Hle. rewrite He. mred.
  destruct (IH (i + 1) (o + cs) (fl_put f e) (c ++ e)) as (o' & f' & es & Hl & Hr & Hs & Hsl & Hfe);
    try lia; [by apply fl_put_end|].
  rewrite !i32_small by lia. exists o', f', (e ++ es). split_and!; try done; try lia.
  - rewrite (zread_split o cs) by lia. fold d.
    replace (o' - o - cs) with (o' - (o + cs)) by lia. by constructor.
  - by rewrite app_assoc.
Qed.

(** The state of a stream that is being written: what was written, whole chunks in the
    backing stream and the rest in the buffer. *)
Record writing (self : Encrypted C) (f : F) (d : list Z) : Prop := {
  wr_cipher : en_cipher self = w;
  wr_chunk : en_chunk_size self = cs;
  wr_readptr : en_readptr self = zlen d;
  wr_wf : sio_wf (en_block_buffer self);
  wr_small : sio_size (en_block_buffer self) < cs;
  wr_bytes : bytes_ok (sio_bytes (en_block_buffer self));
  wr_data : exists full e, d = full ++ sio_bytes (en_block_buffer self) /\
    sealed w cs 0 full e /\ fl_end f e
}.

Lemma writing_chunk_id self f d full : writing self f d ->
  d = full ++ sio_bytes (en_block_buffer self) -> zlen full mod cs = 0 ->
  zlen d / cs = zlen full / cs.
Proof.
  intros Hw -> Hm. destruct cs_ok. pose proof (sio_wf_bytes_len _ (wr_wf _ _ _ Hw)) as Hl.
  pose proof (wr_small _ _ _ Hw). rewrite zlen_app.
  pose proof (zlen_nonneg (sio_bytes (en_block_buffer self))).
  assert (zlen full = cs * (zlen full / cs)) as E by (apply Z.div_exact; lia).
  rewrite E at 1. rewrite Z.mul_comm, Z.add_comm, Z.div_add by lia.
  rewrite (Z.div_small (zlen _) cs) by lia. done.
Qed.

Lemma skip_zdrop b n : sio_wf b -> 0 <= n <= sio_size b ->
  exists b', StringIO_skip b n = Some b' /\ sio_wf b' /\ sio_bytes b' = zdrop n (sio_bytes b) /\
    sio_size b' = sio_size b - n.
Proof.
  intros Hwf Hn. destruct (sio_skip_spec b n Hwf) as (b' & Hs & Hwf' & Habs); [lia|].
  injection Habs as Hb _. exists b'. split_and!; try done.
  rewrite <- (sio_wf_bytes_len b' Hwf'), Hb, zlen_zdrop, (sio_wf_bytes_len b Hwf). lia.
Qed.

(** The buffer with the new data at its end. *)
Lemma buffer_grows b buffer : sio_wf b -> 2 * (sio_size b + zlen buffer) < MAX_TALLOC_SIZE ->
  exists x b1 y b2, StringIO_seek junk b 0 SEEK_END = inr (x, b1) /\
    StringIO_write junk b1 buffer = Some (y, b2) /\ sio_wf b2 /\
    sio_bytes b2 = sio_bytes b ++ buffer /\ sio_size b2 = sio_size b + zlen buffer.
Proof.
  intros Hwf Hm. destruct (sio_seek_end junk b Hwf) as (x & b1 & Hs & He).
  pose proof (sio_wf_bytes_len b Hwf) as Hl.
  destruct (sio_end_write junk b1 _ buffer He) as (b2 & Hw & He2); [by rewrite Hl|].
  exists x, b1, (zlen buffer), b2. split_and!; try done; [apply He2|apply He2|].
  destruct (sio_end_read _ _ He2) as [-> _]. by rewrite zlen_app, Hl.
Qed.

Lemma write_spec self f d buffer :
  writing self f d -> bytes_ok buffer -> 2 * (cs + zlen buffer) < MAX_TALLOC_SIZE ->
  zlen d + zlen buffer < INT_MAX ->
  exists self' f', Encrypted_write junk open_w self f buffer = Some (zlen buffer, None, self', f') /\
    writing self' f' (d ++ buffer) /\ en_urn self' = en_urn self /\ en_size self' = en_size self.
Proof.
  intros Hw Hbb Hm Hmax. destruct cs_ok as [Hcs Hblk]. pose proof Hw as [Hc Hk Hp Hwf Hsm Hby Hd].
  destruct Hd as (full & e & Hd & Hs & Hf). unfold MAX_TALLOC_SIZE, INT_MAX in *.
  pose proof (zlen_nonneg buffer). pose proof (zlen_nonneg d).
  pose proof (writing_chunk_id self f d full Hw Hd (sealed_whole w cs 0 full e Hcs Hs)) as Hid.
  unfold Encrypted_write. rewrite Hk, Hp, Hc, (i32_small cs) by lia.
  destruct (Z.leb_spec cs 0); [lia|]. rewrite Z.quot_div_nonneg by lia.
  destruct (buffer_grows (en_block_buffer self) buffer Hwf) as (x & b1 & y & b2 & -> & Hw2 & Hwf2 & Hb2 & Hsz);
    [unfold MAX_TALLOC_SIZE; lia|]. mred. rewrite Hw2. mred.
  pose proof (sio_wf_bytes_len _ Hwf) as Hlr. pose proof (zlen_nonneg full).
  pose proof (zlen_nonneg (sio_bytes (en_block_buffer self))).
  assert (zlen d = zlen full + sio_size (en_block_buffer self)) as Hsum
    by (rewrite Hd, zlen_app; lia).
  assert (0 <= zlen d / cs <= zlen full) as Hq.
  { rewrite Hid. split; [apply Z.div_pos; lia|apply Z.div_le_upper_bound; nia]. }
  rewrite (i64_small (zlen d + _)), (i32_small (zlen d / cs)), (i32_small (zlen buffer)) by lia.
  assert (bytes_ok (sio_bytes b2)) as Hbo by (rewrite Hb2; by apply Forall_app).
  assert (d ++ buffer = full ++ sio_bytes b2) as Hall by (rewrite Hb2, Hd; by rewrite app_assoc).
  case_bool.
  - destruct (open_w_law f e Hf) as (f1 & -> & Hf1).
    destruct (emit_loop_spec (Z.to_nat (sio_size b2)) b2 (zlen d / cs) 0 f1 e)
      as (o & f2 & es & -> & Ho & Hlt & Hse & Hf2); try done; try lia. mred.
    destruct (skip_zdrop b2 o Hwf2) as (b3 & -> & Hwf3 & Hb3 & Hs3); [lia|]. mred.
    eexists _, f2. split; [reflexivity|]. split; [|done].
    split; cbn; try done; [by rewrite zlen_app|lia|rewrite Hb3; by apply Forall_zdrop|].
    exists (full ++ zread 0 o (sio_bytes b2)), (e ++ es). rewrite Z.sub_0_r in Hse.
    split_and!; [|by apply (sealed_app w cs 0 full e _ _ (zlen d / cs)); lia || done|done].
    rewrite Hall, Hb3, <- app_assoc, zread_prefix by lia. by rewrite ztake_zdrop.
  - destruct (skip_zdrop b2 0 Hwf2) as (b3 & -> & Hwf3 & Hb3 & Hs3); [lia|]. mred.
    eexists _, f. split; [reflexivity|]. split; [|done]. rewrite zdrop_0 in Hb3 by lia.
    split; cbn; try done; [by rewrite zlen_app|lia|by rewrite Hb3|].
    exists full, e. by rewrite Hb3.
Qed.

Lemma en_write_all_spec self f d buffers :
  writing self f d -> Forall bytes_ok buffers ->
  Forall (fun b => 2 * (cs + zlen b) < MAX_TALLOC_SIZE) buffers ->
  zlen d + zlen (concat buffers) < INT_MAX ->
  exists self' f', en_write_all junk open_w self f buffers = Some (self', f') /\
    writing self' f' (d ++ concat buffers) /\ en_urn self' = en_urn self /\ en_size self' = en_size self.
Proof.
  revert self f d. induction buffers as [|b buffers IH]; intros self f d Hw Hb Hm Hl;
    cbn [en_write_all concat] in *.
  { exists self, f. rewrite app_nil_r. done. }
  rewrite Forall_cons in Hb, Hm. destruct Hb as [Hb Hbs], Hm as [Hm Hms].
  rewrite zlen_app in Hl. pose proof (zlen_nonneg (concat buffers)).
  destruct (write_spec self f d b Hw Hb Hm) as (s1 & f1 & -> & Hw1 & Hu1 & Hs1); [lia|]. mred.
  destruct (IH s1 f1 (d ++ b) Hw1 Hbs Hms) as (s2 & f2 & -> & Hw2 & Hu2 & Hs2).
  { rewrite zlen_app. lia. }
  exists s2, f2. rewrite app_assoc. split_and!; try done; congruence.
Qed.

(** Closing pads with zeros to the end of a chunk. *)
Lemma close_spec self f keys d :
  writing self f d -> 4 * cs < MAX_TALLOC_SIZE -> zlen d + cs < INT_MAX ->
  exists self' f' e pad, Encrypted_close junk open_w self f keys =
      Some ([set_type; set_size (zlen d); set_timestamp], self', f', flush_key keys (en_urn self)) /\
    sealed w cs 0 (d ++ replicate pad 0) e /\ fl_end f' e /\
    zlen (d ++ replicate pad 0) = (zlen d / cs + 1) * cs.
Proof.
  intros Hw Hm Hl. destruct cs_ok as [Hcs Hblk]. unfold MAX_TALLOC_SIZE, INT_MAX in *.
  pose proof (zlen_nonneg d). unfold Encrypted_close.
  rewrite (wr_chunk _ _ _ Hw), (wr_readptr _ _ _ Hw), (i32_small cs) by lia.
  destruct (Z.leb_spec cs 0); [lia|]. rewrite Z.rem_mod_nonneg by lia.
  pose proof (Z.mod_pos_bound (zlen d) cs Hcs) as Hmod. rewrite i32_small by lia.
  destruct (Z.gtb_spec (cs - zlen d mod cs) 0); [|lia].
  set (pad := Z.to_nat (cs - zlen d mod cs)).
  assert (writing (with_en_size self (zlen d)) f d) as Hw'.
  { destruct Hw. by split. }
  destruct (write_spec _ f d (replicate pad 0) Hw') as (s1 & f1 & -> & Hw1 & Hu1 & Hs1).
  { apply Forall_replicate. split; done. }
  { rewrite zlen_replicate. unfold pad, MAX_TALLOC_SIZE. lia. }
  { rewrite zlen_replicate. unfold pad, INT_MAX. lia. }
  mred. rewrite Hs1, Hu1. cbn [en_size en_urn with_en_size].
  assert (zlen (d ++ replicate pad 0) = (zlen d / cs + 1) * cs) as Hz.
  { rewrite zlen_app, zlen_replicate. unfold pad. pose proof (Z.div_mod (zlen d) cs ltac:(lia)). lia. }
  destruct (wr_data _ _ _ Hw1) as (full & e & Hd & Hs & Hf).
  pose proof (sealed_whole w cs 0 full e Hcs Hs) as Hfm.
  assert (sio_bytes (en_block_buffer s1) = []) as Hnil.
  { apply zlen_0_nil. pose proof (wr_small _ _ _ Hw1) as Hsm.
    rewrite <- (sio_wf_bytes_len _ (wr_wf _ _ _ Hw1)) in Hsm.
    pose proof (zlen_nonneg (sio_bytes (en_block_buffer s1))).
    apply (f_equal zlen) in Hd. rewrite Hz, zlen_app in Hd.
    assert (zlen full = cs * (zlen full / cs)) as E
      by (apply Z.div_exact; [lia|done]).
    set (rest := zlen (sio_bytes (en_block_buffer s1))) in *. rewrite <- (Z.mod_small rest cs) by lia.
    replace rest with ((zlen d / cs + 1 - zlen full / cs) * cs) by lia. apply Z.mod_mul. lia. }
  rewrite Hnil, app_nil_r in Hd. exists s1, f1, e, pad. rewrite Hd in *. done.
Qed.

End Writing.

(** ** Reading *)

Section Reading.

Context {C F : Type} `{CL : ChunkCipherLaws C} `{FL : FileLikeLaws F}.
Variable open_r : F -> option F.
Variable w : C.
Variable cs : Z.
Hypothesis cs_ok : chunk_size_ok cs.
(** The backing stream is handed out with its contents. *)
Hypothesis open_r_law : forall f, fl_ok f ->
  exists f', open_r f = Some f' /\ fl_ok f' /\ fl_contents f' = fl_contents f.

(** The backing stream holds [e], the encryption of [d]. *)
Definition stream_holds (f : F) (d e : list Z) : Prop :=
  bytes_ok d /\ zlen d < INT_MAX /\ sealed w cs 0 d e /\ fl_ok f /\ fl_contents f = e.

(** A stream opened for reading at a position. *)
Definition reading (self : Encrypted C) (size pos : Z) : Prop :=
  cc_pair w (en_cipher self) /\ en_chunk_size self = cs /\ en_size self = size /\
  en_readptr self = pos.

Lemma sealed_decrypts d e j r : sealed w cs 0 d e -> bytes_ok d -> cc_pair w r ->
  0 <= j -> (j + 1) * cs <= zlen d ->
  cc_decrypt r j (zread (j * cs) cs e) cs = Some (zread (j * cs) cs d).
Proof.
  intros Hs Hb Hp Hj Hl. destruct cs_ok as [Hcs Hblk].
  assert (zlen (zread (j * cs) cs d) = cs) as Hz by (apply zlen_zread; nia).
  pose proof (sealed_chunk w cs 0 d e j Hcs Hs Hj Hl) as He.
  destruct (cc_law w r j (zread (j * cs) cs d) Hp) as (c & Hc & Hlc & Hd).
  { by rewrite Hz. }
  { by apply Forall_ztake, Forall_zdrop. }
  rewrite Hz in *. rewrite Z.add_0_l in He. rewrite He in Hc. injection Hc as <-. by rewrite Hlc in Hd.
Qed.

(** One piece: the rest of the chunk at the position, or what was asked for. *)
Lemma partialread_spec self f buff o len d e size p :
  stream_holds f d e -> reading self size p -> 0 <= p -> (p / cs + 1) * cs <= zlen d -> 0 <= len < INT_MAX ->
  let n := Z.min len (cs - p mod cs) in
  exists f', stream_holds f' d e /\
    Encrypted_partialread open_r self f buff o len =
      (buff ← bput buff o (zread p n d);
       Some (Some (n, buff), with_buffer self (p + n) (en_block_buffer self), f')).
Proof.
  intros (Hb & Hm & Hs & Hok & He) (Hp & Hk & _ & Hr) Hp0 Hl Hlen n.
  destruct cs_ok as [Hcs Hblk]. unfold INT_MAX in *.
  pose proof (Z.mod_pos_bound p cs Hcs) as Hmod. pose proof (Z.div_mod p cs ltac:(lia)) as Hdm.
  assert (0 <= p / cs) as Hq by (apply Z.div_pos; lia).
  assert (p / cs * cs = p - p mod cs) as Hqc by lia.
  assert (p / cs <= p / cs * cs) by nia.
  unfold Encrypted_partialread. rewrite Hk, Hr, (u64_small cs), (u64_small p), (i64_small cs) by lia.
  destruct (Z.eqb_spec cs 0); [lia|]. destruct (Z.ltb_spec cs 0); [lia|]. cbn [orb].
  destruct (open_r_law f Hok) as (f1 & -> & Hok1 & Hc1).
  rewrite (u32_small (p / cs)), (i32_small (p mod cs)), (u64_small (cs - _)), (i32_small (Z.min _ _)),
    (u64_small (p / cs * cs)), (i64_small (p / cs * cs)), (i32_small (p / cs)), (i64_small (p + _)) by lia.
  destruct (fl_seek_set_law f1 (p / cs * cs) Hok1) as (f2 & -> & Hok2 & Hc2 & Hp2); [lia|].
  destruct (fl_read_law f2 cs Hok2) as (f3 & -> & Hok3 & Hc3 & _); [lia|].
  rewrite Hp2, Hc2, Hc1, He in *. pose proof (sealed_zlen w cs 0 d e Hs) as Hz.
  rewrite zlen_zread by lia. destruct (Z.ltb_spec cs cs); [lia|].
  rewrite (sealed_decrypts d e (p / cs) _ Hs Hb Hp Hq Hl). mred.
  assert (zlen (zread (p / cs * cs) cs d) = cs) as Hzc by (apply zlen_zread; lia).
  rewrite bread_ok by (rewrite ?Hzc; lia). mred. exists f3. split; [by split_and!|].
  replace (zread (p mod cs) (Z.min len (cs - p mod cs)) (zread (p / cs * cs) cs d)) with (zread p n d).
  { fold n. by destruct (bput buff o _). }
  unfold zread. rewrite zdrop_ztake, zdrop_zdrop, ztake_ztake by lia.
  fold n. by replace (p / cs * cs + p mod cs) with p by lia.
Qed.

(** What one turn of the loop of [Encrypted_read] does. *)
Lemma read_turn fuel self f buff o d e size p :
  stream_holds f d e -> reading self size p -> 0 <= p -> (p / cs + 1) * cs <= zlen d ->
  0 <= o < zlen buff -> zlen buff < INT_MAX ->
  let avail := i32 (Z.min (zlen buff) (u64 (size - p))) in
  let n := Z.min avail (cs - p mod cs) in
  0 < avail -> o + n <= zlen buff -> zlen d + 2 * cs < INT_MAX ->
  exists self' f', stream_holds f' d e /\ reading self' size (p + 2 * n) /\
    en_read_loop open_r (S fuel) self f buff o =
      en_read_loop open_r fuel self' f' (zover o (zread p n d) buff) (o + n).
Proof.
  intros Hh Hr Hp Hl Ho Hm avail n Ha Hn Hd. destruct cs_ok as [Hcs Hblk]. unfold INT_MAX in *.
  pose proof (Z.mod_pos_bound p cs Hcs) as Hmod. pose proof (Z.div_mod p cs ltac:(lia)) as Hdm.
  assert (0 <= avail < INT_MAX) as Hav.
  { unfold avail, INT_MAX. pose proof (u64_range (size - p)). rewrite i32_small; lia. }
  unfold INT_MAX in Hav.
  destruct (partialread_spec self f buff o avail d e size p Hh Hr Hp Hl) as (f' & Hh' & Hpr);
    [by unfold INT_MAX|]. fold n in Hpr.
  assert (zlen (zread p n d) = n) as Hz by (apply zlen_zread; lia).
  rewrite bput_ok in Hpr by lia. cbn [mbind option_bind] in Hpr.
  exists (with_buffer (with_buffer self (p + n) (en_block_buffer self)) (p + 2 * n) (en_block_buffer self)), f'.
  split; [done|]. split; [destruct Hr as (? & ? & ? & ?); by split_and!|].
  cbn [en_read_loop]. destruct (Z.ltb_spec o (zlen buff)); [|lia].
  destruct Hr as (Hpair & Hk & Hsz & Hrp). rewrite Hsz, Hrp. fold avail.
  destruct (Z.eqb_spec avail 0); [lia|]. rewrite u64_small by lia. rewrite Hpr. mred.
  destruct (Z.eqb_spec n 0); [lia|]. cbn [en_readptr with_buffer en_block_buffer].
  rewrite (i32_small (o + n)), (i64_small (p + n + n)) by lia.
  by replace (p + n + n) with (p + 2 * n) by lia.
Qed.

Lemma read_done fuel self f buff o :
  zlen buff <= o -> en_read_loop open_r fuel self f buff o = Some (o, buff, self, f).
Proof. intros. destruct fuel; cbn [en_read_loop]; destruct (Z.ltb_spec o (zlen buff)); done || lia. Qed.

(** A read that stays inside a chunk and inside the stream. *)
Lemma read_in_chunk self f buff d e size p :
  stream_holds f d e -> reading self size p -> 0 <= p -> (p / cs + 1) * cs <= zlen d ->
  0 < zlen buff -> zlen buff <= cs - p mod cs -> p + zlen buff <= size -> size <= zlen d ->
  zlen d + 2 * cs < INT_MAX ->
  exists self' f', stream_holds f' d e /\ reading self' size (p + 2 * zlen buff) /\
    Encrypted_read open_r self f buff = Some (zlen buff, zread p (zlen buff) d, self', f').
Proof.
  intros Hh Hr Hp Hl Hb Hc Hs Hsd Hd. unfold Encrypted_read. unfold INT_MAX in *.
  pose proof (Z.mod_pos_bound p cs (proj1 cs_ok)) as Hmod.
  pose proof (read_turn (length buff) self f buff 0 d e size p Hh Hr Hp Hl) as T. cbn zeta in T.
  rewrite (u64_small (size - p)), (Z.min_l (zlen buff)), i32_small, Z.min_l in T by lia.
  destruct T as (s' & f' & Hh' & Hr' & ->); unfold INT_MAX; try lia.
  assert (zover 0 (zread p (zlen buff) d) buff = zread p (zlen buff) d) as ->.
  { rewrite zover_0. rewrite zdrop_all by (rewrite zlen_zread by lia; lia). apply app_nil_r. }
  exists s', f'. split; [done|]. split; [done|]. rewrite read_done; [done|]. rewrite zlen_zread by lia. lia.
Qed.

End Reading.

(** ** Properties *)

Section Properties.

Context {C F : Type} `{CL : ChunkCipherLaws C} `{FL : FileLikeLaws F}.
Variable junk : nat -> Z.
Variable open_r open_w : F -> option F.
Hypothesis open_w_law : forall f c, fl_end f c -> exists f', open_w f = Some f' /\ fl_end f' c.
Hypothesis open_r_law : forall f, fl_ok f ->
  exists f', open_r f = Some f' /\ fl_ok f' /\ fl_contents f' = fl_contents f.

Definition attrs (target stored : RDFURN) (c : C) (cs : Z) (size : option Z) : stream_attrs C :=
  {| sa_target := Some target; sa_stored := Some stored; sa_cipher := Some c;
     sa_chunk_size := Some cs; sa_size := size |}.

(** What the constructor makes of them. *)
Definition fresh (uri target stored : RDFURN) (c : C) (cs size : Z) : Encrypted C :=
  {| en_urn := uri; en_readptr := 0; en_size := size; en_chunk_size := cs;
     en_block_buffer := StringIO_constructor; en_cipher := c;
     en_backing_store := target; en_stored := stored |}.

(** C13: what is written to an encrypted stream is read back.  A new stream whose chunks
    are whole cipher blocks accepts the data in any division into writes; closing it
    records the length of the data and leaves whole encrypted chunks, one more than the
    data fills, in the backing stream.  A stream opened on them with a cipher that has
    the same key gives, for every range of the data inside one chunk, exactly those bytes. *)
Theorem Encrypted_roundtrip uri target stored w r cs buffers f keys :
  chunk_size_ok cs -> cc_pair w r -> fl_end f [] -> Forall bytes_ok buffers ->
  Forall (fun b => 2 * (cs + zlen b) < MAX_TALLOC_SIZE) buffers -> 4 * cs < MAX_TALLOC_SIZE ->
  let d := concat buffers in
  zlen d + 4 * cs < INT_MAX ->
  exists self self1 f1 self2 f2,
    Encrypted_Con uri (attrs target stored w cs None) true = inr self /\
    en_write_all junk open_w self f buffers = Some (self1, f1) /\
    Encrypted_close junk open_w self1 f1 keys =
      Some ([set_type; set_size (zlen d); set_timestamp], self2, f2, flush_key keys uri) /\
    zlen (fl_contents f2) = (zlen d / cs + 1) * cs /\
    forall p buff, 0 <= p -> 0 < zlen buff -> p + zlen buff <= zlen d ->
      zlen buff <= cs - p mod cs ->
      exists rd rd' f3,
        Encrypted_Con uri (attrs target stored r cs (Some (zlen d))) true = inr rd /\
        Encrypted_read open_r (Encrypted_seek rd p SEEK_SET) f2 buff =
          Some (zlen buff, zread p (zlen buff) d, rd', f3) /\
        fl_contents f3 = fl_contents f2.
Proof.
  intros Hcs Hpair Hf Hb Hm Hm4 d Hmax. unfold INT_MAX in Hmax.
  assert (zlen d / cs * cs <= zlen d) as Hdiv
    by (pose proof (Z.mul_div_le (zlen d) cs (proj1 Hcs)); lia).
  pose proof (proj1 Hcs) as Hcs0.
  exists (fresh uri target stored w cs 0).
  destruct (en_write_all_spec junk open_w w r cs Hpair Hcs open_w_law
    (fresh uri target stored w cs 0) f [] buffers)
    as (self1 & f1 & Hw & Hwr & Hu & _); try done.
  { split; cbn; try done; [apply sio_constructor_wf|]. exists [], []. split_and!; try done. constructor. }
  { unfold INT_MAX. fold d. change (zlen (@nil Z)) with 0. lia. }
  cbn [app en_urn fresh] in Hwr, Hu. fold d in Hwr.
  destruct (close_spec junk open_w w r cs Hpair Hcs open_w_law self1 f1 keys d Hwr Hm4)
    as (self2 & f2 & e & pad & Hc & Hs & (Hok & He & _) & Hz); [unfold INT_MAX; lia|].
  exists self1, f1, self2, f2. split; [reflexivity|]. split; [exact Hw|]. rewrite Hu in Hc.
  split; [exact Hc|]. rewrite He, (sealed_zlen w cs 0 _ _ Hs), Hz. split; [done|].
  intros p buff Hp Hbl Hpd Hbc. exists (fresh uri target stored r cs (zlen d)).
  set (rd := Encrypted_seek _ p SEEK_SET).
  assert (zlen d <= zlen (d ++ replicate pad 0)) as Hle by (rewrite zlen_app; pose proof (zlen_nonneg (replicate pad 0)); lia).
  destruct (read_in_chunk open_r w cs Hcs open_r_law rd f2 buff (d ++ replicate pad 0) e (zlen d) p)
    as (rd' & f3 & (_ & _ & _ & _ & He') & _ & Hrd); try done; try lia.
  - split; [apply Forall_app; split; [|by apply Forall_replicate]; unfold d; clear -Hb; induction Hb; [constructor|by apply Forall_app]|].
    split; [unfold INT_MAX; lia|done].
  - split_and!; try done. unfold rd, Encrypted_seek, FileLikeObject_seek. cbn.
    destruct (Z.ltb_spec p 0); [lia|done].
  - rewrite Hz. apply Z.mul_le_mono_nonneg_r; [lia|].
    pose proof (Z.div_le_mono p (zlen d) cs). lia.
  - unfold INT_MAX. lia.
  - exists rd', f3. split; [reflexivity|]. split.
    + rewrite Hrd. do 2 f_equal. unfold zread. rewrite zdrop_app_le by lia.
      by rewrite ztake_app_le by (rewrite zlen_zdrop; lia).
    + by rewrite He'.
Qed.

(** A read of more than one chunk skips data.  The loop moves the position a second
    time by what each piece moved it, so reading two chunks from the start of a stream
    succeeds and returns the first and the third. *)
Theorem Encrypted_read_skips w cs self f buff d e size :
  chunk_size_ok cs -> stream_holds w cs f d e -> reading w cs self size 0 ->
  3 * cs <= size <= zlen d -> zlen d + 2 * cs < INT_MAX -> zlen buff = 2 * cs ->
  exists self' f',
    Encrypted_read open_r self f buff =
      Some (2 * cs, zread 0 cs d ++ zread (2 * cs) cs d, self', f').
Proof.
  intros Hcs Hh Hr Hs Hd Hb. unfold INT_MAX in Hd. pose proof (proj1 Hcs) as Hc0.
  unfold Encrypted_read.
  pose proof (read_turn open_r w cs Hcs open_r_law (length buff) self f buff 0 d e size 0 Hh Hr) as T.
  cbn zeta in T. rewrite Z.mod_0_l, Z.div_0_l, !Z.sub_0_r, !Z.add_0_l in T by lia.
  rewrite (u64_small size), (Z.min_l (zlen buff)), i32_small, (Z.min_r _ cs) in T by lia.
  destruct T as (s1 & f1 & Hh1 & Hr1 & ->); unfold INT_MAX; try lia.
  set (b1 := zover 0 (zread 0 cs d) buff).
  assert (zlen (zread 0 cs d) = cs) as Hz0 by (apply zlen_zread; lia).
  assert (zlen (zread (2 * cs) cs d) = cs) as Hz2 by (apply zlen_zread; lia).
  assert (b1 = zread 0 cs d ++ zdrop cs buff) as Hb1 by (unfold b1; by rewrite zover_0, Hz0).
  assert (zlen b1 = 2 * cs) as Hl1 by (rewrite Hb1, zlen_app, zlen_zdrop; lia).
  assert (exists n, length buff = S n) as [fu ->]
    by (exists (Nat.pred (length buff)); unfold zlen in Hb; lia).
  pose proof (read_turn open_r w cs Hcs open_r_law fu s1 f1 b1 cs d e size (2 * cs) Hh1 Hr1) as T.
  cbn zeta in T. rewrite Z.mod_mul, Z.div_mul, Z.sub_0_r in T by lia.
  rewrite (u64_small (size - _)), i32_small in T by lia.
  rewrite (Z.min_r _ cs) in T by lia.
  destruct T as (s2 & f2 & _ & _ & ->); unfold INT_MAX; try lia.
  exists s2, f2. rewrite read_done.
  - replace (cs + cs) with (2 * cs) by lia. do 4 f_equal. rewrite Hb1. unfold zover. rewrite ztake_app_eq by done.
    rewrite Hz2. rewrite zdrop_all by (rewrite zlen_app, zlen_zdrop; lia). by rewrite app_nil_r.
  - rewrite zlen_zover by lia. lia.
Qed.

(** Reading past the end of a short encrypted stream writes past the caller's buffer.
    At the start of a stream shorter than a chunk, when fewer bytes are left than asked for,
    the position ends beyond the size after the first piece, the bytes left become a huge
    unsigned number, and the padding of the chunk is copied behind the end of the buffer. *)
Theorem Encrypted_read_past_end_overflows w cs self f buff d e size :
  chunk_size_ok cs -> stream_holds w cs f d e -> reading w cs self size 0 ->
  0 < size < zlen buff -> size + zlen buff < cs -> cs <= zlen d -> zlen d + 2 * cs < INT_MAX ->
  Encrypted_read open_r self f buff = None.
Proof.
  intros Hcs Hh Hr Hs Hb Hd Hm. unfold INT_MAX in Hm. unfold Encrypted_read.
  pose proof (read_turn open_r w cs Hcs open_r_law (length buff) self f buff 0 d e size 0 Hh Hr) as T.
  cbn zeta in T. rewrite Z.mod_0_l, Z.div_0_l, !Z.sub_0_r, !Z.add_0_l in T by lia.
  rewrite (u64_small size), (Z.min_r (zlen buff)), i32_small, (Z.min_l _ cs) in T by lia.
  destruct T as (s1 & f1 & Hh1 & Hr1 & ->); unfold INT_MAX; try lia.
  set (b1 := zover 0 _ buff).
  assert (zlen b1 = zlen buff) as Hl1
    by (apply zlen_zover; rewrite ?zlen_zread by lia; lia).
  assert (exists n, length buff = S n) as [fu ->]
    by (exists (Nat.pred (length buff)); unfold zlen in Hs; lia).
  cbn [en_read_loop]. destruct (Z.ltb_spec size (zlen b1)); [|lia].
  pose proof Hr1 as (_ & _ & Hsz & Hrp). rewrite Hsz, Hrp, Hl1.
  assert (i32 (Z.min (zlen buff) (u64 (size - 2 * size))) = zlen buff) as ->.
  { unfold u64. replace (size - 2 * size) with (18446744073709551616 - size + (-1) * 18446744073709551616) by lia.
    rewrite Z.mod_add, Z.mod_small by lia. rewrite Z.min_l by lia. by rewrite i32_small by lia. }
  destruct (Z.eqb_spec (zlen buff) 0); [lia|]. rewrite u64_small by lia.
  destruct (partialread_spec open_r w cs Hcs open_r_law s1 f1 b1 size (zlen buff) d e size (2 * size) Hh1 Hr1)
    as (f2 & _ & ->); unfold INT_MAX; try lia.
  { rewrite Z.div_small by lia. lia. }
  rewrite (Z.mod_small (2 * size)) by lia. unfold bput.
  rewrite zlen_zread by lia. rewrite Hl1.
  destruct (Z.leb_spec (size + Z.min (zlen buff) (cs - 2 * size)) (zlen buff)); [lia|].
  by rewrite andb_false_r.
Qed.

End Properties.

(** Concrete streams with chunks of one block, over a file and the stand-in cipher. *)
#[local] Existing Instance toy_ssl.

Definition toy_cipher : crypto * AES256Password :=
  (toy_keyed, default AES256Password_new (set_keys toy_keyed O)).

Lemma toy_pair : cc_pair toy_cipher toy_cipher.
Proof.
  destruct (cr_keys toy_keyed !! O) as [k|] eqn:Hk; [|vm_compute in Hk; discriminate].
  assert (key_ok k) as Hok.
  { vm_compute in Hk. injection Hk as <-. split_and!; try reflexivity; apply (Forall_replicate _ 64);
      split; done. }
  destruct (set_keys_spec toy_keyed O k Hk Hok) as (self & Hs & _ & Hkd).
  exists (ztake AES_BLOCK_SIZE (key_iv k)), (ztake AES256_KEY_SIZE (key_data k)).
  unfold toy_cipher. rewrite Hs. by split.
Qed.

Definition toy_file (bytes : list Z) : FileBackedObject :=
  {| fb_readptr := 0; fb_file := {| pf_data := bytes; pf_off := 0; pf_writable := true |} |}.

Lemma toy_open_w (f : FileBackedObject) c : fl_end f c -> exists f', Some f = Some f' /\ fl_end f' c.
Proof. by exists f. Qed.

Lemma toy_open_r (f : FileBackedObject) : fl_ok f ->
  exists f', Some f = Some f' /\ fl_ok f' /\ fl_contents f' = fl_contents f.
Proof. by exists f. Qed.

Lemma toy_chunk_ok : chunk_size_ok 16.
Proof. by split. Qed.

Lemma Encrypted_roundtrip_witness :
  let d := lit "attack at dawn, retreat at dusk" in
  exists self self1 f1 self2 f2,
    Encrypted_Con cipher_urn (attrs cipher_urn cipher_urn toy_cipher 16 None) true = inr self /\
    en_write_all toy_uninit Some self (toy_file []) [lit "attack at dawn"; lit ", retreat at dusk"]
      = Some (self1, f1) /\
    Encrypted_close toy_uninit Some self1 f1 A000_encrypt =
      Some ([set_type; set_size 31; set_timestamp], self2, f2, flush_key A000_encrypt cipher_urn) /\
    zlen (fl_contents f2) = 32 /\
    forall p buff, 0 <= p -> 0 < zlen buff -> p + zlen buff <= 31 ->
      zlen buff <= 16 - p mod 16 ->
      exists rd rd' f3,
        Encrypted_Con cipher_urn (attrs cipher_urn cipher_urn toy_cipher 16 (Some 31)) true = inr rd /\
        Encrypted_read Some (Encrypted_seek rd p SEEK_SET) f2 buff =
          Some (zlen buff, zread p (zlen buff) d, rd', f3) /\
        fl_contents f3 = fl_contents f2.
Proof.
  apply (Encrypted_roundtrip toy_uninit Some Some toy_open_w toy_open_r cipher_urn cipher_urn
    cipher_urn toy_cipher toy_cipher 16 [lit "attack at dawn"; lit ", retreat at dusk"]
    (toy_file []) A000_encrypt).
  - apply toy_chunk_ok.
  - apply toy_pair.
  - by split_and!.
  - apply (bool_decide_unpack _). vm_compute. exact I.
  - repeat constructor.
  - by vm_compute.
  - by vm_compute.
Defined.

Definition toy_plain : list Z :=
  lit "chunk number one" ++ lit "chunk number two" ++ lit "the third chunk " ++ [].

Definition shifted (s : string) : list Z := map (fun b => u8 (b + 7)) (lit s).

Definition toy_sealed : list Z :=
  shifted "chunk number one" ++ shifted "chunk number two" ++ shifted "the third chunk " ++ [].

Lemma toy_holds : stream_holds toy_cipher 16 (toy_file toy_sealed) toy_plain toy_sealed.
Proof.
  split; [apply (bool_decide_unpack _); vm_compute; exact I|]. split; [by vm_compute|].
  split; [|by split]. repeat (constructor; [by vm_compute ..|]). constructor.
Qed.

Lemma toy_reading size : reading toy_cipher 16 (fresh cipher_urn cipher_urn cipher_urn toy_cipher 16 size) size 0.
Proof. split_and!; try done. apply toy_pair. Qed.

Lemma Encrypted_read_skips_witness :
  exists self' f',
    Encrypted_read Some (fresh cipher_urn cipher_urn cipher_urn toy_cipher 16 48) (toy_file toy_sealed)
      (replicate 32 0) =
      Some (32, lit "chunk number one" ++ lit "the third chunk ", self', f').
Proof.
  apply (Encrypted_read_skips Some toy_open_r toy_cipher 16 _ (toy_file toy_sealed) (replicate 32 0)
    toy_plain toy_sealed 48).
  - apply toy_chunk_ok.
  - apply toy_holds.
  - apply toy_reading.
  - by vm_compute.
  - by vm_compute.
  - by vm_compute.
Defined.

(** Four bytes of a stream of three. *)
Lemma Encrypted_read_past_end_overflows_witness :
  Encrypted_read Some (fresh cipher_urn cipher_urn cipher_urn toy_cipher 16 3) (toy_file toy_sealed)
    (replicate 4 0) = None.
Proof.
  apply (Encrypted_read_past_end_overflows Some toy_open_r toy_cipher 16 _ (toy_file toy_sealed)
    (replicate 4 0) toy_plain toy_sealed 3).
  - apply toy_chunk_ok.
  - apply toy_holds.
  - apply toy_reading.
  - by vm_compute.
  - by vm_compute.
  - by vm_compute.
  - by vm_compute.
Defined.
