(* ===== verification/Tcp.v ===== *)
(** * Tcp: reassembling TCP streams (applications/pyflag/network/tcp.c)

    One direction of a connection: the queue of packets that wait for earlier ones, the
    delivery of data in the order of the sequence numbers, and the padding of data that
    never came.  A packet is its TCP header and payload; what the callback is called with
    is a list of events.  The methods that free a packet drop it from the queue. *)
From S2P Require Import Prelude.
From Stdlib Require Import Sorted.

(** ** The data *)

Inductive tcp_state :=
| PYTCP_NONE | PYTCP_JUST_EST | PYTCP_DATA | PYTCP_CLOSE | PYTCP_RESET | PYTCP_TIMED_OUT
| PYTCP_DESTROY | PYTCP_NON_TCP | PYTCP_RETRANSMISSION.

#[export] Instance tcp_state_eq_dec : EqDecision tcp_state.
Proof. solve_decision. Defined.

(** The sequence number, the window and the payload, of [data_len] bytes. *)
Record TCP := { tcp_seq : Z; tcp_window : Z; tcp_data : list Z }.

(** The dissector cuts payloads off at this length. *)
Definition MAX_PACKET_SIZE : Z := 64 * 1024.

Definition tcp_len (t : TCP) : Z := zlen (tcp_data t).

Record TCPStream := {
  st_state : tcp_state;
  st_queue : list TCP;
  st_max_packet_id : Z;
  st_next_seq : Z;
  st_total_size : Z
}.

Definition with_st_state (self : TCPStream) (s : tcp_state) : TCPStream :=
  {| st_state := s; st_queue := st_queue self; st_max_packet_id := st_max_packet_id self;
     st_next_seq := st_next_seq self; st_total_size := st_total_size self |}.
Definition with_st_queue (self : TCPStream) (q : list TCP) : TCPStream :=
  {| st_state := st_state self; st_queue := q; st_max_packet_id := st_max_packet_id self;
     st_next_seq := st_next_seq self; st_total_size := st_total_size self |}.
Definition with_st_next_seq (self : TCPStream) (n : Z) : TCPStream :=
  {| st_state := st_state self; st_queue := st_queue self;
     st_max_packet_id := st_max_packet_id self; st_next_seq := n;
     st_total_size := st_total_size self |}.

(** A call of the callback: the state of the stream, and the packet. *)
Definition tcp_event : Type := tcp_state * TCP.

(** A stream before its first packet. *)
Definition TCPStream_Con : TCPStream :=
  {| st_state := PYTCP_NONE; st_queue := []; st_max_packet_id := 0; st_next_seq := 0;
     st_total_size := 0 |}.

(** ** Operations *)

(** [tcp->packet.data += n; tcp->packet.data_len -= n; tcp->packet.header.seq += n] *)
Definition skip_data (t : TCP) (n : Z) : TCP :=
  {| tcp_seq := u32 (tcp_seq t + n); tcp_window := tcp_window t; tcp_data := zdrop n (tcp_data t) |}.

Definition pad_front (t : TCP) (n : Z) : TCP :=
  {| tcp_seq := tcp_seq t; tcp_window := tcp_window t;
     tcp_data := replicate (Z.to_nat n) 0 ++ tcp_data t |}.

Definition pad_to_first_packet (self : TCPStream) : option (list tcp_event * TCPStream) :=
  match st_queue self with
  | [] => None
  | first :: rest =>
      let pad_length := i32 (tcp_seq first - st_next_seq self) in
      if (pad_length >? 50000) || (pad_length <? -50000) then
        Some ([], with_st_next_seq self (tcp_seq first))
      else
        let tcp := if pad_length >? 0 then pad_front first pad_length
                   else if pad_length <? 0 then skip_data first (- pad_length) else first in
        Some ([(PYTCP_DATA, tcp)],
              with_st_queue (with_st_state (with_st_next_seq self
                (u32 (st_next_seq self + tcp_len tcp))) PYTCP_DATA) rest)
  end.

(** The position after the last packet with a sequence number that is not larger. *)
Fixpoint insert_packet (new : TCP) (queue : list TCP) : list TCP :=
  match queue with
  | [] => [new]
  | i :: queue' => if tcp_seq new >=? tcp_seq i then i :: insert_packet new queue' else new :: queue
  end.

(** The inner loop, which pads as long as the last packet is beyond the window of the first. *)
Fixpoint pad_window (fuel : nat) (last_seq : Z) (self : TCPStream)
  : option (list tcp_event * TCPStream) :=
  match st_queue self with
  | [] => Some ([], self)
  | first :: _ =>
      if u32 (tcp_window first + tcp_seq first) <? last_seq then
        match fuel with
        | O => None
        | S fuel =>
            '(evs, self) ← pad_to_first_packet self;
            '(evs', self) ← pad_window fuel last_seq self;
            Some (evs ++ evs', self)
        end
      else Some ([], self)
  end.

(** The loop that takes packets off the queue. *)
Fixpoint process_queue (queue : list TCP) (self : TCPStream) : option (list tcp_event * TCPStream) :=
  match queue with
  | [] => Some ([], with_st_queue self [])
  | first :: rest =>
      if st_next_seq self >=? u32 (tcp_seq first + tcp_len first) then
        '(evs, self) ← process_queue rest (with_st_state self PYTCP_RETRANSMISSION);
        Some ((PYTCP_RETRANSMISSION, first) :: evs, self)
      else if st_next_seq self >=? tcp_seq first then
        let tcp := skip_data first (i32 (st_next_seq self - tcp_seq first)) in
        '(evs, self) ← process_queue rest (with_st_state (with_st_next_seq self
                         (u32 (st_next_seq self + tcp_len tcp))) PYTCP_DATA);
        Some ((PYTCP_DATA, tcp) :: evs, self)
      else
        let self := with_st_queue self queue in
        if bool_decide (st_state self = PYTCP_DATA \/ st_state self = PYTCP_RETRANSMISSION)
        then pad_window (2 * length queue) (tcp_seq (List.last queue first)) self
        else Some ([], self)
  end.

(** [TCPStream_add], with the [total_size] of the other direction and the number of the
    packet; the size of the other direction becomes that of this one.  A sum that overflows
    wraps. *)
Definition TCPStream_add (self : TCPStream) (reverse_total id : Z) (tcp : TCP)
  : option (list tcp_event * TCPStream) :=
  if tcp_len tcp =? 0 then
    Some ([(PYTCP_RETRANSMISSION, tcp)], with_st_state self PYTCP_RETRANSMISSION)
  else
    let queue := insert_packet tcp (st_queue self) in
    process_queue queue
      {| st_state := st_state self; st_queue := queue; st_max_packet_id := i32 id;
         st_next_seq := st_next_seq self;
         st_total_size := i32 (st_total_size self + (tcp_len tcp + reverse_total)) |}.

(** [pad_data]: two turns for each packet are enough. *)
Fixpoint pad_loop (fuel : nat) (self : TCPStream) : option (list tcp_event * TCPStream) :=
  match st_queue self with
  | [] => Some ([], self)
  | _ =>
      match fuel with
      | O => None
      | S fuel =>
          '(evs, self) ← pad_to_first_packet self;
          '(evs', self) ← pad_loop fuel self;
          Some (evs ++ evs', self)
      end
  end.

Definition pad_data (self : TCPStream) : option (list tcp_event * TCPStream) :=
  pad_loop (2 * length (st_queue self)) self.

(** A run of [add]s: for each packet the size of the other direction and its number. *)
Fixpoint add_all (self : TCPStream) (ps : list (Z * Z * TCP)) : option (list tcp_event * TCPStream) :=
  match ps with
  | [] => Some ([], self)
  | (reverse_total, id, tcp) :: ps =>
      '(evs, self) ← TCPStream_add self reverse_total id tcp;
      '(evs', self) ← add_all self ps;
      Some (evs ++ evs', self)
  end.

(** The data that was delivered. *)
Definition delivered (evs : list tcp_event) : list Z :=
  flat_map (fun ev => if decide (ev.1 = PYTCP_DATA) then tcp_data ev.2 else []) evs.

(** ** Lemmas *)

Definition seq_le (p q : TCP) : Prop := tcp_seq p <= tcp_seq q.

Lemma delivered_app evs evs' : delivered (evs ++ evs') = delivered evs ++ delivered evs'.
Proof. unfold delivered. apply flat_map_app. Qed.

Lemma insert_packet_perm p queue : insert_packet p queue ≡ₚ p :: queue.
Proof.
  induction queue as [|i queue IH]; [done|]. cbn [insert_packet].
  destruct (tcp_seq p >=? tcp_seq i); [|done]. rewrite IH. apply Permutation_swap.
Qed.

Lemma insert_packet_sorted p queue :
  StronglySorted seq_le queue -> StronglySorted seq_le (insert_packet p queue).
Proof.
  induction 1 as [|i queue Hs IH Hi]; cbn [insert_packet]; [repeat constructor|].
  destruct (tcp_seq p >=? tcp_seq i) eqn:E.
  - constructor; [done|]. rewrite insert_packet_perm. constructor; [unfold seq_le; lia|done].
  - constructor; [by constructor|]. constructor; [unfold seq_le; lia|].
    eapply Forall_impl; [exact Hi|]. unfold seq_le. intros. lia.
Qed.

Lemma last_in {A} (x : A) l : List.last (x :: l) x ∈ x :: l.
Proof.
  destruct l as [|y l] using rev_ind; [by left|].
  rewrite app_comm_cons, last_last. apply elem_of_app. right. by left.
Qed.

(** *** Segments of a stream *)

Section Segments.

(** The stream [S], whose first byte has number [b]; no number wraps. *)
Variable b : Z.
Variable S : list Z.
Hypothesis Hb : 0 <= b.
Hypothesis HS : b + zlen S < 4294967296.

(** A packet that carries a part of the stream. *)
Definition segment (p : TCP) : Prop :=
  b <= tcp_seq p /\ tcp_seq p + tcp_len p <= b + zlen S /\ tcp_len p <= MAX_PACKET_SIZE /\
  tcp_data p = zread (tcp_seq p - b) (tcp_len p) S.

(** Byte [j] of the stream is in the packet. *)
Definition covers (p : TCP) (j : Z) : Prop := tcp_seq p <= b + j < tcp_seq p + tcp_len p.

(** [q] is not beyond the window of [p]. *)
Definition in_window (p q : TCP) : Prop := tcp_seq q <= u32 (tcp_window p + tcp_seq p).

Lemma segment_end p : segment p -> u32 (tcp_seq p + tcp_len p) = tcp_seq p + tcp_len p.
Proof. intros (H1 & H2 & _). apply u32_small. pose proof (zlen_nonneg (tcp_data p)). unfold tcp_len in *. lia. Qed.

Lemma skip_segment p n :
  segment p -> 0 <= n < tcp_len p ->
  tcp_data (skip_data p n) = zread (tcp_seq p - b + n) (tcp_len p - n) S /\
  tcp_len (skip_data p n) = tcp_len p - n.
Proof.
  intros (H1 & H2 & _ & H3) Hn. split.
  - cbn [skip_data tcp_data]. rewrite H3 at 1. unfold zread.
    rewrite zdrop_ztake by lia. by rewrite zdrop_zdrop by lia.
  - unfold tcp_len in *. cbn [skip_data tcp_data]. rewrite zlen_zdrop. lia.
Qed.

Lemma pad_window_none fuel last_seq self first rest :
  st_queue self = first :: rest -> last_seq <= u32 (tcp_window first + tcp_seq first) ->
  pad_window fuel last_seq self = Some ([], self).
Proof.
  intros Hq Hl. destruct fuel; cbn [pad_window]; rewrite Hq;
    by rewrite (proj2 (Z.ltb_ge _ _) Hl).
Qed.

Lemma process_queue_spec queue self k :
  StronglySorted seq_le queue -> Forall segment queue ->
  (forall p q, p ∈ queue -> q ∈ queue -> in_window p q) ->
  st_next_seq self = b + k -> 0 <= k <= zlen S ->
  exists evs self' k' done,
    process_queue queue self = Some (evs, self') /\ k <= k' <= zlen S /\
    st_next_seq self' = b + k' /\ delivered evs = zread k (k' - k) S /\
    queue = done ++ st_queue self' /\ Forall (fun p => tcp_seq p + tcp_len p <= b + k') done /\
    Forall (fun p => b + k' < tcp_seq p) (st_queue self') /\
    forall j, k <= j < k' -> exists p, p ∈ queue /\ covers p j.
Proof.
  revert self k. induction queue as [|first rest IH]; intros self k Hsort Hseg Hwin Hn Hk.
  { exists [], (with_st_queue self []), k, [].
    split_and!; try done; try lia; try constructor.
    unfold zread. by rewrite Z.sub_diag, ztake_0. }
  apply Forall_cons in Hseg as [Hf Hseg]. cbn [process_queue].
  rewrite segment_end by done. rewrite Hn.
  assert (Hwin' : forall p q, p ∈ rest -> q ∈ rest -> in_window p q)
    by (intros p q ? ?; apply Hwin; by right).
  apply StronglySorted_inv in Hsort as [Hsort Hle].
  destruct (b + k >=? tcp_seq first + tcp_len first) eqn:E1.
  - destruct (IH (with_st_state self PYTCP_RETRANSMISSION) k Hsort Hseg Hwin' Hn Hk)
      as (evs & self' & k' & dn & -> & Hk' & Hn' & Hd & Hq & Hdone & Hrest & Hcov). mred.
    exists ((PYTCP_RETRANSMISSION, first) :: evs), self', k', (first :: dn).
    split_and!; try done; try lia.
    + by rewrite Hq at 1.
    + constructor; [lia|done].
    + intros j Hj. destruct (Hcov j Hj) as (p & Hp & Hc). exists p. split; [by right|done].
  - destruct (b + k >=? tcp_seq first) eqn:E2.
    + pose proof Hf as (Hf1 & Hf2 & Hf3 & _). unfold MAX_PACKET_SIZE in Hf3.
      rewrite i32_small by lia.
      destruct (skip_segment first (b + k - tcp_seq first) Hf) as [Hdata Hlen]; [lia|].
      rewrite Hlen. set (e := tcp_seq first + tcp_len first - b) in *.
      rewrite u32_small by lia.
      destruct (IH (with_st_state (with_st_next_seq self
        (b + k + (tcp_len first - (b + k - tcp_seq first)))) PYTCP_DATA) e Hsort Hseg Hwin')
        as (evs & self' & k' & dn & -> & Hk' & Hn' & Hd & Hq & Hdone & Hrest & Hcov);
        [cbn; lia|lia|]. mred.
      eexists _, self', k', (first :: dn).
      split_and!; try done; try lia.
      * change (delivered (?ev :: ?evs)) with (tcp_data ev.2 ++ delivered evs).
        cbn [snd]. rewrite Hdata, Hd.
        replace (tcp_seq first - b + (b + k - tcp_seq first)) with k by lia.
        replace (tcp_len first - (b + k - tcp_seq first)) with (e - k) by lia.
        rewrite (zread_split k (e - k) (k' - k)) by lia. f_equal. f_equal; lia.
      * by rewrite Hq at 1.
      * constructor; [lia|done].
      * intros j Hj. destruct (Z.lt_ge_cases j e).
        -- exists first. split; [by left|]. unfold covers. lia.
        -- destruct (Hcov j ltac:(lia)) as (p & Hp & Hc). exists p. split; [by right|done].
    + exists [], (with_st_queue self (first :: rest)), k, [].
      assert (Hstop : (if bool_decide (st_state (with_st_queue self (first :: rest)) = PYTCP_DATA \/
          st_state (with_st_queue self (first :: rest)) = PYTCP_RETRANSMISSION)
        then pad_window (2 * length (first :: rest)) (tcp_seq (List.last (first :: rest) first))
               (with_st_queue self (first :: rest))
        else Some ([], with_st_queue self (first :: rest))) =
        Some ([], with_st_queue self (first :: rest))).
      { case_bool_decide; [|done]. eapply pad_window_none; [done|].
        apply Hwin; [by left|]. apply last_in. }
      rewrite Hstop. split_and!; try done; try lia.
      * unfold zread. by rewrite Z.sub_diag, ztake_0.
      * constructor; [lia|]. eapply Forall_impl; [exact Hle|]. unfold seq_le. intros. lia.
Qed.

(** *** Adding packets *)

(** After the packets [ps], the first [k] bytes were delivered; what is beyond waits. *)
Record reassembling (ps : list TCP) (self : TCPStream) (out : list Z) (k : Z) : Prop := {
  ra_range : 0 <= k <= zlen S;
  ra_next : st_next_seq self = b + k;
  ra_out : out = ztake k S;
  ra_sorted : StronglySorted seq_le (st_queue self);
  ra_queue p : p ∈ st_queue self -> p ∈ ps /\ b + k < tcp_seq p /\ 0 < tcp_len p;
  ra_seen p : p ∈ ps -> p ∈ st_queue self \/ tcp_seq p + tcp_len p <= b + k \/ tcp_len p = 0;
  ra_covered j : 0 <= j < k -> exists p, p ∈ ps /\ covers p j
}.

Lemma add_reassembling ps self out k reverse_total id tcp :
  reassembling ps self out k -> Forall segment (tcp :: ps) ->
  (forall p q, p ∈ tcp :: ps -> q ∈ tcp :: ps -> in_window p q) ->
  exists evs self' k', TCPStream_add self reverse_total id tcp = Some (evs, self') /\
    reassembling (tcp :: ps) self' (out ++ delivered evs) k'.
Proof.
  intros [Hk Hn Ho Hs Hq Hseen Hc] Hseg Hwin. unfold TCPStream_add.
  destruct (Z.eqb_spec (tcp_len tcp) 0) as [H0|H0].
  { eexists _, _, k. split; [done|]. split; cbn; try done.
    - by rewrite app_nil_r.
    - intros p Hp. destruct (Hq p Hp) as (? & ? & ?). split_and!; [by right|done|done].
    - intros p [->|Hp]%elem_of_cons; [by right; right|by apply Hseen].
    - intros j Hj. destruct (Hc j Hj) as (p & Hp & Hj'). exists p. split; [by right|done]. }
  assert (Hlen : 0 < tcp_len tcp) by (pose proof (zlen_nonneg (tcp_data tcp)); unfold tcp_len in *; lia).
  set (queue := insert_packet tcp (st_queue self)).
  assert (Hin : forall p, p ∈ queue <-> p = tcp \/ p ∈ st_queue self).
  { intros p. unfold queue. by rewrite insert_packet_perm, elem_of_cons. }
  assert (Hin' : forall p, p ∈ queue -> p ∈ tcp :: ps).
  { intros p [->|Hp]%Hin; [by left|]. right. by apply Hq. }
  rewrite Forall_forall in Hseg.
  destruct (process_queue_spec queue
    {| st_state := st_state self; st_queue := queue; st_max_packet_id := i32 id;
       st_next_seq := st_next_seq self;
       st_total_size := i32 (st_total_size self + (tcp_len tcp + reverse_total)) |} k)
    as (evs & self' & k' & dn & E & Hk' & Hn' & Hd & Hsplit & Hdone & Hrest & Hcov).
  - by apply insert_packet_sorted.
  - apply Forall_forall. intros p Hp. by apply Hseg, Hin'.
  - intros p q Hp Hq'. apply Hwin; by apply Hin'.
  - done.
  - done.
  - exists evs, self', k'. split; [exact E|].
    assert (Hin2 : forall p, p ∈ st_queue self' -> p ∈ queue)
      by (intros p Hp; rewrite Hsplit; apply elem_of_app; by right).
    rewrite Forall_forall in Hrest. rewrite Forall_forall in Hdone.
    split; [lia|done| | | | |].
    + rewrite Ho, Hd. rewrite <- (ztake_zdrop k (ztake k' S)), ztake_ztake, zdrop_ztake by lia. done.
    + assert (StronglySorted seq_le (dn ++ st_queue self')) as Hss
        by (rewrite <- Hsplit; by apply insert_packet_sorted).
      clear - Hss. induction dn as [|d dn IH]; [done|]. inversion Hss. by apply IH.
    + intros p Hp. split_and!; [by apply Hin', Hin2|by apply Hrest|].
      apply Hin2, Hin in Hp as [->|Hp]; [done|]. by apply Hq.
    + intros p Hp. assert (p ∈ queue \/ tcp_seq p + tcp_len p <= b + k \/ tcp_len p = 0) as [H|[H|H]].
      { apply elem_of_cons in Hp as [->|Hp]; [left; apply Hin; by left|].
        destruct (Hseen p Hp) as [?|?]; [left; apply Hin; by right|by right]. }
      * rewrite Hsplit in H. apply elem_of_app in H as [H|H]; [right; left; by apply Hdone|by left].
      * right. left. lia.
      * by right; right.
    + intros j Hj. destruct (Z.lt_ge_cases j k).
      * destruct (Hc j ltac:(lia)) as (p & Hp & ?). exists p. split; [by right|done].
      * destruct (Hcov j ltac:(lia)) as (p & Hp & ?). exists p. split; [by apply Hin'|done].
Qed.

Lemma add_all_reassembling ps qs self out k :
  reassembling ps self out k -> Forall segment (ps ++ map snd qs) ->
  (forall p q, p ∈ ps ++ map snd qs -> q ∈ ps ++ map snd qs -> in_window p q) ->
  exists evs self' k', add_all self qs = Some (evs, self') /\
    reassembling (reverse (map snd qs) ++ ps) self' (out ++ delivered evs) k'.
Proof.
  revert ps self out k. induction qs as [|[[rt id] tcp] qs IH]; intros ps self out k Hra Hseg Hwin.
  - exists [], self, k. cbn. by rewrite app_nil_r.
  - cbn [map snd] in *.
    assert (Hperm : ps ++ tcp :: map snd qs ≡ₚ (tcp :: ps) ++ map snd qs)
      by (symmetry; apply Permutation_middle).
    rewrite Hperm in Hseg. setoid_rewrite Hperm in Hwin.
    destruct (add_reassembling ps self out k rt id tcp Hra) as (evs & self1 & k1 & E & Hra1).
    { by apply Forall_app in Hseg as [? _]. }
    { intros p q Hp Hq. apply Hwin; apply elem_of_app; by left. }
    destruct (IH (tcp :: ps) self1 _ k1 Hra1 Hseg Hwin) as (evs' & self2 & k2 & E2 & Hra2).
    cbn [add_all]. rewrite E. mred. rewrite E2. mred. eexists _, self2, k2. split; [done|].
    rewrite delivered_app, app_assoc, reverse_cons, <- app_assoc. exact Hra2.
Qed.

Lemma reassembling_new self :
  st_queue self = [] -> st_next_seq self = b -> reassembling [] self [] 0.
Proof.
  intros Hq Hn. pose proof (zlen_nonneg S).
  split; rewrite ?Hq; [lia|lia|by rewrite ztake_0|constructor| | |intros j Hj; lia];
    intros p Hp; by apply elem_of_nil in Hp.
Qed.

(** *** Padding *)

(** Byte [j] of what was delivered after a flush: the stream's where a packet covers it, a
    zero elsewhere. *)
Definition padded (ps : list TCP) (out : list Z) : Prop :=
  forall j, 0 <= j < zlen out ->
    ((exists p, p ∈ ps /\ covers p j) -> znth out j = znth S j) /\
    ((forall p, p ∈ ps -> ~ covers p j) -> znth out j = 0).

(** Packets that are not too long, with gaps before them that are not too large. *)
Definition close_by (ps : list TCP) : Prop :=
  forall q, q ∈ ps -> tcp_len q <= 50000 /\
    (tcp_seq q <= b + 50000 \/
     exists p, p ∈ ps /\ 0 < tcp_len p /\ tcp_seq p < tcp_seq q <= tcp_seq p + tcp_len p + 50000).

(** The state between two turns: [out] was delivered, [queue] is left. *)
Record padding (ps queue : list TCP) (out : list Z) : Prop := {
  pd_sorted : StronglySorted seq_le queue;
  pd_queue p : p ∈ queue -> p ∈ ps /\ b + zlen out - tcp_seq p <= 50000;
  pd_seen p : p ∈ ps -> p ∈ queue \/ tcp_seq p + tcp_len p <= b + zlen out \/ tcp_len p = 0;
  pd_out : padded ps out;
  pd_range : zlen out <= zlen S
}.

Lemma znth_app_r (l k : list Z) i : zlen l <= i -> znth (l ++ k) i = znth k (i - zlen l).
Proof.
  intros Hi. pose proof (zlen_nonneg l). unfold znth, zlen in *.
  destruct (Z.ltb_spec i 0), (Z.ltb_spec (i - Z.of_nat (length l)) 0); try lia.
  rewrite app_nth2 by lia. f_equal. lia.
Qed.

Lemma znth_zeros n i : znth (replicate n 0) i = 0.
Proof.
  unfold znth. case_bool; [done|]. rewrite nth_lookup.
  destruct (replicate n 0 !! Z.to_nat i) eqn:E; [|done]. by apply lookup_replicate in E as [-> _].
Qed.

Lemma znth_zread (l : list Z) off n i :
  0 <= off -> 0 <= i < n -> znth (zread off n l) i = znth l (off + i).
Proof.
  intros Ho Hi. unfold znth, zread, ztake, zdrop.
  destruct (Z.ltb_spec i 0), (Z.ltb_spec (off + i) 0); try lia.
  rewrite !nth_lookup, lookup_take_lt, lookup_drop by lia. do 3 f_equal. lia.
Qed.

Lemma zdrop_zread (l : list Z) off len n :
  0 <= off -> 0 <= len -> 0 <= n -> zdrop n (zread off len l) = zread (off + n) (len - n) l.
Proof.
  intros Ho Hl Hn. destruct (Z.le_gt_cases n len).
  - unfold zread. rewrite zdrop_ztake, zdrop_zdrop by lia. done.
  - rewrite zdrop_all by (unfold zread; rewrite zlen_ztake; lia). unfold zread. by rewrite ztake_0 by lia.
Qed.

(** One turn of the padding, for a packet that starts [gap] bytes behind what was
    delivered, or before its end when [gap] is negative. *)
Lemma pad_turn ps first rest out self :
  Forall segment ps -> close_by ps -> padding ps (first :: rest) out ->
  st_queue self = first :: rest -> st_next_seq self = b + zlen out ->
  exists ev self', pad_to_first_packet self = Some ([ev], self') /\ st_queue self' = rest /\
    st_next_seq self' = b + zlen (out ++ delivered [ev]) /\ padding ps rest (out ++ delivered [ev]).
Proof.
  intros Hseg Hclose [Hs Hqu Hseen Hout Hr] Hq Hn. rewrite Forall_forall in Hseg.
  destruct (Hqu first ltac:(by left)) as [Hin Hback].
  destruct (Hseg first Hin) as (Hf1 & Hf2 & Hf3 & Hf4). destruct (Hclose first Hin) as [Hfl Hnear].
  pose proof (zlen_nonneg out). pose proof (zlen_nonneg (tcp_data first)) as Hl0.
  fold (tcp_len first) in Hl0.
  apply StronglySorted_inv in Hs as [Hs Hle]. rewrite Forall_forall in Hle. unfold seq_le in Hle.
  assert (Hgap : tcp_seq first - (b + zlen out) <= 50000).
  { destruct Hnear as [|(p & Hp & Hpl & Hps)]; [lia|].
    destruct (Hseen p Hp) as [Hpq|[?|?]]; [|lia|lia].
    apply elem_of_cons in Hpq as [->|Hpq]; [lia|]. specialize (Hle p Hpq). lia. }
  unfold pad_to_first_packet. rewrite Hq, Hn.
  set (gap := tcp_seq first - (b + zlen out)) in *.
  rewrite i32_small by lia. replace ((gap >? 50000) || (gap <? -50000)) with false by lia.
  set (tcp := if gap >? 0 then pad_front first gap
              else if gap <? 0 then skip_data first (- gap) else first).
  assert (Htcp : tcp_data tcp =
    replicate (Z.to_nat gap) 0 ++ zread (tcp_seq first - b + Z.max 0 (- gap))
      (tcp_len first - Z.max 0 (- gap)) S).
  { unfold tcp. destruct (gap >? 0) eqn:E1; [|destruct (gap <? 0) eqn:E2].
    - cbn [pad_front tcp_data]. rewrite Hf4 at 1. do 2 f_equal; lia.
    - replace (Z.to_nat gap) with 0%nat by lia. cbn [skip_data tcp_data replicate app].
      rewrite Hf4 at 1. rewrite zdrop_zread by lia. f_equal; lia.
    - replace (Z.to_nat gap) with 0%nat by lia. cbn [replicate app]. rewrite Hf4 at 1.
      f_equal; lia. }
  set (skip := Z.max 0 (- gap)) in *.
  assert (Hlen : tcp_len tcp = Z.max 0 gap + Z.max 0 (tcp_len first - skip)).
  { unfold tcp_len at 1. rewrite Htcp, zlen_app, zlen_replicate. unfold zread, skip.
    rewrite zlen_ztake, zlen_zdrop. lia. }
  assert (Hd : delivered (@cons tcp_event (PYTCP_DATA, tcp) []) = tcp_data tcp) by apply app_nil_r.
  assert (Hlen' : zlen (out ++ tcp_data tcp) = Z.max (zlen out) (tcp_seq first + tcp_len first - b))
    by (rewrite zlen_app; fold (tcp_len tcp); lia).
  exists (PYTCP_DATA, tcp). eexists. split; [reflexivity|]. split; [done|]. rewrite Hd. split.
  { cbn [st_next_seq with_st_queue with_st_state with_st_next_seq].
    rewrite u32_small by lia. rewrite zlen_app. fold (tcp_len tcp). lia. }
  split; rewrite ?Hlen'; [done| | | |lia].
  - intros p Hp. destruct (Hqu p ltac:(by right)) as [? ?]. split; [done|].
    specialize (Hle p Hp). lia.
  - intros p Hp. destruct (Hseen p Hp) as [Hpq|[?|?]]; [|right; left; lia|by right; right].
    apply elem_of_cons in Hpq as [->|?]; [right; left; lia|by left].
  - intros j Hj. rewrite Hlen' in Hj. destruct (Z.lt_ge_cases j (zlen out)).
    { rewrite znth_app_l by lia. apply Hout. lia. }
    rewrite znth_app_r by lia. rewrite Htcp.
    destruct (Z.lt_ge_cases (j - zlen out) gap).
    + rewrite znth_app_l by (rewrite zlen_replicate; lia). rewrite znth_zeros.
      split; [|done]. intros (p & Hp & Hcov). exfalso. unfold covers in Hcov.
      destruct (Hseen p Hp) as [Hpq|[?|?]]; [|lia|lia].
      apply elem_of_cons in Hpq as [->|Hpq]; [lia|]. specialize (Hle p Hpq). lia.
    + rewrite znth_app_r by (rewrite zlen_replicate; lia). rewrite zlen_replicate.
      rewrite znth_zread by lia. split; [intros _; f_equal; lia|].
      intros Hno. exfalso. apply (Hno first Hin). unfold covers. lia.
Qed.

Lemma pad_loop_spec fuel ps queue out self :
  Forall segment ps -> close_by ps -> padding ps queue out -> st_queue self = queue ->
  st_next_seq self = b + zlen out -> (length queue <= fuel)%nat ->
  exists evs self', pad_loop fuel self = Some (evs, self') /\ st_queue self' = [] /\
    padding ps [] (out ++ delivered evs).
Proof.
  intros Hseg Hclose. revert queue out self.
  induction fuel as [|fuel IH]; intros queue out self Hp Hq Hn Hf;
    (destruct queue as [|first rest]; cbn [pad_loop]; rewrite Hq;
      [exists [], self; split_and!; [done|done|by rewrite app_nil_r]|]); cbn in Hf; [lia|].
  destruct (pad_turn ps first rest out self Hseg Hclose Hp Hq Hn) as (ev & self1 & -> & Hq1 & Hn1 & Hp1).
  mred. destruct (IH rest _ self1 Hp1 Hq1 Hn1 ltac:(lia)) as (evs & self2 & -> & Hq2 & Hp2). mred.
  eexists _, self2. split_and!; [done|done|]. by rewrite delivered_app, app_assoc.
Qed.

Lemma reassembling_padding ps self out k :
  reassembling ps self out k -> Forall segment ps -> padding ps (st_queue self) out.
Proof.
  intros [Hk Hn Ho Hs Hq Hseen Hc] Hseg.
  assert (Hout : zlen out = k) by (rewrite Ho, zlen_ztake; lia).
  split; rewrite ?Hout; [done| |done| |lia].
  - intros p Hp. destruct (Hq p Hp) as (? & ? & ?). split; [done|lia].
  - intros j Hj. rewrite Hout in Hj. split.
    + intros _. rewrite Ho. change (ztake k S) with (zread 0 k S).
      rewrite znth_zread by lia. f_equal.
    + intros Hno. destruct (Hc j Hj) as (p & Hp & Hcov). by destruct (Hno p Hp).
Qed.

End Segments.

(** Streams are put together again.  Whatever packets of a stream arrive, in whatever
    order, repeated, overlapping or missing, as long as their numbers do not wrap and each
    is within the window of the others: what is delivered is the longest part of the stream
    from its start that the packets cover, with nothing twice and nothing out of order. *)
Theorem TCPStream_reassembles b S self ps :
  0 <= b -> b + zlen S < 4294967296 -> st_queue self = [] -> st_next_seq self = b ->
  Forall (segment b S) (map snd ps) ->
  (forall p q, p ∈ map snd ps -> q ∈ map snd ps -> in_window p q) ->
  exists evs self' k, add_all self ps = Some (evs, self') /\ 0 <= k <= zlen S /\
    delivered evs = ztake k S /\ st_next_seq self' = b + k /\
    (forall j, 0 <= j < k -> exists p, p ∈ map snd ps /\ covers b p j) /\
    forall p, p ∈ map snd ps -> ~ covers b p k.
Proof.
  intros Hb HS Hq Hn Hseg Hwin.
  destruct (add_all_reassembling b S Hb HS [] ps self [] 0) as (evs & self' & k & E & Hra);
    [by apply reassembling_new|done|done|].
  destruct Hra as [Hk Hn' Ho _ Hqu Hseen Hc]. rewrite app_nil_r in *.
  exists evs, self', k. split_and!; try done; try lia.
  - intros j Hj. destruct (Hc j Hj) as (p & Hp & ?). exists p. by rewrite elem_of_reverse in Hp.
  - intros p Hp Hcov. unfold covers in Hcov.
    destruct (Hseen p ltac:(by rewrite elem_of_reverse)) as [H|[H|H]]; [|lia|lia].
    apply Hqu in H as (_ & ? & _). lia.
Qed.

(** C18: what never came is filled with zeros.  When the queue of a stream is flushed, for
    packets as before with gaps of at most 50000 bytes, everything that came is delivered
    at its place in the stream, up to the end of the last packet, and each byte that no
    packet carried is delivered as zero; nothing is left in the queue. *)
Theorem pad_data_fills b S self ps :
  0 <= b -> b + zlen S < 4294967296 -> st_queue self = [] -> st_next_seq self = b ->
  Forall (segment b S) (map snd ps) -> close_by b (map snd ps) ->
  (forall p q, p ∈ map snd ps -> q ∈ map snd ps -> in_window p q) ->
  exists evs self1 evs' self', add_all self ps = Some (evs, self1) /\
    pad_data self1 = Some (evs', self') /\ st_queue self' = [] /\
    let out := delivered (evs ++ evs') in
    padded b S (map snd ps) out /\
    forall p, p ∈ map snd ps -> 0 < tcp_len p -> tcp_seq p + tcp_len p <= b + zlen out.
Proof.
  intros Hb HS Hq Hn Hseg Hclose Hwin.
  destruct (add_all_reassembling b S Hb HS [] ps self [] 0) as (evs & self1 & k & E & Hra);
    [by apply reassembling_new|done|done|].
  rewrite app_nil_r in Hra. cbn [app] in Hra.
  assert (Hin : forall p, p ∈ reverse (map snd ps) <-> p ∈ map snd ps)
    by (intros p; apply elem_of_reverse).
  assert (Hseg' : Forall (segment b S) (reverse (map snd ps))) by by apply Forall_reverse.
  assert (Hclose' : close_by b (reverse (map snd ps))).
  { intros q Hq'. apply Hin in Hq'. destruct (Hclose q Hq') as [? [?|(p & ? & ?)]].
    - split; [done|by left].
    - split; [done|]. right. exists p. by rewrite Hin. }
  destruct (pad_loop_spec b S Hb HS (2 * length (st_queue self1)) (reverse (map snd ps))
    (st_queue self1) (delivered evs) self1) as (evs' & self' & E' & Hq' & [_ _ Hseen Hout _]);
    try done.
  - by eapply reassembling_padding.
  - destruct Hra as [Hk Hn' Ho _ _ _ _]. rewrite Hn', Ho, zlen_ztake. lia.
  - lia.
  - exists evs, self1, evs', self'. rewrite delivered_app. split; [done|]. split; [done|]. split; [done|].
    cbv zeta. split.
    + intros j Hj. destruct (Hout j Hj) as [H1 H2]. split.
      * intros (p & Hp & ?). apply H1. exists p. by rewrite Hin.
      * intros Hno. apply H2. intros p Hp. by apply Hno, Hin.
    + intros p Hp Hl. destruct (Hseen p ltac:(by apply Hin)) as [Hp'|[?|?]]; [|done|lia].
      by apply elem_of_nil in Hp'.
Qed.

(** C40: the numbers wrap.  To a stream with an empty queue, a packet that is next and carries
    data up to or over the number 2^32 is taken for one that was seen before: the callback
    gets it as a retransmission and not as data, it is dropped, and the stream goes on
    waiting for it. *)
Theorem TCPStream_add_wraps self reverse_total id tcp :
  st_queue self = [] -> st_next_seq self = tcp_seq tcp ->
  0 <= tcp_seq tcp < 4294967296 -> 0 < tcp_len tcp <= MAX_PACKET_SIZE ->
  4294967296 <= tcp_seq tcp + tcp_len tcp ->
  exists self', TCPStream_add self reverse_total id tcp =
      Some ([(PYTCP_RETRANSMISSION, tcp)], self') /\
    st_queue self' = [] /\ st_next_seq self' = tcp_seq tcp.
Proof.
  intros Hq Hn Hs Hl Hw. unfold MAX_PACKET_SIZE in Hl. unfold TCPStream_add.
  destruct (Z.eqb_spec (tcp_len tcp) 0); [lia|]. rewrite Hq. cbn [insert_packet process_queue].
  cbn [st_next_seq]. rewrite Hn.
  assert (u32 (tcp_seq tcp + tcp_len tcp) <= tcp_seq tcp) as Hle by (unfold u32; dlia).
  replace (tcp_seq tcp >=? u32 (tcp_seq tcp + tcp_len tcp)) with true by lia. mred.
  eexists. split; [reflexivity|done].
Qed.

(** ** Flushing ends *)

Lemma pad_once self first rest :
  st_queue self = first :: rest ->
  (exists ev self', pad_to_first_packet self = Some ([ev], self') /\ st_queue self' = rest) \/
  exists self', pad_to_first_packet self = Some ([], self') /\ st_queue self' = first :: rest /\
    exists ev self2, pad_to_first_packet self' = Some ([ev], self2) /\ st_queue self2 = rest.
Proof.
  intros Hq. unfold pad_to_first_packet at 1 2. rewrite Hq.
  destruct (_ || _); [right|left; by eexists _, _].
  eexists. split; [done|]. split; [done|]. unfold pad_to_first_packet.
  cbn [st_queue st_next_seq with_st_next_seq]. rewrite Hq, Z.sub_diag. change (i32 0) with 0.
  by eexists _, _.
Qed.

Lemma pad_loop_mono fuel fuel' self r :
  pad_loop fuel self = Some r -> (fuel <= fuel')%nat -> pad_loop fuel' self = Some r.
Proof.
  revert fuel' self r. induction fuel as [|fuel IH]; intros [|fuel'] self r H Hf; try lia; try done;
    cbn [pad_loop] in *; destruct (st_queue self); try done.
  destruct (pad_to_first_packet self) as [[evs self1]|]; [|done]. mred. cbn [mbind option_bind] in H.
  destruct (pad_loop fuel self1) as [[evs' self2]|] eqn:E; [|done].
  rewrite (IH fuel' self1 (evs', self2) E) by lia. exact H.
Qed.

(** What the flush delivers for a packet when [next] is expected: a packet that is at most
    50000 bytes ahead gets zeros in front for what is missing, one that is at most as many
    behind loses what was delivered before, and any other stays as it is. *)
Definition flushed_packet (next : Z) (t : TCP) : TCP :=
  let d := i32 (tcp_seq t - next) in
  if bool_decide (50000 < Z.abs d) then t
  else if d >? 0 then pad_front t d else if d <? 0 then skip_data t (- d) else t.

(** Where the stream is after it: the packet's own place when it was too far away. *)
Definition flushed_next (next : Z) (t : TCP) : Z :=
  u32 ((if bool_decide (50000 < Z.abs (i32 (tcp_seq t - next))) then tcp_seq t else next) +
       tcp_len (flushed_packet next t)).

Fixpoint flushed_packets (next : Z) (queue : list TCP) : list TCP :=
  match queue with
  | [] => []
  | t :: queue => flushed_packet next t :: flushed_packets (flushed_next next t) queue
  end.

Lemma pad_once_exact self first rest :
  st_queue self = first :: rest ->
  let next := st_next_seq self in
  let ev := (PYTCP_DATA, flushed_packet next first) in
  exists self', st_queue self' = rest /\ st_next_seq self' = flushed_next next first /\
    (pad_to_first_packet self = Some ([ev], self') \/
     exists self1, pad_to_first_packet self = Some ([], self1) /\ st_queue self1 = first :: rest /\
       pad_to_first_packet self1 = Some ([ev], self')).
Proof.
  intros Hq next ev. unfold ev, flushed_next, flushed_packet, pad_to_first_packet at 1 2.
  rewrite Hq. fold next. set (d := i32 (tcp_seq first - next)).
  destruct (bool_decide_reflect (50000 < Z.abs d)) as [Hd|Hd].
  - replace ((d >? 50000) || (d <? -50000)) with true by lia.
    eexists. split; [|split; [|right; eexists; split; [reflexivity|split; [exact Hq|]]]].
    3: { unfold pad_to_first_packet. cbn [st_queue st_next_seq with_st_next_seq].
         rewrite Hq, Z.sub_diag. change (i32 0) with 0. reflexivity. }
    all: done.
  - replace ((d >? 50000) || (d <? -50000)) with false by lia.
    eexists. split; [|split; [|left; reflexivity]]; done.
Qed.

Lemma pad_loop_exact self :
  exists self', pad_data self =
      Some ((fun t => (PYTCP_DATA, t)) <$> flushed_packets (st_next_seq self) (st_queue self), self') /\
    st_queue self' = [].
Proof.
  unfold pad_data. remember (st_queue self) as queue eqn:Hq. symmetry in Hq.
  revert self Hq. induction queue as [|first rest IH]; intros self Hq.
  { exists self. cbn. by rewrite Hq. }
  replace (2 * length (first :: rest))%nat with (S (S (2 * length rest))) by (cbn; lia).
  cbn [pad_loop flushed_packets fmap list_fmap]. rewrite Hq.
  destruct (pad_once_exact self first rest Hq) as
    (self2 & Hq2 & Hn2 & [E|(self1 & E & Hq1 & E2)]); rewrite E; mred;
    destruct (IH self2 Hq2) as (self' & El & Hq'); rewrite Hn2 in El.
  - apply (pad_loop_mono _ (S (2 * length rest))) in El; [|lia]. cbn [pad_loop] in El. rewrite El.
    mred. by exists self'.
  - rewrite Hq1, E2. mred. rewrite El. mred. by exists self'.
Qed.

Lemma pad_loop_ends self :
  exists evs self', pad_data self = Some (evs, self') /\ st_queue self' = [].
Proof. destruct (pad_loop_exact self) as (self' & ? & ?). by eexists _, self'. Qed.

(** C22: a flush ends and delivers the queue.  Whatever the packets in the queue of a stream,
    the flush ends with an empty queue, and the callback gets the packets of the queue in
    their order, each exactly once and as data: with zeros in front for the bytes missing
    before it, or without the bytes that were delivered before; a packet more than 50000
    bytes away from where the stream is comes as it is, and the stream goes on from it. *)
Theorem pad_data_total self :
  exists self', pad_data self =
      Some ((fun t => (PYTCP_DATA, t)) <$> flushed_packets (st_next_seq self) (st_queue self), self') /\
    st_queue self' = [].
Proof. apply pad_loop_exact. Qed.

(** The inner loop ends too, so that every packet can be added. *)
Lemma pad_window_total fuel last_seq self :
  (2 * length (st_queue self) <= fuel)%nat ->
  exists r, pad_window fuel last_seq self = Some r.
Proof.
  remember (length (st_queue self)) as n eqn:Hlen.
  revert fuel self Hlen. induction n as [|n IH]; intros fuel self Hlen Hf.
  { destruct (st_queue self) eqn:Hq; [|done]. exists ([], self). destruct fuel; cbn; by rewrite Hq. }
  destruct (st_queue self) as [|first rest] eqn:Hq; [done|]. injection Hlen as Hlen.
  destruct fuel as [|[|fuel]]; [lia|lia|]. cbn [pad_window]. rewrite Hq.
  destruct (u32 (tcp_window first + tcp_seq first) <? last_seq); [|by eexists].
  destruct (pad_once self first rest Hq) as
    [(ev & self1 & -> & Hq1)|(self1 & -> & Hq1 & ev & self2 & E2 & Hq2)]; mred.
  - destruct (IH (S fuel) self1) as [[evs self'] E]; [by rewrite Hq1|lia|].
    cbn [pad_window] in E. rewrite E. by eexists.
  - rewrite Hq1. destruct (_ <? _); [|by eexists]. rewrite E2. mred.
    destruct (IH fuel self2) as [[evs self'] ->]; [by rewrite Hq2|lia|]. by eexists.
Qed.

Lemma process_queue_total queue self : exists r, process_queue queue self = Some r.
Proof.
  revert self. induction queue as [|first rest IH]; intros self; cbn [process_queue]; [by eexists|].
  destruct (_ >=? _); [|destruct (_ >=? _)].
  - destruct (IH (with_st_state self PYTCP_RETRANSMISSION)) as [[evs self'] ->]. by eexists.
  - destruct (IH (with_st_state (with_st_next_seq self (u32 (st_next_seq self + tcp_len
      (skip_data first (i32 (st_next_seq self - tcp_seq first)))))) PYTCP_DATA)) as [[evs self'] ->].
    by eexists.
  - case_bool_decide; [|by eexists]. by apply pad_window_total.
Qed.

Lemma TCPStream_add_total self reverse_total id tcp :
  exists evs self', TCPStream_add self reverse_total id tcp = Some (evs, self').
Proof.
  unfold TCPStream_add. destruct (_ =? _); [by eexists _, _|].
  match goal with |- context [process_queue ?q ?s] =>
    destruct (process_queue_total q s) as [[evs self'] ->] end. by eexists _, _.
Qed.

(** ** An example *)

Definition tcp_text : list Z := lit "GET / HTTP/1.0".

Definition text_packet (off len : Z) : TCP :=
  {| tcp_seq := 1000 + off; tcp_window := 4096; tcp_data := zread off len tcp_text |}.

Definition tcp_stream : TCPStream := with_st_next_seq (with_st_state TCPStream_Con PYTCP_DATA) 1000.

(** The second part arrives first, then a part twice; [from] is left out. *)
Definition tcp_arrivals (from : Z) : list (Z * Z * TCP) :=
  map (fun p => (0, 1, p)) [text_packet 4 3; text_packet 0 4; text_packet 2 4; text_packet from 4].

Lemma tcp_packet_segment off len :
  0 <= off -> 0 <= len -> off + len <= 14 -> segment 1000 tcp_text (text_packet off len).
Proof.
  intros Ho Hl Hb. assert (tcp_len (text_packet off len) = len) as Hlen.
  { unfold tcp_len. cbn [text_packet tcp_data]. unfold zread. rewrite zlen_ztake, zlen_zdrop.
    change (zlen tcp_text) with 14. lia. }
  unfold segment. rewrite Hlen. unfold MAX_PACKET_SIZE. cbn [tcp_seq text_packet tcp_data].
  change (zlen tcp_text) with 14. split_and!; [lia|lia|lia|]. f_equal. lia.
Qed.

Lemma tcp_arrivals_segments from :
  0 <= from <= 10 -> Forall (segment 1000 tcp_text) (map snd (tcp_arrivals from)).
Proof. intros Hf. repeat constructor; apply tcp_packet_segment; lia. Qed.

Lemma tcp_arrivals_window from p q :
  0 <= from <= 10 -> p ∈ map snd (tcp_arrivals from) -> q ∈ map snd (tcp_arrivals from) ->
  in_window p q.
Proof.
  intros Hf Hp Hq. unfold in_window.
  assert (forall r, r ∈ map snd (tcp_arrivals from) -> 1000 <= tcp_seq r <= 1010 /\ tcp_window r = 4096)
    as H.
  { intros r Hr. repeat (apply elem_of_cons in Hr as [->|Hr]; [cbn; lia|]). by apply elem_of_nil in Hr. }
  apply H in Hp as [? ->], Hq as [? _]. rewrite u32_small by lia. lia.
Qed.

Lemma TCPStream_reassembles_witness :
  exists evs self' k, add_all tcp_stream (tcp_arrivals 10) = Some (evs, self') /\
    0 <= k <= zlen tcp_text /\ delivered evs = ztake k tcp_text /\ st_next_seq self' = 1000 + k /\
    (forall j, 0 <= j < k -> exists p, p ∈ map snd (tcp_arrivals 10) /\ covers 1000 p j) /\
    forall p, p ∈ map snd (tcp_arrivals 10) -> ~ covers 1000 p k.
Proof.
  apply (TCPStream_reassembles 1000 tcp_text tcp_stream (tcp_arrivals 10)); try done.
  - apply tcp_arrivals_segments. lia.
  - intros p q. apply tcp_arrivals_window. lia.
Defined.

(** What is delivered in the example, before and by the flush. *)
Example tcp_example :
  (evs ← fst <$> add_all tcp_stream (tcp_arrivals 10); Some (delivered evs)) = Some (lit "GET / H") /\
  (self ← snd <$> add_all tcp_stream (tcp_arrivals 10);
   evs ← fst <$> pad_data self; Some (delivered evs)) = Some ([0; 0; 0] ++ lit "/1.0").
Proof. vm_compute. done. Qed.

Lemma pad_data_fills_witness :
  exists evs self1 evs' self', add_all tcp_stream (tcp_arrivals 10) = Some (evs, self1) /\
    pad_data self1 = Some (evs', self') /\ st_queue self' = [] /\
    let out := delivered (evs ++ evs') in
    padded 1000 tcp_text (map snd (tcp_arrivals 10)) out /\
    forall p, p ∈ map snd (tcp_arrivals 10) -> 0 < tcp_len p ->
      tcp_seq p + tcp_len p <= 1000 + zlen out.
Proof.
  apply (pad_data_fills 1000 tcp_text tcp_stream (tcp_arrivals 10)); try done.
  - apply tcp_arrivals_segments. lia.
  - intros q Hq. repeat (apply elem_of_cons in Hq as [->|Hq]; [split; [|left]; vm_compute; congruence|]).
    by apply elem_of_nil in Hq.
  - intros p q. apply tcp_arrivals_window. lia.
Defined.

Lemma TCPStream_add_wraps_witness :
  let tcp := {| tcp_seq := 4294967290; tcp_window := 4096; tcp_data := lit "overflow" |} in
  exists self', TCPStream_add (with_st_next_seq tcp_stream 4294967290) 0 1 tcp =
      Some ([(PYTCP_RETRANSMISSION, tcp)], self') /\
    st_queue self' = [] /\ st_next_seq self' = tcp_seq tcp.
Proof.
  apply TCPStream_add_wraps; try done; vm_compute; repeat split; congruence.
Defined.
