(* ===== verification/TcpTable.v ===== *)
(** * TcpTable: the connections of a capture (applications/pyflag/network/tcp.c)

    [TCPHashTable]: finding the stream of a packet in a hash table of streams, making the
    two streams of a new connection, feeding the packets to them, and dropping connections
    that are old, too many, or left at the end. *)
From S2P Require Import Prelude Tcp.

(** ** The data *)

Record tuple4 := { t_source : Z; t_dest : Z; t_saddr : Z; t_daddr : Z }.

#[export] Instance tuple4_eq_dec : EqDecision tuple4.
Proof. solve_decision. Defined.

Definition reverse_of (a : tuple4) : tuple4 :=
  {| t_source := t_dest a; t_dest := t_source a; t_saddr := t_daddr a; t_daddr := t_saddr a |}.

Definition TCP_STREAM_TABLE_SIZE : Z := 256.

Definition mkhash (addr : tuple4) : Z :=
  let res := u32 (t_source addr + t_dest addr + t_saddr addr + t_daddr addr) in
  let res := u32 (res + Z.shiftr res 8) in
  res mod TCP_STREAM_TABLE_SIZE.

(** The payload of an IP packet: a TCP packet with its SYN flag, a UDP packet with what it
    takes for the length of its data, or something else. *)
Inductive payload :=
| PTCP (source dest : Z) (syn : bool) (tcp : TCP)
| PUDP (source dest data_len : Z) (data : list Z)
| POther.

Record IP := { ip_id : Z; ip_saddr : Z; ip_daddr : Z; ip_payload : payload }.

(** A stream in the table: [sm_udp] is its class, [sm_forward] its direction. *)
Record stream := {
  sm_addr : tuple4;
  sm_tcp : TCPStream;
  sm_reverse : nat;
  sm_con_id : Z;
  sm_forward : bool;
  sm_udp : bool
}.

(** The callback is called with a stream (none for the list head that stands for packets
    without one), its state, and what was passed. *)
Inductive passed := WPacket (packet : option IP) | WTcp (tcp : TCP) | WUdp (seq : Z) (data : list Z) | WNone.

Definition table_event : Type := option tuple4 * tcp_state * passed.

Record reassembler_configuration := {
  max_packets_expired : Z;
  max_number_of_streams : Z;
  max_outstanding_skbuffs : Z
}.

(** The table, with the two global counts; streams are named by numbers. *)
Record TCPHashTable := {
  ht_streams : gmap nat stream;
  ht_table : gmap Z (list nat);
  ht_sorted : list nat;
  ht_con_id : Z;
  ht_packets_processed : Z;
  ht_total_streams : Z;
  ht_outstanding : Z;
  ht_next : nat
}.

Definition TCPHashTable_Con (initial_con_id : Z) : TCPHashTable :=
  {| ht_streams := ∅; ht_table := ∅; ht_sorted := []; ht_con_id := initial_con_id;
     ht_packets_processed := 0; ht_total_streams := 0; ht_outstanding := 0; ht_next := 0 |}.

Definition with_ht_streams (self : TCPHashTable) (s : gmap nat stream) (outstanding : Z)
  : TCPHashTable :=
  {| ht_streams := s; ht_table := ht_table self; ht_sorted := ht_sorted self;
     ht_con_id := ht_con_id self; ht_packets_processed := ht_packets_processed self;
     ht_total_streams := ht_total_streams self; ht_outstanding := outstanding;
     ht_next := ht_next self |}.
Definition with_ht_sorted (self : TCPHashTable) (l : list nat) : TCPHashTable :=
  {| ht_streams := ht_streams self; ht_table := ht_table self; ht_sorted := l;
     ht_con_id := ht_con_id self; ht_packets_processed := ht_packets_processed self;
     ht_total_streams := ht_total_streams self; ht_outstanding := ht_outstanding self;
     ht_next := ht_next self |}.
Definition with_ht_processed (self : TCPHashTable) (n : Z) : TCPHashTable :=
  {| ht_streams := ht_streams self; ht_table := ht_table self; ht_sorted := ht_sorted self;
     ht_con_id := ht_con_id self; ht_packets_processed := n;
     ht_total_streams := ht_total_streams self; ht_outstanding := ht_outstanding self;
     ht_next := ht_next self |}.

Definition bucket (self : TCPHashTable) (h : Z) : list nat := default [] (ht_table self !! h).

(** ** Finding streams *)

(** [list_move] to the front. *)
Definition list_move (i : nat) (l : list nat) : list nat := i :: filter (.≠ i) l.

(** The loop over a hash list: the first stream with an address. *)
Definition find_addr (self : TCPHashTable) (addr : tuple4) : option (nat * stream) :=
  i ← List.find (fun i => bool_decide (sm_addr <$> ht_streams self !! i = Some addr))
        (bucket self (mkhash addr));
  s ← ht_streams self !! i; Some (i, s).

(** The pair of streams of a connection goes to the front of the sorted list. *)
Definition touch (self : TCPHashTable) (i : nat) (s : stream) : TCPHashTable :=
  with_ht_sorted self (list_move (sm_reverse s) (list_move i (ht_sorted self))).

Definition new_stream (addr : tuple4) (reverse : nat) (con_id : Z) (forward udp : bool) : stream :=
  {| sm_addr := addr; sm_tcp := TCPStream_Con; sm_reverse := reverse; sm_con_id := con_id;
     sm_forward := forward; sm_udp := udp |}.

Definition create_pair (self : TCPHashTable) (forward : tuple4) (udp : bool) : nat * TCPHashTable :=
  let reverse := reverse_of forward in
  let i := ht_next self in
  let j := S i in
  let table := <[mkhash forward := bucket self (mkhash forward) ++ [i]]> (ht_table self) in
  let table := <[mkhash reverse := default [] (table !! mkhash reverse) ++ [j]]> table in
  (i, {| ht_streams := <[j := new_stream reverse i (ht_con_id self + 1) false udp]>
                         (<[i := new_stream forward j (ht_con_id self) true udp]> (ht_streams self));
         ht_table := table; ht_sorted := j :: i :: ht_sorted self;
         ht_con_id := ht_con_id self + 2; ht_packets_processed := ht_packets_processed self;
         ht_total_streams := ht_total_streams self + 2; ht_outstanding := ht_outstanding self;
         ht_next := S j |}).

(** The address of the packets of one direction; none for other protocols. *)
Definition ip_tuple (ip : IP) : option (tuple4 * bool) :=
  match ip_payload ip with
  | PTCP source dest _ _ =>
      Some ({| t_source := source; t_dest := dest; t_saddr := ip_saddr ip; t_daddr := ip_daddr ip |},
            false)
  | PUDP source dest _ _ =>
      Some ({| t_source := source; t_dest := dest; t_saddr := ip_saddr ip; t_daddr := ip_daddr ip |},
            true)
  | POther => None
  end.

Definition TCPHashTable_find_stream (self : TCPHashTable) (ip : IP) : option nat * TCPHashTable :=
  match ip_tuple ip with
  | None => (None, self)
  | Some (forward, udp) =>
      match find_addr self forward with
      | Some (i, s) => (Some i, touch self i s)
      | None =>
          match find_addr self (reverse_of forward) with
          | Some (i, s) => (Some (sm_reverse s), touch self i s)
          | None => let '(i, self) := create_pair self forward udp in (Some i, self)
          end
      end
  end.

(** ** Dropping connections *)

Definition with_sm_tcp (s : stream) (t : TCPStream) : stream :=
  {| sm_addr := sm_addr s; sm_tcp := t; sm_reverse := sm_reverse s; sm_con_id := sm_con_id s;
     sm_forward := sm_forward s; sm_udp := sm_udp s |}.

Definition stream_events (s : stream) (evs : list tcp_event) : list table_event :=
  map (fun ev => (Some (sm_addr s), ev.1, WTcp ev.2)) evs.

(** [talloc_free] of a forward stream, with its destructor [TCPStream_flush]. *)
Definition TCPStream_flush (self : TCPHashTable) (i : nat) : option (list table_event * TCPHashTable) :=
  s ← ht_streams self !! i;
  if sm_forward s then
    r ← ht_streams self !! sm_reverse s;
    '(evs, _) ← pad_data (sm_tcp s);
    '(evs', _) ← pad_data (sm_tcp r);
    let gone := fun l => filter (fun k => k <> i /\ k <> sm_reverse s) l in
    Some (stream_events s evs ++ stream_events r evs'
            ++ [(Some (sm_addr s), PYTCP_DESTROY, WNone); (Some (sm_addr r), PYTCP_DESTROY, WNone)],
          {| ht_streams := delete (sm_reverse s) (delete i (ht_streams self));
             ht_table := gone <$> ht_table self; ht_sorted := gone (ht_sorted self);
             ht_con_id := ht_con_id self; ht_packets_processed := ht_packets_processed self;
             ht_total_streams := ht_total_streams self - 2;
             ht_outstanding := ht_outstanding self - zlen (st_queue (sm_tcp s))
                                 - zlen (st_queue (sm_tcp r));
             ht_next := ht_next self |})
  else Some ([], self).

(** The first stream of a list that is forward and passes a test is dropped. *)
Definition drop_first (self : TCPHashTable) (test : stream -> bool) (l : list nat)
  : option (list table_event * TCPHashTable) :=
  match List.find (fun i => match ht_streams self !! i with
                            | Some s => sm_forward s && test s
                            | None => false
                            end) l with
  | Some i => TCPStream_flush self i
  | None => Some ([], self)
  end.

(** The loop over the hash table. *)
Fixpoint drop_buckets (hs : list Z) (self : TCPHashTable) (test : stream -> bool)
  : option (list table_event * TCPHashTable) :=
  match hs with
  | [] => Some ([], self)
  | h :: hs =>
      '(evs, self) ← drop_first self test (bucket self h);
      '(evs', self) ← drop_buckets hs self test;
      Some (evs ++ evs', self)
  end.

Definition table_indices : list Z := map Z.of_nat (seq 0 256).

Definition check_for_expired_packets (cfg : reassembler_configuration) (self : TCPHashTable) (id : Z)
  : option (list table_event * TCPHashTable) :=
  drop_buckets table_indices self
    (fun s => i32 (st_max_packet_id (sm_tcp s) + max_packets_expired cfg) <? i32 id).

Definition TCPHashTable_flush (self : TCPHashTable) : option (list table_event * TCPHashTable) :=
  drop_buckets table_indices self (fun _ => true).

Definition expire_oldest_stream (self : TCPHashTable) : option (list table_event * TCPHashTable) :=
  drop_first self (fun _ => true) (reverse (ht_sorted self)).

(** ** Processing packets *)

(** A new connection: the first number, and the event.  The SYN bit that is read of a UDP
    packet is bit 9 of its data offset, which is 0: the dissectors of [Packet] read headers
    of at most 116 bytes before its data. *)
Definition establish (s : stream) (ip : IP) : list table_event * TCPStream :=
  let self := sm_tcp s in
  if bool_decide (st_state self = PYTCP_NONE) then
    ([(Some (sm_addr s), PYTCP_JUST_EST, WPacket (Some ip))],
     with_st_state
       match ip_payload ip with
       | PTCP _ _ true tcp => with_st_next_seq self (u32 (tcp_seq tcp + 1))
       | PTCP _ _ false tcp => if sm_udp s then self else with_st_next_seq self (tcp_seq tcp)
       | _ => self
       end PYTCP_DATA)
  else ([], self).

Definition UDPStream_add (self : TCPStream) (data_len : Z) : TCPStream :=
  with_st_next_seq (with_st_state self PYTCP_DATA) (u32 (st_next_seq self + data_len)).

(** [add] of either class; [None] for a packet of the other protocol, which is read with the
    wrong structure.  A TCP packet with data sets the size of the other direction. *)
Definition stream_add (s r : stream) (t : TCPStream) (ip : IP)
  : option (list table_event * stream * stream) :=
  match ip_payload ip, sm_udp s with
  | PTCP _ _ _ tcp, false =>
      '(evs, t) ← TCPStream_add t (st_total_size (sm_tcp r)) (ip_id ip) tcp;
      Some (stream_events s evs, with_sm_tcp s t,
            if tcp_len tcp =? 0 then r
            else with_sm_tcp r {| st_state := st_state (sm_tcp r); st_queue := st_queue (sm_tcp r);
                                  st_max_packet_id := st_max_packet_id (sm_tcp r);
                                  st_next_seq := st_next_seq (sm_tcp r);
                                  st_total_size := st_total_size t |})
  | PUDP _ _ data_len data, true =>
      Some ([(Some (sm_addr s), PYTCP_DATA, WUdp (st_next_seq t) data)],
            with_sm_tcp s (UDPStream_add t data_len), r)
  | _, _ => None
  end.

(** A packet is given to its stream. *)
Definition feed (self : TCPHashTable) (i : nat) (ip : IP) : option (list table_event * TCPHashTable) :=
  s ← ht_streams self !! i;
  r ← ht_streams self !! sm_reverse s;
  let '(est, t) := establish s ip in
  '(evs, s', r') ← stream_add s r t ip;
  Some (est ++ evs,
        with_ht_streams self (<[i := s']> (<[sm_reverse s := r']> (ht_streams self)))
          (ht_outstanding self + zlen (st_queue (sm_tcp s')) - zlen (st_queue (sm_tcp s)))).

(** The limits that are checked after a packet. *)
Definition check_limits (cfg : reassembler_configuration) (self : TCPHashTable) (id : Z)
  : option (list table_event * TCPHashTable) :=
  '(evs, self) ← (if (ht_total_streams self >? max_number_of_streams cfg)
                     || (ht_outstanding self >? max_outstanding_skbuffs cfg)
                  then expire_oldest_stream self else Some ([], self));
  let self := with_ht_processed self (ht_packets_processed self + 1) in
  if ht_packets_processed self >? 2 * max_packets_expired cfg then
    '(evs', self) ← check_for_expired_packets cfg self id;
    Some (evs ++ evs', with_ht_processed self 0)
  else Some (evs, self).

Definition TCPHashTable_process (cfg : reassembler_configuration) (self : TCPHashTable)
    (packet : option IP) : option (Z * list table_event * TCPHashTable) :=
  let non_ip := fun self => Some (0, [(None, PYTCP_NON_TCP, WPacket packet)], self) in
  match packet with
  | None => non_ip self
  | Some ip =>
      match TCPHashTable_find_stream self ip with
      | (None, self) => non_ip self
      | (Some i, self) =>
          '(evs, self) ← feed self i ip;
          '(evs', self) ← check_limits cfg self (ip_id ip);
          Some (1, evs ++ evs', self)
      end
  end.

Fixpoint process_all (cfg : reassembler_configuration) (self : TCPHashTable) (ps : list (option IP))
  : option (list table_event * TCPHashTable) :=
  match ps with
  | [] => Some ([], self)
  | p :: ps =>
      '(_, evs, self) ← TCPHashTable_process cfg self p;
      '(evs', self) ← process_all cfg self ps;
      Some (evs ++ evs', self)
  end.

(** ** The invariant *)

(** The packets that wait in the streams of a list. *)
Definition queued (streams : gmap nat stream) (i : nat) : Z :=
  match streams !! i with Some s => zlen (st_queue (sm_tcp s)) | None => 0 end.

Definition waiting (streams : gmap nat stream) (l : list nat) : Z :=
  foldr Z.add 0 (map (queued streams) l).

(** Each stream is in the hash list of its address and in the sorted list, once; streams
    come in pairs of a forward and a reverse one; an address belongs to one connection; the
    counts are right. *)
Record table_ok (self : TCPHashTable) : Prop := {
  to_bucket h i : i ∈ bucket self h <->
    exists s, ht_streams self !! i = Some s /\ mkhash (sm_addr s) = h;
  to_bucket_nodup h : NoDup (bucket self h);
  to_sorted i : i ∈ ht_sorted self <-> is_Some (ht_streams self !! i);
  to_sorted_nodup : NoDup (ht_sorted self);
  to_reverse i s : ht_streams self !! i = Some s -> exists r,
    ht_streams self !! sm_reverse s = Some r /\ sm_reverse r = i /\
    sm_addr r = reverse_of (sm_addr s) /\ sm_forward r = negb (sm_forward s) /\
    sm_udp r = sm_udp s;
  to_addr i j s t : ht_streams self !! i = Some s -> ht_streams self !! j = Some t ->
    sm_addr s = sm_addr t -> j = i \/ j = sm_reverse s;
  to_fresh i : is_Some (ht_streams self !! i) -> (i < ht_next self)%nat;
  to_total : ht_total_streams self = zlen (ht_sorted self);
  to_outstanding : ht_outstanding self = waiting (ht_streams self) (ht_sorted self)
}.

Lemma mkhash_reverse a : mkhash (reverse_of a) = mkhash a.
Proof.
  unfold mkhash. cbn [reverse_of t_source t_dest t_saddr t_daddr].
  by replace (t_dest a + t_source a + t_daddr a + t_saddr a)
    with (t_source a + t_dest a + t_saddr a + t_daddr a) by lia.
Qed.

Lemma reverse_of_twice a : reverse_of (reverse_of a) = a.
Proof. by destruct a. Qed.

Lemma waiting_perm streams l l' : l ≡ₚ l' -> waiting streams l = waiting streams l'.
Proof. unfold waiting. induction 1; cbn; lia. Qed.

Lemma waiting_ext streams streams' l :
  (forall i, i ∈ l -> queued streams i = queued streams' i) -> waiting streams l = waiting streams' l.
Proof.
  intros H. unfold waiting. f_equal. apply map_ext_in. intros i Hi. by apply H, list_elem_of_In.
Qed.

Lemma list_move_perm i l : NoDup l -> i ∈ l -> list_move i l ≡ₚ l.
Proof.
  intros Hnd Hi. unfold list_move. apply NoDup_Permutation; [|done|].
  - constructor; [|by apply NoDup_filter]. rewrite list_elem_of_filter. tauto.
  - intros j. rewrite elem_of_cons, list_elem_of_filter.
    destruct (decide (j = i)) as [->|]; tauto.
Qed.

Lemma reverse_other self i s : table_ok self -> ht_streams self !! i = Some s -> sm_reverse s <> i.
Proof.
  intros Hok Hs E. destruct (to_reverse self Hok i s Hs) as (r & Hr & _ & _ & Hf & _).
  rewrite E, Hs in Hr. injection Hr as <-. by destruct (sm_forward s).
Qed.

Lemma sorted_perm_ok self l :
  table_ok self -> l ≡ₚ ht_sorted self -> table_ok (with_ht_sorted self l).
Proof.
  intros [] Hp. split; cbn [with_ht_sorted ht_streams ht_sorted ht_next ht_total_streams ht_outstanding];
    try done.
  - intros i. by rewrite Hp.
  - by rewrite Hp.
  - rewrite to_total0. unfold zlen. by rewrite Hp.
  - rewrite to_outstanding0. by apply waiting_perm.
Qed.

(** *** Finding *)

Lemma find_addr_spec self a :
  table_ok self ->
  match find_addr self a with
  | Some (i, s) => ht_streams self !! i = Some s /\ sm_addr s = a
  | None => forall i s, ht_streams self !! i = Some s -> sm_addr s <> a
  end.
Proof.
  intros Hok. unfold find_addr.
  destruct (List.find _ _) as [i|] eqn:E; cbn [mbind option_bind].
  - apply find_some in E as [Hi E%bool_decide_eq_true]. apply list_elem_of_In in Hi.
    apply (to_bucket self Hok) in Hi as (s & Hs & _). rewrite Hs in E |- *. cbn in E |- *.
    split; [done|congruence].
  - intros i s Hs <-. pose proof (find_none _ _ E i) as Hn. cbn beta in Hn.
    rewrite Hs, bool_decide_true in Hn by done. discriminate Hn.
    apply list_elem_of_In, (to_bucket self Hok). by eexists.
Qed.

Lemma touch_ok self i s :
  table_ok self -> ht_streams self !! i = Some s -> table_ok (touch self i s).
Proof.
  intros Hok Hs. apply sorted_perm_ok; [done|].
  destruct (to_reverse self Hok i s Hs) as (r & Hr & _).
  assert (Hp : list_move i (ht_sorted self) ≡ₚ ht_sorted self).
  { apply list_move_perm; [apply Hok|]. apply (to_sorted self Hok). by eexists. }
  rewrite <- Hp at 2. apply list_move_perm; rewrite Hp; [apply Hok|].
  apply (to_sorted self Hok). by eexists.
Qed.

Lemma create_bucket self a udp h :
  bucket (create_pair self a udp).2 h =
  bucket self h ++ if decide (mkhash a = h) then [ht_next self; S (ht_next self)] else [].
Proof.
  unfold create_pair, bucket. cbn [snd ht_table]. rewrite mkhash_reverse.
  destruct (decide (mkhash a = h)) as [<-|Hne].
  - rewrite !lookup_insert_eq. cbn [default from_option id]. by rewrite <- app_assoc.
  - by rewrite !lookup_insert_ne, app_nil_r by done.
Qed.

Lemma waiting_app streams l l' : waiting streams (l ++ l') = waiting streams l + waiting streams l'.
Proof. unfold waiting. induction l as [|i l IH]; cbn; [done|]. lia. Qed.

Lemma fresh_index self k : table_ok self -> (ht_next self <= k)%nat -> ht_streams self !! k = None.
Proof.
  intros Hok Hk. destruct (ht_streams self !! k) eqn:E; [|done]. exfalso.
  assert (k < ht_next self)%nat; [|lia]. apply (to_fresh _ Hok). by eexists.
Qed.

(** The streams of the table with a new pair. *)
Lemma create_streams self a udp k s :
  table_ok self -> let i := ht_next self in
  ht_streams (create_pair self a udp).2 !! k = Some s <->
    (k = S i /\ s = new_stream (reverse_of a) i (ht_con_id self + 1) false udp) \/
    (k = i /\ s = new_stream a (S i) (ht_con_id self) true udp) \/ ht_streams self !! k = Some s.
Proof.
  intros Hok i. pose proof (fresh_index self i Hok ltac:(done)) as Hi.
  pose proof (fresh_index self (S i) Hok ltac:(unfold i; lia)) as Hj.
  set (j := S i) in *. cbn [create_pair snd ht_streams]. fold i j.
  destruct (decide (k = j)) as [->|Hkj]; [rewrite lookup_insert_eq|rewrite lookup_insert_ne by done].
  - rewrite Hj. split; [intros [= <-]; by left|].
    intros [[_ ->]|[[? _]|?]]; [done|unfold j in *; lia|done].
  - destruct (decide (k = i)) as [->|Hki]; [rewrite lookup_insert_eq|rewrite lookup_insert_ne by done].
    + rewrite Hi. split; [intros [= <-]; right; by left|]. intros [[? _]|[[_ ->]|?]]; done.
    + split; [by right; right|]. intros [[? _]|[[? _]|?]]; done.
Qed.

(** The buckets and the count of what waits with a new pair. *)
Lemma create_members self a udp h k :
  table_ok self -> k ∈ bucket (create_pair self a udp).2 h <->
    exists s, ht_streams (create_pair self a udp).2 !! k = Some s /\ mkhash (sm_addr s) = h.
Proof.
  intros Hok. pose proof (fun k s => create_streams self a udp k s Hok) as Hl. cbv zeta in Hl.
  pose proof (to_bucket _ Hok) as Hb. set (i := ht_next self) in *. set (j := S i) in *.
  set (si := new_stream a j (ht_con_id self) true udp) in *.
  set (sj := new_stream (reverse_of a) i (ht_con_id self + 1) false udp) in *.
  rewrite create_bucket, elem_of_app, Hb. fold i j.
  split.
  + intros [(s & Hk & Hh)|Hk]; [exists s; split; [apply Hl; by right; right|done]|].
    destruct (decide (mkhash a = h)) as [Hh|]; [|by apply elem_of_nil in Hk].
    apply elem_of_cons in Hk as [->|Hk]; [exists si; split; [apply Hl; by right; left|done]|].
    apply list_elem_of_singleton in Hk as ->. exists sj. split; [apply Hl; by left|].
    cbn. by rewrite mkhash_reverse.
  + intros (s & Hk & Hh). apply Hl in Hk as [[-> ->]|[[-> ->]|Hk]].
    * right. cbn in Hh. rewrite mkhash_reverse in Hh. rewrite decide_True by done. right. by left.
    * right. cbn in Hh. rewrite decide_True by done. by left.
    * left. by exists s.
Qed.

Lemma create_members_once self a udp h : table_ok self -> NoDup (bucket (create_pair self a udp).2 h).
Proof.
  intros Hok. pose proof (to_bucket _ Hok) as Hb. pose proof (to_bucket_nodup _ Hok) as Hbn.
  set (i := ht_next self) in *. set (j := S i) in *.
  pose proof (fresh_index self i Hok ltac:(done)) as Hi.
  pose proof (fresh_index self j Hok ltac:(unfold j, i; lia)) as Hj.
  rewrite create_bucket. fold i j. apply NoDup_app. split_and!; [apply Hbn| |].
  + intros k Hk Hin. apply Hb in Hk as (s & Hk & _).
    destruct (decide (mkhash a = h)); [|by apply elem_of_nil in Hin].
    apply elem_of_cons in Hin as [->|Hin]; [congruence|].
    apply list_elem_of_singleton in Hin as ->. congruence.
  + destruct (decide (mkhash a = h)); [|constructor]. constructor; [|apply NoDup_singleton].
    intros E%list_elem_of_singleton. unfold j in E. lia.
Qed.

Lemma create_waiting self a udp :
  table_ok self ->
  ht_outstanding (create_pair self a udp).2
    = waiting (ht_streams (create_pair self a udp).2) (ht_sorted (create_pair self a udp).2).
Proof.
  intros Hok. pose proof (fun k s => create_streams self a udp k s Hok) as Hl. cbv zeta in Hl.
  pose proof (to_sorted _ Hok) as Hs. pose proof (to_outstanding _ Hok) as Ho.
  set (i := ht_next self) in *. set (j := S i) in *.
  set (si := new_stream a j (ht_con_id self) true udp) in *.
  set (sj := new_stream (reverse_of a) i (ht_con_id self + 1) false udp) in *.
  assert (Hq : forall l, (forall k, k ∈ l -> is_Some (ht_streams self !! k)) ->
    waiting (ht_streams (create_pair self a udp).2) l = waiting (ht_streams self) l).
  { intros l Hin. apply waiting_ext. intros k [s Hk]%Hin. unfold queued. rewrite Hk.
    by rewrite (proj2 (Hl k s)) by by right; right. }
  change (ht_outstanding (create_pair self a udp).2) with (ht_outstanding self).
  change (ht_sorted (create_pair self a udp).2) with ([j; i] ++ ht_sorted self).
  rewrite waiting_app, (Hq (ht_sorted self)) by (intros k Hk; by apply Hs).
  assert (queued (ht_streams (create_pair self a udp).2) j = 0) as Hqj
    by (unfold queued; by rewrite (proj2 (Hl j sj)) by by left).
  assert (queued (ht_streams (create_pair self a udp).2) i = 0) as Hqi
    by (unfold queued; by rewrite (proj2 (Hl i si)) by by right; left).
  unfold waiting at 1. cbn [map foldr]. rewrite Hqj, Hqi. lia.
Qed.

Lemma create_pair_ok self a udp :
  table_ok self -> (forall i s, ht_streams self !! i = Some s -> sm_addr s <> a /\ sm_addr s <> reverse_of a) ->
  table_ok (create_pair self a udp).2.
Proof.
  intros Hok Hnew. pose proof (fun k s => create_streams self a udp k s Hok) as Hl. cbv zeta in Hl.
  pose proof Hok as [Hb Hbn Hs Hsn Hr Ha Hf Ht Ho]. set (i := ht_next self) in *. set (j := S i) in *.
  pose proof (fresh_index self i Hok ltac:(done)) as Hi.
  pose proof (fresh_index self j Hok ltac:(unfold j, i; lia)) as Hj.
  set (si := new_stream a j (ht_con_id self) true udp) in *.
  set (sj := new_stream (reverse_of a) i (ht_con_id self + 1) false udp) in *.
  split.
  - intros h k. by apply create_members.
  - intros h. by apply create_members_once.
  - intros k. cbn [create_pair snd ht_sorted]. fold i j. rewrite !elem_of_cons, Hs.
    split.
    + intros [->|[->|[s Hk]]]; [exists sj|exists si|exists s]; apply Hl; tauto.
    + intros [s Hk]. apply Hl in Hk as [[-> _]|[[-> _]|Hk]]; [by left|right; by left|].
      right. right. by eexists.
  - cbn [create_pair snd ht_sorted]. fold i j. constructor; [|constructor; [|done]].
    + rewrite elem_of_cons, Hs, Hj. intros [?|[]]; [unfold j in *; lia|done].
    + rewrite Hs, Hi. by intros [].
  - intros k s Hk. apply Hl in Hk as [[-> ->]|[[-> ->]|Hk]].
    + exists si. split; [apply Hl; by right; left|]. cbn. by rewrite reverse_of_twice.
    + exists sj. split; [apply Hl; by left|]. done.
    + destruct (Hr k s Hk) as (r & ? & ?). exists r. split; [apply Hl; by right; right|done].
  - intros k l s t Hk Hk' E. apply Hl in Hk as [[-> ->]|[[-> ->]|Hk]];
      apply Hl in Hk' as [[-> ->]|[[-> ->]|Hk']]; try tauto;
      try (by apply Hnew in Hk as []); try (by apply Hnew in Hk' as [? ?]; cbn in E; congruence).
    by eapply Ha.
  - intros k [s Hk]. cbn [create_pair snd ht_next]. apply Hl in Hk as [[-> _]|[[-> _]|Hk]];
      [unfold j, i; lia|unfold i; lia|].
    assert (k < i)%nat by (apply Hf; by eexists). unfold i in *. lia.
  - cbn [create_pair snd ht_total_streams ht_sorted]. rewrite !zlen_cons. lia.
  - by apply create_waiting.
Qed.

Lemma find_stream_ok self ip :
  table_ok self ->
  table_ok (TCPHashTable_find_stream self ip).2 /\
  match ip_tuple ip with
  | None => TCPHashTable_find_stream self ip = (None, self)
  | Some (a, udp) => exists i s, (TCPHashTable_find_stream self ip).1 = Some i /\
      ht_streams (TCPHashTable_find_stream self ip).2 !! i = Some s /\ sm_addr s = a
  end.
Proof.
  intros Hok. unfold TCPHashTable_find_stream.
  destruct (ip_tuple ip) as [[a udp]|]; [|done].
  pose proof (find_addr_spec self a Hok) as Hfind.
  destruct (find_addr self a) as [[i s]|].
  { destruct Hfind as [Hs Ha]. split; [by apply touch_ok|]. by exists i, s. }
  pose proof (find_addr_spec self (reverse_of a) Hok) as Hfind'.
  destruct (find_addr self (reverse_of a)) as [[i s]|].
  { destruct Hfind' as [Hs Ha]. exfalso.
    destruct (to_reverse self Hok i s Hs) as (r & Hr & _ & Hra & _).
    apply (Hfind _ _ Hr). by rewrite Hra, Ha, reverse_of_twice. }
  destruct (create_pair self a udp) as [i self'] eqn:E.
  change self' with (i, self').2. rewrite <- E. split.
  { apply create_pair_ok; [done|]. intros k s Hk. split; [by eapply Hfind|by eapply Hfind']. }
  exists (ht_next self), (new_stream a (S (ht_next self)) (ht_con_id self) true udp).
  injection E as <- _. split_and!; [done| |done].
  cbn [create_pair snd ht_streams]. rewrite lookup_insert_ne by lia. apply lookup_insert_eq.
Qed.

(** *** Feeding *)

(** Streams that differ in their data only. *)
Definition same_shape (s t : stream) : Prop :=
  sm_addr s = sm_addr t /\ sm_reverse s = sm_reverse t /\ sm_forward s = sm_forward t /\
  sm_udp s = sm_udp t.

Lemma streams_ok self streams outstanding :
  table_ok self ->
  (forall i, match ht_streams self !! i, streams !! i with
             | Some s, Some t => same_shape s t
             | None, None => True
             | _, _ => False
             end) ->
  outstanding = waiting streams (ht_sorted self) ->
  table_ok (with_ht_streams self streams outstanding).
Proof.
  intros [Hb Hbn Hs Hsn Hr Ha Hf Ht Ho] Hsh ->.
  assert (Hto : forall i s, ht_streams self !! i = Some s ->
    exists t, streams !! i = Some t /\ same_shape s t).
  { intros i s Hi. specialize (Hsh i). rewrite Hi in Hsh.
    destruct (streams !! i) as [t|]; [by exists t|done]. }
  assert (Hof : forall i t, streams !! i = Some t ->
    exists s, ht_streams self !! i = Some s /\ same_shape s t).
  { intros i t Hi. specialize (Hsh i). rewrite Hi in Hsh.
    destruct (ht_streams self !! i) as [s|]; [by exists s|done]. }
  assert (His : forall i, is_Some (streams !! i) <-> is_Some (ht_streams self !! i)).
  { intros i. split; intros [? H]; [apply Hof in H as (s & -> & _)|apply Hto in H as (s & -> & _)];
      by eexists. }
  split; cbn [with_ht_streams ht_streams ht_sorted ht_next ht_total_streams ht_outstanding]; try done.
  - intros h i. change (bucket (with_ht_streams self streams _) h) with (bucket self h).
    rewrite Hb. split.
    + intros (s & Hi & Hh). destruct (Hto i s Hi) as (t & Ht' & Hsa & _). exists t.
      by rewrite <- Hsa.
    + intros (t & Hi & Hh). destruct (Hof i t Hi) as (s & Hs' & Hsa & _). exists s.
      by rewrite Hsa.
  - intros i. by rewrite His.
  - intros i t Hi. destruct (Hof i t Hi) as (s & Hs' & Hsa & Hsr & Hsf & Hsu).
    destruct (Hr i s Hs') as (r & Hr' & Hrr & Hra & Hrf & Hru).
    destruct (Hto _ r Hr') as (r' & Hr2 & Ha2 & Hr3 & Hf2 & Hu2).
    exists r'. rewrite <- Hsr, <- Hsa, <- Hsf, <- Hsu, <- Ha2, <- Hr3, <- Hf2, <- Hu2. done.
  - intros i j t t' Hi Hj E. destruct (Hof i t Hi) as (s & Hs' & Hsa & Hsr & _).
    destruct (Hof j t' Hj) as (s' & Hs2 & Hsa' & _). rewrite <- Hsr.
    eapply Ha; [done|done|congruence].
  - intros i Hi. by apply Hf, His.
Qed.

Lemma waiting_insert streams i s l :
  NoDup l -> i ∈ l ->
  waiting (<[i := s]> streams) l =
    waiting streams l + zlen (st_queue (sm_tcp s)) - queued streams i.
Proof.
  intros Hnd Hi. apply list_elem_of_split in Hi as (l1 & l2 & ->).
  apply NoDup_app in Hnd as (_ & Hl & Hnd). apply NoDup_cons in Hnd as [Hl2 _].
  rewrite !waiting_app.
  assert (forall k, k ∈ l1 \/ k ∈ l2 -> queued (<[i := s]> streams) k = queued streams k) as Hq.
  { intros k Hk. unfold queued. rewrite lookup_insert_ne; [done|]. intros <-.
    destruct Hk as [Hk|Hk]; [|done]. apply (Hl i Hk). by left. }
  rewrite (waiting_ext _ streams l1) by (intros; apply Hq; by left).
  unfold waiting at 2 4. cbn [map foldr]. fold (waiting (<[i:=s]> streams) l2). fold (waiting streams l2).
  rewrite (waiting_ext _ streams l2) by (intros; apply Hq; by right).
  unfold queued at 1. rewrite lookup_insert_eq. lia.
Qed.

Lemma stream_add_shape s r t ip evs s' r' :
  stream_add s r t ip = Some (evs, s', r') ->
  same_shape s s' /\ same_shape r r' /\ st_queue (sm_tcp r') = st_queue (sm_tcp r).
Proof.
  unfold stream_add. destruct (ip_payload ip) as [? ? ? tcp|? ? ? data|], (sm_udp s); try done.
  - destruct (TCPStream_add _ _ _ _) as [[evs1 t1]|]; [|done]. cbn [mbind option_bind].
    intros [= _ <- <-]. by destruct (tcp_len tcp =? 0).
  - by intros [= _ <- <-].
Qed.

Lemma feed_ok self i ip evs self' :
  table_ok self -> feed self i ip = Some (evs, self') ->
  table_ok self' /\ forall k, (is_Some (ht_streams self' !! k) <-> is_Some (ht_streams self !! k)).
Proof.
  intros Hok. unfold feed. destruct (ht_streams self !! i) as [s|] eqn:Hi; [|done]. mred.
  destruct (ht_streams self !! sm_reverse s) as [r|] eqn:Hr; [|done]. mred.
  destruct (establish s ip) as [est t].
  destruct (stream_add s r t ip) as [[[evs1 s'] r']|] eqn:E; [|done]. mred. intros [= _ <-].
  destruct (stream_add_shape _ _ _ _ _ _ _ E) as (Hss & Hsr & Hq).
  pose proof (reverse_other self i s Hok Hi) as Hne.
  assert (Hsh : forall k, match ht_streams self !! k,
    <[i := s']> (<[sm_reverse s := r']> (ht_streams self)) !! k with
    | Some s, Some t => same_shape s t | None, None => True | _, _ => False end).
  { intros k. destruct (decide (k = i)) as [->|]; [by rewrite lookup_insert_eq, Hi|].
    rewrite lookup_insert_ne by done.
    destruct (decide (k = sm_reverse s)) as [->|]; [by rewrite lookup_insert_eq, Hr|].
    rewrite lookup_insert_ne by done. by destruct (ht_streams self !! k). }
  split.
  - apply streams_ok; [done|exact Hsh|].
    rewrite (to_outstanding self Hok).
    rewrite !waiting_insert by first [exact (to_sorted_nodup self Hok) | apply (to_sorted self Hok); by eexists].
    unfold queued. rewrite lookup_insert_ne by done. rewrite Hr, Hi, Hq. lia.
  - intros k. specialize (Hsh k). cbn [with_ht_streams ht_streams].
    destruct (ht_streams self !! k), (<[i := s']> (<[sm_reverse s := r']> (ht_streams self)) !! k);
      try done; split; intros []; by eexists.
Qed.

(** *** Dropping *)

Lemma waiting_remove streams i l :
  NoDup l -> i ∈ l -> waiting streams (filter (.≠ i) l) = waiting streams l - queued streams i.
Proof.
  intros Hnd Hi. rewrite <- (waiting_perm _ _ _ (list_move_perm i l Hnd Hi)).
  unfold list_move, waiting at 2. cbn [map foldr]. unfold waiting. lia.
Qed.

Lemma filter_two (i j : nat) (l : list nat) : filter (fun k => k <> i /\ k <> j) l = filter (.≠ j) (filter (.≠ i) l).
Proof.
  rewrite list_filter_filter. apply list_filter_iff. intros k. tauto.
Qed.

Lemma flush_stream_ok self i s :
  table_ok self -> ht_streams self !! i = Some s ->
  exists evs self', TCPStream_flush self i = Some (evs, self') /\ table_ok self' /\
    if sm_forward s then
      ht_streams self' = delete (sm_reverse s) (delete i (ht_streams self)) /\
      forall h, bucket self' h = filter (fun k => k <> i /\ k <> sm_reverse s) (bucket self h)
    else self' = self.
Proof.
  intros Hok Hi. pose proof Hok as [Hb Hbn Hs Hsn Hr Ha Hf Ht Ho]. unfold TCPStream_flush.
  rewrite Hi. mred. destruct (sm_forward s); [|by exists [], self].
  destruct (Hr i s Hi) as (r & Hir & Hrr & Hra & _). rewrite Hir. mred.
  destruct (pad_loop_ends (sm_tcp s)) as (evs & t & -> & _). mred.
  destruct (pad_loop_ends (sm_tcp r)) as (evs' & t' & -> & _). mred.
  pose proof (reverse_other self i s Hok Hi) as Hne. set (j := sm_reverse s) in *.
  eexists _, _. split; [done|].
  assert (Hl : forall k u, delete j (delete i (ht_streams self)) !! k = Some u <->
    ht_streams self !! k = Some u /\ k <> i /\ k <> j).
  { intros k u. destruct (decide (k = j)) as [->|]; [rewrite lookup_delete_eq; naive_solver|].
    rewrite lookup_delete_ne by done.
    destruct (decide (k = i)) as [->|]; [rewrite lookup_delete_eq; naive_solver|].
    rewrite lookup_delete_ne by done. naive_solver. }
  match goal with |- table_ok ?t /\ _ => set (self' := t) end.
  assert (Hbk : forall h, bucket self' h = filter (fun k => k <> i /\ k <> j) (bucket self h)).
  { intros h. unfold bucket, self'. cbn [ht_table]. rewrite lookup_fmap.
    by destruct (ht_table self !! h). }
  assert (His : forall k, is_Some (ht_streams self' !! k) <->
    is_Some (ht_streams self !! k) /\ k <> i /\ k <> j).
  { intros k. split; [intros [u Hu%Hl]; naive_solver|]. intros [[u Hu] ?]. exists u. by apply Hl. }
  assert (Hjr : forall k u, ht_streams self !! k = Some u -> k <> i -> k <> j ->
    sm_reverse u <> i /\ sm_reverse u <> j).
  { intros k u Hk Hki Hkj. destruct (Hr k u Hk) as (v & Hv & Hvr & _).
    split; intros E; rewrite E in Hv; [rewrite Hi in Hv|rewrite Hir in Hv]; injection Hv as <-;
      [by apply Hkj|congruence]. }
  assert (Hji : j ∈ filter (.≠ i) (ht_sorted self))
    by (apply list_elem_of_filter; split; [done|]; apply Hs; by eexists).
  assert (Hii : i ∈ ht_sorted self) by (apply Hs; by eexists).
  split; [|by split].
  split.
  - intros h k. rewrite Hbk, list_elem_of_filter, Hb. split.
    + intros ([? ?] & u & Hk & Hh). exists u. split; [by apply Hl|done].
    + intros (u & Hk & Hh). apply Hl in Hk as (? & ? & ?). split; [done|by exists u].
  - intros h. rewrite Hbk. by apply NoDup_filter.
  - intros k. rewrite His. cbn [ht_sorted self']. rewrite list_elem_of_filter, Hs. tauto.
  - cbn [ht_sorted self']. by apply NoDup_filter.
  - intros k u Hk. apply Hl in Hk as (Hk & Hki & Hkj).
    destruct (Hr k u Hk) as (v & Hv & ?). exists v. split; [|done]. apply Hl.
    split; [done|]. by eapply Hjr.
  - intros k l u v Hk Hk'. apply Hl in Hk as [Hk _]. apply Hl in Hk' as [Hk' _]. by apply (Ha k l u v).
  - intros k Hk. apply Hf. by apply His in Hk as [].
  - cbn [ht_total_streams ht_sorted self']. rewrite Ht, filter_two.
    pose proof (list_move_perm i _ Hsn Hii) as P1.
    pose proof (list_move_perm j _ (NoDup_filter _ _ Hsn) Hji) as P2.
    apply Permutation_length in P1, P2. unfold list_move, zlen in *. cbn [length] in *. lia.
  - cbn [ht_outstanding ht_sorted ht_streams self']. rewrite Ho.
    rewrite (waiting_ext (delete j _) (ht_streams self)).
    + rewrite filter_two, !waiting_remove by (try done; by apply NoDup_filter).
      unfold queued at 1 2. rewrite Hi, Hir. lia.
    + intros k Hk. apply list_elem_of_filter in Hk as [[? ?] _]. unfold queued.
      by rewrite !lookup_delete_ne.
Qed.

Lemma drop_first_ok self test l :
  table_ok self -> exists evs self', drop_first self test l = Some (evs, self') /\ table_ok self'.
Proof.
  intros Hok. unfold drop_first. destruct (List.find _ l) as [i|] eqn:E; [|by exists [], self].
  apply find_some in E as [_ E]. destruct (ht_streams self !! i) as [s|] eqn:Hi; [|done].
  destruct (flush_stream_ok self i s Hok Hi) as (evs & self' & -> & Hok' & _). by eexists _, _.
Qed.

Lemma drop_buckets_ok hs self test :
  table_ok self -> exists evs self', drop_buckets hs self test = Some (evs, self') /\ table_ok self'.
Proof.
  revert self. induction hs as [|h hs IH]; intros self Hok; [by exists [], self|]. cbn [drop_buckets].
  destruct (drop_first_ok self test (bucket self h) Hok) as (evs & self1 & -> & Hok1). mred.
  destruct (IH self1 Hok1) as (evs' & self2 & -> & Hok2). mred. by eexists _, _.
Qed.

Lemma processed_ok self n : table_ok self -> table_ok (with_ht_processed self n).
Proof. intros []. by split. Qed.

Lemma check_limits_ok cfg self id :
  table_ok self -> exists evs self', check_limits cfg self id = Some (evs, self') /\ table_ok self'.
Proof.
  intros Hok. unfold check_limits.
  assert (exists evs self', (if (ht_total_streams self >? max_number_of_streams cfg)
      || (ht_outstanding self >? max_outstanding_skbuffs cfg)
    then expire_oldest_stream self else Some ([], self)) = Some (evs, self') /\ table_ok self')
    as (evs & self1 & -> & Hok1).
  { destruct (_ || _); [by apply drop_first_ok|by exists [], self]. }
  mred. destruct (_ >? _); [|eexists _, _; split; [done|by apply processed_ok]].
  destruct (drop_buckets_ok table_indices (with_ht_processed self1 (ht_packets_processed self1 + 1))
    (fun s => i32 (st_max_packet_id (sm_tcp s) + max_packets_expired cfg) <? i32 id))
    as (evs' & self2 & E & Hok2); [by apply processed_ok|].
  unfold check_for_expired_packets. rewrite E. mred. eexists _, _. split; [done|by apply processed_ok].
Qed.

Lemma process_ok cfg self packet n evs self' :
  table_ok self -> TCPHashTable_process cfg self packet = Some (n, evs, self') -> table_ok self'.
Proof.
  intros Hok. unfold TCPHashTable_process. destruct packet as [ip|]; [|by intros [= _ _ <-]].
  destruct (find_stream_ok self ip Hok) as [Hok1 _].
  destruct (TCPHashTable_find_stream self ip) as [[i|] self1]; cbn [snd] in Hok1;
    [|by intros [= _ _ <-]].
  destruct (feed self1 i ip) as [[evs1 self2]|] eqn:E; [|done]. mred.
  apply feed_ok in E as [Hok2 _]; [|done].
  destruct (check_limits_ok cfg self2 (ip_id ip) Hok2) as (evs2 & self3 & -> & Hok3). mred.
  by intros [= _ _ <-].
Qed.

Lemma empty_table_ok n : table_ok (TCPHashTable_Con n).
Proof.
  split; cbn; try done.
  - intros h i. unfold bucket. cbn. rewrite lookup_empty. cbn. rewrite elem_of_nil.
    split; [done|]. intros (s & Hs & _). by rewrite lookup_empty in Hs.
  - intros h. unfold bucket. cbn. rewrite lookup_empty. constructor.
  - intros i. rewrite lookup_empty, elem_of_nil. split; [done|by intros []].
  - constructor.
  - intros i. rewrite lookup_empty. by intros [].
Qed.

Lemma process_all_ok cfg self ps evs self' :
  table_ok self -> process_all cfg self ps = Some (evs, self') -> table_ok self'.
Proof.
  revert self evs. induction ps as [|p ps IH]; intros self evs Hok; cbn [process_all];
    [by intros [= _ <-]|].
  destruct (TCPHashTable_process cfg self p) as [[[n evs1] self1]|] eqn:E; [|done]. mred.
  apply process_ok in E; [|done].
  destruct (process_all cfg self1 ps) as [[evs2 self2]|] eqn:E2; [|done]. mred.
  intros [= _ <-]. by eapply IH.
Qed.

(** ** Flushing the table *)

Lemma filter_length_remove (i : nat) l :
  NoDup l -> i ∈ l -> length (filter (.≠ i) l) = pred (length l).
Proof.
  intros Hnd Hi. pose proof (Permutation_length (list_move_perm i l Hnd Hi)) as H.
  unfold list_move in H. cbn [length] in H. lia.
Qed.

Lemma forward_in_bucket self h i :
  table_ok self -> i ∈ bucket self h ->
  exists k s, k ∈ bucket self h /\ ht_streams self !! k = Some s /\ sm_forward s = true.
Proof.
  intros Hok Hi. apply (to_bucket self Hok) in Hi as (s & Hs & Hh).
  destruct (sm_forward s) eqn:Hf; [exists i, s; split_and!; [apply (to_bucket self Hok); by exists s|done|done]|].
  destruct (to_reverse self Hok i s Hs) as (r & Hr & _ & Ha & Hrf & _).
  exists (sm_reverse s), r. split_and!; [|done|by rewrite Hrf, Hf].
  apply (to_bucket self Hok). exists r. by rewrite Ha, mkhash_reverse.
Qed.

Lemma drop_first_bucket self h :
  table_ok self -> exists evs self', drop_first self (fun _ => true) (bucket self h) = Some (evs, self') /\
    table_ok self' /\ forall h', length (bucket self' h') =
      if decide (h' = h) then (length (bucket self h') - 2)%nat else length (bucket self h').
Proof.
  intros Hok. unfold drop_first. destruct (List.find _ (bucket self h)) as [i|] eqn:E.
  - apply find_some in E as [Hi E]. apply list_elem_of_In in Hi.
    destruct (ht_streams self !! i) as [s|] eqn:Hs; [|done]. rewrite andb_true_r in E.
    destruct (flush_stream_ok self i s Hok Hs) as (evs & self' & -> & Hok' & Hb).
    rewrite E in Hb. destruct Hb as [_ Hb]. eexists _, _. split_and!; [done|done|].
    intros h'. rewrite Hb, filter_two.
    destruct (to_reverse self Hok i s Hs) as (r & Hr & _ & Ha & _).
    apply (to_bucket self Hok) in Hi as (s' & Hs' & Hh). rewrite Hs in Hs'. injection Hs' as <-.
    assert (Hboth : forall k, k = i \/ k = sm_reverse s -> k ∈ bucket self h' <-> h' = h).
    { intros k Hk. rewrite (to_bucket self Hok). split.
      - intros (t & Ht & <-). destruct Hk as [-> | ->]; rewrite Ht in *; simplify_eq; [done|].
        by rewrite Ha, mkhash_reverse.
      - intros ->. destruct Hk as [-> | ->]; [by exists s|]. exists r. by rewrite Ha, mkhash_reverse. }
    pose proof (to_bucket_nodup self Hok h') as Hnd.
    destruct (decide (h' = h)) as [Hhh|Hhh].
    + rewrite !filter_length_remove; [lia|done|by apply Hboth; [left|]|by apply NoDup_filter|].
      apply list_elem_of_filter. split; [by apply (reverse_other self)|]. apply Hboth; [by right|done].
    + assert (forall k, k ∈ [i; sm_reverse s] -> k ∉ bucket self h') as Hno.
      { intros k Hk Hin. apply Hhh. apply (Hboth k); [|done].
        apply elem_of_cons in Hk as [->|Hk]; [by left|]. right. by apply list_elem_of_singleton in Hk. }
      rewrite <- filter_two, filter_id; [done|]. intros k Hk.
      split; intros ->.
      * apply (Hno i); [by left|done].
      * apply (Hno (sm_reverse s)); [right; by left|done].
  - exists [], self. split_and!; [done|done|]. intros h'.
    destruct (decide (h' = h)) as [->|]; [|done].
    destruct (bucket self h) as [|i l] eqn:Hb; [done|]. exfalso.
    destruct (forward_in_bucket self h i Hok) as (k & s & Hk & Hs & Hf); [rewrite Hb; by left|].
    rewrite Hb in Hk. apply list_elem_of_In in Hk. pose proof (find_none _ _ E k Hk) as Hn.
    cbn beta in Hn. by rewrite Hs, Hf in Hn.
Qed.

Lemma drop_all_buckets hs self :
  table_ok self -> NoDup hs ->
  exists evs self', drop_buckets hs self (fun _ => true) = Some (evs, self') /\ table_ok self' /\
    forall h, length (bucket self' h) =
      if decide (h ∈ hs) then (length (bucket self h) - 2)%nat else length (bucket self h).
Proof.
  revert self. induction hs as [|h hs IH]; intros self Hok Hnd.
  { exists [], self. split_and!; [done|done|]. intros h. rewrite decide_False; [done|].
    by apply not_elem_of_nil. }
  apply NoDup_cons in Hnd as [Hh Hnd]. cbn [drop_buckets].
  destruct (drop_first_bucket self h Hok) as (evs & self1 & -> & Hok1 & Hl1). mred.
  destruct (IH self1 Hok1 Hnd) as (evs' & self2 & -> & Hok2 & Hl2). mred.
  eexists _, _. split_and!; [done|done|]. intros h'. rewrite Hl2, Hl1.
  destruct (decide (h' ∈ hs)), (decide (h' = h)), (decide (h' ∈ h :: hs)) as [Hi|Hi];
    rewrite elem_of_cons in Hi; try done; subst; try tauto.
Qed.

(** C19: a flush is not complete.  Flushing the table drops one connection, of two streams,
    from each hash list, however many there are in it, so that of two connections with the
    same hash one stays in the table. *)
Theorem TCPHashTable_flush_one_each self :
  table_ok self ->
  exists evs self', TCPHashTable_flush self = Some (evs, self') /\ table_ok self' /\
    forall h, length (bucket self' h) = (length (bucket self h) - 2)%nat.
Proof.
  intros Hok. unfold TCPHashTable_flush.
  destruct (drop_all_buckets table_indices self Hok) as (evs & self' & -> & Hok' & Hl).
  - apply (bool_decide_unpack _). vm_compute. exact I.
  - eexists _, _. split_and!; [done|done|]. intros h. rewrite Hl.
    destruct (decide (h ∈ table_indices)) as [|Hh]; [done|].
    destruct (bucket self h) as [|i l] eqn:Hb; [done|]. exfalso. apply Hh.
    assert (i ∈ bucket self h) as Hi by (rewrite Hb; by left).
    apply (to_bucket self Hok) in Hi as (s & _ & <-). unfold table_indices, mkhash, TCP_STREAM_TABLE_SIZE.
    match goal with |- ?x mod 256 ∈ _ => pose proof (Z.mod_pos_bound x 256 ltac:(lia)) as Hm;
      generalize dependent (x mod 256) end.
    intros m Hm. apply list_elem_of_fmap. exists (Z.to_nat m). split; [lia|].
    apply elem_of_seq. lia.
Qed.

(** C17: the table stays consistent.  Whatever packets are given to a new table, in any run
    that gives a result, and whatever connections it drops on the way, each stream stays in
    the hash list of its address and in the sorted list, once, streams stay paired with their
    reverse, no address has two connections, and the counts of streams and of waiting packets
    are right. *)
Theorem TCPHashTable_consistent cfg con_id ps evs self :
  process_all cfg (TCPHashTable_Con con_id) ps = Some (evs, self) ->
  table_ok self /\ forall id, exists evs' self',
    check_for_expired_packets cfg self id = Some (evs', self') /\ table_ok self'.
Proof.
  intros H. assert (table_ok self) as Hok by (eapply process_all_ok; [apply empty_table_ok|exact H]).
  split; [done|]. intros id. by apply drop_buckets_ok.
Qed.

(** ** An example *)

(** A request, a question to a name server, and a packet that is not IP. *)
Definition web : tuple4 := {| t_source := 1025; t_dest := 80; t_saddr := 3232235777; t_daddr := 167772161 |}.
Definition dns : tuple4 := {| t_source := 1026; t_dest := 53; t_saddr := 3232235777; t_daddr := 167772162 |}.

Definition tcp_ip (a : tuple4) (syn : bool) (tcp : TCP) : option IP :=
  Some {| ip_id := 0; ip_saddr := t_saddr a; ip_daddr := t_daddr a;
          ip_payload := PTCP (t_source a) (t_dest a) syn tcp |}.
Definition udp_ip (a : tuple4) (data : list Z) : option IP :=
  Some {| ip_id := 0; ip_saddr := t_saddr a; ip_daddr := t_daddr a;
          ip_payload := PUDP (t_source a) (t_dest a) (zlen data) data |}.

Definition empty_tcp (seq : Z) : TCP := {| tcp_seq := seq; tcp_window := 4096; tcp_data := [] |}.

Definition capture : list (option IP) :=
  [udp_ip dns (lit "q"); tcp_ip web true (empty_tcp 999); None;
   tcp_ip (reverse_of web) true (empty_tcp 7000); tcp_ip web false (text_packet 4 3);
   udp_ip (reverse_of dns) (lit "r"); tcp_ip web false (text_packet 0 4);
   tcp_ip web false (text_packet 2 4); tcp_ip web false (empty_tcp 1007);
   tcp_ip web false (text_packet 10 4)].

Definition default_configuration : reassembler_configuration :=
  {| max_packets_expired := 10000; max_number_of_streams := 1000; max_outstanding_skbuffs := 100000 |}.

Lemma TCPHashTable_consistent_witness :
  exists evs self, process_all default_configuration (TCPHashTable_Con 0) capture = Some (evs, self) /\
    table_ok self.
Proof.
  destruct (process_all default_configuration (TCPHashTable_Con 0) capture) as [[evs self]|] eqn:E.
  - exists evs, self. split; [done|].
    exact (proj1 (TCPHashTable_consistent default_configuration 0 capture evs self E)).
  - vm_compute in E. discriminate E.
Defined.

(** Two connections with the same hash: a flush drops one of them. *)
Definition swapped : tuple4 := {| t_source := 80; t_dest := 1025; t_saddr := 3232235777; t_daddr := 167772161 |}.

Lemma TCPHashTable_flush_one_each_witness :
  exists evs self, process_all default_configuration (TCPHashTable_Con 0)
      [tcp_ip web true (empty_tcp 1); tcp_ip swapped true (empty_tcp 1)] = Some (evs, self) /\
    length (bucket self (mkhash web)) = 4%nat /\
    exists evs' self', TCPHashTable_flush self = Some (evs', self') /\
      length (bucket self' (mkhash web)) = 2%nat.
Proof.
  destruct (process_all default_configuration (TCPHashTable_Con 0)
    [tcp_ip web true (empty_tcp 1); tcp_ip swapped true (empty_tcp 1)]) as [[evs self]|] eqn:E;
    [|vm_compute in E; discriminate E].
  exists evs, self. split; [done|].
  assert (Hl : length (bucket self (mkhash web)) = 4%nat).
  { assert (E' : option_map (fun r => length (bucket r.2 (mkhash web))) (Some (evs, self)) = Some 4%nat)
      by (rewrite <- E; vm_compute; reflexivity).
    by injection E'. }
  split; [exact Hl|].
  destruct (TCPHashTable_flush_one_each self) as (evs' & self' & Hf & _ & Hb).
  { exact (process_all_ok default_configuration (TCPHashTable_Con 0) _ evs self (empty_table_ok 0) E). }
  exists evs', self'. split; [exact Hf|]. rewrite Hb, Hl. reflexivity.
Defined.
