(* ===== verification/TcpDemux.v ===== *)
(** * TcpDemux: the connections of a capture, one at a time (applications/pyflag/network/tcp.c)

    The specification of [TCPHashTable]: as long as no limit is passed, what the table does
    with the packets of an address is what a stream that gets only these packets does; and
    with it, the streams of a capture are put together whatever else is in it. *)
From S2P Require Import Prelude Tcp TcpTable.
From Stdlib Require Import Sorted.

(** ** The specification *)

(** The packets of an address, and the events of its stream. *)
Definition packets_of (a : tuple4) (ps : list (option IP)) : list IP :=
  filter (fun ip => fst <$> ip_tuple ip = Some a) (omap id ps).

Definition events_of (a : tuple4) (evs : list table_event) : list table_event :=
  filter (fun ev => ev.1.1 = Some a) evs.

(** A stream with no table around it. *)
Definition alone (a : tuple4) (udp : bool) (t : TCPStream) : stream :=
  with_sm_tcp (new_stream a 0 0 true udp) t.

Fixpoint run_alone (a : tuple4) (udp : bool) (t : TCPStream) (ps : list IP)
  : option (list table_event) :=
  match ps with
  | [] => Some []
  | ip :: ps =>
      let '(est, t) := establish (alone a udp t) ip in
      '(evs, s, _) ← stream_add (alone a udp t) (alone (reverse_of a) udp TCPStream_Con) t ip;
      evs' ← run_alone a udp (sm_tcp s) ps;
      Some (est ++ evs ++ evs')
  end.

(** ** Sizes do not matter *)

Definition resize (n : Z) (t : TCPStream) : TCPStream :=
  {| st_state := st_state t; st_queue := st_queue t; st_max_packet_id := st_max_packet_id t;
     st_next_seq := st_next_seq t; st_total_size := n |}.

(** Streams that differ in the sizes only. *)
Definition like (t u : TCPStream) : Prop := resize 0 t = resize 0 u.

Lemma like_resize t u : like t u -> exists n, t = resize n u.
Proof.
  destruct t as [? ? ? ? n], u. unfold like, resize. cbn. intros [= -> -> -> ->]. by exists n.
Qed.

Lemma resize_like n t : like (resize n t) t.
Proof. done. Qed.

Definition resized (n : Z) (r : option (list tcp_event * TCPStream)) : option (list tcp_event * TCPStream) :=
  r ≫= fun p => Some (p.1, resize n p.2).

Lemma pad_to_first_packet_resize n t :
  pad_to_first_packet (resize n t) = resized n (pad_to_first_packet t).
Proof.
  unfold pad_to_first_packet. cbn [resize st_queue st_next_seq]. destruct (st_queue t); [done|].
  by destruct (_ || _).
Qed.

Lemma pad_window_resize fuel last_seq n t :
  pad_window fuel last_seq (resize n t) = resized n (pad_window fuel last_seq t).
Proof.
  revert t. induction fuel as [|fuel IH]; intros t; cbn [pad_window resize st_queue];
    (destruct (st_queue t) as [|first rest]; [done|]); (destruct (_ <? _); [|done]); [done|].
  fold (resize n t). rewrite pad_to_first_packet_resize.
  destruct (pad_to_first_packet t) as [[evs t1]|]; [|done]. cbn. rewrite IH.
  by destruct (pad_window fuel last_seq t1) as [[evs' t2]|].
Qed.

Lemma process_queue_resize queue n t :
  process_queue queue (resize n t) = resized n (process_queue queue t).
Proof.
  revert t. induction queue as [|first rest IH]; intros t; cbn [process_queue]; [done|].
  cbn [resize st_next_seq st_state]. destruct (_ >=? _); [|destruct (_ >=? _)].
  - change (with_st_state (resize n t) PYTCP_RETRANSMISSION)
      with (resize n (with_st_state t PYTCP_RETRANSMISSION)). rewrite IH.
    by destruct (process_queue rest _) as [[evs t1]|].
  - match goal with |- context [process_queue rest (with_st_state (with_st_next_seq ?r ?m) PYTCP_DATA)] =>
      change (with_st_state (with_st_next_seq r m) PYTCP_DATA)
        with (resize n (with_st_state (with_st_next_seq t m) PYTCP_DATA)) end.
    rewrite IH. by destruct (process_queue rest _) as [[evs t1]|].
  - change (with_st_queue (resize n t) (first :: rest))
      with (resize n (with_st_queue t (first :: rest))).
    cbn [resize st_state]. fold (resize n (with_st_queue t (first :: rest))).
    destruct (bool_decide _); [|done]. apply pad_window_resize.
Qed.

(** What a stream does with a packet does not depend on the sizes. *)
Lemma TCPStream_add_like t u m m' id tcp :
  like t u -> exists evs t' u',
    TCPStream_add t m id tcp = Some (evs, t') /\ TCPStream_add u m' id tcp = Some (evs, u') /\ like t' u'.
Proof.
  intros [n ->]%like_resize. destruct (TCPStream_add_total u m' id tcp) as (evs & u' & E).
  rewrite E. unfold TCPStream_add in *. cbn [resize st_state st_queue st_next_seq st_total_size].
  destruct (tcp_len tcp =? 0).
  - injection E as <- <-. eexists _, _, _. split_and!; [done|done|]. done.
  - set (base := {| st_state := _ |}) in E. set (mine := {| st_state := _ |}).
    change mine with (resize (st_total_size mine) base). rewrite process_queue_resize, E.
    eexists _, _, _. split_and!; [done|done|]. apply resize_like.
Qed.

Lemma establish_like s udp t ip :
  sm_udp s = udp -> like (sm_tcp s) t -> exists est t1 t2,
    establish s ip = (est, t1) /\ establish (alone (sm_addr s) udp t) ip = (est, t2) /\ like t1 t2 /\
    st_queue t1 = st_queue (sm_tcp s).
Proof.
  intros <- [n E]%like_resize. unfold establish.
  cbn [alone with_sm_tcp new_stream sm_tcp sm_addr sm_udp]. rewrite E. cbn [resize st_state].
  case_bool_decide; [|by eexists _, _, _].
  destruct (ip_payload ip) as [? ? [] ?|? ? ? ?|], (sm_udp s); by eexists _, _, _.
Qed.

Lemma stream_add_like s r t u a ip :
  ip_tuple ip = Some (a, sm_udp s) -> sm_addr s = a -> like t u -> exists evs s' r' s2 r2,
    stream_add s r t ip = Some (evs, s', r') /\
    stream_add (alone a (sm_udp s) u) (alone (reverse_of a) (sm_udp s) TCPStream_Con) u ip
      = Some (evs, s2, r2) /\
    like (sm_tcp s') (sm_tcp s2) /\ like (sm_tcp r') (sm_tcp r).
Proof.
  unfold ip_tuple, stream_add. cbn [alone with_sm_tcp new_stream sm_udp sm_tcp sm_addr].
  intros Ha <- Hl. destruct (ip_payload ip) as [src dst syn tcp|src dst len data|]; [| |done];
    injection Ha as Ha <-.
  - destruct (TCPStream_add_like t u (st_total_size (sm_tcp r)) 0 (ip_id ip) tcp Hl)
      as (evs & t' & u' & -> & E & Hl').
    cbn [TCPStream_Con st_total_size]. rewrite E. mred.
    destruct (tcp_len tcp =? 0); eexists _, _, _, _, _; split_and!; try reflexivity; exact Hl'.
  - apply like_resize in Hl as [n ->]. eexists _, _, _, _, _. split_and!; reflexivity.
Qed.

(** Every event of a step is an event of its stream. *)
Definition at_address (a : tuple4) (evs : list table_event) : Prop :=
  Forall (fun ev => ev.1.1 = Some a) evs.

Lemma events_of_all a evs : at_address a evs -> events_of a evs = evs.
Proof. unfold at_address. rewrite Forall_forall. apply filter_id. Qed.

Lemma events_of_other a b evs : a <> b -> at_address a evs -> events_of b evs = [].
Proof.
  unfold at_address. intros Hab H. apply filter_none.
  eapply Forall_impl; [exact H|]. cbn beta. congruence.
Qed.

Lemma establish_at s ip : at_address (sm_addr s) (establish s ip).1.
Proof. unfold establish. case_bool_decide; by repeat constructor. Qed.

Lemma stream_add_at s r t ip evs s' r' :
  stream_add s r t ip = Some (evs, s', r') ->
  at_address (sm_addr s) evs.
Proof.
  unfold stream_add. destruct (ip_payload ip) as [? ? ? tcp|? ? ? data|], (sm_udp s); try done.
  - destruct (TCPStream_add _ _ _ _) as [[evs1 t1]|]; [|done]. mred. intros [= <- _ _].
    apply Forall_fmap, Forall_true. done.
  - intros [= <- _ _]. by repeat constructor.
Qed.

(** A packet makes the queue of its stream longer by one at most. *)
Lemma pad_first_shrinks t evs t' :
  pad_to_first_packet t = Some (evs, t') -> (length (st_queue t') <= length (st_queue t))%nat.
Proof.
  unfold pad_to_first_packet. destruct (st_queue t) as [|first rest] eqn:Hq; [done|].
  destruct (_ || _); intros [= _ <-]; cbn; [by rewrite Hq|lia].
Qed.

Lemma pad_window_shrinks fuel last_seq t evs t' :
  pad_window fuel last_seq t = Some (evs, t') -> (length (st_queue t') <= length (st_queue t))%nat.
Proof.
  revert t evs. induction fuel as [|fuel IH]; intros t evs; cbn [pad_window];
    destruct (st_queue t) as [|first rest] eqn:Hq; try (intros [= _ <-]; by rewrite Hq);
    (destruct (_ <? _); [|intros [= _ <-]; by rewrite Hq]); [done|].
  destruct (pad_to_first_packet t) as [[evs1 t1]|] eqn:E1; [|done]. mred.
  destruct (pad_window fuel last_seq t1) as [[evs2 t2]|] eqn:E2; [|done]. mred. intros [= _ <-].
  apply pad_first_shrinks in E1. apply IH in E2. rewrite Hq in E1. lia.
Qed.

Lemma process_queue_shrinks queue t evs t' :
  process_queue queue t = Some (evs, t') -> (length (st_queue t') <= length queue)%nat.
Proof.
  revert t evs. induction queue as [|first rest IH]; intros t evs; cbn [process_queue].
  { by intros [= _ <-]. }
  destruct (_ >=? _); [|destruct (_ >=? _)].
  1,2: destruct (process_queue rest _) as [[evs1 t1]|] eqn:E; [|done]; mred; intros [= _ <-];
    apply IH in E; cbn [length]; lia.
  case_bool_decide; [|by intros [= _ <-]]. intros E. by apply pad_window_shrinks in E.
Qed.

Lemma stream_add_queue s r t ip evs s' r' :
  stream_add s r t ip = Some (evs, s', r') ->
  zlen (st_queue (sm_tcp s')) <= zlen (st_queue t) + 1.
Proof.
  unfold stream_add. destruct (ip_payload ip) as [? ? ? tcp|? ? ? data|], (sm_udp s); try done.
  - destruct (TCPStream_add _ _ _ _) as [[evs1 t1]|] eqn:E; [|done]. mred. intros [= _ <- _].
    unfold TCPStream_add in E. destruct (_ =? _).
    + injection E as _ <-. cbn. lia.
    + apply process_queue_shrinks in E. rewrite insert_packet_perm in E. cbn [length] in E.
      cbn [with_sm_tcp sm_tcp]. unfold zlen. lia.
  - intros [= _ <- _]. cbn. lia.
Qed.

(** ** The simulation *)

Section Demux.

(** The protocol of each address: the same in both directions. *)
Variable proto : tuple4 -> bool.
Hypothesis Hproto : forall a, proto (reverse_of a) = proto a.

(** The connections that occur, and the limits, which their number and the number [max] of
    packets do not pass. *)
Variable conns : list tuple4.
Variable cfg : reassembler_configuration.
Variable max : Z.
Hypothesis Hstreams : 2 * zlen conns <= max_number_of_streams cfg.
Hypothesis Hqueued : max <= max_outstanding_skbuffs cfg.
Hypothesis Hexpired : max <= 2 * max_packets_expired cfg.

(** A packet of one of the connections, of the protocol of its address. *)
Definition expected (p : option IP) : Prop :=
  match p ≫= ip_tuple with
  | Some (a, udp) => udp = proto a /\ a <> reverse_of a /\ (a ∈ conns \/ reverse_of a ∈ conns)
  | None => True
  end.

(** After [n] packets: the streams of the table are the streams [f] that run alone; those
    that are not in it got no packet. *)
Record sim (self : TCPHashTable) (f : tuple4 -> TCPStream) (cs : list tuple4) (n : Z) : Prop := {
  sim_ok : table_ok self;
  sim_stream i s : ht_streams self !! i = Some s ->
    like (sm_tcp s) (f (sm_addr s)) /\ sm_udp s = proto (sm_addr s) /\
    sm_addr s <> reverse_of (sm_addr s);
  sim_none a : (forall i s, ht_streams self !! i = Some s -> sm_addr s <> a) -> f a = TCPStream_Con;
  sim_conns c : c ∈ cs -> c ∈ conns /\ exists i s, ht_streams self !! i = Some s /\ sm_addr s = c;
  sim_nodup : NoDup cs;
  sim_total : ht_total_streams self = 2 * zlen cs;
  sim_waiting : ht_outstanding self <= n;
  sim_processed : ht_packets_processed self <= n
}.

Lemma sim_one self f cs n i j s t :
  sim self f cs n -> ht_streams self !! i = Some s -> ht_streams self !! j = Some t ->
  sm_addr s = sm_addr t -> j = i.
Proof.
  intros Hs Hi Hj E. pose proof (sim_ok _ _ _ _ Hs) as Hok.
  destruct (to_addr self Hok i j s t Hi Hj E) as [->| ->]; [done|].
  destruct (to_reverse self Hok i s Hi) as (r & Hr & _ & Ha & _).
  rewrite Hr in Hj. injection Hj as ->.
  destruct (sim_stream _ _ _ _ Hs i s Hi) as (_ & _ & Hne). exfalso. by rewrite <- Ha, <- E in Hne.
Qed.

Lemma conns_bound cs : NoDup cs -> (forall c, c ∈ cs -> c ∈ conns) -> zlen cs <= zlen conns.
Proof.
  intros Hnd Hin. assert (cs ⊆+ conns) as Hsub.
  { apply NoDup_submseteq; [done|]. intros x Hx. by apply Hin. }
  apply submseteq_length in Hsub. unfold zlen. lia.
Qed.

Lemma create_sim self f cs n a :
  sim self f cs n -> (forall i s, ht_streams self !! i = Some s -> sm_addr s <> a /\ sm_addr s <> reverse_of a) ->
  a <> reverse_of a -> a ∈ conns \/ reverse_of a ∈ conns ->
  exists c, sim (create_pair self a (proto a)).2 f (c :: cs) n.
Proof.
  intros Hs Hnew Hne Hin. pose proof Hs as [Hok Hst Hno Hc Hnd Ht Hw Hp].
  pose proof (create_pair_ok self a (proto a) Hok Hnew) as Hok'.
  set (i := ht_next self). set (s1 := new_stream a (S i) (ht_con_id self) true (proto a)).
  set (s2 := new_stream (reverse_of a) i (ht_con_id self + 1) false (proto a)).
  assert (Hl : ht_streams (create_pair self a (proto a)).2 = <[S i := s2]> (<[i := s1]> (ht_streams self)))
    by done.
  assert (H1 : ht_streams (create_pair self a (proto a)).2 !! i = Some s1)
    by (rewrite Hl, lookup_insert_ne by lia; apply lookup_insert_eq).
  assert (H2 : ht_streams (create_pair self a (proto a)).2 !! S i = Some s2)
    by (rewrite Hl; apply lookup_insert_eq).
  assert (Hfresh : forall k s, ht_streams self !! k = Some s -> (k < i)%nat)
    by (intros k s Hk; apply (to_fresh self Hok); by eexists).
  assert (Hold : forall k s, ht_streams self !! k = Some s ->
    ht_streams (create_pair self a (proto a)).2 !! k = Some s).
  { intros k s Hk. pose proof (Hfresh k s Hk). by rewrite Hl, !lookup_insert_ne by lia. }
  assert (Hall : forall k s, ht_streams (create_pair self a (proto a)).2 !! k = Some s ->
    ht_streams self !! k = Some s \/ s = s1 \/ s = s2).
  { intros k s. rewrite Hl. intros [(_ & <-)|(_ & [(_ & <-)|(_ & Hk)]%lookup_insert_Some)]%lookup_insert_Some;
      auto. }
  assert (exists c, (c = a \/ c = reverse_of a) /\ c ∈ conns) as (c & Hca & Hcc)
    by (destruct Hin; [by exists a; auto|by exists (reverse_of a); auto]).
  exists c. split; [done| | | | | | |].
  - intros k s Hk. destruct (Hall k s Hk) as [Hk'|[->| ->]]; [by eapply Hst| |];
      cbn [new_stream sm_tcp sm_addr sm_udp s1 s2].
    + rewrite Hno by (intros; by eapply Hnew). done.
    + rewrite Hno by (intros; by eapply Hnew). rewrite Hproto, reverse_of_twice.
      split_and!; [done|done|congruence].
  - intros b Hb. apply Hno. intros k s Hk. by apply (Hb k s), Hold.
  - intros d [->|Hd]%elem_of_cons.
    + split; [done|]. destruct Hca as [->| ->]; [by exists i, s1|by exists (S i), s2].
    + destruct (Hc d Hd) as (? & k & s & Hk & ?). split; [done|]. exists k, s. split; [by apply Hold|done].
  - constructor; [|done]. intros Hcs. destruct (Hc c Hcs) as (_ & k & s & Hk & E).
    destruct (Hnew k s Hk) as [? ?]. destruct Hca as [->| ->]; congruence.
  - cbn [create_pair snd ht_total_streams]. rewrite Ht. zlen_lia.
  - exact Hw.
  - exact Hp.
Qed.

Lemma sim_sorted self f cs n l :
  sim self f cs n -> table_ok (with_ht_sorted self l) -> sim (with_ht_sorted self l) f cs n.
Proof. intros [] ?. by split. Qed.

(** The stream of a packet is found or made. *)
Lemma find_sim self f cs n ip a :
  sim self f cs n -> ip_tuple ip = Some (a, proto a) -> expected (Some ip) ->
  exists i s self' cs', TCPHashTable_find_stream self ip = (Some i, self') /\
    sim self' f cs' n /\ ht_streams self' !! i = Some s /\ sm_addr s = a.
Proof.
  intros Hs Ha He. unfold expected in He. cbn in He. rewrite Ha in He. destruct He as (_ & Hne & Hin).
  pose proof (sim_ok _ _ _ _ Hs) as Hok. unfold TCPHashTable_find_stream. rewrite Ha.
  pose proof (find_addr_spec self a Hok) as Hfind.
  destruct (find_addr self a) as [[i s]|].
  { destruct Hfind as [Hi Hsa]. exists i, s, (touch self i s), cs. split_and!; try done.
    apply sim_sorted; [done|]. by apply touch_ok. }
  pose proof (find_addr_spec self (reverse_of a) Hok) as Hfind'.
  destruct (find_addr self (reverse_of a)) as [[i s]|].
  { destruct Hfind' as [Hi Hsa]. exfalso.
    destruct (to_reverse self Hok i s Hi) as (r & Hr & _ & Hra & _).
    apply (Hfind _ _ Hr). by rewrite Hra, Hsa, reverse_of_twice. }
  destruct (create_sim self f cs n a Hs) as [c Hsim]; [|done|done|].
  { intros k s Hk. split; [by eapply Hfind|by eapply Hfind']. }
  exists (ht_next self), (new_stream a (S (ht_next self)) (ht_con_id self) true (proto a)),
    (create_pair self a (proto a)).2, (c :: cs).
  split_and!; [done|done| |done].
  cbn [create_pair snd ht_streams]. rewrite lookup_insert_ne by lia. apply lookup_insert_eq.
Qed.

(** The packet is given to the stream, and to the one that runs alone. *)
Lemma feed_sim self f cs n ip a i s :
  sim self f cs n -> ip_tuple ip = Some (a, proto a) -> ht_streams self !! i = Some s -> sm_addr s = a ->
  exists est t evs s2 r2 self',
    establish (alone a (proto a) (f a)) ip = (est, t) /\
    stream_add (alone a (proto a) t) (alone (reverse_of a) (proto a) TCPStream_Con) t ip
      = Some (evs, s2, r2) /\
    feed self i ip = Some (est ++ evs, self') /\
    sim self' (fun b => if decide (b = a) then sm_tcp s2 else f b) cs (n + 1) /\
    ht_packets_processed self' = ht_packets_processed self /\
    at_address a (est ++ evs).
Proof.
  intros Hs Ha Hi Hsa. pose proof Hs as [Hok Hst Hno Hc Hnd Ht Hw Hp].
  destruct (Hst i s Hi) as (Hlike & Hu & Hne).
  destruct (to_reverse self Hok i s Hi) as (r & Hr & _ & Hra & _).
  destruct (establish_like s (sm_udp s) (f a) ip eq_refl) as (est & t1 & t2 & E1 & E2 & Hl & Hq);
    [by rewrite <- Hsa|].
  destruct (stream_add_like s r t1 t2 a ip) as (evs & s' & r' & s2 & r2 & E3 & E4 & Hl1 & Hl2);
    [by rewrite Hu, Hsa|done|done|].
  rewrite Hsa in E2, Hu. rewrite Hu in E2, E4.
  assert (Ef : feed self i ip = Some (est ++ evs,
    with_ht_streams self (<[i := s']> (<[sm_reverse s := r']> (ht_streams self)))
      (ht_outstanding self + zlen (st_queue (sm_tcp s')) - zlen (st_queue (sm_tcp s))))).
  { unfold feed. rewrite Hi. mred. rewrite Hr. mred. rewrite E1, E3. by mred. }
  pose proof Ef as Hok'. apply feed_ok in Hok' as [Hok' _]; [|done].
  destruct (stream_add_shape _ _ _ _ _ _ _ E3) as (Hss & Hsr & _).
  pose proof (reverse_other self i s Hok Hi) as Hirne.
  eexists est, t2, evs, s2, r2, _. split_and!; [exact E2|exact E4|exact Ef| |done|].
  - assert (Hall : forall k u, <[i := s']> (<[sm_reverse s := r']> (ht_streams self)) !! k = Some u ->
      exists u0, ht_streams self !! k = Some u0 /\ same_shape u0 u /\
        (if decide (k = i) then like (sm_tcp u) (sm_tcp s2) else like (sm_tcp u) (sm_tcp u0))).
    { intros k u [(<- & <-)|(Hki & [(<- & <-)|(_ & Hk)]%lookup_insert_Some)]%lookup_insert_Some.
      - exists s. by rewrite decide_True.
      - exists r. by rewrite decide_False by congruence.
      - exists u. by rewrite decide_False by congruence. }
    split; cbn [with_ht_streams ht_streams ht_total_streams ht_outstanding ht_packets_processed];
      try done.
    + intros k u Hk. destruct (Hall k u Hk) as (u0 & Hk0 & (Ea & _ & _ & Eu) & Hlk).
      destruct (Hst k u0 Hk0) as (Hlu & Huu & Hnu). rewrite <- Ea, <- Eu.
      split; [|done]. destruct (decide (k = i)) as [->|Hki].
      * rewrite Hi in Hk0. injection Hk0 as <-. by rewrite decide_True.
      * rewrite decide_False; [by etrans|]. intros E. apply Hki.
        apply (sim_one self f cs n i k s u0 Hs Hi Hk0). congruence.
    + intros b Hb. destruct (decide (b = a)) as [->|].
      * exfalso. apply (Hb i s'); [apply lookup_insert_eq|]. destruct Hss as [<- _]. done.
      * apply Hno. intros k u Hk E. destruct (decide (k = i)) as [->|Hki]; [congruence|].
        destruct (decide (k = sm_reverse s)) as [->|Hkr].
        -- apply (Hb (sm_reverse s) r'); [by rewrite lookup_insert_ne, lookup_insert_eq|].
           destruct Hsr as [<- _]. congruence.
        -- apply (Hb k u); [by rewrite !lookup_insert_ne|done].
    + intros c Hcc. destruct (Hc c Hcc) as (? & k & u & Hk & Ec). split; [done|].
      destruct (decide (k = i)) as [->|Hki].
      { exists i, s'. split; [apply lookup_insert_eq|]. destruct Hss as [<- _]. congruence. }
      exists k. rewrite lookup_insert_ne by done.
      destruct (decide (k = sm_reverse s)) as [->|Hkr].
      { exists r'. split; [apply lookup_insert_eq|]. destruct Hsr as [<- _]. congruence. }
      exists u. by rewrite lookup_insert_ne.
    + apply stream_add_queue in E3. rewrite Hq in E3. lia.
    + lia.
  - apply Forall_app. split.
    + rewrite <- Hsa. change est with (est, t1).1. rewrite <- E1. apply establish_at.
    + rewrite <- Hsa. by eapply stream_add_at.
Qed.

(** A packet of an address: its stream alone does the same. *)
Lemma process_sim self f cs n ip a :
  sim self f cs n -> n < max -> ip_tuple ip = Some (a, proto a) -> expected (Some ip) ->
  exists est t evs s2 r2 self' cs',
    establish (alone a (proto a) (f a)) ip = (est, t) /\
    stream_add (alone a (proto a) t) (alone (reverse_of a) (proto a) TCPStream_Con) t ip
      = Some (evs, s2, r2) /\
    TCPHashTable_process cfg self (Some ip) = Some (1, est ++ evs, self') /\
    sim self' (fun b => if decide (b = a) then sm_tcp s2 else f b) cs' (n + 1) /\
    at_address a (est ++ evs).
Proof.
  intros Hs Hn Ha He.
  destruct (find_sim self f cs n ip a Hs Ha He) as (i & s & self1 & cs' & E & Hs1 & Hi & Hsa).
  destruct (feed_sim self1 f cs' n ip a i s Hs1 Ha Hi Hsa)
    as (est & t & evs & s2 & r2 & self2 & E1 & E2 & E3 & Hs2 & Hp & Hat).
  exists est, t, evs, s2, r2, (with_ht_processed self2 (ht_packets_processed self2 + 1)), cs'.
  pose proof Hs2 as [Hok _ _ Hc Hnd Ht Hw _].
  pose proof (sim_processed _ _ _ _ Hs1) as Hp1.
  assert (Hcs : zlen cs' <= zlen conns) by (apply conns_bound; [done|]; intros; by apply Hc).
  split_and!; [done|done| | |done].
  - unfold TCPHashTable_process. rewrite E, E3. mred. unfold check_limits.
    replace (ht_total_streams self2 >? max_number_of_streams cfg) with false by lia.
    replace (ht_outstanding self2 >? max_outstanding_skbuffs cfg) with false by lia.
    cbn [orb mbind option_bind with_ht_processed ht_packets_processed]. rewrite Hp.
    replace (ht_packets_processed self1 + 1 >? 2 * max_packets_expired cfg) with false by lia.
    cbn [mbind option_bind]. by rewrite (app_nil_r (est ++ evs)).
  - destruct Hs2. split; try done; [by apply processed_ok|].
    cbn [with_ht_processed ht_packets_processed]. lia.
Qed.

Lemma events_of_app a evs evs' : events_of a (evs ++ evs') = events_of a evs ++ events_of a evs'.
Proof. apply filter_app. Qed.

Lemma process_all_sim ps self f cs n :
  sim self f cs n -> n + zlen ps <= max -> Forall expected ps ->
  exists evs self', process_all cfg self ps = Some (evs, self') /\
    forall a, run_alone a (proto a) (f a) (packets_of a ps) = Some (events_of a evs).
Proof.
  revert self f cs n. induction ps as [|p ps IH]; intros self f cs n Hs Hn Hex.
  { by exists [], self. }
  apply Forall_cons in Hex as [He Hex]. rewrite zlen_cons in Hn. pose proof (zlen_nonneg ps).
  cbn [process_all].
  assert (Hskip : forall q : option IP, q ≫= ip_tuple = None ->
    (forall a, packets_of a (q :: ps) = packets_of a ps) /\
    TCPHashTable_process cfg self q = Some (0, [(None, PYTCP_NON_TCP, WPacket q)], self)).
  { intros [ip|] Hq; [|done]. cbn in Hq. split.
    - intros a. unfold packets_of. cbn [omap list_omap id]. apply filter_cons_False. by rewrite Hq.
    - unfold TCPHashTable_process, TCPHashTable_find_stream. by rewrite Hq. }
  destruct (p ≫= ip_tuple) as [[a udp]|] eqn:Ha.
  - destruct p as [ip|]; [|done]. cbn in Ha. pose proof He as Hu. unfold expected in Hu. cbn in Hu.
    rewrite Ha in Hu. destruct Hu as (-> & _).
    destruct (process_sim self f cs n ip a Hs ltac:(lia) Ha He)
      as (est & t & evs & s2 & r2 & self1 & cs' & E1 & E2 & -> & Hs1 & Hat). mred.
    destruct (IH self1 _ cs' (n + 1) Hs1 ltac:(lia) Hex) as (evs' & self2 & -> & Hrun). mred.
    eexists _, _. split; [done|]. intros b. specialize (Hrun b). rewrite events_of_app.
    unfold packets_of. cbn [omap list_omap id]. destruct (decide (b = a)) as [->|Hba].
    + rewrite filter_cons_True by (by rewrite Ha). cbn [run_alone]. rewrite E1, E2. mred.
      fold (packets_of a ps). rewrite Hrun. mred.
      by rewrite (events_of_all a (est ++ evs)), <- app_assoc.
    + rewrite filter_cons_False by (rewrite Ha; cbn; congruence). fold (packets_of b ps).
      by rewrite (events_of_other a b).
  - destruct (Hskip p Ha) as [Hpk ->]. mred.
    destruct (IH self f cs n Hs ltac:(lia) Hex) as (evs & self' & -> & Hrun). mred.
    eexists _, _. split; [done|]. intros a. by rewrite Hpk, Hrun.
Qed.

Lemma sim_empty con_id : sim (TCPHashTable_Con con_id) (fun _ => TCPStream_Con) [] 0.
Proof.
  split; [apply empty_table_ok|intros i s H; cbn in H; by rewrite lookup_empty in H|done| |constructor|done..].
  intros c Hc. by apply elem_of_nil in Hc.
Qed.

End Demux.

(** C4: connections are kept apart, when each address belongs to one protocol.  However the
    packets of the connections of a capture, TCP and UDP, and others are mixed: as long as
    the limits on streams, waiting packets and packets before a check are not passed, every
    packet is of one of the given connections, no connection is from an address and port to
    itself, and no four addresses and ports are used by TCP and by UDP in one capture (the
    lookup does not compare the protocol and would mix them), the table takes every packet,
    and the callback gets for each address what it gets from a stream that sees the packets
    of that address only. *)
Theorem TCPHashTable_keeps_apart proto conns cfg con_id ps :
  (forall a, proto (reverse_of a) = proto a) ->
  2 * zlen conns <= max_number_of_streams cfg -> zlen ps <= max_outstanding_skbuffs cfg ->
  zlen ps <= 2 * max_packets_expired cfg -> Forall (expected proto conns) ps ->
  exists evs self', process_all cfg (TCPHashTable_Con con_id) ps = Some (evs, self') /\
    forall a, run_alone a (proto a) TCPStream_Con (packets_of a ps) = Some (events_of a evs).
Proof.
  intros Hproto Hs Hq He Hps.
  apply (process_all_sim proto Hproto conns cfg (zlen ps) Hs Hq He ps _ (fun _ => TCPStream_Con) [] 0);
    [apply sim_empty|lia|done].
Qed.

(** ** Captures *)

(** The TCP packets with data of a stream, and what it delivered. *)
Definition data_packets (ips : list IP) : list TCP :=
  omap (fun ip => match ip_payload ip with
                  | PTCP _ _ _ tcp => if tcp_len tcp =? 0 then None else Some tcp
                  | _ => None
                  end) ips.

Definition stream_data (evs : list table_event) : list Z :=
  flat_map (fun ev => match ev with
                      | (_, PYTCP_DATA, WTcp tcp) => tcp_data tcp
                      | (_, PYTCP_DATA, WUdp _ data) => data
                      | _ => []
                      end) evs.

(** The number the data of a stream starts from, by its first packet. *)
Definition start_number (ip : IP) : option Z :=
  match ip_payload ip with
  | PTCP _ _ true tcp => Some (u32 (tcp_seq tcp + 1))
  | PTCP _ _ false tcp => Some (tcp_seq tcp)
  | _ => None
  end.

Lemma stream_data_app evs evs' : stream_data (evs ++ evs') = stream_data evs ++ stream_data evs'.
Proof. apply flat_map_app. Qed.

Lemma stream_data_events s evs : stream_data (stream_events s evs) = delivered evs.
Proof.
  unfold stream_data, stream_events, delivered. induction evs as [|[st tcp] evs IH]; [done|].
  cbn [map flat_map]. rewrite IH. by destruct st.
Qed.

Lemma pad_first_state t evs t' :
  pad_to_first_packet t = Some (evs, t') -> st_state t' = st_state t \/ st_state t' = PYTCP_DATA.
Proof.
  unfold pad_to_first_packet. destruct (st_queue t); [done|].
  destruct (_ || _); intros [= _ <-]; [by left|by right].
Qed.

Lemma pad_window_state fuel last_seq t evs t' :
  pad_window fuel last_seq t = Some (evs, t') -> st_state t <> PYTCP_NONE -> st_state t' <> PYTCP_NONE.
Proof.
  revert t evs. induction fuel as [|fuel IH]; intros t evs; cbn [pad_window];
    destruct (st_queue t) as [|first rest]; try (by intros [= _ <-]);
    (destruct (_ <? _); [|by intros [= _ <-]]); [done|].
  destruct (pad_to_first_packet t) as [[evs1 t1]|] eqn:E1; [|done]. mred.
  destruct (pad_window fuel last_seq t1) as [[evs2 t2]|] eqn:E2; [|done]. mred. intros [= _ <-] Ht.
  apply (IH _ _ E2). by destruct (pad_first_state _ _ _ E1) as [-> | ->].
Qed.

Lemma process_queue_state queue t evs t' :
  process_queue queue t = Some (evs, t') -> st_state t <> PYTCP_NONE -> st_state t' <> PYTCP_NONE.
Proof.
  revert t evs. induction queue as [|first rest IH]; intros t evs; cbn [process_queue].
  { by intros [= _ <-]. }
  destruct (_ >=? _); [|destruct (_ >=? _)].
  1,2: destruct (process_queue rest _) as [[evs1 t1]|] eqn:E; [|done]; mred; intros [= _ <-] _;
    by apply (IH _ _ E).
  case_bool_decide; [|by intros [= _ <-]]. intros E Ht. by apply (pad_window_state _ _ _ _ _ E).
Qed.

Lemma TCPStream_add_state t m id tcp evs t' :
  TCPStream_add t m id tcp = Some (evs, t') -> st_state t <> PYTCP_NONE -> st_state t' <> PYTCP_NONE.
Proof.
  unfold TCPStream_add. destruct (_ =? _); [by intros [= _ <-]|].
  intros E Ht. by apply (process_queue_state _ _ _ _ E).
Qed.

(** A stream alone, on packets with its data. *)
Lemma run_alone_reassembles a ips b S ps t out k :
  0 <= b -> b + zlen S < 4294967296 -> st_state t <> PYTCP_NONE -> reassembling b S ps t out k ->
  Forall (fun ip => exists src dst syn tcp, ip_payload ip = PTCP src dst syn tcp) ips ->
  Forall (segment b S) (ps ++ data_packets ips) ->
  (forall p q, p ∈ ps ++ data_packets ips -> q ∈ ps ++ data_packets ips -> in_window p q) ->
  exists evs t' k', run_alone a false t ips = Some evs /\
    reassembling b S (reverse (data_packets ips) ++ ps) t' (out ++ stream_data evs) k'.
Proof.
  intros Hb HS. revert ps t out k. induction ips as [|ip ips IH]; intros ps t out k Ht Hra Htcp Hseg Hwin.
  { exists [], t, k. cbn. by rewrite app_nil_r. }
  apply Forall_cons in Htcp as [(src & dst & syn & tcp & Hp) Htcp]. cbn [run_alone].
  unfold establish, stream_add. cbn [alone with_sm_tcp new_stream sm_tcp sm_udp sm_addr].
  rewrite bool_decide_false, Hp by done.
  assert (Hd : data_packets (ip :: ips) = if tcp_len tcp =? 0 then data_packets ips else tcp :: data_packets ips).
  { unfold data_packets. cbn [omap list_omap]. rewrite Hp. by destruct (tcp_len tcp =? 0). }
  rewrite Hd in Hseg, Hwin |- *.
  destruct (tcp_len tcp =? 0) eqn:E0.
  - unfold TCPStream_add. rewrite E0. mred. cbn [with_sm_tcp sm_tcp].
    destruct (IH ps (with_st_state t PYTCP_RETRANSMISSION) out k) as (evs & t' & k' & -> & Hra');
      [done| |done|done|done|].
    { by destruct Hra. }
    mred. by exists ([] ++ stream_events (alone a false t) [(PYTCP_RETRANSMISSION, tcp)] ++ evs), t', k'.
  - assert (Hperm : ps ++ tcp :: data_packets ips ≡ₚ (tcp :: ps) ++ data_packets ips)
      by (symmetry; apply Permutation_middle).
    rewrite Hperm in Hseg. setoid_rewrite Hperm in Hwin.
    destruct (add_reassembling b S Hb HS ps t out k (st_total_size TCPStream_Con) (ip_id ip) tcp Hra)
      as (evs & t1 & k1 & E & Hra1).
    { by apply Forall_app in Hseg as [? _]. }
    { intros p q Hp' Hq'. apply Hwin; apply elem_of_app; by left. }
    rewrite E. mred. cbn [with_sm_tcp sm_tcp].
    destruct (IH (tcp :: ps) t1 _ k1 (TCPStream_add_state _ _ _ _ _ _ E Ht) Hra1 Htcp Hseg Hwin)
      as (evs' & t' & k' & -> & Hra'). mred.
    eexists _, t', k'. split; [done|]. cbn [app].
    rewrite stream_data_app, app_assoc, stream_data_events, reverse_cons, <- app_assoc. exact Hra'.
Qed.

Lemma packets_of_tcp proto conns ps a :
  Forall (expected proto conns) ps -> proto a = false ->
  Forall (fun ip => exists src dst syn tcp, ip_payload ip = PTCP src dst syn tcp) (packets_of a ps).
Proof.
  rewrite !list.Forall_forall. intros Hex Ha ip Hip.
  apply list_elem_of_filter in Hip as [Hat Hip]. apply list_elem_of_omap in Hip as (p & Hp & Hpi).
  cbn in Hpi. subst p. specialize (Hex _ Hp). unfold expected in Hex. cbn in Hex.
  unfold ip_tuple in *. destruct (ip_payload ip) as [src dst syn tcp|src dst len data|]; [by eexists _, _, _, _| |done].
  cbn in Hat. injection Hat as <-. destruct Hex as [Hu _]. congruence.
Qed.

(** The first packet opens the stream. *)
Lemma run_alone_opens a first rest b :
  start_number first = Some b -> exists est t,
    run_alone a false TCPStream_Con (first :: rest)
      = (evs ← run_alone a false t (first :: rest); Some (est :: evs)) /\
    stream_data [est] = [] /\ st_state t <> PYTCP_NONE /\ st_queue t = [] /\ st_next_seq t = b.
Proof.
  unfold start_number. intros Hb.
  exists (Some a, PYTCP_JUST_EST, WPacket (Some first)),
    (with_st_state (with_st_next_seq TCPStream_Con b) PYTCP_DATA).
  split; [|done]. cbn [run_alone].
  destruct (ip_payload first) as [src dst syn tcp|src dst len data|] eqn:Hp; [|done|done].
  unfold establish. cbn [alone with_sm_tcp new_stream sm_tcp sm_udp sm_addr TCPStream_Con st_state
    with_st_state with_st_next_seq].
  rewrite bool_decide_true, bool_decide_false by done. rewrite Hp.
  destruct syn; injection Hb as <-;
    (unfold stream_add; rewrite Hp; cbn [alone with_sm_tcp new_stream sm_udp];
     match goal with |- context [TCPStream_add ?t ?m ?i ?p] =>
       change (TCPStream_add t m i p) with (TCPStream_add t 0 i p) end;
     destruct (TCPStream_add _ _ _ _) as [[evs t1]|]; mred; [|done];
     by destruct (run_alone a false _ rest)).
Qed.

(** However the packets of many connections are mixed in a capture, within the limits, what
    the callback gets for a TCP stream is the longest part of its data from the start that
    its packets cover. *)
Lemma capture_run proto conns cfg con_id ps a first rest b S :
  (forall a, proto (reverse_of a) = proto a) ->
  2 * zlen conns <= max_number_of_streams cfg -> zlen ps <= max_outstanding_skbuffs cfg ->
  zlen ps <= 2 * max_packets_expired cfg -> Forall (expected proto conns) ps ->
  proto a = false -> packets_of a ps = first :: rest -> start_number first = Some b ->
  0 <= b -> b + zlen S < 4294967296 -> Forall (segment b S) (data_packets (first :: rest)) ->
  (forall p q, p ∈ data_packets (first :: rest) -> q ∈ data_packets (first :: rest) -> in_window p q) ->
  exists evs self' k, process_all cfg (TCPHashTable_Con con_id) ps = Some (evs, self') /\
    0 <= k <= zlen S /\ stream_data (events_of a evs) = ztake k S /\
    (forall j, 0 <= j < k -> exists p, p ∈ data_packets (first :: rest) /\ covers b p j) /\
    forall p, p ∈ data_packets (first :: rest) -> ~ covers b p k.
Proof.
  intros Hproto Hs Hq He Hps Ha Hfirst Hstart Hb HS Hseg Hwin.
  destruct (process_all_sim proto Hproto conns cfg (zlen ps) Hs Hq He ps (TCPHashTable_Con con_id)
    (fun _ => TCPStream_Con) [] 0 (sim_empty proto conns con_id)) as (evs & self' & E & Hrun);
    [lia|done|].
  specialize (Hrun a). rewrite Ha, Hfirst in Hrun.
  destruct (run_alone_opens a first rest b Hstart) as (est & t & Eo & Hest & Hst & Hqu & Hn).
  destruct (run_alone_reassembles a (first :: rest) b S [] t [] 0 Hb HS Hst)
    as (evs1 & t' & k & E1 & Hra); [by apply reassembling_new| |done|done|].
  { rewrite <- Hfirst. by eapply packets_of_tcp. }
  rewrite Eo, E1 in Hrun. cbn [mbind option_bind] in Hrun. injection Hrun as Hrun.
  destruct Hra as [Hk Hn' Ho _ Hqu' Hseen Hc]. rewrite app_nil_r in *.
  exists evs, self', k. split_and!; try done; try lia.
  - rewrite <- Hrun. change (est :: evs1) with ([est] ++ evs1). by rewrite stream_data_app, Hest.
  - intros j Hj. destruct (Hc j Hj) as (p & Hp & ?). exists p. by rewrite elem_of_reverse in Hp.
  - intros p Hp Hcov. unfold covers in Hcov. rewrite <- elem_of_reverse in Hp.
    destruct (Hseen p Hp) as [Hp'|[?|?]]; [|lia|lia]. destruct (Hqu' p Hp') as (_ & ? & _). lia.
Qed.

(** ** The example *)

Definition by_port (a : tuple4) : bool := (t_source a =? 53) || (t_dest a =? 53).

Lemma by_port_reverse a : by_port (reverse_of a) = by_port a.
Proof. apply orb_comm. Qed.

#[local] Instance expected_decision proto conns p : Decision (expected proto conns p).
Proof. unfold expected. destruct (p ≫= ip_tuple) as [[a udp]|]; apply _. Defined.

Lemma capture_expected : Forall (expected by_port [web; dns]) capture.
Proof.
  apply (bool_decide_unpack _). vm_compute. exact I.
Qed.

Lemma TCPHashTable_keeps_apart_witness :
  exists evs self', process_all default_configuration (TCPHashTable_Con 0) capture = Some (evs, self') /\
    forall a, run_alone a (by_port a) TCPStream_Con (packets_of a capture) = Some (events_of a evs).
Proof.
  apply (TCPHashTable_keeps_apart by_port [web; dns] default_configuration 0 capture);
    [exact by_port_reverse|vm_compute; congruence|vm_compute; congruence|vm_compute; congruence|].
  exact capture_expected.
Defined.

Example capture_example :
  (evs ← fst <$> process_all default_configuration (TCPHashTable_Con 0) capture;
   Some (stream_data (events_of web evs), stream_data (events_of dns evs),
         stream_data (events_of (reverse_of dns) evs)))
  = Some (lit "GET / H", lit "q", lit "r").
Proof. vm_compute. done. Qed.
