(* ===== verification/Struct.v ===== *)
(** * Struct: structures to and from streams (applications/pyflag/network/struct.c)

    [pack] and [unpack] of a structure by a format string, with the table of registered
    formats.  A structure is the list of its members; a packer gets the members from its
    offset on and says how many bytes of the structure it used. *)
From S2P Require Import Prelude Talloc StringIO Misc.

(** ** Formats and members *)

Definition STRUCT_CHAR : Z := 3.
Definition STRUCT_SHORT : Z := 4.
Definition STRUCT_INT : Z := 5.
Definition STRUCT_STRING_NULL_TERM : Z := 6.
Definition STRUCT_STRING_AND_LENGTH : Z := 7.
Definition STRUCT_ARGV_ARRAY : Z := 9.
Definition STRUCT_STRING_AND_LENGTH32 : Z := 16.
Definition STRUCT_STRING_AND_LENGTHLE32 : Z := 17.
Definition STRUCT_SHORT_LE : Z := 20.
Definition STRUCT_INT_LE : Z := 21.

Definition MAX_FORMATS : Z := 32.

(** A member: a number, an array of bytes in the structure, a pointer to a block of memory,
    a pointer to an array of strings. *)
Inductive member :=
| MNum (n : Z)
| MBytes (l : list Z)
| MPtr (m : option (list Z))
| MArr (a : list (list Z)).

(** [htons], which is its own inverse. *)
Definition htons (n : Z) : Z := unle (reverse (le 2 n)).

Definition sizeof_ptr : Z := 8.

Section Struct.

(** Uninitialised memory. *)
Variable junk : nat -> Z.

(** ** Packers: the bytes of the structure that were used, the members that follow *)

Definition packer : Type := list member -> StringIO -> option (Z * list member * StringIO).

Definition Char_pack : packer := fun input output =>
  match input with
  | MNum c :: input => '(n, output) ← StringIO_write junk output [u8 c]; Some (n, input, output)
  | _ => None
  end.

Definition Short_pack : packer := fun input output =>
  match input with
  | MNum i :: input =>
      '(n, output) ← StringIO_write junk output (le 2 (htons (u16 i))); Some (n, input, output)
  | _ => None
  end.

Definition LEShort_pack : packer := fun input output =>
  match input with
  | MNum i :: input =>
      '(n, output) ← StringIO_write junk output (le 2 (u16 i)); Some (n, input, output)
  | _ => None
  end.

Definition Int_pack : packer := fun input output =>
  match input with
  | MNum i :: input =>
      '(n, output) ← StringIO_write junk output (le 4 (htonl (u32 i))); Some (n, input, output)
  | _ => None
  end.

Definition LEInt_pack : packer := fun input output =>
  match input with
  | MNum i :: input =>
      '(n, output) ← StringIO_write junk output (le 4 (u32 i)); Some (n, input, output)
  | _ => None
  end.

(** The C string in a block: [None] when nothing ends it. *)
Definition string_at (m : list Z) : option (list Z) :=
  if bool_decide (0 ∈ m) then Some (cstr m) else None.

Definition NullString_pack : packer := fun input output =>
  match input with
  | MPtr (Some m) :: input =>
      s ← string_at m;
      '(_, output) ← StringIO_write junk output (s ++ [0]);
      Some (sizeof_ptr, input, output)
  | _ => None
  end.

(** The [length] bytes a pointer points to. *)
Definition bytes_at (m : option (list Z)) (length : Z) : option (list Z) :=
  if length =? 0 then Some []
  else m ← m; if length <=? zlen m then Some (ztake length m) else None.

Definition SizeString_pack : packer := fun input output =>
  match input with
  | MNum length :: MPtr m :: input =>
      '(_, output) ← StringIO_write junk output (le 2 (htons (u16 length)));
      s ← bytes_at m (u16 length);
      '(_, output) ← StringIO_write junk output s;
      Some (2 + sizeof_ptr, input, output)
  | _ => None
  end.

Definition SizeString32LE_pack : packer := fun input output =>
  match input with
  | MNum length :: MPtr m :: input =>
      '(_, output) ← StringIO_write junk output (le 4 (u32 length));
      s ← bytes_at m (u32 length);
      '(_, output) ← StringIO_write junk output s;
      Some (4 + sizeof_ptr, input, output)
  | _ => None
  end.

Definition SizeString32_pack : packer := fun input output =>
  match input with
  | MNum length :: MPtr m :: input =>
      '(_, output) ← StringIO_write junk output (le 4 (htonl (u32 length)));
      s ← bytes_at m (u32 length);
      '(_, output) ← StringIO_write junk output s;
      Some (4 + sizeof_ptr, input, output)
  | _ => None
  end.

(** The loop over the strings of an array. *)
Fixpoint argv_pack (argc : nat) (array : list (list Z)) (output : StringIO) : option StringIO :=
  match argc, array with
  | O, _ => Some output
  | S argc, str :: array =>
      '(_, output) ← StringIO_write junk output (str ++ [0]); argv_pack argc array output
  | S _, [] => None
  end.

Definition ArgvArray_pack : packer := fun input output =>
  match input with
  | MNum argc :: MArr array :: input =>
      '(_, output) ← StringIO_write junk output (le 2 (htons (u16 argc)));
      output ← argv_pack (Z.to_nat (u16 argc)) array output;
      Some (2 + sizeof_ptr, input, output)
  | _ => None
  end.

(** ** Unpackers: the result, -1 for an error; the members that were written, those that
    follow, and the stream *)

Definition unpacker : Type :=
  list member -> StringIO -> option (Z * list member * list member * StringIO).

(** A number of [width] bytes is read into a local variable first. *)
Definition number_unpack (width : Z) (decode : list Z -> Z) : unpacker := fun old input =>
  match old with
  | MNum o :: old =>
      '(bytes, input) ← StringIO_read input width;
      if zlen bytes <? width then Some (-1, [MNum o], old, input)
      else Some (width, [MNum (decode bytes)], old, input)
  | _ => None
  end.

Definition Char_unpack : unpacker := number_unpack 1 unle.
Definition Short_unpack : unpacker := number_unpack 2 (fun b => htons (unle b)).
Definition LEShort_unpack : unpacker := number_unpack 2 unle.
Definition Int_unpack : unpacker := number_unpack 4 (fun b => htonl (unle b)).
Definition LEInt_unpack : unpacker := number_unpack 4 unle.

(** The loop that copies up to a NUL: a turn for each byte and one for the end. *)
Fixpoint null_loop (fuel : nat) (input temp : StringIO) : option (bool * StringIO * StringIO) :=
  match fuel with
  | O => None
  | S fuel =>
      '(bytes, input) ← StringIO_read input 1;
      match bytes with
      | [c] =>
          '(_, temp) ← StringIO_write junk temp [c];
          if c =? 0 then Some (true, input, temp) else null_loop fuel input temp
      | _ => Some (false, input, temp)
      end
  end.

Definition NullString_unpack : unpacker := fun old input =>
  match old with
  | MPtr p :: old =>
      '(found, input, temp) ← null_loop (S (Z.to_nat (sio_size input - sio_readptr input))) input
                                StringIO_constructor;
      if found : bool then Some (sizeof_ptr, [MPtr (tc_mem <$> sio_data temp)], old, input)
      else Some (-1, [MPtr p], old, input)
  | _ => None
  end.

(** [read] into memory that was just allocated; a read of nothing into NULL is harmless. *)
Definition read_into (string : option talloc_chunk) (input : StringIO) (n : Z)
  : option (Z * option (list Z) * StringIO) :=
  '(bytes, input) ← StringIO_read input n;
  match string with
  | Some tc => Some (zlen bytes, Some (zover 0 bytes (tc_mem tc)), input)
  | None => if zlen bytes =? 0 then Some (0, None, input) else None
  end.

(** A length and a string; [checked] when the allocation is. *)
Definition counted_unpack (width : Z) (decode : list Z -> Z) (checked : bool) : unpacker :=
  fun old input =>
  match old with
  | MNum o :: MPtr p :: old =>
      '(bytes, input) ← StringIO_read input width;
      if zlen bytes <? width then Some (-1, [MNum o; MPtr p], old, input)
      else
        let n := decode bytes in
        let string := talloc_size n in
        if checked && negb (bool_decide (is_Some string)) then Some (-1, [MNum n; MPtr p], old, input)
        else
          '(got, m, input) ← read_into string input (i32 n);
          Some (if got <? n then -1 else width + sizeof_ptr, [MNum n; MPtr m], old, input)
  | _ => None
  end.

Definition SizeString_unpack : unpacker := counted_unpack 2 (fun b => htons (unle b)) true.
Definition SizeString32LE_unpack : unpacker := counted_unpack 4 unle true.
Definition SizeString32_unpack : unpacker := counted_unpack 4 (fun b => htonl (unle b)) false.

(** The loop over the strings of an array; a string that nothing ends is read past the
    block. *)
Fixpoint argv_unpack (argc : nat) (input : StringIO) : option (list (list Z) * StringIO) :=
  match argc with
  | O => Some ([], input)
  | S argc =>
      tc ← sio_data input;
      str ← string_at (zdrop (StringIO_get_buffer input).1 (tc_mem tc));
      match StringIO_seek junk input (zlen str + 1) SEEK_CUR with
      | inr (_, input) => '(array, input) ← argv_unpack argc input; Some (str :: array, input)
      | inl _ => None
      end
  end.

Definition ArgvArray_unpack : unpacker := fun old input =>
  match old with
  | MNum o :: MArr a :: old =>
      '(bytes, input) ← StringIO_read input 2;
      if zlen bytes <? 2 then Some (-1, [MNum o; MArr a], old, input)
      else
        let argc := htons (unle bytes) in
        '(array, input) ← argv_unpack (Z.to_nat argc) input;
        Some (2 + sizeof_ptr, [MNum argc; MArr array], old, input)
  | _ => None
  end.

(** network.c: addresses of network cards, read into the structure itself. *)
Definition Eth2_MAC_pack : packer := fun input output =>
  match input with
  | MBytes l :: input =>
      if zlen l <? 6 then None
      else '(n, output) ← StringIO_write junk output (ztake 6 l); Some (n, input, output)
  | _ => None
  end.

Definition Eth2_MAC_unpack : unpacker := fun old input =>
  match old with
  | MBytes l :: old =>
      '(bytes, input) ← StringIO_read input 6;
      Some (if zlen bytes <? 6 then -1 else 6, [MBytes (zover 0 bytes l)], old, input)
  | _ => None
  end.

(** ** The table of formats *)

(** The three arrays [struct_size], [packers] and [unpackers]. *)
Record registration := { reg_size : Z; reg_packer : packer; reg_unpacker : unpacker }.

Definition formats : Type := gmap Z registration.

(** [None] is an exit or an access outside the arrays. *)
Definition Struct_Register (format : Z) (r : registration) (t : formats) : option formats :=
  if format >=? MAX_FORMATS then None else Some (<[format := r]> t).

Definition reg (size : Z) (pk : packer) (un : unpacker) : registration :=
  {| reg_size := size; reg_packer := pk; reg_unpacker := un |}.

Definition struct_init : option formats :=
  t ← Struct_Register STRUCT_CHAR (reg 1 Char_pack Char_unpack) ∅;
  t ← Struct_Register STRUCT_SHORT (reg 2 Short_pack Short_unpack) t;
  t ← Struct_Register STRUCT_SHORT_LE (reg 2 LEShort_pack LEShort_unpack) t;
  t ← Struct_Register STRUCT_INT (reg 4 Int_pack Int_unpack) t;
  t ← Struct_Register STRUCT_INT_LE (reg 4 LEInt_pack LEInt_unpack) t;
  t ← Struct_Register STRUCT_STRING_NULL_TERM (reg sizeof_ptr NullString_pack NullString_unpack) t;
  t ← Struct_Register STRUCT_STRING_AND_LENGTH (reg (2 + sizeof_ptr) SizeString_pack SizeString_unpack) t;
  t ← Struct_Register STRUCT_STRING_AND_LENGTH32
        (reg (4 + sizeof_ptr) SizeString32_pack SizeString32_unpack) t;
  t ← Struct_Register STRUCT_STRING_AND_LENGTHLE32
        (reg (4 + sizeof_ptr) SizeString32LE_pack SizeString32LE_unpack) t;
  Struct_Register STRUCT_ARGV_ARRAY (reg (2 + sizeof_ptr) ArgvArray_pack ArgvArray_unpack) t.

Definition STRUCT_ETH_ADDR : Z := 10.

Definition network_structs_init : option formats :=
  t ← struct_init; Struct_Register STRUCT_ETH_ADDR (reg 6 Eth2_MAC_pack Eth2_MAC_unpack) t.

(** The entry of a character of a format. *)
Definition format_entry (t : formats) (x : Z) : option (option registration) :=
  if (0 <=? x) && (x <? MAX_FORMATS) then Some (t !! x) else None.

Fixpoint calcsize (t : formats) (format : list Z) : option Z :=
  match format with
  | [] => Some 0
  | x :: format =>
      e ← format_entry t x;
      total ← calcsize t format;
      Some (match e with Some r => reg_size r | None => 0 end + total)
  end.

Fixpoint pack (t : formats) (format : list Z) (input : list member) (output : StringIO)
  : option (Z * StringIO) :=
  match format with
  | [] => Some (0, output)
  | x :: format =>
      e ← format_entry t x;
      match e with
      | None => pack t format input output
      | Some r =>
          '(n, input, output) ← reg_packer r input output;
          '(offset, output) ← pack t format input output;
          Some (n + offset, output)
      end
  end.

(** [unpack] returns the structure: what a failing or a partial read leaves of it is what
    was in it before. *)
Fixpoint unpack (t : formats) (format : list Z) (input : StringIO) (output : list member)
  : option (Z * list member * StringIO) :=
  match format with
  | [] => Some (0, output, input)
  | x :: format =>
      e ← format_entry t x;
      match e with
      | None => unpack t format input output
      | Some r =>
          '(result, new, output, input) ← reg_unpacker r output input;
          if result <? 0 then Some (-1, new ++ output, input)
          else
            '(offset, output, input) ← unpack t format input output;
            Some (if offset <? 0 then -1 else result + offset, new ++ output, input)
      end
  end.

End Struct.

(** ** What the formats stand for *)

(** Numbers in network order. *)
Definition be (n : nat) (z : Z) : list Z := reverse (le n z).

(** The bytes of the members of one format. *)
Inductive item : Z -> list member -> list Z -> Prop :=
| item_char n : 0 <= n < 256 -> item STRUCT_CHAR [MNum n] [n]
| item_short n : 0 <= n < 65536 -> item STRUCT_SHORT [MNum n] (be 2 n)
| item_short_le n : 0 <= n < 65536 -> item STRUCT_SHORT_LE [MNum n] (le 2 n)
| item_int n : 0 <= n < 4294967296 -> item STRUCT_INT [MNum n] (be 4 n)
| item_int_le n : 0 <= n < 4294967296 -> item STRUCT_INT_LE [MNum n] (le 4 n)
| item_string l m : cstring l -> item STRUCT_STRING_NULL_TERM [MPtr (Some (l ++ 0 :: m))] (l ++ [0])
| item_counted n l m : zlen l = n -> n < 65536 ->
    item STRUCT_STRING_AND_LENGTH [MNum n; MPtr (Some (l ++ m))] (be 2 n ++ l)
| item_counted32 n l m : zlen l = n -> n < MAX_TALLOC_SIZE ->
    item STRUCT_STRING_AND_LENGTH32 [MNum n; MPtr (Some (l ++ m))] (be 4 n ++ l)
| item_counted32_le n l m : zlen l = n -> n < MAX_TALLOC_SIZE ->
    item STRUCT_STRING_AND_LENGTHLE32 [MNum n; MPtr (Some (l ++ m))] (le 4 n ++ l)
| item_argv n a : zlen a = n -> n < 65536 -> Forall cstring a ->
    item STRUCT_ARGV_ARRAY [MNum n; MArr a] (be 2 n ++ flat_map (fun s => s ++ [0]) a)
| item_eth l : zlen l = 6 -> item STRUCT_ETH_ADDR [MBytes l] l.

(** The bytes of a structure. *)
Inductive layout : list Z -> list member -> list Z -> Prop :=
| layout_nil : layout [] [] []
| layout_cons x format vs bs vs' bs' : item x vs bs -> layout format vs' bs' ->
    layout (x :: format) (vs ++ vs') (bs ++ bs').

(** ** Streams that are read on and appended to *)

Definition ahead (s : StringIO) : list Z := zdrop (sio_readptr s) (sio_bytes s).

Definition moved (s s' : StringIO) (n : Z) : Prop :=
  sio_wf s' /\ sio_data s' = sio_data s /\ sio_size s' = sio_size s /\
  sio_readptr s' = sio_readptr s + n.

Lemma moved_bytes s s' n : moved s s' n -> sio_bytes s' = sio_bytes s.
Proof. intros (_ & Hd & Hs & _). unfold sio_bytes. by rewrite Hd, Hs. Qed.

Lemma moved_trans s s' s'' n m : moved s s' n -> moved s' s'' m -> moved s s'' (n + m).
Proof. intros (? & ? & ? & ?) (? & ? & ? & ?). split_and!; [done|congruence|congruence|lia]. Qed.

Lemma moved_refl s : sio_wf s -> moved s s 0.
Proof. intros Hwf. split_and!; [done|done|done|lia]. Qed.

Lemma ahead_moved s s' a b :
  sio_wf s -> ahead s = a ++ b -> moved s s' (zlen a) -> ahead s' = b.
Proof.
  intros (? & _ & _ & ? & _) Ha Hm. pose proof (moved_bytes _ _ _ Hm) as Hb.
  destruct Hm as (_ & _ & _ & Hr). unfold ahead in *. rewrite Hb, Hr.
  pose proof (zlen_nonneg a).
  replace (zdrop (sio_readptr s + zlen a) (sio_bytes s))
    with (zdrop (zlen a) (zdrop (sio_readptr s) (sio_bytes s))) by (rewrite zdrop_zdrop by lia; done).
  rewrite Ha. by apply zdrop_app_eq.
Qed.

Lemma ahead_length s : sio_wf s -> zlen (ahead s) = sio_size s - sio_readptr s.
Proof.
  intros Hwf. pose proof (sio_wf_bytes_len s Hwf). destruct Hwf as (? & _ & _ & ? & _).
  unfold ahead. rewrite zlen_zdrop. lia.
Qed.

(** A read gets what is ahead, as far as it goes. *)
Lemma read_some s n :
  sio_wf s -> 0 <= n < MAX_TALLOC_SIZE -> exists s',
  StringIO_read s n = Some (ztake n (ahead s), s') /\ moved s s' (zlen (ztake n (ahead s))).
Proof.
  intros Hwf Hn. destruct (sio_read_spec s n Hwf Hn) as (s' & E & Hwf' & Hd & Hsz & _ & Habs).
  exists s'. split; [exact E|]. unfold bs_read in Habs. cbn [bs_pos bs_contents sio_abs] in Habs.
  injection Habs as _ Hr. split_and!; [done|done|done|exact Hr].
Qed.

Lemma read_ahead s n a b :
  sio_wf s -> ahead s = a ++ b -> zlen a = n -> n < MAX_TALLOC_SIZE -> exists s',
  StringIO_read s n = Some (a, s') /\ moved s s' n /\ ahead s' = b.
Proof.
  intros Hwf Ha <- Hn. pose proof (zlen_nonneg a).
  destruct (read_some s (zlen a) Hwf ltac:(lia)) as (s' & E & Hm).
  rewrite Ha, ztake_app_eq in E, Hm by done. exists s'. split_and!; [done|done|].
  by apply (ahead_moved s s' a).
Qed.

Definition at_end (s : StringIO) : Prop := sio_wf s /\ sio_readptr s = sio_size s.

Lemma write_end junk s bs :
  at_end s -> 2 * (sio_size s + zlen bs) < MAX_TALLOC_SIZE -> exists s',
  StringIO_write junk s bs = Some (zlen bs, s') /\ at_end s' /\ sio_bytes s' = sio_bytes s ++ bs.
Proof.
  intros [Hwf He] Hmax. destruct (sio_write_spec junk s bs Hwf ltac:(rewrite He; lia)) as (s' & E & Hwf' & Habs).
  pose proof (sio_wf_bytes_len s Hwf) as Hl. pose proof (sio_wf_bytes_len s' Hwf') as Hl'.
  unfold sio_abs, bs_write in Habs. cbn [bs_pos bs_contents] in Habs. injection Habs as Hb Hr.
  pose proof (zlen_nonneg bs).
  assert (Hb' : sio_bytes s' = sio_bytes s ++ bs).
  { rewrite Hb, He. unfold zover. rewrite ztake_all, zdrop_all, app_nil_r by lia. done. }
  exists s'. split_and!; [done|split; [done|]|done].
  rewrite Hb', zlen_app in Hl'. lia.
Qed.

Lemma at_end_size s bs s' : at_end s -> at_end s' -> sio_bytes s' = sio_bytes s ++ bs ->
  sio_size s' = sio_size s + zlen bs.
Proof.
  intros [Hwf _] [Hwf' _] Hb. rewrite <- (sio_wf_bytes_len s Hwf), <- (sio_wf_bytes_len s' Hwf'), Hb.
  apply zlen_app.
Qed.

(** ** Numbers *)

Lemma le_length n z : length (le n z) = n.
Proof. pose proof (zlen_le n z). unfold zlen in *. lia. Qed.

Lemma zlen_be n z : zlen (be n z) = Z.of_nat n.
Proof. unfold be, zlen. by rewrite length_reverse, le_length. Qed.

Lemma le_unle_be n z : le n (unle (be n z)) = be n z.
Proof.
  unfold be. assert (bytes_ok (reverse (le n z))) as Hb by (apply Forall_reverse, le_bytes_ok).
  pose proof (le_unle _ Hb) as Hu. by rewrite length_reverse, le_length in Hu.
Qed.

Lemma le_htons z : le 2 (htons z) = be 2 z.
Proof. apply le_unle_be. Qed.

Lemma htons_be z : 0 <= z < 65536 -> htons (unle (be 2 z)) = z.
Proof.
  intros Hz. unfold htons. rewrite le_unle_be. unfold be. rewrite reverse_involutive, unle_le2.
  by apply u16_small.
Qed.

Lemma htonl_be z : 0 <= z < 4294967296 -> htonl (unle (be 4 z)) = z.
Proof.
  intros Hz. unfold htonl. rewrite le_unle_be. unfold be. rewrite reverse_involutive, unle_le4.
  by apply u32_small.
Qed.

(** ** Packing *)

Section Laws.

Variable junk : nat -> Z.

Definition net_formats : formats := default ∅ (network_structs_init junk).

Lemma net_formats_init : network_structs_init junk = Some net_formats.
Proof. reflexivity. Qed.

(** What is written by a packer of a registered format. *)
Definition packs (r : registration) (vs : list member) (bs : list Z) : Prop :=
  forall rest out, at_end out -> 2 * (sio_size out + zlen bs) < MAX_TALLOC_SIZE -> exists out',
  reg_packer r (vs ++ rest) out = Some (reg_size r, rest, out') /\ at_end out' /\
  sio_bytes out' = sio_bytes out ++ bs.

(** One write after the other. *)
Lemma write_then out a b :
  at_end out -> 2 * (sio_size out + zlen (a ++ b)) < MAX_TALLOC_SIZE -> exists out1,
  StringIO_write junk out a = Some (zlen a, out1) /\ at_end out1 /\
  sio_bytes out1 = sio_bytes out ++ a /\ 2 * (sio_size out1 + zlen b) < MAX_TALLOC_SIZE.
Proof.
  intros He Hmax. rewrite zlen_app in Hmax. pose proof (zlen_nonneg b).
  destruct (write_end junk out a He ltac:(lia)) as (out1 & E & He1 & Hb1).
  exists out1. split_and!; [done|done|done|]. rewrite (at_end_size out a out1 He He1 Hb1). lia.
Qed.

Lemma argv_packs a out :
  at_end out -> 2 * (sio_size out + zlen (flat_map (fun s => s ++ [0]) a)) < MAX_TALLOC_SIZE ->
  exists out', argv_pack junk (length a) a out = Some out' /\ at_end out' /\
  sio_bytes out' = sio_bytes out ++ flat_map (fun s => s ++ [0]) a.
Proof.
  revert out. induction a as [|s a IH]; intros out He Hmax; cbn [length argv_pack flat_map] in *.
  { exists out. by rewrite app_nil_r. }
  destruct (write_then out (s ++ [0]) _ He Hmax) as (out1 & -> & He1 & Hb1 & Hm1). mred.
  destruct (IH out1 He1 Hm1) as (out2 & -> & He2 & Hb2). exists out2. split_and!; [done|done|].
  by rewrite Hb2, Hb1, <- !app_assoc.
Qed.

Lemma string_at_nul l m : cstring l -> string_at (l ++ 0 :: m) = Some l.
Proof.
  intros Hl. unfold string_at. rewrite bool_decide_true by (apply elem_of_app; right; by left).
  by rewrite cstr_app_nul.
Qed.

Lemma bytes_at_app l m : bytes_at (Some (l ++ m)) (zlen l) = Some l.
Proof.
  unfold bytes_at. destruct (Z.eqb_spec (zlen l) 0) as [E|]; [by apply zlen_0_nil in E as ->|].
  mred. rewrite zlen_app. pose proof (zlen_nonneg m).
  destruct (Z.leb_spec (zlen l) (zlen l + zlen m)); [|lia]. by rewrite ztake_app_eq.
Qed.

Lemma number_packs x n bs size pk un :
  item x [MNum n] bs -> zlen bs = size ->
  (forall rest out, pk (MNum n :: rest) out =
     ('(k, out) ← StringIO_write junk out bs; Some (k, rest, out))) ->
  packs (reg size pk un) [MNum n] bs.
Proof.
  intros _ Hl Hpk rest out He Hmax. destruct (write_end junk out bs He Hmax) as (out' & E & He' & Hb').
  exists out'. cbn [reg reg_packer reg_size app]. rewrite Hpk, E. mred. by rewrite Hl.
Qed.

Lemma counted_packs n l m enc size pk un :
  zlen l = n ->
  (forall rest out, pk (MNum n :: MPtr (Some (l ++ m)) :: rest) out =
     ('(_, out) ← StringIO_write junk out enc; s ← bytes_at (Some (l ++ m)) n;
      '(_, out) ← StringIO_write junk out s; Some (size, rest, out))) ->
  packs (reg size pk un) [MNum n; MPtr (Some (l ++ m))] (enc ++ l).
Proof.
  intros <- Hpk rest out He Hmax. cbn [reg reg_packer reg_size app]. rewrite Hpk.
  destruct (write_then out enc l He Hmax) as (out1 & -> & He1 & Hb1 & Hm1). mred.
  rewrite bytes_at_app. mred.
  destruct (write_end junk out1 l He1 Hm1) as (out2 & -> & He2 & Hb2). mred.
  exists out2. split_and!; [done|done|]. by rewrite Hb2, Hb1, <- app_assoc.
Qed.

Lemma item_packs x vs bs :
  item x vs bs -> exists r, format_entry net_formats x = Some (Some r) /\ packs r vs bs.
Proof.
  intros Hi. pose proof Hi as Hi'.
  destruct Hi' as [n Hn|n Hn|n Hn|n Hn|n Hn|l m Hl|n l m Hl Hn|n l m Hl Hn|n l m Hl Hn|n a Hl Hn Ha|l Hl];
    (eexists; split; [reflexivity|]).
  - apply (number_packs STRUCT_CHAR); [done|done|]. intros. cbn [Char_pack].
    by rewrite u8_small.
  - apply (number_packs STRUCT_SHORT); [done|apply zlen_be|]. intros. cbn [Short_pack].
    by rewrite le_htons, u16_small.
  - apply (number_packs STRUCT_SHORT_LE); [done|apply zlen_le|]. intros. cbn [LEShort_pack].
    by rewrite u16_small.
  - apply (number_packs STRUCT_INT); [done|apply zlen_be|]. intros. cbn [Int_pack].
    by rewrite le_htonl, u32_small.
  - apply (number_packs STRUCT_INT_LE); [done|apply zlen_le|]. intros. cbn [LEInt_pack].
    by rewrite u32_small.
  - intros rest out He Hmax. cbn [reg reg_packer reg_size app NullString_pack].
    rewrite string_at_nul by done. mred.
    destruct (write_end junk out (l ++ [0]) He Hmax) as (out' & -> & He' & Hb'). by exists out'.
  - pose proof (zlen_nonneg l). apply counted_packs; [done|]. intros. cbn [SizeString_pack].
    by rewrite u16_small, le_htons by lia.
  - pose proof (zlen_nonneg l). unfold MAX_TALLOC_SIZE in *. apply counted_packs; [done|].
    intros. cbn [SizeString32_pack]. by rewrite u32_small, le_htonl by lia.
  - pose proof (zlen_nonneg l). unfold MAX_TALLOC_SIZE in *. apply counted_packs; [done|].
    intros. cbn [SizeString32LE_pack]. by rewrite u32_small by lia.
  - intros rest out He Hmax. cbn [reg reg_packer reg_size app ArgvArray_pack].
    pose proof (zlen_nonneg a). rewrite u16_small, le_htons by lia.
    destruct (write_then out (be 2 n) _ He Hmax) as (out1 & -> & He1 & Hb1 & Hm1). mred.
    replace (Z.to_nat n) with (length a) by (unfold zlen in Hl; lia).
    destruct (argv_packs a out1 He1 Hm1) as (out2 & -> & He2 & Hb2). mred.
    exists out2. split_and!; [done|done|]. by rewrite Hb2, Hb1, <- app_assoc.
  - intros rest out He Hmax. cbn [reg reg_packer reg_size app Eth2_MAC_pack].
    replace (zlen l <? 6) with false by lia. rewrite ztake_all by lia.
    destruct (write_end junk out l He Hmax) as (out' & -> & He' & Hb'). mred. exists out'. by rewrite Hl.
Qed.

(** Packing a structure appends its bytes. *)
Lemma layout_packs format vs bs rest out :
  layout format vs bs -> at_end out -> 2 * (sio_size out + zlen bs) < MAX_TALLOC_SIZE ->
  exists n out', calcsize net_formats format = Some n /\
    pack net_formats format (vs ++ rest) out = Some (n, out') /\ at_end out' /\
    sio_bytes out' = sio_bytes out ++ bs.
Proof.
  intros Hl. revert out. induction Hl as [|x format vs bs vs' bs' Hi Hl IH]; intros out He Hmax.
  { exists 0, out. by rewrite app_nil_r. }
  destruct (item_packs x vs bs Hi) as (r & Ht & Hpk). cbn [calcsize pack]. rewrite Ht. mred.
  rewrite zlen_app in Hmax. pose proof (zlen_nonneg bs'). rewrite <- app_assoc.
  destruct (Hpk (vs' ++ rest) out He ltac:(lia)) as (out1 & -> & He1 & Hb1). mred.
  pose proof (at_end_size _ _ _ He He1 Hb1).
  destruct (IH out1 He1 ltac:(lia)) as (n & out2 & -> & -> & He2 & Hb2). mred.
  eexists _, out2. split_and!; [done|done|done|]. by rewrite Hb2, Hb1, <- app_assoc.
Qed.

(** ** Unpacking *)

(** Members of the same kinds, which the structure that is read into has. *)
Definition same_kind (a b : member) : Prop :=
  match a, b with
  | MNum _, MNum _ | MPtr _, MPtr _ | MArr _, MArr _ => True
  | MBytes k, MBytes l => zlen k = zlen l
  | _, _ => False
  end.

(** Equal members; of pointers to memory only the layout speaks. *)
Definition agree (a b : member) : Prop :=
  match a, b with
  | MPtr _, MPtr _ => True
  | _, _ => a = b
  end.

(** What is read by an unpacker of a registered format. *)
Definition unpacks (x : Z) (r : registration) (vs : list member) (bs : list Z) : Prop :=
  forall old rest input more, Forall2 same_kind old vs -> sio_wf input ->
  2 * sio_size input < MAX_TALLOC_SIZE -> ahead input = bs ++ more ->
  exists vs' input', reg_unpacker r (old ++ rest) input = Some (reg_size r, vs', rest, input') /\
    item x vs' bs /\ Forall2 agree vs vs' /\ moved input input' (zlen bs) /\ ahead input' = more.

Lemma same_kind_num old n : Forall2 same_kind old [MNum n] -> exists o, old = [MNum o].
Proof.
  intros H. apply Forall2_cons_inv_r in H as (a & old' & Hk & H & ->).
  apply Forall2_nil_inv_r in H as ->. destruct a; try done. by eexists.
Qed.

Lemma same_kind_two old n b : Forall2 same_kind old [MNum n; b] ->
  exists o a, old = [MNum o; a] /\ same_kind a b.
Proof.
  intros H. apply Forall2_cons_inv_r in H as (a & old' & Hk & H & ->).
  apply Forall2_cons_inv_r in H as (c & old2 & Hk2 & H & ->).
  apply Forall2_nil_inv_r in H as ->. destruct a; try done. by eexists _, _.
Qed.

Lemma number_unpacks x n bs width decode pk :
  item x [MNum n] bs -> zlen bs = width -> width < MAX_TALLOC_SIZE -> decode bs = n ->
  unpacks x (reg width pk (number_unpack width decode)) [MNum n] bs.
Proof.
  intros Hi Hl Hw Hd old rest input more [o ->]%same_kind_num Hwf _ Ha.
  cbn [reg reg_unpacker reg_size app number_unpack].
  destruct (read_ahead input width bs more Hwf Ha Hl Hw) as (input' & -> & Hm & Hm'). mred. replace (zlen bs <? width) with false by lia.
  exists [MNum n], input'. split_and!; [by rewrite Hd|done|by repeat constructor|by rewrite Hl|done].
Qed.

Lemma read_into_fresh n input l more :
  sio_wf input -> ahead input = l ++ more -> zlen l = n -> n < MAX_TALLOC_SIZE -> exists m input',
  read_into (talloc_size n) input (i32 n) = Some (n, Some (l ++ m), input') /\
  is_Some (talloc_size n) /\ moved input input' (zlen l) /\ ahead input' = more.
Proof.
  intros Hwf Ha Hl Hn. pose proof (zlen_nonneg l).
  destruct (talloc_size_ok n) as (tc & -> & _ & Htc & _); [lia|].
  destruct (read_ahead input n l more Hwf Ha Hl Hn) as (input' & E & Hm & Hm').
  unfold read_into. rewrite i32_small by (unfold MAX_TALLOC_SIZE in *; lia). rewrite E. mred. exists (zdrop (zlen l) (tc_mem tc)), input'.
  split_and!; [|by eexists|by rewrite Hl|done]. rewrite Hl.
  by rewrite zover_0, Hl.
Qed.

Lemma counted_unpacks x n l m enc width decode checked pk :
  (forall m', item x [MNum n; MPtr (Some (l ++ m'))] (enc ++ l)) -> zlen l = n -> n < MAX_TALLOC_SIZE ->
  zlen enc = width -> width < MAX_TALLOC_SIZE -> decode enc = n ->
  unpacks x (reg (width + sizeof_ptr) pk (counted_unpack width decode checked))
    [MNum n; MPtr (Some (l ++ m))] (enc ++ l).
Proof.
  intros Hi Hl Hn He Hw Hd old rest input more (o & a & -> & Hk)%same_kind_two Hwf _ Ha.
  destruct a as [| |p|]; try done. cbn [reg reg_unpacker reg_size app counted_unpack].
  rewrite <- app_assoc in Ha.
  destruct (read_ahead input width enc (l ++ more) Hwf Ha He Hw) as (input1 & -> & Hm & Ha1). mred. replace (zlen enc <? width) with false by lia. rewrite Hd.
  destruct (read_into_fresh n input1 l more) as (m' & input2 & -> & Hs & Hm2 & Ha2);
    [by destruct Hm|done|done|done|].
  rewrite bool_decide_true, andb_false_r by done. mred. replace (n <? n) with false by lia.
  exists [MNum n; MPtr (Some (l ++ m'))], input2. split_and!; [done|done|by repeat constructor| |done].
  rewrite zlen_app, He. by eapply moved_trans.
Qed.

(** Copying up to the NUL. *)
Lemma null_loop_reads l fuel input temp more :
  cstring l -> sio_wf input -> ahead input = (l ++ [0]) ++ more -> at_end temp ->
  2 * (sio_size temp + zlen l + 1) < MAX_TALLOC_SIZE -> (length l < fuel)%nat ->
  exists input' temp', null_loop junk fuel input temp = Some (true, input', temp') /\
    moved input input' (zlen (l ++ [0])) /\ ahead input' = more /\ at_end temp' /\
    sio_bytes temp' = sio_bytes temp ++ l ++ [0].
Proof.
  revert fuel input temp. induction l as [|c l IH]; intros fuel input temp Hl Hwf Ha Ht Hmax Hf;
    (destruct fuel as [|fuel]; [cbn in Hf; lia|]); cbn [null_loop];
    rewrite ?zlen_cons in Hmax.
  - destruct (read_ahead input 1 [0] more Hwf Ha eq_refl eq_refl) as (input' & -> & Hm & Ha'). mred.
    destruct (write_end junk temp [0] Ht) as (temp' & -> & Ht' & Hb'); [zlen_lia|]. mred.
    by exists input', temp'.
  - pose proof (zlen_nonneg l). apply Forall_cons in Hl as [Hc Hl].
    destruct (read_ahead input 1 [c] ((l ++ [0]) ++ more) Hwf Ha eq_refl eq_refl)
      as (input1 & -> & Hm & Ha1). mred.
    destruct (write_end junk temp [c] Ht) as (temp1 & -> & Ht1 & Hb1); [zlen_lia|]. mred.
    replace (c =? 0) with false by lia.
    destruct (IH fuel input1 temp1) as (input2 & temp2 & -> & Hm2 & Ha2 & Ht2 & Hb2);
      [done|by destruct Hm|done|done| |cbn in Hf; lia|].
    { rewrite (at_end_size temp [c] temp1) by done. zlen_lia. }
    exists input2, temp2. split_and!; [done| |done|done|].
    + cbn [app]. rewrite zlen_cons. by eapply moved_trans.
    + rewrite Hb2, Hb1, <- app_assoc. done.
Qed.

Lemma constructor_at_end : at_end StringIO_constructor.
Proof. split; [apply sio_constructor_wf|done]. Qed.

Lemma null_unpacks l m :
  cstring l -> unpacks STRUCT_STRING_NULL_TERM
    (reg sizeof_ptr (NullString_pack junk) (NullString_unpack junk)) [MPtr (Some (l ++ 0 :: m))] (l ++ [0]).
Proof.
  intros Hl old rest input more Hk Hwf Hmax Ha.
  apply Forall2_cons_inv_r in Hk as (a & old' & Hk & H & ->). apply Forall2_nil_inv_r in H as ->.
  destruct a as [| |p|]; try done. cbn [reg reg_unpacker reg_size app NullString_unpack].
  pose proof (ahead_length input Hwf) as Hal. rewrite Ha, !zlen_app in Hal. change (zlen [0]) with 1 in Hal.
  pose proof (zlen_nonneg more). pose proof (zlen_nonneg l).
  assert (0 <= sio_readptr input) by (destruct Hwf as (? & _ & _ & ? & _); lia).
  destruct (null_loop_reads l (S (Z.to_nat (sio_size input - sio_readptr input))) input
    StringIO_constructor more Hl Hwf Ha constructor_at_end)
    as (input' & temp & -> & Hm & Ha' & [(tc & Hd & _ & _ & Hsz & _) _] & Hb);
    [cbn; lia|unfold zlen in *; lia|]. mred.
  unfold sio_bytes in Hb at 1. rewrite Hd in Hb |- *. cbn in Hb.
  rewrite (ztake_0 0) in Hb by lia. cbn [app] in Hb.
  eexists [MPtr (Some (tc_mem tc))], input'. split_and!; [done| |by repeat constructor|done|done].
  rewrite <- (ztake_zdrop (sio_size temp) (tc_mem tc)), Hb, <- app_assoc. exact (item_string l _ Hl).
Qed.

Lemma seek_keeps s off r s' :
  StringIO_seek junk s off SEEK_SET = inr (r, s') -> u64 off <= u64 (sio_size s) -> sio_data s' = sio_data s.
Proof.
  unfold StringIO_seek. intros E Hle. rewrite Z.gtb_ltb in E.
  destruct (Z.ltb_spec (u64 (sio_size s)) (u64 off)); [lia|]. by injection E as _ <-.
Qed.

Lemma seek_ahead input a b :
  sio_wf input -> ahead input = a ++ b -> exists input',
  StringIO_seek junk input (zlen a) SEEK_CUR = inr (sio_readptr input + zlen a, input') /\
  moved input input' (zlen a) /\ ahead input' = b.
Proof.
  intros Hwf Ha. pose proof (ahead_length input Hwf) as Hl. rewrite Ha, zlen_app in Hl.
  pose proof (zlen_nonneg a). pose proof (zlen_nonneg b).
  assert (0 <= sio_readptr input) by (destruct Hwf as (? & _ & _ & ? & _); lia).
  destruct (sio_seek_inside junk input (sio_readptr input + zlen a) Hwf ltac:(lia))
    as (input' & E & Hwf' & Habs & _).
  change (StringIO_seek junk input (zlen a) SEEK_CUR)
    with (StringIO_seek junk input (sio_readptr input + zlen a) SEEK_SET).
  injection Habs as Hb Hr. exists input'.
  assert (Hm : moved input input' (zlen a)).
  { split_and!; [done| | |done].
    { eapply (seek_keeps input); [exact E|]. destruct Hwf as (tc & _ & _ & ? & ? & ?).
      unfold MAX_TALLOC_SIZE in *. rewrite !u64_small by lia. lia. }
    rewrite <- (sio_wf_bytes_len input' Hwf'), Hb.
    by apply sio_wf_bytes_len. }
  split_and!; [done|done|]. by apply (ahead_moved input input' a).
Qed.

Lemma string_ahead input s more :
  sio_wf input -> cstring s -> ahead input = (s ++ [0]) ++ more -> exists tc,
  sio_data input = Some tc /\ string_at (zdrop (StringIO_get_buffer input).1 (tc_mem tc)) = Some s.
Proof.
  intros (tc & Hd & _ & Hr & Hsz & _) Hs Ha. exists tc. split; [done|].
  unfold ahead, sio_bytes in Ha. rewrite Hd in Ha. cbn [StringIO_get_buffer fst].
  rewrite <- (ztake_zdrop (sio_size input) (tc_mem tc)).
  rewrite zdrop_app_le by zlen_lia. rewrite Ha, <- !app_assoc. by apply string_at_nul.
Qed.

Lemma argv_reads a input more :
  sio_wf input -> Forall cstring a -> ahead input = flat_map (fun s => s ++ [0]) a ++ more ->
  exists input', argv_unpack junk (length a) input = Some (a, input') /\
    moved input input' (zlen (flat_map (fun s => s ++ [0]) a)) /\ ahead input' = more.
Proof.
  intros Hwf Ha. revert input Hwf. induction Ha as [|s a Hs Ha IH]; intros input Hwf Hah;
    cbn [length argv_unpack flat_map] in *.
  { exists input. split_and!; [done|by apply moved_refl|done]. }
  rewrite <- app_assoc in Hah.
  destruct (string_ahead input s _ Hwf Hs Hah) as (tc & -> & Hsa). mred. rewrite Hsa. mred.
  destruct (seek_ahead input (s ++ [0]) _ Hwf Hah) as (input1 & E & Hm & Ha1).
  rewrite zlen_app in E. change (zlen [0]) with 1 in E. rewrite E.
  destruct (IH input1) as (input2 & -> & Hm2 & Ha2); [by destruct Hm|done|]. mred.
  exists input2. split_and!; [done| |done]. rewrite zlen_app. by eapply moved_trans.
Qed.

Lemma item_unpacks x vs bs :
  item x vs bs -> exists r, format_entry net_formats x = Some (Some r) /\ 0 <= reg_size r /\ unpacks x r vs bs.
Proof.
  intros Hi. pose proof Hi as Hi'.
  destruct Hi' as [n Hn|n Hn|n Hn|n Hn|n Hn|l m Hl|n l m Hl Hn|n l m Hl Hn|n l m Hl Hn|n a Hl Hn Ha|l Hl];
    (eexists; split; [reflexivity|]; split; [done|]).
  - apply number_unpacks; [done|done|done|]. cbn. lia.
  - apply number_unpacks; [done|apply zlen_be|done|]. by apply htons_be.
  - apply number_unpacks; [done|apply zlen_le|done|]. by rewrite unle_le2, u16_small.
  - apply number_unpacks; [done|apply zlen_be|done|]. by apply htonl_be.
  - apply number_unpacks; [done|apply zlen_le|done|]. by rewrite unle_le4, u32_small.
  - by apply null_unpacks.
  - pose proof (zlen_nonneg l). apply counted_unpacks; [by constructor|done| |apply zlen_be|done|].
    + unfold MAX_TALLOC_SIZE. lia.
    + apply htons_be. lia.
  - pose proof (zlen_nonneg l). apply counted_unpacks; [by constructor|done|done|apply zlen_be|done|].
    apply htonl_be. unfold MAX_TALLOC_SIZE in *. lia.
  - pose proof (zlen_nonneg l). apply counted_unpacks; [by constructor|done|done|apply zlen_le|done|].
    rewrite unle_le4. apply u32_small. unfold MAX_TALLOC_SIZE in *. lia.
  - intros old rest input more (o & b & -> & Hk)%same_kind_two Hwf Hmax Hah.
    destruct b; try done. cbn [reg reg_unpacker reg_size app ArgvArray_unpack]. rewrite <- app_assoc in Hah.
    destruct (read_ahead input 2 (be 2 n) _ Hwf Hah (zlen_be 2 n) eq_refl) as (input1 & -> & Hm & Ha1). mred.
    rewrite zlen_be. cbn [Z.of_nat Pos.of_succ_nat Pos.succ Z.ltb Z.compare Pos.compare Pos.compare_cont].
    pose proof (zlen_nonneg a). rewrite htons_be by lia.
    replace (Z.to_nat n) with (length a) by (unfold zlen in Hl; lia).
    destruct (argv_reads a input1 more) as (input2 & -> & Hm2 & Ha2); [by destruct Hm|done|done|]. mred.
    exists [MNum n; MArr a], input2. split_and!; [done|done|by repeat constructor| |done].
    rewrite zlen_app, zlen_be. by eapply moved_trans.
  - intros old rest input more Hk Hwf Hmax Hah.
    apply Forall2_cons_inv_r in Hk as (b & old' & Hk & H & ->). apply Forall2_nil_inv_r in H as ->.
    destruct b as [|k| |]; try done. cbn [same_kind] in Hk. cbn [reg reg_unpacker reg_size app Eth2_MAC_unpack].
    destruct (read_ahead input 6 l more Hwf Hah Hl eq_refl) as (input1 & -> & Hm & Ha1). mred.
    replace (zlen l <? 6) with false by lia. rewrite zover_0, zdrop_all, app_nil_r by lia.
    exists [MBytes l], input1. rewrite Hl. split_and!; [done|done|by repeat constructor|done|done].
Qed.

(** Unpacking reads the bytes of a structure and nothing after them. *)
Lemma layout_unpacks format vs bs old rest input more :
  layout format vs bs -> Forall2 same_kind old vs -> sio_wf input ->
  2 * sio_size input < MAX_TALLOC_SIZE -> ahead input = bs ++ more ->
  exists n vs' input', calcsize net_formats format = Some n /\ 0 <= n /\
    unpack net_formats format input (old ++ rest) = Some (n, vs' ++ rest, input') /\
    layout format vs' bs /\ Forall2 agree vs vs' /\ moved input input' (zlen bs) /\ ahead input' = more.
Proof.
  intros Hl. revert old input. induction Hl as [|x format vs bs vs' bs' Hi Hl IH];
    intros old input Hk Hwf Hmax Ha.
  { apply Forall2_nil_inv_r in Hk as ->. exists 0, [], input. 
    split_and!; [done|done|done|constructor|constructor|by apply moved_refl|done]. }
  apply Forall2_app_inv_r in Hk as (old1 & old2 & Hk1 & Hk2 & ->).
  destruct (item_unpacks x vs bs Hi) as (r & Ht & Hr & Hun). cbn [calcsize unpack]. rewrite Ht. mred.
  rewrite <- app_assoc in Ha |- *.
  destruct (Hun old1 (old2 ++ rest) input (bs' ++ more) Hk1 Hwf Hmax Ha)
    as (vs1 & input1 & -> & Hi1 & Hag & Hm1 & Ha1). mred.
  replace (reg_size r <? 0) with false by lia.
  pose proof Hm1 as (Hwf1 & _ & Hsz & _).
  destruct (IH old2 input1 Hk2 Hwf1 ltac:(by rewrite Hsz) Ha1)
    as (n & vs2 & input2 & -> & Hn & -> & Hl2 & Hag2 & Hm2 & Ha2). mred.
  replace (n <? 0) with false by lia.
  exists (reg_size r + n), (vs1 ++ vs2), input2. rewrite <- app_assoc.
  split_and!; [done|lia|done|by constructor|by apply Forall2_app| |done].
  rewrite zlen_app. by eapply moved_trans.
Qed.

End Laws.

(** ** What the module promises *)

(** C15: structures survive the stream.  For every format string of the registered formats,
    text and arrays included, and members that fit it: packing writes the bytes that the
    formats stand for, and unpacking them gives members with the same numbers, arrays and
    strings; both return the size of the structure. *)
Theorem struct_roundtrip junk format vs bs old :
  layout format vs bs -> 2 * zlen bs < MAX_TALLOC_SIZE -> Forall2 same_kind old vs ->
  exists n out out' vs' input, calcsize (net_formats junk) format = Some n /\
    pack (net_formats junk) format vs StringIO_constructor = Some (n, out) /\ sio_bytes out = bs /\
    StringIO_seek junk out 0 SEEK_SET = inr (0, out') /\
    unpack (net_formats junk) format out' old = Some (n, vs', input) /\
    layout format vs' bs /\ Forall2 agree vs vs' /\ ahead input = [].
Proof.
  intros Hl Hmax Hk.
  destruct (layout_packs junk format vs bs [] StringIO_constructor Hl constructor_at_end)
    as (n & out & Hn & Hp & [Hwf He] & Hb); [cbn; lia|].
  rewrite app_nil_r in Hp. rewrite sio_constructor_bytes in Hb. cbn [app] in Hb.
  assert (Hsz : sio_size out = zlen bs) by (by rewrite <- (sio_wf_bytes_len out Hwf), Hb).
  pose proof (zlen_nonneg bs).
  destruct (sio_seek_inside junk out 0 Hwf ltac:(lia)) as (out' & Hs & Hwf' & Habs & _).
  injection Habs as Hb' Hr'.
  assert (Ha : ahead out' = bs ++ []) by (unfold ahead; by rewrite Hr', Hb', Hb, app_nil_r).
  assert (Hsz' : sio_size out' = zlen bs) by (by rewrite <- (sio_wf_bytes_len out' Hwf'), Hb', Hb).
  destruct (layout_unpacks junk format vs bs old [] out' [] Hl Hk Hwf' ltac:(lia) Ha)
    as (n' & vs' & input & Hn' & _ & Hu & Hl' & Hag & _ & Hah).
  rewrite Hn in Hn'. injection Hn' as <-. rewrite !app_nil_r in Hu.
  by exists n, out, out', vs', input.
Qed.

(** Formats whose members have a fixed size. *)
Definition fixed (x : Z) : bool :=
  bool_decide (x ∈ [STRUCT_CHAR; STRUCT_SHORT; STRUCT_INT; STRUCT_SHORT_LE; STRUCT_INT_LE; STRUCT_ETH_ADDR]).

Lemma number_short old o rest width decode pk input :
  old = [MNum o] -> sio_wf input -> zlen (ahead input) < width < MAX_TALLOC_SIZE -> exists new input',
  reg_unpacker (reg width pk (number_unpack width decode)) (old ++ rest) input = Some (-1, new, rest, input').
Proof.
  intros -> Hwf Hw. pose proof (zlen_nonneg (ahead input)).
  destruct (read_some input width Hwf ltac:(lia)) as (input' & E & _).
  cbn [reg reg_unpacker app number_unpack]. rewrite E. mred. rewrite ztake_all by lia.
  replace (zlen (ahead input) <? width) with true by lia. by eexists _, _.
Qed.

Lemma item_short_read junk x vs bs old rest input :
  item x vs bs -> fixed x = true -> Forall2 same_kind old vs -> sio_wf input ->
  zlen (ahead input) < zlen bs -> exists r new input', format_entry (net_formats junk) x = Some (Some r) /\
    reg_unpacker r (old ++ rest) input = Some (-1, new, rest, input').
Proof.
  intros Hi Hf Hk Hwf Hlt.
  assert (Hnum : forall n (width : Z) decode pk, vs = [MNum n] -> zlen bs = width -> width < MAX_TALLOC_SIZE ->
    exists new input', reg_unpacker (reg width pk (number_unpack width decode)) (old ++ rest) input
      = Some (-1, new, rest, input')).
  { intros n width decode pk -> Hw Hwm. apply same_kind_num in Hk as [o Ho].
    apply (number_short old o); [done|done|lia]. }
  destruct Hi as [n Hn|n Hn|n Hn|n Hn|n Hn| | | | | |l Hl]; try done.
  - destruct (Hnum n 1 unle (Char_pack junk)) as (new & input' & E); try done. by eexists _, new, input'.
  - destruct (Hnum n 2 (fun b => htons (unle b)) (Short_pack junk)) as (new & input' & E);
      [done|apply zlen_be|done|]. by eexists _, new, input'.
  - destruct (Hnum n 2 unle (LEShort_pack junk)) as (new & input' & E); [done|apply zlen_le|done|].
    by eexists _, new, input'.
  - destruct (Hnum n 4 (fun b => htonl (unle b)) (Int_pack junk)) as (new & input' & E);
      [done|apply zlen_be|done|]. by eexists _, new, input'.
  - destruct (Hnum n 4 unle (LEInt_pack junk)) as (new & input' & E); [done|apply zlen_le|done|].
    by eexists _, new, input'.
  - apply Forall2_cons_inv_r in Hk as (b & old' & Hk & H & ->). apply Forall2_nil_inv_r in H as ->.
    destruct b as [|k| |]; try done. destruct (read_some input 6 Hwf ltac:(done)) as (input' & E & _).
    eexists (reg 6 (Eth2_MAC_pack junk) Eth2_MAC_unpack), _, _. split; [done|].
    cbn [reg reg_unpacker app Eth2_MAC_unpack]. rewrite E. mred. rewrite ztake_all by lia.
    by replace (zlen (ahead input) <? 6) with true by lia.
Qed.

(** C20: a structure that is cut off is an error.  For formats of fixed size, unpacking from
    a stream that ends inside the structure, wherever, returns -1. *)
Theorem unpack_truncated junk format vs bs old input :
  layout format vs bs -> Forall (fun x => fixed x = true) format -> Forall2 same_kind old vs ->
  sio_wf input -> 2 * sio_size input < MAX_TALLOC_SIZE ->
  (exists k, 0 <= k < zlen bs /\ ahead input = ztake k bs) ->
  exists vs' input', unpack (net_formats junk) format input old = Some (-1, vs', input').
Proof.
  intros Hl. revert old input. induction Hl as [|x format vs bs vs' bs' Hi Hl IH];
    intros old input Hf Hk Hwf Hmax (k & Hkb & Ha).
  { unfold zlen in Hkb. cbn [length Z.of_nat] in Hkb. lia. }
  apply Forall_cons in Hf as [Hfx Hf]. apply Forall2_app_inv_r in Hk as (old1 & old2 & Hk1 & Hk2 & ->).
  rewrite zlen_app in Hkb. cbn [unpack]. destruct (Z.lt_ge_cases k (zlen bs)) as [Hlt|Hge].
  - destruct (item_short_read junk x vs bs old1 old2 input Hi Hfx Hk1 Hwf) as (r & new & input' & -> & E).
    { rewrite Ha, zlen_ztake, zlen_app. lia. }
    mred. rewrite E. mred. by eexists _, _.
  - rewrite ztake_app_ge in Ha by done.
    destruct (item_unpacks junk x vs bs Hi) as (r & Ht & Hr & Hun). rewrite Ht. mred.
    destruct (Hun old1 old2 input _ Hk1 Hwf Hmax Ha) as (vs1 & input1 & -> & _ & _ & (Hwf1 & _ & Hsz & _) & Ha1).
    mred. replace (reg_size r <? 0) with false by lia.
    destruct (IH old2 input1 Hf Hk2 Hwf1 ltac:(by rewrite Hsz)) as (vs2 & input2 & ->).
    { exists (k - zlen bs). split; [lia|done]. }
    by eexists _, _.
Qed.

(** ** Examples *)

(** A structure with members of every kind. *)
Definition sample_format : list Z :=
  [STRUCT_CHAR; STRUCT_SHORT; STRUCT_INT; STRUCT_SHORT_LE; STRUCT_INT_LE; STRUCT_STRING_NULL_TERM;
   STRUCT_STRING_AND_LENGTH; STRUCT_ARGV_ARRAY; STRUCT_ETH_ADDR].

Definition sample_struct : list member :=
  [MNum 65; MNum 258; MNum 16909060; MNum 258; MNum 16909060; MPtr (Some (lit "aff" ++ [0; 7]));
   MNum 2; MPtr (Some (lit "xyz")); MNum 2; MArr [lit "a"; []]; MBytes [1; 2; 3; 4; 5; 6]].

Definition sample_bytes : list Z :=
  [65; 1; 2; 1; 2; 3; 4; 2; 1; 4; 3; 2; 1] ++ lit "aff" ++ [0; 0; 2] ++ lit "xy" ++ [0; 2] ++ lit "a"
  ++ [0; 0; 1; 2; 3; 4; 5; 6].

Definition blank_struct : list member :=
  [MNum 0; MNum 0; MNum 0; MNum 0; MNum 0; MPtr None; MNum 0; MPtr None; MNum 0; MArr [];
   MBytes (replicate 6 0)].

Lemma sample_layout : layout sample_format sample_struct sample_bytes.
Proof.
  repeat first
    [ exact layout_nil
    | apply (layout_cons STRUCT_CHAR _ [MNum 65] [65]); [by constructor|]
    | apply (layout_cons STRUCT_SHORT _ [MNum 258] (be 2 258)); [by constructor|]
    | apply (layout_cons STRUCT_INT _ [MNum 16909060] (be 4 16909060)); [by constructor|]
    | apply (layout_cons STRUCT_SHORT_LE _ [MNum 258] (le 2 258)); [by constructor|]
    | apply (layout_cons STRUCT_INT_LE _ [MNum 16909060] (le 4 16909060)); [by constructor|]
    | apply (layout_cons STRUCT_STRING_NULL_TERM _ [MPtr (Some (lit "aff" ++ 0 :: [7]))] (lit "aff" ++ [0]));
      [constructor; apply (bool_decide_unpack _); vm_compute; exact I|]
    | apply (layout_cons STRUCT_STRING_AND_LENGTH _ [MNum 2; MPtr (Some (lit "xy" ++ lit "z"))]
               (be 2 2 ++ lit "xy")); [by constructor|]
    | apply (layout_cons STRUCT_ARGV_ARRAY _ [MNum 2; MArr [lit "a"; []]]
               (be 2 2 ++ flat_map (fun s => s ++ [0]) [lit "a"; []]));
      [constructor; [done|done|apply (bool_decide_unpack _); vm_compute; exact I]|]
    | apply (layout_cons STRUCT_ETH_ADDR _ [MBytes [1; 2; 3; 4; 5; 6]] [1; 2; 3; 4; 5; 6]); [by constructor|] ].
Qed.

Lemma struct_roundtrip_witness :
  exists n out out' vs' input, calcsize (net_formats (fun _ => 0)) sample_format = Some n /\
    pack (net_formats (fun _ => 0)) sample_format sample_struct StringIO_constructor = Some (n, out) /\
    sio_bytes out = sample_bytes /\ StringIO_seek (fun _ => 0) out 0 SEEK_SET = inr (0, out') /\
    unpack (net_formats (fun _ => 0)) sample_format out' blank_struct = Some (n, vs', input) /\
    layout sample_format vs' sample_bytes /\ Forall2 agree sample_struct vs' /\ ahead input = [].
Proof.
  apply (struct_roundtrip (fun _ => 0) sample_format sample_struct sample_bytes blank_struct);
    [exact sample_layout|done|repeat constructor].
Defined.

(** The header of an Ethernet frame, cut off in the type. *)
Definition eth_format : list Z := [STRUCT_ETH_ADDR; STRUCT_ETH_ADDR; STRUCT_SHORT].

Lemma eth_layout d s n :
  zlen d = 6 -> zlen s = 6 -> 0 <= n < 65536 ->
  layout eth_format [MBytes d; MBytes s; MNum n] (d ++ s ++ be 2 n).
Proof.
  intros Hd Hs Hn. rewrite <- (app_nil_r (be 2 n)).
  apply (layout_cons _ _ [MBytes d]); [by constructor|].
  apply (layout_cons _ _ [MBytes s]); [by constructor|].
  apply (layout_cons _ _ [MNum n]); [by constructor|constructor].
Qed.

Definition cut_stream : StringIO :=
  {| sio_size := 13; sio_alloc_size := 1024; sio_readptr := 0;
     sio_data := Some {| tc_size := 1024; tc_mem := replicate 1024 1 |} |}.

Lemma unpack_truncated_witness :
  exists vs' input', unpack (net_formats (fun _ => 0)) eth_format cut_stream
    [MBytes (replicate 6 0); MBytes (replicate 6 0); MNum 0] = Some (-1, vs', input').
Proof.
  apply (unpack_truncated (fun _ => 0) eth_format
    [MBytes (replicate 6 1); MBytes (replicate 6 1); MNum 257] (replicate 14 1)).
  - exact (eth_layout (replicate 6 1) (replicate 6 1) 257 eq_refl eq_refl ltac:(done)).
  - repeat constructor.
  - repeat constructor.
  - eexists. split; [reflexivity|]. by vm_compute.
  - done.
  - exists 13. split; [done|]. vm_compute. reflexivity.
Defined.
