(* ===== verification/Packet.v ===== *)
(** * Packet: dissecting network packets (applications/pyflag/network/packet.c, network.c)

    [Packet_Read] fills the structure of a packet from a stream; the dissectors of the
    layers follow each other, from the frame of a link type to TCP and UDP, and
    [find_packet_instance] finds a layer in what they made.  The reassembler gets the IP
    packet. *)
From S2P Require Import Prelude Talloc StringIO Struct Tcp TcpTable.

(** ** The data *)

(** A dissected packet: its class, the members of its structure, where it started, and what
    it found. *)
Record header := { h_start : Z; h_struct : list member }.

Record tcp_packet := {
  tp_header : header;
  tp_len : Z;
  tp_data_offset : Z;
  tp_data_len : Z;
  tp_data : option (list Z)
}.

Record udp_packet := {
  up_header : header;
  up_data_offset : Z;
  up_data_len : Z;
  up_data : option (list Z)
}.

Inductive packet :=
| PK_TCP (t : tcp_packet)
| PK_UDP (u : udp_packet)
| PK_IP (h : header) (payload : option packet)
| PK_PPPOE (h : header) (payload : option packet)
| PK_ETH_II (h : header) (payload : option packet)
| PK_IEEE80211 (h : header) (payload : option packet)
| PK_Cooked (h : header) (payload : option packet)
| PK_Root (h : header) (link_type packet_id : Z) (eth : option packet).

(** Member [i], a number. *)
Definition num (h : header) (i : nat) : Z :=
  match h_struct h !! i with Some (MNum n) => n | _ => 0 end.

Definition tcp_Format : list Z :=
  [STRUCT_SHORT; STRUCT_SHORT; STRUCT_INT; STRUCT_INT; STRUCT_CHAR; STRUCT_CHAR; STRUCT_SHORT; STRUCT_SHORT].
Definition udp_Format : list Z := [STRUCT_SHORT; STRUCT_SHORT; STRUCT_SHORT; STRUCT_SHORT].
Definition ip_Format : list Z :=
  [STRUCT_CHAR; STRUCT_CHAR; STRUCT_SHORT; STRUCT_SHORT; STRUCT_SHORT; STRUCT_CHAR; STRUCT_CHAR;
   STRUCT_SHORT; STRUCT_INT; STRUCT_INT].
Definition pppoe_Format : list Z := [STRUCT_CHAR; STRUCT_CHAR; STRUCT_SHORT; STRUCT_SHORT; STRUCT_SHORT].
Definition ethernet_2_Format : list Z := [STRUCT_ETH_ADDR; STRUCT_ETH_ADDR; STRUCT_SHORT].
Definition ieee_802_11_format : list Z :=
  [STRUCT_SHORT; STRUCT_SHORT; STRUCT_ETH_ADDR; STRUCT_ETH_ADDR; STRUCT_ETH_ADDR; STRUCT_SHORT;
   STRUCT_CHAR; STRUCT_CHAR; STRUCT_CHAR; STRUCT_CHAR; STRUCT_CHAR; STRUCT_CHAR; STRUCT_SHORT].
Definition cooked_Format : list Z :=
  [STRUCT_SHORT; STRUCT_SHORT; STRUCT_SHORT; STRUCT_ETH_ADDR; STRUCT_CHAR; STRUCT_CHAR; STRUCT_SHORT].

(** A structure of a new object: zeros. *)
Definition blank (format : list Z) : list member :=
  map (fun x => if x =? STRUCT_ETH_ADDR then MBytes (replicate 6 0) else MNum 0) format.

(** The link types. *)
Definition DLT_EN10MB : Z := 1.
Definition DLT_RAW : Z := 12.
Definition DLT_RAW2 : Z := 14.
Definition DLT_RAW3 : Z := 101.
Definition DLT_IEEE802_11 : Z := 105.
Definition DLT_LINUX_SLL : Z := 113.

Section Packet.

Variable junk : nat -> Z.

(** [Packet_Read]: the result of [unpack], the filled structure. *)
Definition Packet_Read (format : list Z) (input : StringIO) : option (Z * header * StringIO) :=
  '(result, struct, input') ← unpack (net_formats junk) format input (blank format);
  Some (result, {| h_start := i32 (sio_readptr input); h_struct := struct |}, input').

Definition Packet_Write (format : list Z) (h : header) (output : StringIO) : option (Z * StringIO) :=
  pack (net_formats junk) format (h_struct h) output.

(** [CALL(input, seek, offset, SEEK_SET)] *)
Definition seek_set (input : StringIO) (offset : Z) : option StringIO :=
  match StringIO_seek junk input offset SEEK_SET with inr (_, input) => Some input | inl _ => None end.

(** [talloc_memdup] of a part of the buffer: the inner [None] is NULL, for a size that
    cannot be allocated, as that of a negative length. *)
Definition talloc_memdup (input : StringIO) (off size : Z) : option (option (list Z)) :=
  if u64 size >=? MAX_TALLOC_SIZE then Some None
  else bytes ← mem_read (sio_data input) off (u64 size); Some (Some bytes).

(** The bit fields of the TCP header. *)
Definition tcp_doff (h : header) : Z := Z.shiftr (num h 4) 4.
Definition tcp_syn (h : header) : bool := Z.testbit (num h 5) 1.

Definition TCP_Read (input : StringIO) : option (Z * packet * StringIO) :=
  '(_, h, input) ← Packet_Read tcp_Format input;
  let len := tcp_doff h * 4 in
  let data_offset := u32 (h_start h + len) in
  if u32 (sio_size input) <=? data_offset then
    Some (i32 (sio_size input - h_start h),
          PK_TCP {| tp_header := h; tp_len := len; tp_data_offset := data_offset; tp_data_len := 0;
                    tp_data := None |}, input)
  else
    input ← seek_set input data_offset;
    let data_len := i32 (Z.min (u64 (sio_size input - sio_readptr input)) MAX_PACKET_SIZE) in
    data ← talloc_memdup input (sio_readptr input) data_len;
    Some (i32 (sio_size input - h_start h),
          PK_TCP {| tp_header := h; tp_len := len; tp_data_offset := data_offset; tp_data_len := data_len;
                    tp_data := data |}, input).

Definition UDP_Read (input : StringIO) : option (Z * packet * StringIO) :=
  '(len, h, input) ← Packet_Read udp_Format input;
  let data_len := i32 (Z.min (num h 2) (sio_size input) - len) in
  data ← talloc_memdup input (sio_readptr input) data_len;
  Some (num h 2,
        PK_UDP {| up_header := h; up_data_offset := u32 (h_start h + 8); up_data_len := data_len;
                  up_data := data |}, input).

(** The low half of the first byte. *)
Definition ip_ihl (h : header) : Z := Z.land (num h 0) 15.

Definition IP_Read (input : StringIO) : option (Z * packet * StringIO) :=
  '(len, h, input) ← Packet_Read ip_Format input;
  let input := if sio_size input >? h_start h + num h 2
               then StringIO_truncate input (h_start h + num h 2) else input in
  let read (payload_Read : StringIO -> option (Z * packet * StringIO)) :=
    input ← seek_set input (h_start h + ip_ihl h * 4);
    '(_, payload, input) ← payload_Read input;
    Some (i32 (sio_readptr input - h_start h), PK_IP h (Some payload), input) in
  if num h 6 =? 6 then read TCP_Read
  else if num h 6 =? 17 then read UDP_Read
  else Some (len, PK_IP h None, input).

(** A layer whose type member chooses the next one. *)
Definition dispatch_read (format : list Z) (type : nat) (make : header -> option packet -> packet)
    (choose : Z -> option (StringIO -> option (Z * packet * StringIO))) (input : StringIO)
  : option (Z * packet * StringIO) :=
  '(len, h, input) ← Packet_Read format input;
  match choose (num h type) with
  | Some payload_Read =>
      '(n, payload, input) ← payload_Read input;
      Some (i32 (len + n), make h (Some payload), input)
  | None => Some (len, make h None, input)
  end.

Definition PPPOE_Read : StringIO -> option (Z * packet * StringIO) :=
  dispatch_read pppoe_Format 4 PK_PPPOE (fun protocol => if protocol =? 33 then Some IP_Read else None).

Definition Eth2_Read : StringIO -> option (Z * packet * StringIO) :=
  dispatch_read ethernet_2_Format 2 PK_ETH_II
    (fun type => if type =? 2048 then Some IP_Read else if type =? 34916 then Some PPPOE_Read else None).

Definition IEEE80211_Read : StringIO -> option (Z * packet * StringIO) :=
  dispatch_read ieee_802_11_format 12 PK_IEEE80211
    (fun type => if type =? 2048 then Some IP_Read else if type =? 34916 then Some PPPOE_Read else None).

Definition Cooked_Read : StringIO -> option (Z * packet * StringIO) :=
  dispatch_read cooked_Format 6 PK_Cooked (fun type => if type =? 2048 then Some IP_Read else None).

(** The switch over the link types. *)
Definition eth_Read (link_type : Z) : option (StringIO -> option (Z * packet * StringIO)) :=
  if link_type =? DLT_EN10MB then Some Eth2_Read
  else if link_type =? DLT_IEEE802_11 then Some IEEE80211_Read
  else if link_type =? DLT_LINUX_SLL then Some Cooked_Read
  else if (link_type =? DLT_RAW) || (link_type =? DLT_RAW2) || (link_type =? DLT_RAW3) then Some IP_Read
  else None.

Definition Root_Read (link_type packet_id : Z) (input : StringIO) : option (Z * packet * StringIO) :=
  '(_, h, input) ← Packet_Read [] input;
  match eth_Read link_type with
  | Some read =>
      '(n, eth, input) ← read input;
      Some (n, PK_Root h link_type packet_id (Some eth), input)
  | None => Some (-1, PK_Root h link_type packet_id None, input)
  end.

End Packet.

(** ** Finding layers *)

Definition NAMEOF (p : packet) : list Z :=
  match p with
  | PK_TCP _ => lit "TCP"
  | PK_UDP _ => lit "UDP"
  | PK_IP _ _ => lit "IP"
  | PK_PPPOE _ _ => lit "PPPOE"
  | PK_ETH_II _ _ => lit "eth"
  | PK_IEEE80211 _ _ => lit "IEEE80211"
  | PK_Cooked _ _ => lit "Cooked"
  | PK_Root _ _ _ _ => lit "Root"
  end.

(** The property of type packet; each class has one at most. *)
Definition subpacket (p : packet) : option packet :=
  match p with
  | PK_TCP _ | PK_UDP _ => None
  | PK_IP _ q | PK_PPPOE _ q | PK_ETH_II _ q | PK_IEEE80211 _ q | PK_Cooked _ q | PK_Root _ _ _ q => q
  end.

(** The layers below [root], by the number of layers. *)
Fixpoint find_instance (fuel : nat) (root : packet) (class_name : list Z) : option packet :=
  match fuel, subpacket root with
  | S fuel, Some item =>
      if bool_decide (class_name = NAMEOF item) then Some item else find_instance fuel item class_name
  | _, _ => None
  end.

Fixpoint depth (p : packet) : nat :=
  match p with
  | PK_TCP _ | PK_UDP _ => O
  | PK_IP _ q | PK_PPPOE _ q | PK_ETH_II _ q | PK_IEEE80211 _ q | PK_Cooked _ q | PK_Root _ _ _ q =>
      match q with Some q => S (depth q) | None => O end
  end.

Definition find_packet_instance (root : packet) (class_name : list Z) : option packet :=
  find_instance (depth root) root class_name.

(** ** What the reassembler reads of an IP packet *)

(** No dissector sets [id]. *)
Definition reassembler_ip (p : packet) : option IP :=
  match p with
  | PK_IP h payload =>
      Some {| ip_id := 0; ip_saddr := num h 8; ip_daddr := num h 9;
              ip_payload :=
                match payload with
                | Some (PK_TCP t) =>
                    let th := tp_header t in
                    PTCP (num th 0) (num th 1) (tcp_syn th)
                      {| tcp_seq := num th 2; tcp_window := num th 6; tcp_data := default [] (tp_data t) |}
                | Some (PK_UDP u) =>
                    let uh := up_header u in
                    PUDP (num uh 0) (num uh 1) (up_data_len u) (default [] (up_data u))
                | _ => POther
                end |}
  | _ => None
  end.

Definition packet_ip (root : packet) : option IP := find_packet_instance root (lit "IP") ≫= reassembler_ip.

(** ** Lemmas *)

Definition word (n : Z) : Prop := 0 <= n < 65536.
Definition dword (n : Z) : Prop := 0 <= n < 4294967296.

Ltac lay := repeat first
  [ exact layout_nil
  | eapply (layout_cons _ _ [_]); [constructor; first [assumption | unfold word, dword in *; lia]|] ].

Section Facts.

Variable junk : nat -> Z.

(** Streams that a whole packet was put in. *)
Definition input_ok (s : StringIO) : Prop := sio_wf s /\ 2 * sio_size s < MAX_TALLOC_SIZE.

Lemma input_ok_bounds s : input_ok s -> 0 <= sio_readptr s <= sio_size s /\ sio_size s < 134217728.
Proof. intros [(? & _ & _ & ? & _) Hmax]. unfold MAX_TALLOC_SIZE in Hmax. lia. Qed.

Lemma input_ok_moved s s' n : input_ok s -> moved s s' n -> input_ok s'.
Proof. intros [_ Hmax] (Hwf & _ & Hs & _). split; [done|]. by rewrite Hs. Qed.

Lemma agree_fixed format vs bs vs' :
  layout format vs bs -> Forall (fun x => fixed x = true) format -> Forall2 agree vs vs' -> vs' = vs.
Proof.
  intros Hl Hf. assert (Forall (fun v => match v with MPtr _ => False | _ => True end) vs) as Hp.
  { induction Hl as [|x format vs bs us cs Hi Hl IH]; [constructor|].
    apply Forall_cons in Hf as [Hx Hf]. apply Forall_app. split; [|by apply IH].
    destruct Hi; try done; by repeat constructor. }
  clear Hl Hf. revert vs'. induction Hp as [|v vs Hv Hp IH]; intros vs' Ha.
  { by apply Forall2_nil_inv_l in Ha. }
  apply Forall2_cons_inv_l in Ha as (v' & us & Hvv & Ha & ->). f_equal; [|by apply IH].
  by destruct v, v'.
Qed.

Lemma blank_kind format vs bs :
  layout format vs bs -> Forall (fun x => fixed x = true) format -> Forall2 same_kind (blank format) vs.
Proof.
  induction 1 as [|x format vs bs us cs Hi Hl IH]; intros Hf; [constructor|].
  apply Forall_cons in Hf as [Hx Hf]. change (blank (x :: format)) with (blank [x] ++ blank format).
  apply Forall2_app; [|by apply IH].
  destruct Hi as [| | | | | | | | | |l Hl6]; try done; repeat constructor. cbn. by rewrite Hl6.
Qed.

Lemma packet_read format vs bs input more size :
  layout format vs bs -> Forall (fun x => fixed x = true) format ->
  calcsize (net_formats junk) format = Some size -> input_ok input -> ahead input = bs ++ more ->
  exists input', Packet_Read junk format input
      = Some (size, {| h_start := sio_readptr input; h_struct := vs |}, input') /\
    moved input input' (zlen bs) /\ ahead input' = more.
Proof.
  intros Hl Hf Hsz Hok Ha. pose proof (input_ok_bounds input Hok). destruct Hok as [Hwf Hmax].
  destruct (layout_unpacks junk format vs bs (blank format) [] input more Hl (blank_kind _ _ _ Hl Hf) Hwf Hmax Ha)
    as (n & vs' & input' & Hn & _ & Hu & _ & Hag & Hm & Ha').
  rewrite Hsz in Hn. injection Hn as <-. apply (agree_fixed _ _ _ _ Hl Hf) in Hag as ->.
  rewrite !app_nil_r in Hu. exists input'. unfold Packet_Read. rewrite Hu. mred.
  by rewrite i32_small by lia.
Qed.

Lemma seek_inside input off :
  input_ok input -> 0 <= off <= sio_size input -> exists input',
  seek_set junk input off = Some input' /\ input_ok input' /\ sio_bytes input' = sio_bytes input /\
  sio_size input' = sio_size input /\ sio_readptr input' = off.
Proof.
  intros [Hwf Hmax] Hoff. destruct (sio_seek_inside junk input off Hwf Hoff) as (s' & E & Hwf' & Habs & _).
  injection Habs as Hb Hr. unfold seek_set. rewrite E. exists s'.
  assert (sio_size s' = sio_size input) as Hs
    by (by rewrite <- (sio_wf_bytes_len s' Hwf'), Hb, sio_wf_bytes_len).
  split_and!; [done|split; [done|by rewrite Hs]|done|done|done].
Qed.

Lemma truncate_ok s n :
  input_ok s -> 0 <= n -> input_ok (if sio_size s >? n then StringIO_truncate s n else s).
Proof.
  intros [Hwf Hmax] Hn. destruct (sio_size s >? n) eqn:E; [|done].
  destruct (sio_truncate_spec s n Hwf) as [Hwf' _]; [lia|]. split; [done|]. cbn. lia.
Qed.

Lemma memdup_inside input off n :
  input_ok input -> 0 <= off -> 0 <= n -> off + n <= sio_size input ->
  talloc_memdup input off n = Some (Some (zread off n (sio_bytes input))).
Proof.
  intros Hok Ho Hn Hb. pose proof (input_ok_bounds input Hok).
  destruct Hok as [(tc & Hd & _ & _ & Hsz & _) _]. unfold talloc_memdup. rewrite u64_small by lia.
  replace (n >=? MAX_TALLOC_SIZE) with false by (unfold MAX_TALLOC_SIZE; lia).
  rewrite Hd, mem_read_ok by lia. mred. unfold sio_bytes. rewrite Hd. do 2 f_equal.
  unfold zread. rewrite zdrop_ztake, ztake_ztake by lia. do 2 f_equal; lia.
Qed.

(** The bytes of the headers. *)
Definition tcp_header_bytes (src dst seq ack off flags win chk : Z) : list Z :=
  be 2 src ++ be 2 dst ++ be 4 seq ++ be 4 ack ++ [off] ++ [flags] ++ be 2 win ++ be 2 chk.

Lemma tcp_layout src dst seq ack off flags win chk :
  word src -> word dst -> dword seq -> dword ack -> is_byte off -> is_byte flags -> word win -> word chk ->
  layout tcp_Format [MNum src; MNum dst; MNum seq; MNum ack; MNum off; MNum flags; MNum win; MNum chk]
    (tcp_header_bytes src dst seq ack off flags win chk).
Proof. intros. unfold tcp_header_bytes. rewrite <- (app_nil_r (be 2 chk)). lay. Qed.

Definition udp_header_bytes (src dst len chk : Z) : list Z := be 2 src ++ be 2 dst ++ be 2 len ++ be 2 chk.

Lemma udp_layout src dst len chk :
  word src -> word dst -> word len -> word chk ->
  layout udp_Format [MNum src; MNum dst; MNum len; MNum chk] (udp_header_bytes src dst len chk).
Proof. intros. unfold udp_header_bytes. rewrite <- (app_nil_r (be 2 chk)). lay. Qed.

Definition ip_header_bytes (vihl tos tot id frag ttl proto chk saddr daddr : Z) : list Z :=
  [vihl] ++ [tos] ++ be 2 tot ++ be 2 id ++ be 2 frag ++ [ttl] ++ [proto] ++ be 2 chk ++ be 4 saddr ++ be 4 daddr.

Lemma ip_layout vihl tos tot id frag ttl proto chk saddr daddr :
  is_byte vihl -> is_byte tos -> word tot -> word id -> word frag -> is_byte ttl -> is_byte proto ->
  word chk -> dword saddr -> dword daddr ->
  layout ip_Format [MNum vihl; MNum tos; MNum tot; MNum id; MNum frag; MNum ttl; MNum proto; MNum chk;
                    MNum saddr; MNum daddr]
    (ip_header_bytes vihl tos tot id frag ttl proto chk saddr daddr).
Proof. intros. unfold ip_header_bytes. rewrite <- (app_nil_r (be 4 daddr)). lay. Qed.

Definition eth_header_bytes (dst src : list Z) (type : Z) : list Z := dst ++ src ++ be 2 type.

Lemma eth_II_layout dst src type :
  zlen dst = 6 -> zlen src = 6 -> word type ->
  layout ethernet_2_Format [MBytes dst; MBytes src; MNum type] (eth_header_bytes dst src type).
Proof. intros. by apply eth_layout. Qed.


Lemma TCP_Read_spec input src dst seq ack off flags win chk opts data :
  input_ok input ->
  layout tcp_Format [MNum src; MNum dst; MNum seq; MNum ack; MNum off; MNum flags; MNum win; MNum chk]
    (tcp_header_bytes src dst seq ack off flags win chk) ->
  ahead input = tcp_header_bytes src dst seq ack off flags win chk ++ opts ++ data ->
  Z.shiftr off 4 * 4 = 18 + zlen opts -> zlen data <= MAX_PACKET_SIZE ->
  exists n t input', TCP_Read junk input = Some (n, PK_TCP t, input') /\
    tp_header t = {| h_start := sio_readptr input; h_struct :=
      [MNum src; MNum dst; MNum seq; MNum ack; MNum off; MNum flags; MNum win; MNum chk] |} /\
    default [] (tp_data t) = data /\ input_ok input'.
Proof.
  intros Hok Hl Ha Hoff Hd. unfold TCP_Read. pose proof (input_ok_bounds input Hok) as Hb.
  pose proof (ahead_length input (proj1 Hok)) as Hlen. rewrite Ha, !zlen_app in Hlen.
  change (zlen (tcp_header_bytes src dst seq ack off flags win chk)) with 18 in Hlen.
  pose proof (zlen_nonneg opts). pose proof (zlen_nonneg data).
  destruct (packet_read tcp_Format _ _ input _ 18 Hl ltac:(repeat constructor) eq_refl Hok Ha)
    as (input1 & E & Hm & Ha1). rewrite E. mred.
  pose proof (input_ok_moved _ _ _ Hok Hm) as Hok1. pose proof (moved_bytes _ _ _ Hm) as Hb1.
  destruct Hm as (_ & _ & Hs1 & _).
  unfold tcp_doff, num. cbn [h_struct h_start lookup list_lookup]. rewrite Hoff, Hs1.
  rewrite !u32_small by lia.
  assert (Hat : zdrop (18 + zlen opts) (ahead input) = data).
  { rewrite Ha, app_assoc. apply zdrop_app_eq. by rewrite zlen_app. }
  destruct (Z.leb_spec (sio_size input) (sio_readptr input + (18 + zlen opts))) as [Hle|Hlt].
  { eexists _, _, _. split_and!; [reflexivity|done| |done]. cbn. symmetry. apply zlen_0_nil. lia. }
  destruct (seek_inside input1 (sio_readptr input + (18 + zlen opts)) Hok1) as (input2 & -> & Hok2 & Hb2 & Hs2 & Hr2);
    [lia|]. mred.
  rewrite Hs2, Hr2, Hs1, u64_small by lia. unfold MAX_PACKET_SIZE in *.
  rewrite Z.min_l by lia. rewrite !i32_small by lia.
  rewrite memdup_inside by (try done; lia). mred.
  eexists _, _, _. split_and!; [reflexivity|done| |done]. cbn [tp_data default from_option id].
  rewrite Hb2, Hb1. unfold zread, ahead in *. rewrite zdrop_zdrop in Hat by lia.
  rewrite Hat. apply ztake_all. lia.
Qed.

(** A datagram that was captured whole. *)
Lemma UDP_Read_spec input src dst len chk data :
  input_ok input -> layout udp_Format [MNum src; MNum dst; MNum len; MNum chk] (udp_header_bytes src dst len chk) ->
  ahead input = udp_header_bytes src dst len chk ++ data -> len = 8 + zlen data ->
  exists n u input', UDP_Read junk input = Some (n, PK_UDP u, input') /\
    up_header u = {| h_start := sio_readptr input; h_struct := [MNum src; MNum dst; MNum len; MNum chk] |} /\
    up_data_len u = zlen data /\ default [] (up_data u) = data /\ input_ok input'.
Proof.
  intros Hok Hl Ha Hlen. unfold UDP_Read. pose proof (input_ok_bounds input Hok) as Hb.
  pose proof (ahead_length input (proj1 Hok)) as Hal. rewrite Ha, !zlen_app in Hal.
  change (zlen (udp_header_bytes src dst len chk)) with 8 in Hal. pose proof (zlen_nonneg data).
  destruct (packet_read udp_Format _ _ input _ 8 Hl ltac:(repeat constructor) eq_refl Hok Ha)
    as (input1 & E & Hm & Ha1). rewrite E. mred.
  pose proof (input_ok_moved _ _ _ Hok Hm) as Hok1. pose proof (moved_bytes _ _ _ Hm) as Hb1.
  destruct Hm as (_ & _ & Hs1 & Hr1).
  change (zlen (udp_header_bytes src dst len chk)) with 8 in Hr1.
  unfold num. cbn [h_struct h_start lookup list_lookup]. rewrite Hs1.
  rewrite Z.min_l, i32_small by lia.
  rewrite memdup_inside by (try done; lia). mred.
  eexists _, _, _. split_and!; [reflexivity|done|cbn; lia| |done]. cbn [up_data default from_option id].
  unfold zread. fold (ahead input1). rewrite Ha1. apply ztake_all. lia.
Qed.

(** The header of an IP packet, its options, its body, and what follows it in the frame. *)
Lemma IP_Read_body input vs hb opts body trash start vihl tot proto :
  input_ok input -> layout ip_Format vs hb -> zlen hb = 20 ->
  ahead input = hb ++ opts ++ body ++ trash -> start = sio_readptr input ->
  vs !! 0%nat = Some (MNum vihl) -> vs !! 2%nat = Some (MNum tot) -> vs !! 6%nat = Some (MNum proto) ->
  Z.land vihl 15 * 4 = 20 + zlen opts -> tot = 20 + zlen opts + zlen body ->
  proto = 6 \/ proto = 17 ->
  exists input2, input_ok input2 /\ ahead input2 = body /\
    IP_Read junk input = ('(_, payload, input') ← (if proto =? 6 then TCP_Read junk else UDP_Read junk) input2;
      Some (i32 (sio_readptr input' - start), PK_IP {| h_start := start; h_struct := vs |} (Some payload), input')).
Proof.
  intros Hok Hl Hhb Ha -> H0 H2 H6 Hihl Htot Hproto. pose proof (input_ok_bounds input Hok) as Hb.
  pose proof (ahead_length input (proj1 Hok)) as Hal. rewrite Ha, !zlen_app, Hhb in Hal.
  pose proof (zlen_nonneg opts). pose proof (zlen_nonneg body). pose proof (zlen_nonneg trash).
  destruct (packet_read ip_Format vs hb input _ 20 Hl ltac:(repeat constructor) eq_refl Hok Ha)
    as (input1 & E & Hm & Ha1).
  pose proof (input_ok_moved _ _ _ Hok Hm) as Hok1. pose proof (moved_bytes _ _ _ Hm) as Hb1.
  destruct Hm as (_ & _ & Hs1 & Hr1).
  rewrite Hhb in Hr1. unfold IP_Read. rewrite E. cbn [mbind option_bind]. unfold ip_ihl, num.
  cbn [h_struct h_start]. rewrite H0, H2, H6, Hihl.
  assert (exists input2, (if sio_size input1 >? sio_readptr input + tot
      then StringIO_truncate input1 (sio_readptr input + tot) else input1) = input2 /\ input_ok input2 /\
      sio_bytes input2 = ztake (sio_readptr input + tot) (sio_bytes input) /\
      sio_size input2 = sio_readptr input + tot) as (input2 & -> & Hok2 & Hb2 & Hs2).
  { rewrite Hs1. destruct (sio_size input >? sio_readptr input + tot) eqn:Et; eexists; (split; [reflexivity|]).
    - destruct (sio_truncate_spec input1 (sio_readptr input + tot) (proj1 Hok1)) as [Hwf2 Habs]; [lia|].
      injection Habs as Hb2 _. rewrite Hb1 in Hb2. split_and!; [|done|done].
      split; [done|]. cbn. destruct Hok1. lia.
    - pose proof (sio_wf_bytes_len input (proj1 Hok)). rewrite Hb1, Hs1, ztake_all by lia.
      split_and!; [done|done|lia]. }
  destruct (seek_inside input2 (sio_readptr input + (20 + zlen opts)) Hok2) as (input3 & E3 & Hok3 & Hb3 & _ & Hr3);
    [lia|].
  exists input3. split_and!; [done| |].
  2:{ rewrite E3. cbn [mbind option_bind]. by destruct Hproto as [-> | ->]. }
  unfold ahead. rewrite Hr3, Hb3, Hb2, zdrop_ztake by lia.
  replace (zdrop (sio_readptr input + (20 + zlen opts)) (sio_bytes input))
    with (zdrop (20 + zlen opts) (ahead input)) by (unfold ahead; rewrite zdrop_zdrop by lia; done).
  rewrite Ha, app_assoc, zdrop_app_eq by (rewrite zlen_app; lia). apply ztake_app_eq. lia.
Qed.

End Facts.

(** ** What packets look like on the wire *)

(** The bytes of an IP packet, with options and with what pads the frame after it, and what
    the reassembler is to get of it. *)
Inductive ip_wire : IP -> list Z -> Prop :=
| wire_tcp vihl tos id frag ttl chk saddr daddr opts trash src dst seq ack off flags win tchk topts data
    (tot := 20 + zlen opts + (18 + zlen topts + zlen data)) :
    is_byte vihl -> is_byte tos -> word tot -> word id -> word frag -> is_byte ttl -> word chk ->
    dword saddr -> dword daddr -> Z.land vihl 15 * 4 = 20 + zlen opts ->
    word src -> word dst -> dword seq -> dword ack -> is_byte off -> is_byte flags -> word win ->
    word tchk -> Z.shiftr off 4 * 4 = 18 + zlen topts ->
    ip_wire {| ip_id := 0; ip_saddr := saddr; ip_daddr := daddr;
               ip_payload := PTCP src dst (Z.testbit flags 1)
                 {| tcp_seq := seq; tcp_window := win; tcp_data := data |} |}
      (ip_header_bytes vihl tos tot id frag ttl 6 chk saddr daddr ++ opts
       ++ (tcp_header_bytes src dst seq ack off flags win tchk ++ topts ++ data) ++ trash)
| wire_udp vihl tos id frag ttl chk saddr daddr opts trash src dst uchk data
    (tot := 20 + zlen opts + (8 + zlen data)) :
    is_byte vihl -> is_byte tos -> word tot -> word id -> word frag -> is_byte ttl -> word chk ->
    dword saddr -> dword daddr -> Z.land vihl 15 * 4 = 20 + zlen opts ->
    word src -> word dst -> word uchk ->
    ip_wire {| ip_id := 0; ip_saddr := saddr; ip_daddr := daddr;
               ip_payload := PUDP src dst (zlen data) data |}
      (ip_header_bytes vihl tos tot id frag ttl 17 chk saddr daddr ++ opts
       ++ (udp_header_bytes src dst (8 + zlen data) uchk ++ data) ++ trash)
| wire_other vihl tos tot id frag ttl proto chk saddr daddr rest :
    is_byte vihl -> is_byte tos -> word tot -> word id -> word frag -> is_byte ttl -> is_byte proto ->
    word chk -> dword saddr -> dword daddr -> proto <> 6 -> proto <> 17 ->
    ip_wire {| ip_id := 0; ip_saddr := saddr; ip_daddr := daddr; ip_payload := POther |}
      (ip_header_bytes vihl tos tot id frag ttl proto chk saddr daddr ++ rest).

Definition pppoe_header_bytes (version session_data session_id len protocol : Z) : list Z :=
  [version] ++ [session_data] ++ be 2 session_id ++ be 2 len ++ be 2 protocol.

Definition wifi_header_bytes (control duration : Z) (bss src dst : list Z) (seq b1 b2 b3 b4 b5 b6 type : Z)
  : list Z :=
  be 2 control ++ be 2 duration ++ bss ++ src ++ dst ++ be 2 seq ++ [b1] ++ [b2] ++ [b3] ++ [b4] ++ [b5]
  ++ [b6] ++ be 2 type.

Definition cooked_header_bytes (kind atype alen : Z) (addr : list Z) (b1 b2 type : Z) : list Z :=
  be 2 kind ++ be 2 atype ++ be 2 alen ++ addr ++ [b1] ++ [b2] ++ be 2 type.

(** The frames of a link type that carry an IP packet. *)
Inductive frame_wire : Z -> list Z -> list Z -> Prop :=
| wire_raw link ip : link = DLT_RAW \/ link = DLT_RAW2 \/ link = DLT_RAW3 -> frame_wire link ip ip
| wire_eth dst src ip : zlen dst = 6 -> zlen src = 6 ->
    frame_wire DLT_EN10MB ip (eth_header_bytes dst src 2048 ++ ip)
| wire_pppoe dst src v sd sid len ip : zlen dst = 6 -> zlen src = 6 -> is_byte v -> is_byte sd ->
    word sid -> word len ->
    frame_wire DLT_EN10MB ip
      (eth_header_bytes dst src 34916 ++ pppoe_header_bytes v sd sid len 33 ++ ip)
| wire_wifi control duration bss src dst seq b1 b2 b3 b4 b5 b6 ip : word control -> word duration ->
    zlen bss = 6 -> zlen src = 6 -> zlen dst = 6 -> word seq -> is_byte b1 -> is_byte b2 -> is_byte b3 ->
    is_byte b4 -> is_byte b5 -> is_byte b6 ->
    frame_wire DLT_IEEE802_11 ip (wifi_header_bytes control duration bss src dst seq b1 b2 b3 b4 b5 b6 2048 ++ ip)
| wire_cooked kind atype alen addr b1 b2 ip : word kind -> word atype -> word alen -> zlen addr = 6 ->
    is_byte b1 -> is_byte b2 ->
    frame_wire DLT_LINUX_SLL ip (cooked_header_bytes kind atype alen addr b1 b2 2048 ++ ip).

Section Dissect.

Variable junk : nat -> Z.

(** A dissected IP packet. *)
Definition is_ip (ip : IP) (p : packet) : Prop :=
  (exists h payload, p = PK_IP h payload) /\ reassembler_ip p = Some ip.

Lemma IP_Read_wire ip bytes input :
  ip_wire ip bytes -> (zlen bytes <= MAX_PACKET_SIZE) -> input_ok input -> ahead input = bytes ->
  exists n p input', IP_Read junk input = Some (n, p, input') /\ is_ip ip p /\ input_ok input'.
Proof.
  intros Hw Hmax Hok Ha. destruct Hw as
    [vihl tos id frag ttl chk saddr daddr opts trash src dst seq ack off flags win tchk topts data tot
    |vihl tos id frag ttl chk saddr daddr opts trash src dst uchk data tot
    |vihl tos tot id frag ttl proto chk saddr daddr rest ? ? ? ? ? ? ? ? ? ? H6 H17].
  - assert (Hl : layout ip_Format _ (ip_header_bytes vihl tos tot id frag ttl 6 chk saddr daddr))
      by (by apply ip_layout).
    destruct (IP_Read_body junk input _ _ opts _ trash (sio_readptr input) vihl tot 6 Hok Hl eq_refl Ha eq_refl
      eq_refl eq_refl eq_refl) as (input2 & Hok2 & Ha2 & ->); [done| |by left|].
    { unfold tot. rewrite !zlen_app. change (zlen (tcp_header_bytes _ _ _ _ _ _ _ _)) with 18. lia. }
    assert (Hlt : layout tcp_Format _ (tcp_header_bytes src dst seq ack off flags win tchk))
      by (by apply tcp_layout).
    destruct (TCP_Read_spec junk input2 src dst seq ack off flags win tchk topts data Hok2 Hlt Ha2)
      as (n & t & input3 & E3 & Hh & Hd & Hok3); [done| |].
    { rewrite !zlen_app in Hmax. pose proof (zlen_nonneg opts). pose proof (zlen_nonneg topts).
      pose proof (zlen_nonneg trash). pose proof (zlen_nonneg (ip_header_bytes vihl tos tot id frag ttl 6 chk saddr daddr)).
      pose proof (zlen_nonneg (tcp_header_bytes src dst seq ack off flags win tchk)). lia. }
    cbn [Z.eqb Pos.eqb]. rewrite E3. cbn [mbind option_bind].
    eexists _, _, _. split; [reflexivity|]. split; [|done]. split; [by eexists _, _|].
    cbn [reassembler_ip]. unfold tcp_syn. rewrite Hh, Hd. reflexivity.
  - assert (Hl : layout ip_Format _ (ip_header_bytes vihl tos tot id frag ttl 17 chk saddr daddr))
      by (by apply ip_layout).
    assert (word (8 + zlen data)) as Hwd.
    { unfold word, tot in *. pose proof (zlen_nonneg opts). pose proof (zlen_nonneg data). lia. }
    destruct (IP_Read_body junk input _ _ opts _ trash (sio_readptr input) vihl tot 17 Hok Hl eq_refl Ha eq_refl
      eq_refl eq_refl eq_refl) as (input2 & Hok2 & Ha2 & ->); [done| |by right|].
    { unfold tot. rewrite !zlen_app. change (zlen (udp_header_bytes _ _ _ _)) with 8. lia. }
    assert (Hlt : layout udp_Format _ (udp_header_bytes src dst (8 + zlen data) uchk))
      by (by apply udp_layout).
    destruct (UDP_Read_spec junk input2 src dst (8 + zlen data) uchk data Hok2 Hlt Ha2 eq_refl)
      as (n & u & input3 & E3 & Hh & Hdl & Hd & Hok3).
    cbn [Z.eqb Pos.eqb]. rewrite E3. cbn [mbind option_bind].
    eexists _, _, _. split; [reflexivity|]. split; [|done]. split; [by eexists _, _|].
    cbn [reassembler_ip]. rewrite Hh, Hdl, Hd. reflexivity.
  - assert (Hl : layout ip_Format _ (ip_header_bytes vihl tos tot id frag ttl proto chk saddr daddr))
      by (by apply ip_layout).
    destruct (packet_read junk ip_Format _ _ input rest 20 Hl ltac:(repeat constructor) eq_refl Hok Ha)
      as (input1 & E & Hm & _). unfold IP_Read. rewrite E. cbn [mbind option_bind].
    cbn [num h_struct lookup list_lookup].
    replace (proto =? 6) with false by lia. replace (proto =? 17) with false by lia.
    eexists _, _, _. split; [reflexivity|]. split; [by split; [by eexists _, _|]|].
    apply truncate_ok; [by eapply input_ok_moved|]. pose proof (input_ok_bounds input Hok). cbn.
    unfold word in *. lia.
Qed.

Lemma pppoe_layout v sd sid len protocol :
  is_byte v -> is_byte sd -> word sid -> word len -> word protocol ->
  layout pppoe_Format [MNum v; MNum sd; MNum sid; MNum len; MNum protocol]
    (pppoe_header_bytes v sd sid len protocol).
Proof. intros. unfold pppoe_header_bytes. rewrite <- (app_nil_r (be 2 protocol)). lay. Qed.

Lemma wifi_layout control duration bss src dst seq b1 b2 b3 b4 b5 b6 type :
  word control -> word duration -> zlen bss = 6 -> zlen src = 6 -> zlen dst = 6 -> word seq ->
  is_byte b1 -> is_byte b2 -> is_byte b3 -> is_byte b4 -> is_byte b5 -> is_byte b6 -> word type ->
  layout ieee_802_11_format
    [MNum control; MNum duration; MBytes bss; MBytes src; MBytes dst; MNum seq; MNum b1; MNum b2; MNum b3;
     MNum b4; MNum b5; MNum b6; MNum type]
    (wifi_header_bytes control duration bss src dst seq b1 b2 b3 b4 b5 b6 type).
Proof. intros. unfold wifi_header_bytes. rewrite <- (app_nil_r (be 2 type)). lay. Qed.

Lemma cooked_layout kind atype alen addr b1 b2 type :
  word kind -> word atype -> word alen -> zlen addr = 6 -> is_byte b1 -> is_byte b2 -> word type ->
  layout cooked_Format [MNum kind; MNum atype; MNum alen; MBytes addr; MNum b1; MNum b2; MNum type]
    (cooked_header_bytes kind atype alen addr b1 b2 type).
Proof. intros. unfold cooked_header_bytes. rewrite <- (app_nil_r (be 2 type)). lay. Qed.

(** A layer over a packet: the reader its type chooses gets what follows the header. *)
Lemma dispatch_wire format vs hb type make choose payload_Read input more size P :
  layout format vs hb -> Forall (fun x => fixed x = true) format ->
  calcsize (net_formats junk) format = Some size -> input_ok input -> ahead input = hb ++ more ->
  choose (match vs !! type with Some (MNum n) => n | _ => 0 end) = Some payload_Read ->
  (forall input', input_ok input' -> ahead input' = more -> exists n p input2,
     payload_Read input' = Some (n, p, input2) /\ P p /\ input_ok input2) ->
  exists n h p input2, dispatch_read junk format type make choose input = Some (n, make h (Some p), input2) /\
    P p /\ input_ok input2.
Proof.
  intros Hl Hf Hsz Hok Ha Hc HP.
  destruct (packet_read junk format vs hb input more size Hl Hf Hsz Hok Ha) as (input1 & E & Hm & Ha1).
  unfold dispatch_read. rewrite E. cbn [mbind option_bind]. unfold num. cbn [h_struct]. rewrite Hc.
  destruct (HP input1 (input_ok_moved _ _ _ Hok Hm) Ha1) as (n & p & input2 & -> & Hp).
  cbn [mbind option_bind]. by eexists _, _, p, input2.
Qed.

(** Over IP, or over PPPoE over IP. *)
Definition over_ip (ip : IP) (p : packet) : Prop :=
  is_ip ip p \/ exists h q, p = PK_PPPOE h (Some q) /\ is_ip ip q.

Lemma find_over root ip p :
  subpacket root = Some p -> over_ip ip p \/ (exists q, subpacket p = Some q /\ over_ip ip q /\ NAMEOF p <> lit "IP") ->
  packet_ip root = Some ip.
Proof.
  intros Hr Hp. unfold packet_ip, find_packet_instance.
  assert (Hstep : forall p, depth p = match subpacket p with Some q => S (depth q) | None => 0%nat end)
    by (by intros []).
  assert (Hip : forall root q, subpacket root = Some q -> is_ip ip q ->
    find_instance (depth root) root (lit "IP") = Some q).
  { intros r q Hs ((h & payload & ->) & _). rewrite Hstep, Hs. cbn [find_instance]. rewrite Hs. done. }
  assert (Hov : forall root q, subpacket root = Some q -> over_ip ip q ->
    find_instance (depth root) root (lit "IP") ≫= reassembler_ip = Some ip).
  { intros r q Hs [Hq|(h & q' & -> & Hq)].
    - rewrite (Hip r q Hs Hq). apply Hq.
    - rewrite Hstep, Hs. cbn [find_instance]. rewrite Hs. rewrite bool_decide_false by done.
      rewrite (Hip (PK_PPPOE h (Some q')) q' eq_refl Hq). apply Hq. }
  destruct Hp as [Hp|(q & Hs & Hq & Hn)]; [by apply (Hov root p)|].
  rewrite Hstep, Hr. cbn [find_instance]. rewrite Hr, bool_decide_false by congruence. by apply (Hov p q).
Qed.

(** What the dissector of a link type makes of a frame. *)
Definition leads_to (ip : IP) (p : packet) : Prop :=
  over_ip ip p \/ exists q, subpacket p = Some q /\ over_ip ip q /\ NAMEOF p <> lit "IP".

Lemma carries_layer ip (make : header -> option packet -> packet) (h0 : header) p :
  over_ip ip p -> (forall h q, subpacket (make h q) = q) -> (forall h q, NAMEOF (make h q) <> lit "IP") ->
  leads_to ip (make h0 (Some p)).
Proof. intros Hp Hs Hn. right. exists p. by rewrite Hs. Qed.

Lemma ip_over ip bytes input :
  ip_wire ip bytes -> zlen bytes <= MAX_PACKET_SIZE -> input_ok input -> ahead input = bytes ->
  exists n p input2, IP_Read junk input = Some (n, p, input2) /\ over_ip ip p /\ input_ok input2.
Proof.
  intros Hip Hmax Hok Ha. destruct (IP_Read_wire ip bytes input Hip Hmax Hok Ha) as (n & p & input2 & E & Hp & Hok2).
  exists n, p, input2. split_and!; [done|by left|done].
Qed.

Lemma pppoe_over ip bytes v sd sid len input :
  ip_wire ip bytes -> zlen bytes <= MAX_PACKET_SIZE -> is_byte v -> is_byte sd -> word sid -> word len ->
  input_ok input -> ahead input = pppoe_header_bytes v sd sid len 33 ++ bytes ->
  exists n p input2, PPPOE_Read junk input = Some (n, p, input2) /\ over_ip ip p /\ input_ok input2.
Proof.
  intros Hip Hmax Hv Hsd Hsid Hlen Hok Ha.
  destruct (dispatch_wire pppoe_Format _ _ 4 PK_PPPOE
    (fun protocol => if protocol =? 33 then Some (IP_Read junk) else None) (IP_Read junk) input bytes 8 (is_ip ip)
    (pppoe_layout v sd sid len 33 Hv Hsd Hsid Hlen ltac:(unfold word; lia))
    ltac:(repeat constructor) eq_refl Hok Ha eq_refl) as (n & h & p & input2 & E & Hp & Hok2).
  { intros input' Hok' Ha'. by apply (IP_Read_wire ip bytes). }
  eexists n, _, input2. split_and!; [exact E| |done]. right. by exists h, p.
Qed.

Lemma frame_carries link ip bytes frame input :
  ip_wire ip bytes -> frame_wire link bytes frame -> zlen bytes <= MAX_PACKET_SIZE ->
  input_ok input -> ahead input = frame ->
  exists read n p input2, eth_Read junk link = Some read /\ read input = Some (n, p, input2) /\ leads_to ip p /\
    input_ok input2.
Proof.
  intros Hip Hfr Hmax Hok Ha.
  assert (Hread : forall input', input_ok input' -> ahead input' = bytes -> exists n p input2,
    IP_Read junk input' = Some (n, p, input2) /\ over_ip ip p /\ input_ok input2)
    by (intros; by apply (ip_over ip bytes)).
  destruct Hfr as [link bytes Hlink|dst src bytes Hd Hs|dst src v sd sid len bytes Hd Hs Hv Hsd Hsid Hlen
    |control duration bss src dst seq b1 b2 b3 b4 b5 b6 bytes Hc Hdu Hb Hs Hd Hsq H1 H2 H3 H4 H5 H6
    |kind atype alen addr b1 b2 bytes Hk Hat Hal Had H1 H2].
  - destruct (Hread input Hok Ha) as (n & p & input2 & E & Hp & Hok2).
    exists (IP_Read junk), n, p, input2. split_and!; [|done|by left|done]. by destruct Hlink as [->|[->| ->]].
  - destruct (dispatch_wire ethernet_2_Format _ _ 2 PK_ETH_II
      (fun type => if type =? 2048 then Some (IP_Read junk) else if type =? 34916 then Some (PPPOE_Read junk) else None)
      (IP_Read junk) input bytes 14 (over_ip ip) (eth_II_layout dst src 2048 Hd Hs ltac:(unfold word; lia))
      ltac:(repeat constructor) eq_refl Hok Ha eq_refl Hread) as (n & h & p & input2 & E & Hp & Hok2).
    eexists (Eth2_Read junk), n, _, input2. split_and!; [done|exact E|by apply carries_layer|done].
  - destruct (dispatch_wire ethernet_2_Format _ _ 2 PK_ETH_II
      (fun type => if type =? 2048 then Some (IP_Read junk) else if type =? 34916 then Some (PPPOE_Read junk) else None)
      (PPPOE_Read junk) input _ 14 (over_ip ip) (eth_II_layout dst src 34916 Hd Hs ltac:(unfold word; lia))
      ltac:(repeat constructor) eq_refl Hok Ha eq_refl) as (n & h & p & input2 & E & Hp & Hok2).
    { intros input' Hok' Ha'. by apply (pppoe_over ip bytes v sd sid len). }
    eexists (Eth2_Read junk), n, _, input2. split_and!; [done|exact E|by apply carries_layer|done].
  - destruct (dispatch_wire ieee_802_11_format _ _ 12 PK_IEEE80211
      (fun type => if type =? 2048 then Some (IP_Read junk) else if type =? 34916 then Some (PPPOE_Read junk) else None)
      (IP_Read junk) input bytes 32 (over_ip ip)
      (wifi_layout control duration bss src dst seq b1 b2 b3 b4 b5 b6 2048 Hc Hdu Hb Hs Hd Hsq H1 H2 H3 H4 H5 H6
         ltac:(unfold word; lia))
      ltac:(repeat constructor) eq_refl Hok Ha eq_refl Hread) as (n & h & p & input2 & E & Hp & Hok2).
    eexists (IEEE80211_Read junk), n, _, input2. split_and!; [done|exact E|by apply carries_layer|done].
  - destruct (dispatch_wire cooked_Format _ _ 6 PK_Cooked
      (fun type => if type =? 2048 then Some (IP_Read junk) else None)
      (IP_Read junk) input bytes 16 (over_ip ip)
      (cooked_layout kind atype alen addr b1 b2 2048 Hk Hat Hal Had H1 H2 ltac:(unfold word; lia))
      ltac:(repeat constructor) eq_refl Hok Ha eq_refl Hread) as (n & h & p & input2 & E & Hp & Hok2).
    eexists (Cooked_Read junk), n, _, input2. split_and!; [done|exact E|by apply carries_layer|done].
Qed.

Lemma Root_Read_carries link packet_id ip bytes frame input :
  ip_wire ip bytes -> frame_wire link bytes frame -> zlen bytes <= MAX_PACKET_SIZE ->
  input_ok input -> ahead input = frame ->
  exists n root input', Root_Read junk link packet_id input = Some (n, root, input') /\
    packet_ip root = Some ip /\ input_ok input'.
Proof.
  intros Hip Hfr Hmax Hok Ha. unfold Root_Read.
  destruct (packet_read junk [] [] [] input frame 0 layout_nil ltac:(constructor) eq_refl Hok Ha)
    as (input1 & -> & Hm & Ha1). cbn [mbind option_bind].
  destruct (frame_carries link ip bytes frame input1 Hip Hfr Hmax (input_ok_moved _ _ _ Hok Hm) Ha1)
    as (read & n & p & input2 & -> & E & Hp & Hok2). rewrite E. cbn [mbind option_bind].
  eexists _, _, _. split_and!; [reflexivity|by apply (find_over _ ip p)|done].
Qed.

End Dissect.

(** C16: frames are dissected.  Whatever the link type, raw, Ethernet with or without PPPoE,
    802.11 or the Linux pseudo-device, and whatever options, padding and payload the IP
    packet in a frame has: the reassembler finds in the dissected frame the addresses,
    ports, numbers and flags of the packet and exactly its data. *)
Theorem Root_Read_dissects junk link packet_id ip bytes frame input :
  ip_wire ip bytes -> frame_wire link bytes frame -> zlen bytes <= MAX_PACKET_SIZE ->
  input_ok input -> ahead input = frame ->
  exists n root input', Root_Read junk link packet_id input = Some (n, root, input') /\
    packet_ip root = Some ip.
Proof.
  intros Hip Hfr Hmax Hok Ha.
  destruct (Root_Read_carries junk link packet_id ip bytes frame input Hip Hfr Hmax Hok Ha)
    as (n & root & input' & E & Hp & _). by exists n, root, input'.
Qed.

(** A datagram that was cut is read past its end.  The length is compared with the size
    of the whole frame, lower headers and all, and not with what is left of it: when the
    length of a UDP header is more than what was captured after it, the data goes on with
    what is in the buffer behind the frame, or the read leaves the block. *)
Theorem UDP_Read_overreads junk input tc src dst len chk data :
  input_ok input -> sio_data input = Some tc -> word src -> word dst -> word len -> word chk ->
  ahead input = udp_header_bytes src dst len chk ++ data ->
  8 + zlen data < len <= sio_size input ->
  if sio_readptr input + len <=? zlen (tc_mem tc) then
    exists n u input', UDP_Read junk input = Some (n, PK_UDP u, input') /\ up_data_len u = len - 8 /\
      up_data u = Some (data ++ zread (sio_size input) (len - 8 - zlen data) (tc_mem tc))
  else UDP_Read junk input = None.
Proof.
  intros Hok Htc Hs Hd Hl Hc Ha Hlen. pose proof (input_ok_bounds input Hok) as Hb.
  pose proof (ahead_length input (proj1 Hok)) as Hal. rewrite Ha, !zlen_app in Hal.
  change (zlen (udp_header_bytes src dst len chk)) with 8 in Hal. pose proof (zlen_nonneg data).
  destruct (packet_read junk udp_Format _ _ input _ 8 (udp_layout src dst len chk Hs Hd Hl Hc)
    ltac:(repeat constructor) eq_refl Hok Ha) as (input1 & E & Hm & Ha1).
  destruct Hm as (_ & Hd1 & Hs1 & Hr1). change (zlen (udp_header_bytes src dst len chk)) with 8 in Hr1.
  unfold UDP_Read. rewrite E. cbn [mbind option_bind]. unfold num. cbn [h_struct h_start lookup list_lookup].
  rewrite Hs1. unfold word in Hl. rewrite Z.min_l, i32_small by lia.
  unfold talloc_memdup. rewrite u64_small by lia.
  replace (len - 8 >=? MAX_TALLOC_SIZE) with false by (unfold MAX_TALLOC_SIZE; lia).
  rewrite Hd1, Htc, Hr1. destruct (Z.leb_spec (sio_readptr input + len) (zlen (tc_mem tc))) as [Hle|Hlt].
  - rewrite mem_read_ok by lia. cbn [mbind option_bind]. eexists _, _, _. split_and!; [reflexivity|done|].
    cbn [up_data]. f_equal.
    assert (Hdata : data = zread (sio_readptr input + 8) (zlen data) (tc_mem tc)).
    { unfold ahead, sio_bytes in Ha1. rewrite Hd1, Hs1, Htc, Hr1, zdrop_ztake in Ha1 by lia.
      unfold zread. rewrite <- Ha1 at 1. f_equal. lia. }
    rewrite (zread_split (sio_readptr input + 8) (zlen data)) by lia. rewrite <- Hdata.
    do 2 f_equal; lia.
  - unfold mem_read. replace (sio_readptr input + 8 + (len - 8) <=? zlen (tc_mem tc)) with false by lia.
    by rewrite andb_false_r.
Qed.

(** ** Examples *)

(** A stream with some bytes at its start, as the buffer of the dissector. *)
Definition stream_of (bytes : list Z) (pos : Z) : StringIO :=
  {| sio_size := zlen bytes; sio_alloc_size := 4096; sio_readptr := pos;
     sio_data := Some {| tc_size := 4096; tc_mem := bytes ++ replicate (Z.to_nat (4096 - zlen bytes)) 7 |} |}.

Lemma stream_of_ok bytes pos : 0 <= pos <= zlen bytes -> zlen bytes <= 4096 -> input_ok (stream_of bytes pos).
Proof.
  intros Hp Hl. split; [|cbn; unfold MAX_TALLOC_SIZE; lia]. eexists. split; [reflexivity|].
  unfold chunk_ok, MAX_TALLOC_SIZE. cbn [stream_of sio_readptr sio_size sio_alloc_size tc_size tc_mem].
  rewrite zlen_app, zlen_replicate. lia.
Qed.

Lemma stream_of_ahead bytes pos : ahead (stream_of bytes pos) = zdrop pos bytes.
Proof. unfold ahead, sio_bytes. cbn [stream_of sio_readptr sio_size sio_data tc_mem]. by rewrite ztake_app_eq. Qed.

(** "GET /" from 192.168.1.1:1025 to 10.0.0.1:80 over PPPoE, with four bytes of padding. *)
Definition get_ip : list Z :=
  ip_header_bytes 69 0 45 1 0 64 6 0 3232235777 167772161
  ++ [] ++ (tcp_header_bytes 1025 80 1000 0 80 16 4096 0 ++ [0; 0] ++ lit "GET /") ++ [1; 2; 3; 4].

Definition get_frame : list Z :=
  eth_header_bytes (replicate 6 1) (replicate 6 2) 34916 ++ pppoe_header_bytes 17 0 5 47 33 ++ get_ip.

Definition get_packet : IP :=
  {| ip_id := 0; ip_saddr := 3232235777; ip_daddr := 167772161;
     ip_payload := PTCP 1025 80 (Z.testbit 16 1)
       {| tcp_seq := 1000; tcp_window := 4096; tcp_data := lit "GET /" |} |}.

Lemma get_wire : ip_wire get_packet get_ip.
Proof.
  apply (wire_tcp 69 0 1 0 64 0 3232235777 167772161 [] [1; 2; 3; 4] 1025 80 1000 0 80 16 4096 0 [0; 0] (lit "GET /"));
    done.
Qed.

Lemma Root_Read_dissects_witness :
  exists n root input', Root_Read (fun _ => 0) DLT_EN10MB 1 (stream_of (replicate 16 0 ++ get_frame) 16)
      = Some (n, root, input') /\ packet_ip root = Some get_packet.
Proof.
  apply (Root_Read_dissects (fun _ => 0) DLT_EN10MB 1 get_packet get_ip get_frame
    (stream_of (replicate 16 0 ++ get_frame) 16)).
  - exact get_wire.
  - apply (wire_pppoe (replicate 6 1) (replicate 6 2) 17 0 5 47 get_ip); done.
  - vm_compute. congruence.
  - apply stream_of_ok; vm_compute; [split|]; congruence.
  - rewrite stream_of_ahead. reflexivity.
Defined.

(** A datagram of 20 bytes of which 3 were captured; what follows them is old. *)
Definition cut_udp : list Z := replicate 34 0 ++ udp_header_bytes 1026 53 28 0 ++ [97; 98; 99].

Lemma UDP_Read_overreads_witness :
  exists n u input', UDP_Read (fun _ => 0) (stream_of cut_udp 34) = Some (n, PK_UDP u, input') /\
    up_data_len u = 20 /\ up_data u = Some ([97; 98; 99] ++ replicate 17 7).
Proof.
  apply (UDP_Read_overreads (fun _ => 0) (stream_of cut_udp 34)
    {| tc_size := 4096; tc_mem := cut_udp ++ replicate (Z.to_nat (4096 - zlen cut_udp)) 7 |}
    1026 53 28 0 [97; 98; 99]); try done.
  - apply stream_of_ok; vm_compute; [split|]; congruence.
Defined.
