(* ===== verification/Pcap.v ===== *)
(** * Pcap: capture files (applications/pyflag/network/pcap.c, pypcap.c)

    The headers of a capture file in both byte orders, the buffer that is filled from the
    file as packets are read, and the dissection of each packet. *)
From S2P Require Import Prelude Talloc StringIO Struct Tcp TcpTable TcpDemux Packet.

(** ** The headers *)

Definition PCAP_HEADER_STRUCT : list Z :=
  [STRUCT_INT; STRUCT_SHORT; STRUCT_SHORT; STRUCT_INT; STRUCT_INT; STRUCT_INT; STRUCT_INT].
Definition PCAP_HEADER_STRUCT_LE : list Z :=
  [STRUCT_INT_LE; STRUCT_SHORT_LE; STRUCT_SHORT_LE; STRUCT_INT_LE; STRUCT_INT_LE; STRUCT_INT_LE; STRUCT_INT_LE].
Definition PCAP_PKTHEADER_STRUCT : list Z := [STRUCT_INT; STRUCT_INT; STRUCT_INT; STRUCT_INT].
Definition PCAP_PKTHEADER_STRUCT_LE : list Z := [STRUCT_INT_LE; STRUCT_INT_LE; STRUCT_INT_LE; STRUCT_INT_LE].

(** [magic] is member 0, [linktype] member 6. *)
Record PcapFileHeader := { fh_header : header; fh_little_endian : bool }.

(** [ts_sec], [ts_usec], [caplen] and [len]; the data; the dissected tree. *)
Record PcapPacketHeader := { ph_header : header; ph_data : list Z; ph_root : option packet }.

Definition FILL_SIZE : Z := 1024 * 1000.

(** The reader: the buffer, what is left of the file, the byte order and link type of the
    file header, the buffer of the dissector, and the numbers it gives. *)
Record PyPCAP := {
  pp_buffer : StringIO;
  pp_fd : list Z;
  pp_file_header : PcapFileHeader;
  pp_dissection_buffer : StringIO;
  pp_packet_id : Z;
  pp_pcap_offset : Z
}.

Section Pcap.

Variable junk : nat -> Z.

Definition PcapFileHeader_Read (input : StringIO) : option (Z * PcapFileHeader * StringIO) :=
  let offset := i32 (sio_readptr input) in
  '(len, h, input) ← Packet_Read junk PCAP_HEADER_STRUCT input;
  if num h 0 =? 3569595041 then
    input ← seek_set junk input offset;
    '(len, h, input) ← Packet_Read junk PCAP_HEADER_STRUCT_LE input;
    Some (len, {| fh_header := h; fh_little_endian := true |}, input)
  else Some (len, {| fh_header := h; fh_little_endian := false |}, input).

(** [talloc_size] of the captured length and [read]: what is missing of the data is left as
    it was. *)
Definition PcapPacketHeader_Read (format : list Z) (input : StringIO)
  : option (Z * PcapPacketHeader * StringIO) :=
  '(len, h, input) ← Packet_Read junk format input;
  let caplen := num h 2 in
  if caplen >? 131071 then Some (0, {| ph_header := h; ph_data := []; ph_root := None |}, input)
  else
    tc ← talloc_size caplen;
    '(bytes, input) ← StringIO_read input caplen;
    Some (i32 (len + caplen),
          {| ph_header := h; ph_data := zover 0 bytes (tc_mem tc); ph_root := None |}, input).

Definition PcapPacketHeader_Write (format : list Z) (p : PcapPacketHeader) (output : StringIO)
  : option (Z * StringIO) :=
  '(len, output) ← Packet_Write junk format (ph_header p) output;
  data ← bytes_at (Some (ph_data p)) (num (ph_header p) 2);
  '(_, output) ← StringIO_write junk output data;
  Some (i32 (len + num (ph_header p) 2), output).

(** ** The reader *)

(** What was read is dropped from the buffer, and the next part of the file put behind the
    rest. *)
Definition PyPCAP_fill_buffer (buffer : StringIO) (fd : list Z) : option (Z * StringIO * list Z) :=
  let data := ztake FILL_SIZE fd in
  buffer ← StringIO_skip buffer (sio_readptr buffer);
  match StringIO_seek junk buffer 0 SEEK_END with
  | inr (_, buffer) =>
      '(_, buffer) ← StringIO_write junk buffer data;
      buffer ← seek_set junk buffer 0;
      Some (zlen data, buffer, zdrop FILL_SIZE fd)
  | inl _ => None
  end.

(** The search for the magic number, at every offset [i] of the buffer; [Some None] when it
    is nowhere. *)
Fixpoint find_magic (fuel : nat) (buffer : StringIO) (i : Z) : option (option Z) :=
  match fuel with
  | O => Some None
  | S fuel =>
      bytes ← mem_read (sio_data buffer) i 4;
      let test := unle bytes in
      if (test =? 3569595041) || (test =? 2712847316) then Some (Some i)
      else find_magic fuel buffer (i + 1)
  end.

(** The constructor; the inner [None] is the exception it raises. *)
Definition PyPCAP_init (fd : list Z) : option (option PyPCAP) :=
  '(len, buffer, fd) ← PyPCAP_fill_buffer StringIO_constructor fd;
  if len <=? 0 then Some None
  else
    found ← find_magic (Z.to_nat (sio_size buffer)) buffer 0;
    buffer ← (match found with Some i => seek_set junk buffer i | None => Some buffer end);
    '(_, fh, buffer) ← PcapFileHeader_Read buffer;
    if negb (num (fh_header fh) 0 =? 2712847316) then Some None
    else Some (Some {| pp_buffer := buffer; pp_fd := fd; pp_file_header := fh;
                       pp_dissection_buffer := StringIO_constructor; pp_packet_id := 0;
                       pp_pcap_offset := sio_readptr buffer |}).

(** The next packet; the inner [None] is the end of the iteration. *)
Definition PyPCAP_next (self : PyPCAP) : option (option PcapPacketHeader * PyPCAP) :=
  '(buffer, fd) ←
    (if u64 (sio_size (pp_buffer self) - sio_readptr (pp_buffer self)) <? MAX_PACKET_SIZE then
       '(_, buffer, fd) ← PyPCAP_fill_buffer (pp_buffer self) (pp_fd self); Some (buffer, fd)
     else Some (pp_buffer self, pp_fd self));
  let packet_offset := sio_readptr buffer in
  let format := if fh_little_endian (pp_file_header self) then PCAP_PKTHEADER_STRUCT_LE
                else PCAP_PKTHEADER_STRUCT in
  '(len, ph, buffer) ← PcapPacketHeader_Read format buffer;
  let self := {| pp_buffer := buffer; pp_fd := fd; pp_file_header := pp_file_header self;
                 pp_dissection_buffer := pp_dissection_buffer self; pp_packet_id := pp_packet_id self;
                 pp_pcap_offset := pp_pcap_offset self |} in
  if len <=? 0 then Some (None, self)
  else Some (Some ph,
             {| pp_buffer := buffer; pp_fd := fd; pp_file_header := pp_file_header self;
                pp_dissection_buffer := pp_dissection_buffer self; pp_packet_id := pp_packet_id self;
                pp_pcap_offset := pp_pcap_offset self + (sio_readptr buffer - packet_offset) |}).

(** The first 16 bytes of the header structure. *)
Definition header_memory (h : header) : list Z :=
  le 4 (num h 0) ++ le 4 (num h 1) ++ le 4 (num h 2) ++ le 4 (num h 3).

(** [PyPCAP_dissect] without an identifier. *)
Definition PyPCAP_dissect (self : PyPCAP) : option (option PcapPacketHeader * PyPCAP) :=
  let packet_id := pp_packet_id self in
  '(ph, self) ← PyPCAP_next {| pp_buffer := pp_buffer self; pp_fd := pp_fd self;
    pp_file_header := pp_file_header self; pp_dissection_buffer := pp_dissection_buffer self;
    pp_packet_id := i32 (packet_id + 1); pp_pcap_offset := pp_pcap_offset self |};
  match ph with
  | None => Some (None, self)
  | Some ph =>
      let db := StringIO_truncate (pp_dissection_buffer self) 0 in
      '(_, db) ← StringIO_write junk db (header_memory (ph_header ph));
      '(_, db) ← StringIO_write junk db (ztake (num (ph_header ph) 2) (ph_data ph));
      db ← seek_set junk db 16;
      '(_, root, db) ← Root_Read junk (num (fh_header (pp_file_header self)) 6) packet_id db;
      Some (Some {| ph_header := ph_header ph; ph_data := ph_data ph; ph_root := Some root |},
            {| pp_buffer := pp_buffer self; pp_fd := pp_fd self; pp_file_header := pp_file_header self;
               pp_dissection_buffer := db; pp_packet_id := pp_packet_id self;
               pp_pcap_offset := pp_pcap_offset self |})
  end.

(** The packets of a file until the iteration ends; [None] when [fuel] packets are not the
    whole of it. *)
Fixpoint dissect_all (fuel : nat) (self : PyPCAP) : option (list PcapPacketHeader) :=
  match fuel with
  | O => None
  | S fuel =>
      '(ph, self) ← PyPCAP_dissect self;
      match ph with
      | Some ph => phs ← dissect_all fuel self; Some (ph :: phs)
      | None => Some []
      end
  end.

End Pcap.

(** What the reassembler gets: [root] is a property of the packet header. *)
Definition reassembler_input (ph : PcapPacketHeader) : option IP := ph_root ph ≫= packet_ip.

(** ** What capture files look like *)

Definition pcap_magic : Z := 2712847316.

(** Numbers in the byte order of the file. *)
Definition en (little : bool) (n : nat) (z : Z) : list Z := if little then le n z else be n z.

Definition file_header_bytes (little : bool) (major minor zone sigfigs snaplen link : Z) : list Z :=
  en little 4 pcap_magic ++ en little 2 major ++ en little 2 minor ++ en little 4 zone
  ++ en little 4 sigfigs ++ en little 4 snaplen ++ en little 4 link.

Definition packet_header_bytes (little : bool) (sec usec caplen len : Z) : list Z :=
  en little 4 sec ++ en little 4 usec ++ en little 4 caplen ++ en little 4 len.

(** The records of the packets [ips], captured whole in the frames. *)
Inductive records_wire (little : bool) (link : Z) : list IP -> list Z -> Prop :=
| records_nil : records_wire little link [] []
| records_cons ip bytes frame sec usec len ips rest :
    ip_wire ip bytes -> frame_wire link bytes frame -> zlen frame + 16 <= MAX_PACKET_SIZE ->
    dword sec -> dword usec -> dword len -> records_wire little link ips rest ->
    records_wire little link (ip :: ips)
      ((packet_header_bytes little sec usec (zlen frame) len ++ frame) ++ rest).

(** ** Lemmas *)

Section Facts.

Variable junk : nat -> Z.

Lemma item_en4 (little : bool) z :
  dword z -> item (if little then STRUCT_INT_LE else STRUCT_INT) [MNum z] (en little 4 z).
Proof. intros Hz. destruct little; by constructor. Qed.

Lemma packet_header_layout (little : bool) sec usec caplen len :
  dword sec -> dword usec -> dword caplen -> dword len ->
  layout (if little then PCAP_PKTHEADER_STRUCT_LE else PCAP_PKTHEADER_STRUCT)
    [MNum sec; MNum usec; MNum caplen; MNum len] (packet_header_bytes little sec usec caplen len).
Proof.
  intros. unfold packet_header_bytes. rewrite <- (app_nil_r (en little 4 len)).
  destruct little; cbn [en]; lay.
Qed.

Lemma file_header_layout (little : bool) major minor zone sigfigs snaplen link :
  word major -> word minor -> dword zone -> dword sigfigs -> dword snaplen -> dword link ->
  layout (if little then PCAP_HEADER_STRUCT_LE else PCAP_HEADER_STRUCT)
    [MNum pcap_magic; MNum major; MNum minor; MNum zone; MNum sigfigs; MNum snaplen; MNum link]
    (file_header_bytes little major minor zone sigfigs snaplen link).
Proof.
  intros. assert (dword pcap_magic) by done. unfold file_header_bytes.
  rewrite <- (app_nil_r (en little 4 link)). destruct little; cbn [en]; lay.
Qed.

Lemma zlen_packet_header little sec usec caplen len :
  zlen (packet_header_bytes little sec usec caplen len) = 16.
Proof. by destruct little. Qed.

Lemma zlen_file_header little major minor zone sigfigs snaplen link :
  zlen (file_header_bytes little major minor zone sigfigs snaplen link) = 24.
Proof. by destruct little. Qed.

(** Filling the buffer. *)
Lemma fill_spec buffer fd :
  sio_wf buffer -> zlen (ahead buffer) <= MAX_PACKET_SIZE -> exists buffer',
  PyPCAP_fill_buffer junk buffer fd = Some (zlen (ztake FILL_SIZE fd), buffer', zdrop FILL_SIZE fd) /\
  input_ok buffer' /\ sio_readptr buffer' = 0 /\ sio_bytes buffer' = ahead buffer ++ ztake FILL_SIZE fd.
Proof.
  intros Hwf Hlen. unfold PyPCAP_fill_buffer.
  assert (0 <= sio_readptr buffer) by (destruct Hwf as (? & _ & _ & ? & _); lia).
  destruct (sio_skip_spec buffer (sio_readptr buffer) Hwf ltac:(done)) as (b1 & -> & Hwf1 & Habs1).
  injection Habs1 as Hb1 Hr1. fold (ahead buffer) in Hb1. cbn [mbind option_bind].
  pose proof (sio_wf_bytes_len b1 Hwf1) as Hl1. rewrite Hb1 in Hl1. pose proof (zlen_nonneg (ahead buffer)).
  assert (zlen (ztake FILL_SIZE fd) <= FILL_SIZE) as Hfill
    by (rewrite zlen_ztake; unfold FILL_SIZE; pose proof (zlen_nonneg fd); lia).
  unfold FILL_SIZE, MAX_PACKET_SIZE in *.
  change (StringIO_seek junk b1 0 SEEK_END) with (StringIO_seek junk b1 (sio_size b1 + 0) SEEK_SET).
  destruct (sio_seek_inside junk b1 (sio_size b1 + 0) Hwf1 ltac:(lia)) as (b2 & -> & Hwf2 & Habs2 & _).
  injection Habs2 as Hb2 Hr2.
  assert (Hs2 : sio_size b2 = sio_size b1)
    by (by rewrite <- (sio_wf_bytes_len b2 Hwf2), Hb2, sio_wf_bytes_len).
  assert (at_end b2) as He2 by (split; [done|rewrite Hr2; lia]).
  destruct (write_end junk b2 (ztake (1024 * 1000) fd) He2) as (b3 & -> & He3 & Hb3);
    [unfold MAX_TALLOC_SIZE; lia|]. cbn [mbind option_bind].
  pose proof (at_end_size _ _ _ He2 He3 Hb3) as Hs3.
  destruct (seek_inside junk b3 0) as (b4 & -> & Hok4 & Hb4 & _ & Hr4);
    [split; [apply He3|unfold MAX_TALLOC_SIZE; lia]|pose proof (zlen_nonneg (ztake (1024 * 1000) fd)); lia|].
  cbn [mbind option_bind]. exists b4. split_and!; [done|done|done|]. by rewrite Hb4, Hb3, Hb2, Hb1.
Qed.

(** The header of a packet and its data. *)
Lemma packet_header_read little sec usec len frame more input :
  input_ok input -> dword sec -> dword usec -> dword len -> zlen frame <= MAX_PACKET_SIZE ->
  ahead input = (packet_header_bytes little sec usec (zlen frame) len ++ frame) ++ more ->
  exists h input', PcapPacketHeader_Read junk
      (if little then PCAP_PKTHEADER_STRUCT_LE else PCAP_PKTHEADER_STRUCT) input
      = Some (16 + zlen frame, {| ph_header := h; ph_data := frame; ph_root := None |}, input') /\
    num h 2 = zlen frame /\ input_ok input' /\ ahead input' = more.
Proof.
  intros Hok Hsec Husec Hlen Hmax Ha. unfold MAX_PACKET_SIZE in Hmax. rewrite <- app_assoc in Ha.
  pose proof (zlen_nonneg frame).
  assert (Hlay := packet_header_layout little sec usec (zlen frame) len Hsec Husec
    ltac:(unfold dword; lia) Hlen).
  destruct (packet_read junk _ _ _ input (frame ++ more) 16 Hlay) as (input1 & E & Hm & Ha1);
    [destruct little; repeat constructor|by destruct little|done|exact Ha|].
  pose proof (input_ok_moved _ _ _ Hok Hm) as Hok1. unfold PcapPacketHeader_Read. rewrite E.
  cbn [mbind option_bind]. change (num {| h_start := sio_readptr input;
    h_struct := [MNum sec; MNum usec; MNum (zlen frame); MNum len] |} 2) with (zlen frame).
  replace (zlen frame >? 131071) with false by lia.
  destruct (talloc_size_ok (zlen frame)) as (tc & -> & _ & Htc & _); [unfold MAX_TALLOC_SIZE; lia|].
  cbn [mbind option_bind].
  destruct (read_ahead input1 (zlen frame) frame more (proj1 Hok1) Ha1 eq_refl) as (input2 & -> & Hm2 & Ha2);
    [unfold MAX_TALLOC_SIZE; lia|]. cbn [mbind option_bind].
  rewrite i32_small, zover_0, zdrop_all, app_nil_r by lia.
  eexists _, input2. split_and!; [reflexivity|done|by eapply input_ok_moved|done].
Qed.

(** The buffer is filled far enough. *)
Lemma enough self :
  sio_wf (pp_buffer self) -> 2 * sio_size (pp_buffer self) < MAX_TALLOC_SIZE -> exists buffer fd,
  (if u64 (sio_size (pp_buffer self) - sio_readptr (pp_buffer self)) <? MAX_PACKET_SIZE then
     '(_, buffer, fd) ← PyPCAP_fill_buffer junk (pp_buffer self) (pp_fd self); Some (buffer, fd)
   else Some (pp_buffer self, pp_fd self)) = Some (buffer, fd) /\ input_ok buffer /\
  ahead buffer ++ fd = ahead (pp_buffer self) ++ pp_fd self /\
  (MAX_PACKET_SIZE <= zlen (ahead buffer) \/ fd = []).
Proof.
  intros Hwf Hmax. pose proof (input_ok_bounds _ (conj Hwf Hmax)) as Hb.
  pose proof (ahead_length _ Hwf) as Hal. rewrite u64_small by lia.
  destruct (Z.ltb_spec (sio_size (pp_buffer self) - sio_readptr (pp_buffer self)) MAX_PACKET_SIZE) as [Hlt|Hge].
  - destruct (fill_spec (pp_buffer self) (pp_fd self) Hwf ltac:(lia)) as (buffer & -> & Hok & Hr & Hbytes).
    cbn [mbind option_bind]. exists buffer, (zdrop FILL_SIZE (pp_fd self)).
    assert (ahead buffer = ahead (pp_buffer self) ++ ztake FILL_SIZE (pp_fd self)) as ->
      by (unfold ahead at 1; rewrite Hr, Hbytes; by apply zdrop_0).
    split_and!; [done|done|by rewrite <- app_assoc, ztake_zdrop|].
    destruct (Z.le_gt_cases FILL_SIZE (zlen (pp_fd self))); [left|right; apply zdrop_all; lia].
    rewrite zlen_app, zlen_ztake. pose proof (zlen_nonneg (ahead (pp_buffer self))).
    unfold FILL_SIZE, MAX_PACKET_SIZE in *. lia.
  - exists (pp_buffer self), (pp_fd self). split_and!; [done|done|done|left; lia].
Qed.

(** The state between two packets: what is left of the file. *)
Record between_packets (self : PyPCAP) (little : bool) (link : Z) (rest : list Z) : Prop := {
  rd_buffer : input_ok (pp_buffer self);
  rd_rest : ahead (pp_buffer self) ++ pp_fd self = rest;
  rd_order : fh_little_endian (pp_file_header self) = little;
  rd_link : num (fh_header (pp_file_header self)) 6 = link;
  rd_dissection : sio_wf (pp_dissection_buffer self)
}.

Lemma truncate_empty db :
  sio_wf db -> at_end (StringIO_truncate db 0) /\ sio_bytes (StringIO_truncate db 0) = [].
Proof.
  intros Hwf. assert (0 <= sio_readptr db <= sio_size db) by (destruct Hwf as (? & _ & _ & ? & _); lia).
  destruct (sio_truncate_spec db 0 Hwf ltac:(lia)) as [Hwf0 Habs0]. injection Habs0 as Hb0 Hr0.
  rewrite Hb0, (ztake_0 0) by lia. split; [|done]. split; [done|].
  cbn [StringIO_truncate sio_readptr sio_size]. rewrite Hr0. lia.
Qed.

Lemma frame_wire_length link bytes frame : frame_wire link bytes frame -> zlen bytes <= zlen frame.
Proof.
  intros Hf. assert (exists pre, frame = pre ++ bytes) as [pre ->].
  { destruct Hf; [by exists []|by eexists|rewrite app_assoc; by eexists|by eexists|by eexists]. }
  rewrite zlen_app. pose proof (zlen_nonneg pre). lia.
Qed.

(** The copy of a packet that is dissected. *)
Lemma dissection_copy db h frame :
  sio_wf db -> num h 2 = zlen frame -> zlen frame <= MAX_PACKET_SIZE -> exists db1 db2 db3,
  StringIO_write junk (StringIO_truncate db 0) (header_memory h) = Some (16, db1) /\
  StringIO_write junk db1 (ztake (num h 2) frame) = Some (zlen frame, db2) /\
  seek_set junk db2 16 = Some db3 /\ input_ok db3 /\ ahead db3 = frame.
Proof.
  intros Hwf Hcap Hmax. unfold MAX_PACKET_SIZE in Hmax. pose proof (zlen_nonneg frame).
  destruct (truncate_empty db Hwf) as [He0 Hb0].
  assert (zlen (header_memory h) = 16) as Hh by done.
  destruct (write_end junk _ (header_memory h) He0) as (db1 & E1 & He1 & Hb1);
    [rewrite Hh; cbn; unfold MAX_TALLOC_SIZE; lia|].
  pose proof (at_end_size _ _ _ He0 He1 Hb1) as Hs1. rewrite Hh in E1, Hs1.
  change (sio_size (StringIO_truncate db 0)) with 0 in Hs1.
  rewrite Hcap, ztake_all by lia.
  destruct (write_end junk db1 frame He1) as (db2 & E2 & He2 & Hb2); [unfold MAX_TALLOC_SIZE; lia|].
  pose proof (at_end_size _ _ _ He1 He2 Hb2) as Hs2.
  destruct (seek_inside junk db2 16) as (db3 & E3 & Hok3 & Hb3 & _ & Hr3);
    [split; [apply He2|unfold MAX_TALLOC_SIZE; lia]|lia|].
  exists db1, db2, db3. split_and!; [done|done|done|done|].
  unfold ahead. rewrite Hr3, Hb3, Hb2, Hb1, Hb0. by apply zdrop_app_eq.
Qed.

Lemma split_ahead (l fd rec rest : list Z) :
  l ++ fd = rec ++ rest -> zlen rec <= zlen l -> exists more, l = rec ++ more /\ more ++ fd = rest.
Proof.
  intros Hall Hle. exists (zdrop (zlen rec) l).
  assert (ztake (zlen rec) l = rec) as Ht.
  { rewrite <- (ztake_app_le (zlen rec) l fd) by done. rewrite Hall. by apply ztake_app_eq. }
  split; [by rewrite <- Ht at 1; rewrite ztake_zdrop|].
  apply (app_inv_head rec). rewrite app_assoc. rewrite <- Ht at 1. by rewrite ztake_zdrop.
Qed.

(** One packet of the file. *)
Lemma dissect_packet self little link ip bytes frame sec usec len rest :
  between_packets self little link ((packet_header_bytes little sec usec (zlen frame) len ++ frame) ++ rest) ->
  ip_wire ip bytes -> frame_wire link bytes frame -> zlen frame + 16 <= MAX_PACKET_SIZE ->
  dword sec -> dword usec -> dword len ->
  exists ph self', PyPCAP_dissect junk self = Some (Some ph, self') /\ reassembler_input ph = Some ip /\
    ph_data ph = frame /\ between_packets self' little link rest.
Proof.
  intros [Hok Hrest Ho Hlk Hd] Hip Hfr Hmax Hsec Husec Hlen.
  destruct (enough self (proj1 Hok) (proj2 Hok)) as (buffer & fd & E & Hokb & Hall & Henough).
  rewrite Hrest in Hall. set (rec := packet_header_bytes little sec usec (zlen frame) len ++ frame) in *.
  assert (zlen rec = 16 + zlen frame) as Hrec by (unfold rec; by rewrite zlen_app, zlen_packet_header).
  assert (exists more, ahead buffer = rec ++ more /\ more ++ fd = rest) as (more & Ha & Hmore).
  { apply split_ahead; [done|]. destruct Henough as [?| ->]; [lia|]. rewrite app_nil_r in Hall.
    rewrite Hall, zlen_app. pose proof (zlen_nonneg rest). lia. }
  assert (zlen frame <= MAX_PACKET_SIZE) as Hmf by lia.
  destruct (packet_header_read little sec usec len frame more buffer Hokb Hsec Husec Hlen Hmf Ha)
    as (h & buffer' & E2 & Hcap & Hok' & Ha').
  destruct (dissection_copy (pp_dissection_buffer self) h frame Hd Hcap Hmf)
    as (db1 & db2 & db3 & E3 & E4 & E5 & Hok3 & Ha3).
  pose proof (frame_wire_length _ _ _ Hfr).
  destruct (Root_Read_carries junk link (pp_packet_id self) ip bytes frame db3 Hip Hfr ltac:(lia) Hok3 Ha3)
    as (n & root & db4 & E6 & Hroot & Hok4).
  unfold PyPCAP_dissect, PyPCAP_next. cbn [pp_buffer pp_fd pp_file_header pp_dissection_buffer].
  rewrite E. cbn [mbind option_bind]. rewrite Ho, E2. cbn [mbind option_bind].
  pose proof (zlen_nonneg frame). replace (16 + zlen frame <=? 0) with false by lia. cbn [mbind option_bind].
  cbn [ph_header ph_data pp_dissection_buffer pp_file_header]. rewrite E3. cbn [mbind option_bind].
  rewrite E4. cbn [mbind option_bind]. rewrite E5. cbn [mbind option_bind]. rewrite Hlk, E6.
  cbn [mbind option_bind]. eexists _, _. split_and!; [reflexivity|done|done|].
  split; cbn [pp_buffer pp_fd pp_file_header pp_dissection_buffer]; try done; [by rewrite Ha'|by destruct Hok4].
Qed.

(** The end of the file. *)
Lemma header_at_end (little : bool) input :
  input_ok input -> ahead input = [] -> exists ph input', PcapPacketHeader_Read junk
    (if little then PCAP_PKTHEADER_STRUCT_LE else PCAP_PKTHEADER_STRUCT) input = Some (-1, ph, input').
Proof.
  intros Hok Ha. destruct (read_some input 4 (proj1 Hok) ltac:(done)) as (input1 & E1 & Hm1).
  rewrite Ha in E1, Hm1. change (ztake 4 []) with (@nil Z) in E1, Hm1.
  assert (exists h, Packet_Read junk (if little then PCAP_PKTHEADER_STRUCT_LE else PCAP_PKTHEADER_STRUCT) input
    = Some (-1, h, input1) /\ num h 2 = 0) as (h & E & Hn).
  { unfold Packet_Read. destruct little.
    - change (blank PCAP_PKTHEADER_STRUCT_LE) with (MNum 0 :: [MNum 0; MNum 0; MNum 0]).
      unfold PCAP_PKTHEADER_STRUCT_LE. cbn [unpack].
      change (format_entry (net_formats junk) STRUCT_INT_LE) with (Some (Some (reg 4 (LEInt_pack junk) LEInt_unpack))).
      unfold LEInt_unpack, number_unpack.
      cbn [mbind option_bind reg reg_unpacker]. rewrite E1. cbn [mbind option_bind].
      by eexists.
    - change (blank PCAP_PKTHEADER_STRUCT) with (MNum 0 :: [MNum 0; MNum 0; MNum 0]).
      unfold PCAP_PKTHEADER_STRUCT. cbn [unpack].
      change (format_entry (net_formats junk) STRUCT_INT) with (Some (Some (reg 4 (Int_pack junk) Int_unpack))).
      unfold Int_unpack, number_unpack.
      cbn [mbind option_bind reg reg_unpacker]. rewrite E1. cbn [mbind option_bind].
      by eexists. }
  unfold PcapPacketHeader_Read. rewrite E. cbn [mbind option_bind]. rewrite Hn.
  change (0 >? 131071) with false. cbn beta iota. change (talloc_size 0) with (Some {| tc_size := 0; tc_mem := [] |}).
  cbn [mbind option_bind].
  destruct (read_some input1 0 (proj1 (input_ok_moved _ _ _ Hok Hm1)) ltac:(done)) as (input2 & -> & _).
  cbn [mbind option_bind]. by eexists _, _.
Qed.

Lemma dissect_end self little link :
  between_packets self little link [] -> exists self', PyPCAP_dissect junk self = Some (None, self').
Proof.
  intros [Hok Hrest Ho _ _].
  destruct (enough self (proj1 Hok) (proj2 Hok)) as (buffer & fd & E & Hokb & Hall & _).
  rewrite Hrest in Hall. apply app_eq_nil in Hall as [Ha _].
  unfold PyPCAP_dissect, PyPCAP_next. cbn [pp_buffer pp_fd pp_file_header pp_dissection_buffer].
  rewrite E. cbn [mbind option_bind]. rewrite Ho.
  destruct (header_at_end little buffer Hokb Ha) as (ph & buffer' & ->). cbn [mbind option_bind].
  by eexists.
Qed.

(** All packets of the file. *)
Lemma dissect_records self little link ips rest :
  records_wire little link ips rest -> between_packets self little link rest ->
  exists phs, dissect_all junk (S (length ips)) self = Some phs /\
    map reassembler_input phs = map Some ips.
Proof.
  intros Hrec. revert self. induction Hrec as [|ip bytes frame sec usec len ips rest Hip Hfr Hmax Hs Hu Hl Hrec IH];
    intros self Hrd.
  - destruct (dissect_end self little link Hrd) as [self' E]. exists [].
    cbn [length dissect_all]. rewrite E. by cbn [mbind option_bind].
  - destruct (dissect_packet self little link ip bytes frame sec usec len rest Hrd Hip Hfr Hmax Hs Hu Hl)
      as (ph & self' & E & Hph & _ & Hrd').
    destruct (IH self' Hrd') as (phs & E2 & Hphs). exists (ph :: phs).
    change (length (ip :: ips)) with (S (length ips)). cbn [dissect_all].
    rewrite E. cbn [mbind option_bind]. cbn [dissect_all] in E2. rewrite E2. cbn [mbind option_bind].
    split; [done|]. cbn [map]. by rewrite Hph, Hphs.
Qed.

(** The file header is found at the start of the buffer and read in its byte order. *)
Lemma le_swapped n z : le n z = be n (unle (be n z)).
Proof. unfold be at 1. rewrite le_unle_be. unfold be. by rewrite reverse_involutive. Qed.

Lemma swapped_bound n z : 0 <= unle (be n z) < 256 ^ Z.of_nat n.
Proof.
  pose proof (unle_bound (be n z)) as H. rewrite zlen_be in H.
  apply H, Forall_reverse, le_bytes_ok.
Qed.

Lemma be_header_layout a b c d e f g :
  dword a -> word b -> word c -> dword d -> dword e -> dword f -> dword g ->
  layout PCAP_HEADER_STRUCT [MNum a; MNum b; MNum c; MNum d; MNum e; MNum f; MNum g]
    (be 4 a ++ be 2 b ++ be 2 c ++ be 4 d ++ be 4 e ++ be 4 f ++ be 4 g).
Proof. intros. rewrite <- (app_nil_r (be 4 g)). lay. Qed.

(** A little endian header, read as big endian: every number is swapped. *)
Lemma file_header_swapped major minor zone sigfigs snaplen link :
  layout PCAP_HEADER_STRUCT
    [MNum 3569595041; MNum (unle (be 2 major)); MNum (unle (be 2 minor)); MNum (unle (be 4 zone));
     MNum (unle (be 4 sigfigs)); MNum (unle (be 4 snaplen)); MNum (unle (be 4 link))]
    (file_header_bytes true major minor zone sigfigs snaplen link).
Proof.
  unfold file_header_bytes. cbn [en].
  rewrite (le_swapped 4 pcap_magic), (le_swapped 2 major), (le_swapped 2 minor), (le_swapped 4 zone),
    (le_swapped 4 sigfigs), (le_swapped 4 snaplen), (le_swapped 4 link).
  change (unle (be 4 pcap_magic)) with 3569595041.
  apply be_header_layout; first [done | apply (swapped_bound 2) | apply (swapped_bound 4)].
Qed.

Lemma file_header_read little major minor zone sigfigs snaplen link more input :
  input_ok input -> word major -> word minor -> dword zone -> dword sigfigs -> dword snaplen -> dword link ->
  ahead input = file_header_bytes little major minor zone sigfigs snaplen link ++ more ->
  exists h input', PcapFileHeader_Read junk input
      = Some (24, {| fh_header := h; fh_little_endian := little |}, input') /\
    num h 0 = pcap_magic /\ num h 6 = link /\ input_ok input' /\ ahead input' = more.
Proof.
  intros Hok Hma Hmi Hz Hsi Hsn Hli Ha. unfold PcapFileHeader_Read.
  pose proof (input_ok_bounds input Hok) as Hb. rewrite i32_small by lia.
  pose proof (file_header_layout little major minor zone sigfigs snaplen link Hma Hmi Hz Hsi Hsn Hli) as Hl.
  destruct little.
  - pose proof (file_header_swapped major minor zone sigfigs snaplen link) as Hl2.
    destruct (packet_read junk _ _ _ input more 24 Hl2) as (input1 & E1 & Hm1 & _);
      [repeat constructor|done|done|exact Ha|].
    rewrite E1. cbn [mbind option_bind].
    match goal with |- context [num ?h 0] => change (num h 0) with 3569595041 end.
    change (3569595041 =? 3569595041) with true. cbn beta iota.
    pose proof (input_ok_moved _ _ _ Hok Hm1) as Hok1.
    destruct (seek_inside junk input1 (sio_readptr input)) as (input2 & -> & Hok2 & Hb2 & _ & Hr2);
      [done|destruct Hm1 as (_ & _ & -> & _); lia|]. cbn [mbind option_bind].
    assert (Ha2 : ahead input2 = ahead input)
      by (unfold ahead; by rewrite Hr2, Hb2, (moved_bytes _ _ _ Hm1)).
    rewrite Ha in Ha2.
    destruct (packet_read junk _ _ _ input2 more 24 Hl) as (input3 & E3 & Hm3 & Ha3);
      [repeat constructor|done|done|exact Ha2|].
    rewrite E3. cbn [mbind option_bind]. eexists _, input3.
    split_and!; [reflexivity|done|done|by eapply input_ok_moved|done].
  - destruct (packet_read junk _ _ _ input more 24 Hl) as (input1 & E1 & Hm1 & Ha1);
      [repeat constructor|done|done|exact Ha|].
    rewrite E1. cbn [mbind option_bind].
    match goal with |- context [num ?h 0] => change (num h 0) with pcap_magic end.
    change (pcap_magic =? 3569595041) with false. cbn beta iota. eexists _, input1.
    split_and!; [reflexivity|done|done|by eapply input_ok_moved|done].
Qed.

(** The magic number in either byte order, at the start of the buffer. *)
Lemma find_magic_start (little : bool) fuel buffer bytes more :
  sio_wf buffer -> sio_bytes buffer = en little 4 pcap_magic ++ more ->
  bytes = en little 4 pcap_magic -> find_magic (S fuel) buffer 0 = Some (Some 0).
Proof.
  intros (tc & Hd & Hc & Hr & Ha & Hm) Hb ->. cbn [find_magic]. rewrite Hd.
  unfold sio_bytes in Hb. rewrite Hd in Hb.
  assert (zlen (en little 4 pcap_magic) = 4) as Hl by by destruct little.
  assert (4 <= sio_size buffer) as Hs.
  { apply (f_equal zlen) in Hb. rewrite zlen_ztake, zlen_app, Hl in Hb. pose proof (zlen_nonneg more). lia. }
  rewrite mem_read_ok by lia. cbn [mbind option_bind].
  assert (zread 0 4 (tc_mem tc) = en little 4 pcap_magic) as ->.
  { unfold zread. rewrite zdrop_0, <- (ztake_app_eq 4 (en little 4 pcap_magic) more), <- Hb by done.
    rewrite ztake_ztake. f_equal. lia. }
  by destruct little.
Qed.

(** The constructor on a capture file. *)
Lemma init_reads little major minor zone sigfigs snaplen link rest :
  word major -> word minor -> dword zone -> dword sigfigs -> dword snaplen -> dword link ->
  exists self, PyPCAP_init junk (file_header_bytes little major minor zone sigfigs snaplen link ++ rest)
    = Some (Some self) /\ between_packets self little link rest.
Proof.
  intros Hma Hmi Hz Hsi Hsn Hli.
  set (hb := file_header_bytes little major minor zone sigfigs snaplen link).
  assert (zlen hb = 24) as Hhb by by apply zlen_file_header.
  destruct (fill_spec StringIO_constructor (hb ++ rest)) as (buffer & E & Hok & Hr & Hb);
    [apply constructor_at_end|done|].
  assert (ahead buffer = ztake FILL_SIZE (hb ++ rest)) as Ha
    by (unfold ahead; rewrite Hr, Hb; by apply zdrop_0).
  pose proof (zlen_nonneg rest).
  assert (24 <= zlen (ztake FILL_SIZE (hb ++ rest))) as Hlen
    by (rewrite zlen_ztake, zlen_app; unfold FILL_SIZE; lia).
  destruct (split_ahead (ahead buffer) (zdrop FILL_SIZE (hb ++ rest)) hb rest) as (more & Ha1 & Hmore);
    [by rewrite Ha, ztake_zdrop|rewrite Ha; lia|].
  unfold PyPCAP_init. rewrite E. cbn [mbind option_bind].
  replace (zlen (ztake FILL_SIZE (hb ++ rest)) <=? 0) with false by lia.
  assert (24 <= sio_size buffer) as Hs.
  { pose proof (ahead_length _ (proj1 Hok)) as Hal. rewrite Ha in Hal. lia. }
  assert (Z.to_nat (sio_size buffer) = S (Z.to_nat (sio_size buffer) - 1)) as -> by lia.
  assert (Hb2 : sio_bytes buffer = hb ++ more) by (rewrite <- Ha1; unfold ahead; by rewrite Hr, zdrop_0).
  unfold hb, file_header_bytes in Hb2. rewrite <- app_assoc in Hb2.
  rewrite (find_magic_start little _ buffer _ _ (proj1 Hok) Hb2 eq_refl). cbn [mbind option_bind].
  destruct (seek_inside junk buffer 0 Hok ltac:(lia)) as (buffer1 & -> & Hok1 & Hb1 & _ & Hr1).
  cbn [mbind option_bind].
  destruct (file_header_read little major minor zone sigfigs snaplen link more buffer1)
    as (h & buffer2 & -> & Hmagic & Hlink & Hok2 & Ha2); try done.
  { fold hb. rewrite <- Ha1. unfold ahead. by rewrite Hr1, Hb1, Hr. }
  cbn [mbind option_bind fh_header]. rewrite Hmagic. change (pcap_magic =? 2712847316) with true.
  cbn [negb]. eexists. split; [reflexivity|].
  split; cbn [pp_buffer pp_fd pp_file_header pp_dissection_buffer fh_little_endian fh_header]; try done.
  - by rewrite Ha2.
  - apply constructor_at_end.
Qed.

End Facts.

(** C14: a capture file is dissected whole.  Of a file header in either byte order and the
    records of any number of packets whose frames were captured whole and are at most
    MAX_PACKET_SIZE - 16 bytes long (a record with its header fits the buffer), the
    constructor makes a reader, and calling [dissect] until it ends gives one dissected
    packet per record, in order, in which the reassembler finds the IP packet that was on the
    wire. *)
Theorem pcap_file_dissected junk little major minor zone sigfigs snaplen link ips records :
  word major -> word minor -> dword zone -> dword sigfigs -> dword snaplen -> dword link ->
  records_wire little link ips records ->
  exists self phs,
    PyPCAP_init junk (file_header_bytes little major minor zone sigfigs snaplen link ++ records)
      = Some (Some self) /\
    dissect_all junk (S (length ips)) self = Some phs /\ map reassembler_input phs = map Some ips.
Proof.
  intros Hma Hmi Hz Hsi Hsn Hli Hrec.
  destruct (init_reads junk little major minor zone sigfigs snaplen link records) as (self & E & Hrd); try done.
  destruct (dissect_records junk self little link ips records Hrec Hrd) as (phs & E2 & Hphs).
  by exists self, phs.
Qed.

(** C3: a capture file is put together.  However the packets of many connections are mixed in
    a capture file of either byte order, within the limits of the reassembler (on streams and
    waiting packets, frames of at most MAX_PACKET_SIZE - 16 bytes captured whole, each address
    used by one protocol): what it reads from the file by way of the reader and the dissectors
    gives the callback, for each TCP stream whose packets carry parts of some data, from the
    number its first packet gives, in any order, repeated or overlapping, within each other's
    windows and without wrapping, the longest part of that data from the start that the
    packets cover. *)
Theorem capture_file_reassembles junk little major minor zone sigfigs snaplen link ips records
    proto conns cfg con_id a first rest b S :
  word major -> word minor -> dword zone -> dword sigfigs -> dword snaplen -> dword link ->
  records_wire little link ips records ->
  (forall a, proto (reverse_of a) = proto a) ->
  2 * zlen conns <= max_number_of_streams cfg -> zlen ips <= max_outstanding_skbuffs cfg ->
  zlen ips <= 2 * max_packets_expired cfg -> Forall (expected proto conns) (map Some ips) ->
  proto a = false -> packets_of a (map Some ips) = first :: rest -> start_number first = Some b ->
  0 <= b -> b + zlen S < 4294967296 -> Forall (segment b S) (data_packets (first :: rest)) ->
  (forall p q, p ∈ data_packets (first :: rest) -> q ∈ data_packets (first :: rest) -> in_window p q) ->
  exists self phs evs hash k,
    PyPCAP_init junk (file_header_bytes little major minor zone sigfigs snaplen link ++ records)
      = Some (Some self) /\
    dissect_all junk (Datatypes.S (length ips)) self = Some phs /\
    process_all cfg (TCPHashTable_Con con_id) (map reassembler_input phs) = Some (evs, hash) /\
    0 <= k <= zlen S /\ stream_data (events_of a evs) = ztake k S /\
    (forall j, 0 <= j < k -> exists p, p ∈ data_packets (first :: rest) /\ covers b p j) /\
    forall p, p ∈ data_packets (first :: rest) -> ~ covers b p k.
Proof.
  intros Hma Hmi Hz Hsi Hsn Hli Hrec Hproto Hs Hq He Hps Ha Hfirst Hstart Hb HS Hseg Hwin.
  destruct (init_reads junk little major minor zone sigfigs snaplen link records) as (self & E & Hrd); try done.
  destruct (dissect_records junk self little link ips records Hrec Hrd) as (phs & E2 & Hphs).
  assert (zlen (map Some ips) = zlen ips) as Hl by (unfold zlen; by rewrite length_map).
  destruct (capture_run proto conns cfg con_id (map Some ips) a first rest b S) as (evs & hash & k & E3 & Hk);
    try done; [by rewrite Hl|by rewrite Hl|].
  exists self, phs, evs, hash, k. by rewrite Hphs.
Qed.

(** ** Examples *)

(** Two records of the frame of [Packet.get_frame], big endian. *)
Definition two_records : list Z :=
  (packet_header_bytes false 1000 1 (zlen get_frame) (zlen get_frame) ++ get_frame)
  ++ (packet_header_bytes false 1000 2 (zlen get_frame) 4096 ++ get_frame) ++ [].

Lemma two_records_wire : records_wire false DLT_EN10MB [get_packet; get_packet] two_records.
Proof.
  assert (frame_wire DLT_EN10MB get_ip get_frame) as Hf
    by (apply (wire_pppoe (replicate 6 1) (replicate 6 2) 17 0 5 47 get_ip); done).
  apply (records_cons false DLT_EN10MB get_packet get_ip get_frame); try done.
  { exact get_wire. }
  apply (records_cons false DLT_EN10MB get_packet get_ip get_frame); try done.
  { exact get_wire. }
  constructor.
Qed.

Lemma pcap_file_dissected_witness :
  exists self phs, PyPCAP_init (fun _ => 0) (file_header_bytes false 2 4 0 0 65535 DLT_EN10MB ++ two_records)
      = Some (Some self) /\
    dissect_all (fun _ => 0) 3 self = Some phs /\
    map reassembler_input phs = [Some get_packet; Some get_packet].
Proof.
  apply (pcap_file_dissected (fun _ => 0) false 2 4 0 0 65535 DLT_EN10MB [get_packet; get_packet] two_records);
    try done.
  exact two_records_wire.
Defined.

(** The address of the stream, and its protocol. *)
Definition get_addr : tuple4 :=
  {| t_saddr := 3232235777; t_daddr := 167772161; t_source := 1025; t_dest := 80 |}.

Definition get_tcp : TCP := {| tcp_seq := 1000; tcp_window := 4096; tcp_data := lit "GET /" |}.

Lemma capture_file_reassembles_witness :
  exists self phs evs hash k,
    PyPCAP_init (fun _ => 0) (file_header_bytes false 2 4 0 0 65535 DLT_EN10MB ++ two_records)
      = Some (Some self) /\
    dissect_all (fun _ => 0) 3 self = Some phs /\
    process_all default_configuration (TCPHashTable_Con 0) (map reassembler_input phs) = Some (evs, hash) /\
    0 <= k <= 5 /\ stream_data (events_of get_addr evs) = ztake k (lit "GET /") /\
    (forall j, 0 <= j < k -> exists p, p ∈ data_packets [get_packet; get_packet] /\ covers 1000 p j) /\
    forall p, p ∈ data_packets [get_packet; get_packet] -> ~ covers 1000 p k.
Proof.
  apply (capture_file_reassembles (fun _ => 0) false 2 4 0 0 65535 DLT_EN10MB [get_packet; get_packet]
    two_records (fun _ => false) [get_addr] default_configuration 0 get_addr get_packet [get_packet] 1000
    (lit "GET /")); try done; try exact two_records_wire.
  - apply Forall_forall. intros x Hx. cbn [map] in Hx. rewrite !elem_of_cons, elem_of_nil in Hx.
    destruct Hx as [-> |[-> |[]]]; (split; [reflexivity|split; [done|left; by apply list_elem_of_here]]).
  - apply Forall_forall. intros x Hx. change (x ∈ [get_tcp; get_tcp]) in Hx.
    rewrite !elem_of_cons, elem_of_nil in Hx. destruct Hx as [-> |[-> |[]]]; done.
  - intros p q Hp Hq. change (p ∈ [get_tcp; get_tcp]) in Hp. change (q ∈ [get_tcp; get_tcp]) in Hq.
    rewrite !elem_of_cons, elem_of_nil in Hp, Hq.
    destruct Hp as [-> |[-> |[]]], Hq as [-> |[-> |[]]]; done.
Defined.
