(* ===== verification/Fields.v ===== *)
(** * Fields: the members of packets by name (applications/pyflag/network/packet.c)

    Each class of packets names members of its structure, their types and where they are.
    They are found by name, in one packet or in the packets below it, and printed. *)
From S2P Require Import Prelude Talloc StringIO CText Misc Encode Struct Tcp TcpTable Packet Pcap.

(** ** The data *)

Inductive field_type :=
| FIELD_TYPE_INT | FIELD_TYPE_INT_64 | FIELD_TYPE_INT_X | FIELD_TYPE_INT32 | FIELD_TYPE_INT32_X
| FIELD_TYPE_INT_X_64 | FIELD_TYPE_CHAR | FIELD_TYPE_CHAR_X | FIELD_TYPE_SHORT | FIELD_TYPE_SHORT_X
| FIELD_TYPE_STRING | FIELD_TYPE_STRING_X | FIELD_TYPE_IP_ADDR | FIELD_TYPE_HEX | FIELD_TYPE_PACKET
| FIELD_TYPE_ETH_ADD.

#[export] Instance field_type_eq_dec : EqDecision field_type.
Proof. solve_decision. Defined.

(** The place of a member: a member of the format of the structure, or one of those behind
    them. *)
Inductive place :=
| I_member (i : nat) | I_len | I_data_offset | I_data_len | I_data | I_src | I_dest | I_seq
| I_packet_id | I_link_type | I_packet | I_offset | I_id | I_pcap_file_id.

#[export] Instance place_eq_dec : EqDecision place.
Proof. solve_decision. Defined.

Record struct_property := { p_name : list Z; p_type : field_type; p_item : place }.

#[export] Instance struct_property_eq_dec : EqDecision struct_property.
Proof. solve_decision. Defined.

Definition NAME_ACCESS (name : string) (type : field_type) (i : place) : struct_property :=
  {| p_name := lit name; p_type := type; p_item := i |}.

(** Everything that is a packet: what the dissectors made and the headers of a file. *)
Inductive node :=
| N_packet (p : packet)
| N_record (ph : PcapPacketHeader)
| N_file (fh : PcapFileHeader).

Definition node_name (n : node) : list Z :=
  match n with
  | N_packet p => NAMEOF p
  | N_record _ => lit "PcapPacketHeader"
  | N_file _ => lit "PcapFileHeader"
  end.

Definition TCP_properties : list struct_property :=
  [NAME_ACCESS "source" FIELD_TYPE_SHORT (I_member 0); NAME_ACCESS "dest" FIELD_TYPE_SHORT (I_member 1);
   NAME_ACCESS "seq" FIELD_TYPE_INT32 (I_member 2); NAME_ACCESS "ack_seq" FIELD_TYPE_INT32 (I_member 3);
   NAME_ACCESS "len" FIELD_TYPE_INT I_len; NAME_ACCESS "window" FIELD_TYPE_SHORT (I_member 6);
   NAME_ACCESS "data_offset" FIELD_TYPE_INT I_data_offset; NAME_ACCESS "data_len" FIELD_TYPE_INT I_data_len;
   NAME_ACCESS "data" FIELD_TYPE_STRING I_data].

Definition UDP_properties : list struct_property :=
  [NAME_ACCESS "source" FIELD_TYPE_SHORT (I_member 0); NAME_ACCESS "dest" FIELD_TYPE_SHORT (I_member 1);
   NAME_ACCESS "src_port" FIELD_TYPE_SHORT (I_member 0); NAME_ACCESS "dest_port" FIELD_TYPE_SHORT (I_member 1);
   NAME_ACCESS "length" FIELD_TYPE_SHORT (I_member 2); NAME_ACCESS "checksum" FIELD_TYPE_SHORT_X (I_member 3);
   NAME_ACCESS "data" FIELD_TYPE_STRING I_data; NAME_ACCESS "data_len" FIELD_TYPE_INT I_data_len;
   NAME_ACCESS "seq" FIELD_TYPE_INT32 I_seq; NAME_ACCESS "data_offset" FIELD_TYPE_INT I_data_offset].

Definition IP_properties : list struct_property :=
  [NAME_ACCESS "source_addr" FIELD_TYPE_IP_ADDR (I_member 8);
   NAME_ACCESS "dest_addr" FIELD_TYPE_IP_ADDR (I_member 9); NAME_ACCESS "src" FIELD_TYPE_INT32 I_src;
   NAME_ACCESS "dest" FIELD_TYPE_INT32 I_dest; NAME_ACCESS "ttl" FIELD_TYPE_CHAR (I_member 5);
   NAME_ACCESS "protocol" FIELD_TYPE_CHAR (I_member 6); NAME_ACCESS "id" FIELD_TYPE_SHORT (I_member 3);
   NAME_ACCESS "payload" FIELD_TYPE_PACKET I_packet].

Definition PPPOE_properties : list struct_property :=
  [NAME_ACCESS "version" FIELD_TYPE_SHORT_X (I_member 0);
   NAME_ACCESS "session_id" FIELD_TYPE_SHORT_X (I_member 2); NAME_ACCESS "payload" FIELD_TYPE_PACKET I_packet].

Definition ETH_II_properties : list struct_property :=
  [NAME_ACCESS "destination" FIELD_TYPE_ETH_ADD (I_member 0);
   NAME_ACCESS "source" FIELD_TYPE_ETH_ADD (I_member 1); NAME_ACCESS "type" FIELD_TYPE_SHORT_X (I_member 2);
   NAME_ACCESS "payload" FIELD_TYPE_PACKET I_packet].

Definition IEEE80211_properties : list struct_property :=
  [NAME_ACCESS "bss" FIELD_TYPE_ETH_ADD (I_member 2); NAME_ACCESS "source" FIELD_TYPE_ETH_ADD (I_member 3);
   NAME_ACCESS "dest" FIELD_TYPE_ETH_ADD (I_member 4); NAME_ACCESS "seq" FIELD_TYPE_SHORT_X (I_member 5);
   NAME_ACCESS "type" FIELD_TYPE_SHORT_X (I_member 12); NAME_ACCESS "payload" FIELD_TYPE_PACKET I_packet].

Definition Cooked_properties : list struct_property :=
  [NAME_ACCESS "type" FIELD_TYPE_SHORT_X (I_member 6); NAME_ACCESS "payload" FIELD_TYPE_PACKET I_packet].

Definition Root_properties : list struct_property :=
  [NAME_ACCESS "packet_id" FIELD_TYPE_INT I_packet_id; NAME_ACCESS "link_type" FIELD_TYPE_INT I_link_type;
   NAME_ACCESS "eth" FIELD_TYPE_PACKET I_packet].

Definition packet_properties (p : packet) : list struct_property :=
  match p with
  | PK_TCP _ => TCP_properties
  | PK_UDP _ => UDP_properties
  | PK_IP _ _ => IP_properties
  | PK_PPPOE _ _ => PPPOE_properties
  | PK_ETH_II _ _ => ETH_II_properties
  | PK_IEEE80211 _ _ => IEEE80211_properties
  | PK_Cooked _ _ => Cooked_properties
  | PK_Root _ _ _ _ => Root_properties
  end.

Definition record_properties : list struct_property :=
  [NAME_ACCESS "ts_sec" FIELD_TYPE_INT32 (I_member 0); NAME_ACCESS "ts_usec" FIELD_TYPE_INT32 (I_member 1);
   NAME_ACCESS "caplen" FIELD_TYPE_INT32 (I_member 2); NAME_ACCESS "len" FIELD_TYPE_INT32 (I_member 3);
   NAME_ACCESS "offset" FIELD_TYPE_INT_64 I_offset; NAME_ACCESS "id" FIELD_TYPE_INT32 I_id;
   NAME_ACCESS "pcap_file_id" FIELD_TYPE_INT32 I_pcap_file_id; NAME_ACCESS "root" FIELD_TYPE_PACKET I_packet;
   NAME_ACCESS "data" FIELD_TYPE_STRING I_data].

Definition file_properties : list struct_property :=
  [NAME_ACCESS "linktype" FIELD_TYPE_INT32 (I_member 6); NAME_ACCESS "snaplen" FIELD_TYPE_INT32 (I_member 5)].

Definition node_properties (n : node) : list struct_property :=
  match n with
  | N_packet p => packet_properties p
  | N_record _ => record_properties
  | N_file _ => file_properties
  end.

(** The packet member of a class. *)
Definition child (n : node) : option node :=
  match n with
  | N_packet p => N_packet <$> subpacket p
  | N_record ph => N_packet <$> ph_root ph
  | N_file _ => None
  end.

(** The pointer at the place of [i] in the structure of [n], which may by now be another
    packet than the one whose properties are looked at; [None] when it has no such
    member. *)
Definition node_item (n : node) (i : struct_property) : option (option node) :=
  if bool_decide (i ∈ node_properties n) then Some (child n) else None.

(** The number of packets below a node. *)
Definition node_depth (n : node) : nat :=
  match n with
  | N_packet p => depth p
  | N_record ph => match ph_root ph with Some p => S (depth p) | None => O end
  | N_file _ => O
  end.

(** ** The search *)

Definition get_field_by_name (self : node) (name : list Z) : option struct_property :=
  snd <$> list_find (fun i => p_name i = name) (node_properties self).

(** The loop over the properties [props]; [find] is the search of a packet below. *)
Fixpoint field_loop (find : node -> option (node * option struct_property)) (name : list Z)
  (props : list struct_property) (self : node) : option (node * option struct_property) :=
  match props with
  | [] => Some (self, None)
  | i :: props =>
      if bool_decide (p_name i = name) then Some (self, Some i)
      else if bool_decide (p_type i = FIELD_TYPE_PACKET) then
        item ← node_item self i;
        match item with
        | Some item =>
            '(self, result) ← find item;
            match result with
            | Some _ => Some (self, result)
            | None => field_loop find name props self
            end
        | None => field_loop find name props self
        end
      else field_loop find name props self
  end.

Fixpoint find_field (fuel : nat) (name : list Z) (self : node) : option (node * option struct_property) :=
  match fuel with
  | O => None
  | S fuel => field_loop (find_field fuel name) name (node_properties self) self
  end.

(** The packet that [self] points to at the end, and the property. *)
Definition get_field_by_name_r (self : node) (name : list Z) : option (node * option struct_property) :=
  find_field (S (node_depth self)) name self.

Definition strcasecmp (a b : list Z) : bool := bool_decide (map tolower a = map tolower b).

(** [Find_Property]: whether it was found, the packet that [node] points to at the end, and
    the property, [None] for NULL. *)
Fixpoint property_loop (find : node -> option (bool * node * option struct_property))
  (props : list struct_property) (self : node) : option (bool * node * option struct_property) :=
  match props with
  | [] => Some (false, self, None)
  | i :: props =>
      if bool_decide (p_type i = FIELD_TYPE_PACKET) then
        item ← node_item self i;
        match item with
        | Some item =>
            '(found, self, p) ← find item;
            if found : bool then Some (true, self, p) else property_loop find props self
        | None => property_loop find props self
        end
      else property_loop find props self
  end.

Fixpoint find_node (fuel : nat) (wanted property_name : list Z) (self : node)
  : option (bool * node * option struct_property) :=
  match fuel with
  | O => None
  | S fuel =>
      if strcasecmp (node_name self) wanted then
        if zlen property_name =? 0 then Some (true, self, None)
        else
          match get_field_by_name self property_name with
          | None => Some (false, self, None)
          | Some i => Some (true, self, Some i)
          end
      else property_loop (find_node fuel wanted property_name) (node_properties self) self
  end.

Definition Find_Property (self : node) (wanted property_name : list Z)
  : option (bool * node * option struct_property) :=
  find_node (S (node_depth self)) wanted property_name self.

(** ** Printing *)

(** The structures are packed: the bytes of a member and those that follow it. *)
Definition member_bytes (h : header) (x : Z) (i : nat) : list Z :=
  if x =? STRUCT_ETH_ADDR then match h_struct h !! i with Some (MBytes l) => l | _ => [] end
  else le (if x =? STRUCT_CHAR then 1 else if (x =? STRUCT_SHORT) || (x =? STRUCT_SHORT_LE) then 2 else 4) (num h i).

Fixpoint struct_bytes (h : header) (format : list Z) (i : nat) : list Z :=
  match format with
  | [] => []
  | x :: format => member_bytes h x i ++ struct_bytes h format (S i)
  end.

Definition node_struct (n : node) : header * list Z :=
  match n with
  | N_packet p =>
      match p with
      | PK_TCP t => (tp_header t, tcp_Format)
      | PK_UDP u => (up_header u, udp_Format)
      | PK_IP h _ => (h, ip_Format)
      | PK_PPPOE h _ => (h, pppoe_Format)
      | PK_ETH_II h _ => (h, ethernet_2_Format)
      | PK_IEEE80211 h _ => (h, ieee_802_11_format)
      | PK_Cooked h _ => (h, cooked_Format)
      | PK_Root h _ _ _ => (h, [])
      end
  | N_record ph => (ph_header ph, PCAP_PKTHEADER_STRUCT)
  | N_file fh => (fh_header fh, PCAP_HEADER_STRUCT)
  end.

(** The memory from a place on; [None] for the places whose types are not printed. *)
Definition memory_at (n : node) (i : place) : option (list Z) :=
  match i, n with
  | I_member i, _ => let '(h, format) := node_struct n in Some (struct_bytes h (drop i format) i)
  | I_len, N_packet (PK_TCP t) => Some (le 4 (tp_len t))
  | I_data_offset, N_packet (PK_TCP t) => Some (le 4 (tp_data_offset t))
  | I_data_offset, N_packet (PK_UDP u) => Some (le 4 (up_data_offset u))
  | I_data_len, N_packet (PK_TCP t) => Some (le 4 (tp_data_len t))
  | I_data_len, N_packet (PK_UDP u) => Some (le 4 (up_data_len u))
  | I_packet_id, N_packet (PK_Root _ _ packet_id _) => Some (le 4 packet_id)
  | I_link_type, N_packet (PK_Root _ link_type _ _) => Some (le 4 link_type)
  | _, _ => None
  end.

(** The pointer of a string, and what its size pointer points to. *)
Definition data_at (n : node) : option (option (list Z) * Z) :=
  match n with
  | N_packet (PK_TCP t) => Some (tp_data t, tp_data_len t)
  | N_packet (PK_UDP u) => Some (up_data u, up_data_len u)
  | N_record ph => Some (Some (ph_data ph), i32 (num (ph_header ph) 3))
  | _ => None
  end.

Definition isprint (c : Z) : bool := (32 <=? c) && (c <=? 126).

Definition print_hex (n : Z) : list Z := map hexdigit (digits 64 16 n).

(** Of an address in network order. *)
Definition inet_ntoa (s_addr : list Z) : list Z :=
  match s_addr with
  | [a; b; c; d] => print_dec a ++ [46] ++ print_dec b ++ [46] ++ print_dec c ++ [46] ++ print_dec d
  | _ => []
  end.

(** A byte of a string; 92 is the backslash. *)
Definition print_char (x : Z) : list Z := if isprint x then [x] else [92; 120] ++ hex02x x.

(** What is printed; [None] when memory that is not the packet's is read.  No class has a
    member of the type [FIELD_TYPE_STRING_X]. *)
Definition print_property (self : node) (i : struct_property) : option (list Z) :=
  let memory (n : nat) : option (list Z) :=
    m ← memory_at self (p_item i); bytes_at (Some m) (Z.of_nat n) in
  match p_type i with
  | FIELD_TYPE_INT => m ← memory 4%nat; Some (print_dec (unle m))
  | FIELD_TYPE_INT_X => m ← memory 4%nat; Some (lit "0x" ++ print_HEX (unle m))
  | FIELD_TYPE_CHAR => m ← memory 1%nat; Some (print_dec (unle m))
  | FIELD_TYPE_CHAR_X => m ← memory 1%nat; Some (lit "0x" ++ print_hex (unle m))
  | FIELD_TYPE_SHORT => m ← memory 2%nat; Some (print_dec (unle m))
  | FIELD_TYPE_SHORT_X => m ← memory 2%nat; Some (lit "0x" ++ print_hex (unle m))
  | FIELD_TYPE_IP_ADDR => m ← memory 4%nat; Some (inet_ntoa (le 4 (htonl (unle m))))
  | FIELD_TYPE_STRING =>
      '(data, size) ← data_at self;
      if size <=? 0 then Some [] else m ← bytes_at data size; Some (flat_map print_char m)
  | _ => Some []
  end.

(** The element at its first dot. *)
Fixpoint split_element (element : list Z) : list Z * list Z :=
  match element with
  | [] => ([], [])
  | c :: element =>
      if c =? 46 then ([], element) else let '(e, property) := split_element element in (c :: e, property)
  end.

(** What is printed; [None] when NULL is followed. *)
Definition Packet_print (self : node) (element : list Z) : option (list Z) :=
  let '(e, property) := split_element element in
  '(found, self, p) ← Find_Property self e property;
  if found : bool then
    p ← p;
    text ← print_property self p;
    Some (element ++ lit " = " ++ text)
  else Some [].

(** ** What the searches find *)

(** The packets from [p] down. *)
Fixpoint layers_of (p : packet) : list packet :=
  p :: match p with
       | PK_TCP _ | PK_UDP _ => []
       | PK_IP _ q | PK_PPPOE _ q | PK_ETH_II _ q | PK_IEEE80211 _ q | PK_Cooked _ q | PK_Root _ _ _ q =>
           match q with Some q => layers_of q | None => [] end
       end.

(** The first packet with a field; [d] is the last one looked at. *)
Fixpoint first_field (name : list Z) (ps : list packet) (d : packet) : node * option struct_property :=
  match ps with
  | [] => (N_packet d, None)
  | p :: ps =>
      match get_field_by_name (N_packet p) name with
      | Some i => (N_packet p, Some i)
      | None => first_field name ps p
      end
  end.

(** The first packet with a name decides. *)
Fixpoint first_named (wanted property_name : list Z) (ps : list packet) (d : packet)
  : bool * node * option struct_property :=
  match ps with
  | [] => (false, N_packet d, None)
  | p :: ps =>
      if strcasecmp (NAMEOF p) wanted then
        if zlen property_name =? 0 then (true, N_packet p, None)
        else
          match get_field_by_name (N_packet p) property_name with
          | Some i => (true, N_packet p, Some i)
          | None => (false, N_packet p, None)
          end
      else first_named wanted property_name ps p
  end.

(** ** Lemmas *)

Lemma depth_step p : depth p = match subpacket p with Some q => S (depth q) | None => O end.
Proof. by destruct p. Qed.

Lemma layers_step p : layers_of p = p :: match subpacket p with Some q => layers_of q | None => [] end.
Proof. by destruct p. Qed.

(** The packet member of a class is its last one. *)
Lemma properties_split p : exists pre post,
  packet_properties p = pre ++ post /\ Forall (fun i => p_type i <> FIELD_TYPE_PACKET) pre /\
  (post = [] /\ subpacket p = None \/ exists i, post = [i] /\ p_type i = FIELD_TYPE_PACKET).
Proof.
  exists (match p with PK_TCP _ | PK_UDP _ => packet_properties p | _ => removelast (packet_properties p) end),
    (match p with PK_TCP _ | PK_UDP _ => [] | _ => drop (length (packet_properties p) - 1) (packet_properties p) end).
  split; [by destruct p|]. split; [destruct p; by repeat constructor|].
  destruct p; first [by left|right; by eexists].
Qed.

Lemma node_item_own p i : i ∈ packet_properties p -> node_item (N_packet p) i = Some (N_packet <$> subpacket p).
Proof. intros Hi. unfold node_item. by rewrite bool_decide_true. Qed.

Lemma property_loop_skip find pre post self :
  Forall (fun i => p_type i <> FIELD_TYPE_PACKET) pre ->
  property_loop find (pre ++ post) self = property_loop find post self.
Proof.
  induction 1 as [|i pre Hi _ IH]; [done|]. cbn [app property_loop]. by rewrite bool_decide_false.
Qed.

Lemma first_named_none nn pn ps d : (first_named nn pn ps d).1.1 = false -> (first_named nn pn ps d).2 = None.
Proof.
  revert d. induction ps as [|p ps IH]; intros d; [done|]. cbn [first_named].
  destruct (strcasecmp (NAMEOF p) nn); [|apply IH].
  destruct (zlen pn =? 0); [done|]. by destruct (get_field_by_name _ _).
Qed.

Lemma find_node_layers fuel nn pn p :
  (depth p < fuel)%nat -> find_node fuel nn pn (N_packet p) = Some (first_named nn pn (layers_of p) p).
Proof.
  revert p. induction fuel as [|fuel IH]; intros p Hf; [lia|]. cbn [find_node node_name].
  rewrite layers_step. cbn [first_named].
  destruct (strcasecmp (NAMEOF p) nn).
  { destruct (zlen pn =? 0); [done|]. by destruct (get_field_by_name _ _). }
  destruct (properties_split p) as (pre & post & E & Hpre & Hpost). cbn [node_properties].
  rewrite E, property_loop_skip by done. rewrite depth_step in Hf.
  destruct Hpost as [[-> ->]|(i & -> & Hi)]; [done|].
  cbn [property_loop]. rewrite bool_decide_true, node_item_own by (try rewrite E; set_solver).
  cbn [mbind option_bind]. destruct (subpacket p) as [q|]; cbn [fmap option_fmap option_map]; [|done].
  rewrite IH by lia. cbn [mbind option_bind].
  rewrite layers_step. cbn [first_named].
  destruct (strcasecmp (NAMEOF q) nn).
  { destruct (zlen pn =? 0); [done|]. by destruct (get_field_by_name _ _). }
  match goal with |- context [first_named nn pn ?l q] => pose proof (first_named_none nn pn l q) as Hn end.
  destruct (first_named nn pn _ q) as [[[] n] r]; [done|]. cbn in Hn. by rewrite Hn.
Qed.

Lemma Find_Property_layers p nn pn : Find_Property (N_packet p) nn pn = Some (first_named nn pn (layers_of p) p).
Proof. apply find_node_layers. cbn [node_depth]. lia. Qed.

Lemma field_loop_skip find name pre post self :
  Forall (fun i => p_type i <> FIELD_TYPE_PACKET) pre ->
  field_loop find name (pre ++ post) self
    = match list_find (fun i => p_name i = name) pre with
      | Some (_, i) => Some (self, Some i)
      | None => field_loop find name post self
      end.
Proof.
  induction 1 as [|i pre Hi _ IH]; [done|]. cbn [app field_loop list_find].
  destruct (decide (p_name i = name)) as [He|He]; [by rewrite bool_decide_true|].
  rewrite !bool_decide_false, IH by done.
  by destruct (list_find (fun i => p_name i = name) pre) as [[]|].
Qed.

Lemma get_field_split p pre post name :
  packet_properties p = pre ++ post ->
  get_field_by_name (N_packet p) name
    = match list_find (fun i => p_name i = name) pre with
      | Some (_, i) => Some i
      | None => snd <$> list_find (fun i => p_name i = name) post
      end.
Proof.
  intros E. unfold get_field_by_name. cbn [node_properties]. rewrite E. clear E.
  induction pre as [|i pre IH]; [done|]. cbn [app list_find].
  destruct (decide (p_name i = name)); [done|].
  destruct (list_find (fun i => p_name i = name) (pre ++ post)) as [[]|];
    by destruct (list_find (fun i => p_name i = name) pre) as [[]|].
Qed.

Lemma find_field_layers fuel name p :
  (depth p < fuel)%nat -> find_field fuel name (N_packet p) = Some (first_field name (layers_of p) p).
Proof.
  revert p. induction fuel as [|fuel IH]; intros p Hf; [lia|]. cbn [find_field].
  rewrite layers_step. cbn [first_field].
  destruct (properties_split p) as (pre & post & E & Hpre & Hpost).
  rewrite (get_field_split p pre post name E). cbn [node_properties]. rewrite E, field_loop_skip by done.
  destruct (list_find (fun i => p_name i = name) pre) as [[? i]|]; [done|].
  rewrite depth_step in Hf. destruct Hpost as [[-> ->]|(i & -> & Hi)]; [done|].
  cbn [field_loop list_find]. destruct (decide (p_name i = name)) as [He|He]; [by rewrite bool_decide_true|].
  cbn [fmap option_fmap option_map].
  rewrite bool_decide_false, bool_decide_true, node_item_own by (done || rewrite E; set_solver).
  cbn [mbind option_bind]. destruct (subpacket p) as [q|]; cbn [fmap option_fmap option_map]; [|done].
  rewrite IH by lia. cbn [mbind option_bind].
  rewrite layers_step. cbn [first_field]. destruct (get_field_by_name (N_packet q) name); [done|].
  by destruct (first_field name _ q) as [n []].
Qed.

Lemma find_instance_layers fuel root cn :
  (depth root <= fuel)%nat ->
  find_instance fuel root cn = snd <$> list_find (fun p => cn = NAMEOF p) (tail (layers_of root)).
Proof.
  revert root. induction fuel as [|fuel IH]; intros root Hf; rewrite depth_step in Hf; rewrite layers_step.
  - destruct (subpacket root); [lia|done].
  - cbn [find_instance tail]. destruct (subpacket root) as [q|]; [|done].
    rewrite (layers_step q). cbn [list_find]. destruct (decide (cn = NAMEOF q)) as [He|He];
      [by rewrite bool_decide_true|]. rewrite bool_decide_false by done.
    rewrite IH by lia. rewrite (layers_step q). cbn [tail].
    by destruct (list_find _ _) as [[]|].
Qed.

Lemma Root_Read_root junk link packet_id input n root input' :
  Root_Read junk link packet_id input = Some (n, root, input') ->
  exists h eth, root = PK_Root h link packet_id eth.
Proof.
  unfold Root_Read. destruct (Packet_Read junk [] input) as [[[r h] input1]|]; [|done].
  cbn [mbind option_bind]. destruct (eth_Read junk link) as [read|].
  - destruct (read input1) as [[[m eth] input2]|]; [|done]. cbn [mbind option_bind].
    intros [= _ <- _]. by eexists _, _.
  - intros [= _ <- _]. by eexists _, _.
Qed.

(** Two names are the same for [strcasecmp] and [strcmp]. *)
Lemma named_ip p : strcasecmp (NAMEOF p) (lit "ip") = bool_decide (lit "IP" = NAMEOF p).
Proof. by destruct p. Qed.

Lemma first_named_ip pn ps d i p :
  list_find (fun p => lit "IP" = NAMEOF p) ps = Some (i, p) -> 0 < zlen pn ->
  first_named (lit "ip") pn ps d
    = match get_field_by_name (N_packet p) pn with
      | Some f => (true, N_packet p, Some f)
      | None => (false, N_packet p, None)
      end.
Proof.
  intros Hf Hpn. revert d i Hf. induction ps as [|q ps IH]; intros d i Hf; [done|].
  cbn [first_named list_find] in *. rewrite named_ip.
  destruct (decide (lit "IP" = NAMEOF q)) as [He|He].
  - injection Hf as _ <-. rewrite bool_decide_true by done. by replace (zlen pn =? 0) with false by lia.
  - rewrite bool_decide_false by done.
    destruct (list_find _ ps) as [[k q']|] eqn:Eq; [|done]. injection Hf as _ ->. by apply (IH q k).
Qed.

(** What is printed of an address. *)
Definition dotted (addr : Z) : list Z := inet_ntoa (be 4 addr).

Lemma print_address h payload name i :
  i = 8%nat \/ i = 9%nat -> dword (num h i) ->
  print_property (N_packet (PK_IP h payload)) (NAME_ACCESS name FIELD_TYPE_IP_ADDR (I_member i))
    = Some (dotted (num h i)).
Proof.
  intros Hi Hd.
  assert (exists m, memory_at (N_packet (PK_IP h payload)) (I_member i) = Some (le 4 (num h i) ++ m)) as (m & E)
    by (destruct Hi as [-> | ->]; by eexists).
  unfold print_property. cbn [NAME_ACCESS p_type p_item]. rewrite E. cbn [mbind option_bind].
  rewrite (bytes_at_app (le 4 (num h i)) m : bytes_at _ (Z.of_nat 4) = _). cbn [mbind option_bind].
  rewrite unle_le4, u32_small by done. by rewrite le_htonl.
Qed.

(** The addresses of the IP packet that was found. *)
Lemma printed_addresses h link packet_id eth ip :
  packet_ip (PK_Root h link packet_id eth) = Some ip -> dword (ip_saddr ip) -> dword (ip_daddr ip) ->
  let root := N_packet (PK_Root h link packet_id eth) in
  Packet_print root (lit "ip.source_addr") = Some (lit "ip.source_addr = " ++ dotted (ip_saddr ip)) /\
  Packet_print root (lit "ip.dest_addr") = Some (lit "ip.dest_addr = " ++ dotted (ip_daddr ip)).
Proof.
  intros Hip Hs Hd. unfold packet_ip, find_packet_instance in Hip. rewrite find_instance_layers in Hip by done.
  rewrite layers_step in Hip. cbn [tail subpacket] in Hip.
  destruct (list_find _ _) as [[k p]|] eqn:Ef; [|done]. cbn [fmap option_fmap option_map snd mbind option_bind] in Hip.
  assert (exists h payload, p = PK_IP h payload) as (ih & payload & ->)
    by (destruct p; try discriminate Hip; by eexists _, _).
  injection Hip as <-. cbn [ip_saddr ip_daddr] in *.
  assert (Hp : forall pn, 0 < zlen pn -> Find_Property (N_packet (PK_Root h link packet_id eth)) (lit "ip") pn
    = Some (match get_field_by_name (N_packet (PK_IP ih payload)) pn with
            | Some f => (true, N_packet (PK_IP ih payload), Some f)
            | None => (false, N_packet (PK_IP ih payload), None)
            end)).
  { intros pn Hpn. rewrite Find_Property_layers, layers_step. cbn [first_named].
    change (strcasecmp (NAMEOF (PK_Root h link packet_id eth)) (lit "ip")) with false. cbn beta iota.
    f_equal. by apply (first_named_ip pn _ _ k). }
  cbv zeta. unfold Packet_print.
  change (split_element (lit "ip.source_addr")) with (lit "ip", lit "source_addr").
  change (split_element (lit "ip.dest_addr")) with (lit "ip", lit "dest_addr"). cbn beta iota.
  rewrite !Hp by done.
  change (get_field_by_name (N_packet (PK_IP ih payload)) (lit "source_addr"))
    with (Some (NAME_ACCESS "source_addr" FIELD_TYPE_IP_ADDR (I_member 8))).
  change (get_field_by_name (N_packet (PK_IP ih payload)) (lit "dest_addr"))
    with (Some (NAME_ACCESS "dest_addr" FIELD_TYPE_IP_ADDR (I_member 9))).
  cbn [mbind option_bind]. rewrite !print_address by (done || auto). done.
Qed.

(** C21: the addresses of a frame are printed.  Whatever the link type, raw, Ethernet with or
    without PPPoE, wireless or cooked, and whatever IP packet a frame carries: the elements
    ip.source_addr and ip.dest_addr of what the dissector makes of it are found below the
    root, and printed as the four bytes of the addresses on the wire, in decimal and with
    dots between them. *)
Theorem Root_Read_printed junk link packet_id ip bytes frame input :
  ip_wire ip bytes -> frame_wire link bytes frame -> zlen bytes <= MAX_PACKET_SIZE ->
  input_ok input -> ahead input = frame ->
  exists n root input', Root_Read junk link packet_id input = Some (n, root, input') /\
    Packet_print (N_packet root) (lit "ip.source_addr") = Some (lit "ip.source_addr = " ++ dotted (ip_saddr ip)) /\
    Packet_print (N_packet root) (lit "ip.dest_addr") = Some (lit "ip.dest_addr = " ++ dotted (ip_daddr ip)).
Proof.
  intros Hip Hfr Hmax Hok Ha.
  destruct (Root_Read_carries junk link packet_id ip bytes frame input Hip Hfr Hmax Hok Ha)
    as (n & root & input' & E & Hroot & _).
  exists n, root, input'. split; [done|].
  destruct (Root_Read_root junk link packet_id input n root input' E) as (h & eth & ->).
  apply printed_addresses; [done|by destruct Hip|by destruct Hip].
Qed.

(** A search for a field that goes on behind the packet member finds the field of the record
    header, but says that it is a field of the last packet that it looked at.  So it is for
    the data of a record when no packet in it has data. *)
Theorem get_field_by_name_r_wrong_packet ph root :
  ph_root ph = Some root -> (forall p, p ∈ layers_of root -> get_field_by_name (N_packet p) (lit "data") = None) ->
  exists p, p ∈ layers_of root /\ get_field_by_name (N_packet p) (lit "data") = None /\
    get_field_by_name_r (N_record ph) (lit "data")
      = Some (N_packet p, Some (NAME_ACCESS "data" FIELD_TYPE_STRING I_data)).
Proof.
  intros Hr Hno.
  assert (Hff : forall ps d, (forall p, p ∈ ps -> get_field_by_name (N_packet p) (lit "data") = None) ->
    exists p, (p = d \/ p ∈ ps) /\ first_field (lit "data") ps d = (N_packet p, None)).
  { intros ps. induction ps as [|p ps IH]; intros d Hps; [exists d; auto|].
    cbn [first_field]. rewrite Hps by set_solver. destruct (IH p) as (p' & Hp' & ->); [set_solver|].
    exists p'. set_solver. }
  destruct (Hff (layers_of root) root Hno) as (p & Hp & Ef).
  assert (root ∈ layers_of root) by (rewrite layers_step; set_solver).
  exists p. split; [naive_solver|]. split; [apply Hno; naive_solver|].
  unfold get_field_by_name_r. cbn [node_depth]. rewrite Hr.
  assert (Hfuel : (depth root < S (depth root))%nat) by lia. set (fuel := S (depth root)) in *.
  cbn [find_field node_properties].
  change record_properties with (take 7 record_properties
    ++ [NAME_ACCESS "root" FIELD_TYPE_PACKET I_packet; NAME_ACCESS "data" FIELD_TYPE_STRING I_data]).
  rewrite field_loop_skip by (by repeat constructor).
  change (list_find (fun i => p_name i = lit "data") (take 7 record_properties))
    with (@None (nat * struct_property)). cbn beta iota. cbn [field_loop].
  rewrite bool_decide_false, bool_decide_true by done.
  assert (node_item (N_record ph) (NAME_ACCESS "root" FIELD_TYPE_PACKET I_packet) = Some (Some (N_packet root))) as ->.
  { unfold node_item. rewrite bool_decide_true by (apply (bool_decide_unpack _); vm_compute; exact I).
    cbn [child]. by rewrite Hr. }
  cbn [mbind option_bind]. rewrite find_field_layers, Ef by done. cbn [mbind option_bind].
  by rewrite bool_decide_true.
Qed.

(** The data of a record header is printed with the length of the packet on the wire and not
    with what was captured of it: of a packet that was cut, memory behind the data. *)
Theorem Packet_print_overreads ph :
  zlen (ph_data ph) < i32 (num (ph_header ph) 3) ->
  Packet_print (N_record ph) (lit "PcapPacketHeader.data") = None.
Proof.
  intros Hlen. unfold Packet_print.
  change (split_element (lit "PcapPacketHeader.data")) with (lit "PcapPacketHeader", lit "data").
  cbn beta iota. unfold Find_Property. cbn [find_node node_name].
  change (strcasecmp (lit "PcapPacketHeader") (lit "PcapPacketHeader")) with true.
  change (zlen (lit "data") =? 0) with false.
  change (get_field_by_name (N_record ph) (lit "data")) with (Some (NAME_ACCESS "data" FIELD_TYPE_STRING I_data)).
  cbn [mbind option_bind]. unfold print_property. cbn [NAME_ACCESS p_type data_at mbind option_bind].
  pose proof (zlen_nonneg (ph_data ph)). unfold bytes_at.
  replace (i32 (num (ph_header ph) 3) <=? 0) with false by lia.
  replace (i32 (num (ph_header ph) 3) =? 0) with false by lia. cbn [mbind option_bind].
  by replace (i32 (num (ph_header ph) 3) <=? zlen (ph_data ph)) with false by lia.
Qed.

(** An element without a property is the packet itself, whose property is NULL and
    followed. *)
Theorem Packet_print_no_property n : Packet_print n (node_name n) = None.
Proof.
  assert (split_element (node_name n) = (node_name n, [])) as E by (by destruct n as [[]| |]).
  unfold Packet_print. rewrite E. cbn beta iota. unfold Find_Property. cbn [find_node].
  unfold strcasecmp. by rewrite bool_decide_true.
Qed.

(** ** Examples *)

(** The frame of [Packet.get_frame]: 192.168.1.1 to 10.0.0.1. *)
Lemma Root_Read_printed_witness :
  exists n root input', Root_Read (fun _ => 0) DLT_EN10MB 1 (stream_of (replicate 16 0 ++ get_frame) 16)
      = Some (n, root, input') /\
    Packet_print (N_packet root) (lit "ip.source_addr") = Some (lit "ip.source_addr = " ++ dotted 3232235777) /\
    Packet_print (N_packet root) (lit "ip.dest_addr") = Some (lit "ip.dest_addr = " ++ dotted 167772161).
Proof.
  apply (Root_Read_printed (fun _ => 0) DLT_EN10MB 1 get_packet get_ip get_frame
    (stream_of (replicate 16 0 ++ get_frame) 16)).
  - exact get_wire.
  - apply (wire_pppoe (replicate 6 1) (replicate 6 2) 17 0 5 47 get_ip); done.
  - vm_compute. congruence.
  - apply stream_of_ok; vm_compute; [split|]; congruence.
  - rewrite stream_of_ahead. reflexivity.
Defined.

Example dotted_example : dotted 3232235777 = lit "192.168.1.1".
Proof. vm_compute. done. Qed.

(** The members of all layers, of the types that are printed. *)
Example print_example :
  match Root_Read (fun _ => 0) DLT_EN10MB 1 (stream_of (replicate 16 0 ++ get_frame) 16) with
  | Some (_, root, _) =>
      map (fun e => Packet_print (N_packet root) e)
        [lit "eth.type"; lit "pppoe.version"; lit "ip.ttl"; lit "tcp.source"; lit "tcp.data"; lit "udp.data"]
      = [Some (lit "eth.type = 0x8864"); Some (lit "pppoe.version = 0x11"); Some (lit "ip.ttl = 64");
         Some (lit "tcp.source = 1025"); Some (lit "tcp.data = GET /"); Some []]
  | None => False
  end.
Proof. vm_compute. done. Qed.
